(** * Balance-forecast engine (src/lib/forecast.ts)

    A shallow embedding of the forecast engine and of the JavaScript
    built-ins it calls, followed by the properties of the engine.

    Conventions of the embedding.
    - A JavaScript [number] that holds money is a rational [Q].  The
      functions of the engine come twice: with exact sums, and, in the
      module [Binary64], with every sum and difference rounded to the
      nearest binary64 value as JavaScript does.  [passes_exact] relates
      the two: on whole numbers within the bound of [exactSums] no sum is
      rounded and the two passes give the same tables.  Where rounding
      decides a property (the reconciliation of the two passes, what the
      verifiers accept), it is stated of the engine in [Binary64].
    - A time value is [option Z]: milliseconds since the epoch, [None] for
      [NaN] (an invalid [Date]).
    - A thrown [Error] is the [Throw] case of [result]; the constructors of
      [JsError] are named after the messages of the source.
    - A plain object used as a dictionary is an insertion-ordered list of
      entries ([Rec]) that holds own properties only; writing an existing
      key replaces the value in place.  JavaScript treats some property
      names apart: it enumerates canonical array indices first, it finds
      the members of [Object.prototype] on an empty object, and an
      assignment to [__proto__] stores no property.  A property that
      depends on the order of the account slugs, or on a slug being absent
      from an empty object, assumes [plainKey] of the slugs.
    - Strings are byte strings, ordered byte by byte.
    - [new Date(string)] parses the Date Time String Format of ECMA-262,
      and the host time zone is UTC.  An engine may accept strings outside
      that format; nothing is concluded here from a timestamp that the
      format refuses.
    - The [while] loop of [computeWeeksInMonth] runs on fuel;
      [computeWeeksInMonth_fuel] shows that the fuel is never exhausted. *)

From Stdlib Require Import ZArith QArith Qabs Qround Lia List String Ascii Bool.
From Stdlib Require Import Sorted Permutation OrderedTypeEx SpecFloat.
Import ListNotations.
Local Open Scope string_scope.
Local Open Scope Z_scope.

(* ================================================================== *)
(** * Errors and the result monad *)

Inductive JsError : Type :=
| InvalidTimestamp (timestamp : string)
| InvalidMonthIdentifier (ym : string)
| RangeErrorInvalidTime
| MonthlyRollForwardViolation (account ym : string) (expected got : Q)
| WeeklyRollForwardViolation (account weekKey : string) (expected got : Q)
| WeeklyMonthlyMismatch (account ym : string) (weekly monthly : Q)
| FuelExhausted (* the bound of a loop of the model, never reached *).

Inductive result (A : Type) : Type :=
| Ok (a : A)
| Throw (e : JsError).

Arguments Ok {A} a.
Arguments Throw {A} e.

Definition bind {A B : Type} (m : result A) (k : A -> result B) : result B :=
  match m with
  | Ok a => k a
  | Throw e => Throw e
  end.

Notation "x <- m ;; k" := (bind m (fun x => k))
  (at level 61, m at next level, right associativity).
Notation "' p <- m ;; k" := (bind m (fun x => let p := x in k))
  (at level 61, p pattern, m at next level, right associativity).

Fixpoint foldM {S A : Type} (f : S -> A -> result S) (l : list A) (s : S)
  : result S :=
  match l with
  | [] => Ok s
  | a :: l' => s' <- f s a ;; foldM f l' s'
  end.

Fixpoint filterM {A : Type} (p : A -> result bool) (l : list A)
  : result (list A) :=
  match l with
  | [] => Ok []
  | a :: l' =>
      b <- p a ;;
      r <- filterM p l' ;;
      Ok (if b then a :: r else r)
  end.

Fixpoint mapM {A B : Type} (f : A -> result B) (l : list A)
  : result (list B) :=
  match l with
  | [] => Ok []
  | a :: l' => b <- f a ;; r <- mapM f l' ;; Ok (b :: r)
  end.

(* ================================================================== *)
(** * Stable sorting

    [Array.prototype.sort] is stable; an insertion sort that places an
    element before the first one it does not exceed yields the same
    array for a consistent comparator. *)

Section StableSort.
Variable A : Type.
Variable le : A -> A -> bool.

Fixpoint insertSorted (x : A) (l : list A) : list A :=
  match l with
  | [] => [x]
  | y :: l' => if le x y then x :: y :: l' else y :: insertSorted x l'
  end.

Fixpoint stableSort (l : list A) : list A :=
  match l with
  | [] => []
  | x :: l' => insertSorted x (stableSort l')
  end.
End StableSort.

Arguments insertSorted {A} le x l.
Arguments stableSort {A} le l.

(** [[...strings].sort()]: the default comparator orders strings by their
    code units, here the bytes of the string. *)
Definition sortStrings (l : list string) : list string :=
  stableSort String.leb l.

(* ================================================================== *)
(** * Dictionaries: plain objects with string keys *)

Definition Rec (V : Type) : Type := list (string * V).

Fixpoint get {V : Type} (k : string) (r : Rec V) : option V :=
  match r with
  | [] => None
  | (k', v) :: r' => if String.eqb k k' then Some v else get k r'
  end.

Fixpoint set {V : Type} (k : string) (v : V) (r : Rec V) : Rec V :=
  match r with
  | [] => [(k, v)]
  | (k', v') :: r' =>
      if String.eqb k k' then (k, v) :: r' else (k', v') :: set k v r'
  end.

Definition keys {V : Type} (r : Rec V) : list string := map fst r.

Definition hasOwnProperty {V : Type} (r : Rec V) (k : string) : bool :=
  match get k r with Some _ => true | None => false end.

Definition fromEntries {V : Type} (entries : list (string * V)) : Rec V :=
  fold_left (fun r kv => set (fst kv) (snd kv) r) entries [].

(** A [Set] of strings in insertion order. *)
Definition setAdd (x : string) (s : list string) : list string :=
  if existsb (String.eqb x) s then s else s ++ [x].

(* ================================================================== *)
(** * Numbers *)

(** The result of [Number(string)]. *)
Inductive JsNumber : Type :=
| NaN
| Infinity (negative : bool)
| Finite (q : Q).

(** [!x] for a number: [NaN] and zero are falsy. *)
Definition falsy (x : JsNumber) : bool :=
  match x with
  | NaN => true
  | Infinity _ => false
  | Finite q => Qeq_bool q 0
  end.

(** [!x] where [x] may be [undefined]. *)
Definition falsyOpt (x : option JsNumber) : bool :=
  match x with
  | None => true
  | Some n => falsy n
  end.

Definition numSub1 (x : JsNumber) : JsNumber :=
  match x with
  | Finite q => Finite (q - 1)%Q
  | other => other
  end.

(** [ToIntegerOrInfinity] on a finite value: truncation towards zero. *)
Definition truncQ (q : Q) : Z :=
  if Qle_bool 0 q then Qfloor q else - Qfloor (- q).

Definition digitVal (c : ascii) : option Z :=
  let n := Z.of_N (N_of_ascii c) in
  if (48 <=? n) && (n <=? 57) then Some (n - 48) else None.

Definition isWhite (c : ascii) : bool :=
  let n := Z.of_N (N_of_ascii c) in
  (n =? 32) || ((9 <=? n) && (n <=? 13)).

Fixpoint dropWhite (s : list ascii) : list ascii :=
  match s with
  | c :: r => if isWhite c then dropWhite r else s
  | [] => []
  end.

Definition trimWhite (s : list ascii) : list ascii :=
  rev (dropWhite (rev (dropWhite s))).

Fixpoint readDigits (s : list ascii) (acc : Z) (cnt : nat)
  : Z * nat * list ascii :=
  match s with
  | c :: r =>
      match digitVal c with
      | Some d => readDigits r (10 * acc + d) (S cnt)
      | None => (acc, cnt, s)
      end
  | [] => (acc, cnt, [])
  end.

Definition isNil {A : Type} (l : list A) : bool :=
  match l with [] => true | _ => false end.

Definition parseExponent (s : list ascii) : option Z :=
  match s with
  | [] => Some 0
  | c :: r =>
      if Ascii.eqb c "e" || Ascii.eqb c "E" then
        let '(sign, r') :=
          match r with
          | "+"%char :: r' => (1, r')
          | "-"%char :: r' => (-1, r')
          | _ => (1, r)
          end in
        let '(v, n, rest) := readDigits r' 0 0 in
        if negb (Nat.eqb n 0) && isNil rest then Some (sign * v) else None
      else None
  end.

Definition parseUnsignedDecimal (s : list ascii) : option Q :=
  let '(ip, n1, r1) := readDigits s 0 0 in
  let '(fp, n2, r2) :=
    match r1 with
    | "."%char :: r => readDigits r 0 0
    | _ => (0, 0%nat, r1)
    end in
  if Nat.eqb n1 0 && Nat.eqb n2 0 then None
  else
    match parseExponent r2 with
    | Some e =>
        let scale := 10 ^ Z.of_nat n2 in
        Some ((inject_Z (ip * scale + fp) / inject_Z scale)
              * Qpower (inject_Z 10) e)%Q
    | None => None
    end.

Definition radixDigit (radix : Z) (c : ascii) : option Z :=
  let n := Z.of_N (N_of_ascii c) in
  let v :=
    if (48 <=? n) && (n <=? 57) then n - 48
    else if (97 <=? n) && (n <=? 102) then n - 87
    else if (65 <=? n) && (n <=? 70) then n - 55
    else 99 in
  if v <? radix then Some v else None.

Fixpoint readRadix (radix : Z) (s : list ascii) (acc : Z) : option Z :=
  match s with
  | [] => Some acc
  | c :: r =>
      match radixDigit radix c with
      | Some d => readRadix radix r (radix * acc + d)
      | None => None
      end
  end.

(** [0x], [0o] and [0b] literals (no sign, at least one digit). *)
Definition parseNonDecimal (s : list ascii) : option Z :=
  match s with
  | "0"%char :: p :: d :: r =>
      if Ascii.eqb p "x" || Ascii.eqb p "X" then readRadix 16 (d :: r) 0
      else if Ascii.eqb p "o" || Ascii.eqb p "O" then readRadix 8 (d :: r) 0
      else if Ascii.eqb p "b" || Ascii.eqb p "B" then readRadix 2 (d :: r) 0
      else None
  | _ => None
  end.

Definition isInfinityWord (s : list ascii) : bool :=
  String.eqb (string_of_list_ascii s) "Infinity".

(** [Number(s)] for a string: the StringNumericLiteral grammar, with the
    ASCII white space characters trimmed.  The value is the exact rational
    the literal denotes. *)
Definition Number (s : string) : JsNumber :=
  let t := trimWhite (list_ascii_of_string s) in
  match t with
  | [] => Finite 0
  | c :: r =>
      match parseNonDecimal t with
      | Some z => Finite (inject_Z z)
      | None =>
          let '(negative, body) :=
            if Ascii.eqb c "-" then (true, r)
            else if Ascii.eqb c "+" then (false, r)
            else (false, t) in
          if isInfinityWord body then Infinity negative
          else
            match parseUnsignedDecimal body with
            | Some q => Finite (if negative then (- q)%Q else q)
            | None => NaN
            end
      end
  end.

(** [s.split(sep)] for a one-character separator. *)
Fixpoint split (sep : ascii) (s : string) : list string :=
  match s with
  | EmptyString => [EmptyString]
  | String c r =>
      if Ascii.eqb c sep then EmptyString :: split sep r
      else
        match split sep r with
        | h :: t => String c h :: t
        | [] => [String c EmptyString]
        end
  end.

(** [Math.abs(a - b) <= tolerance] *)
Definition almostEqualTol (a b tolerance : Q) : bool :=
  Qle_bool (Qabs (a - b)) tolerance.

(* ================================================================== *)
(** * Dates

    Time values and the calendar functions of ECMA-262 (section
    "Date Objects"), on exact integers. *)

Definition TimeValue : Type := option Z.

Definition msPerDay : Z := 86400000.
Definition msPerHour : Z := 3600000.
Definition msPerMinute : Z := 60000.
Definition msPerSecond : Z := 1000.
Definition maxTime : Z := 8640000000000000.

Definition Day (t : Z) : Z := t / msPerDay.
Definition TimeWithinDay (t : Z) : Z := t mod msPerDay.

Definition InLeapYear (y : Z) : bool :=
  if negb (y mod 4 =? 0) then false
  else if negb (y mod 100 =? 0) then true
  else if negb (y mod 400 =? 0) then false
  else true.

Definition DaysInYear (y : Z) : Z := if InLeapYear y then 366 else 365.

Definition DayFromYear (y : Z) : Z :=
  365 * (y - 1970) + (y - 1969) / 4 - (y - 1901) / 100 + (y - 1601) / 400.

(** The largest [y] with [DayFromYear y <= d]: the mean-year estimate is
    off by at most one. *)
Definition YearFromDay (d : Z) : Z :=
  let y0 := 1970 + (400 * d) / 146097 in
  if d <? DayFromYear y0 then y0 - 1
  else if DayFromYear (y0 + 1) <=? d then y0 + 1
  else y0.

Definition YearFromTime (t : Z) : Z := YearFromDay (Day t).

Definition DayWithinYear (t : Z) : Z := Day t - DayFromYear (YearFromTime t).

Definition leapDays (leap : bool) : Z := if leap then 1 else 0.

(** Day number within the year of the first day of month [m] (0-11). *)
Definition DayFromMonth (m : Z) (leap : bool) : Z :=
  let l := leapDays leap in
  if m =? 0 then 0
  else if m =? 1 then 31
  else if m =? 2 then 59 + l
  else if m =? 3 then 90 + l
  else if m =? 4 then 120 + l
  else if m =? 5 then 151 + l
  else if m =? 6 then 181 + l
  else if m =? 7 then 212 + l
  else if m =? 8 then 243 + l
  else if m =? 9 then 273 + l
  else if m =? 10 then 304 + l
  else 334 + l.

Definition MonthFromDayWithinYear (d : Z) (leap : bool) : Z :=
  let l := leapDays leap in
  if d <? 31 then 0
  else if d <? 59 + l then 1
  else if d <? 90 + l then 2
  else if d <? 120 + l then 3
  else if d <? 151 + l then 4
  else if d <? 181 + l then 5
  else if d <? 212 + l then 6
  else if d <? 243 + l then 7
  else if d <? 273 + l then 8
  else if d <? 304 + l then 9
  else if d <? 334 + l then 10
  else 11.

Definition MonthFromTime (t : Z) : Z :=
  MonthFromDayWithinYear (DayWithinYear t) (InLeapYear (YearFromTime t)).

Definition DateFromTime (t : Z) : Z :=
  DayWithinYear t
  - DayFromMonth (MonthFromTime t) (InLeapYear (YearFromTime t)) + 1.

Definition WeekDay (t : Z) : Z := (Day t + 4) mod 7.

Definition HourFromTime (t : Z) : Z := (t / msPerHour) mod 24.
Definition MinFromTime (t : Z) : Z := (t / msPerMinute) mod 60.
Definition SecFromTime (t : Z) : Z := (t / msPerSecond) mod 60.
Definition msFromTime (t : Z) : Z := t mod msPerSecond.

Definition MakeTime (hour min sec ms : Z) : Z :=
  hour * msPerHour + min * msPerMinute + sec * msPerSecond + ms.

Definition MakeDay (year month date : Z) : Z :=
  let ym := year + month / 12 in
  let mn := month mod 12 in
  DayFromYear ym + DayFromMonth mn (InLeapYear ym) + date - 1.

Definition MakeDate (day time : Z) : Z := day * msPerDay + time.

Definition TimeClip (t : Z) : TimeValue :=
  if Z.abs t <=? maxTime then Some t else None.

(** A [Date] object is its time value. *)
Definition Date : Type := TimeValue.

Definition getTime (d : Date) : TimeValue := d.

(** [new Date(value)] for a number. *)
Definition newDate (value : TimeValue) : Date :=
  match value with
  | Some t => TimeClip t
  | None => None
  end.

(** Comparisons and arithmetic of numbers that may be [NaN]. *)
Definition tv_ltb (a b : TimeValue) : bool :=
  match a, b with
  | Some x, Some y => x <? y
  | _, _ => false
  end.

Definition tv_leb (a b : TimeValue) : bool :=
  match a, b with
  | Some x, Some y => x <=? y
  | _, _ => false
  end.

Definition tv_geb (a b : TimeValue) : bool := tv_leb b a.
Definition tv_gtb (a b : TimeValue) : bool := tv_ltb b a.

Definition tv_eqb (a b : TimeValue) : bool :=
  match a, b with
  | Some x, Some y => x =? y
  | _, _ => false
  end.

Definition tv_add (a : TimeValue) (k : Z) : TimeValue :=
  match a with
  | Some x => Some (x + k)
  | None => None
  end.

(** [Math.min(a, b)] *)
Definition tv_min (a b : TimeValue) : TimeValue :=
  match a, b with
  | Some x, Some y => Some (Z.min x y)
  | _, _ => None
  end.

(** [Date.UTC(year, month, date)]: a year from 0 to 99 denotes 1900 + year. *)
Definition DateUTC (year month : JsNumber) (date : Z) : TimeValue :=
  match year, month with
  | Finite y, Finite m =>
      let yi := truncQ y in
      let yr := if (0 <=? yi) && (yi <=? 99) then 1900 + yi else yi in
      TimeClip (MakeDate (MakeDay yr (truncQ m) date) (MakeTime 0 0 0 0))
  | _, _ => None
  end.

Definition getUTCDay (d : Date) : option Z :=
  match d with
  | Some t => Some (WeekDay t)
  | None => None
  end.

Definition getUTCDate (d : Date) : option Z :=
  match d with
  | Some t => Some (DateFromTime t)
  | None => None
  end.

(** [d.setUTCDate(date)], returning the updated object. *)
Definition setUTCDate (d : Date) (date : option Z) : Date :=
  match d, date with
  | Some t, Some dt =>
      TimeClip (MakeDate (MakeDay (YearFromTime t) (MonthFromTime t) dt)
                         (TimeWithinDay t))
  | _, _ => None
  end.

(** ** The ISO format of [toISOString] *)

Definition digitChar (d : Z) : ascii := ascii_of_N (Z.to_N (48 + d)).

Fixpoint padDigits (width : nat) (n : Z) : string :=
  match width with
  | O => EmptyString
  | S w => String (digitChar ((n / 10 ^ Z.of_nat w) mod 10)) (padDigits w n)
  end.

Definition yearString (y : Z) : string :=
  if (0 <=? y) && (y <=? 9999) then padDigits 4 y
  else String (if 0 <=? y then "+"%char else "-"%char) (padDigits 6 (Z.abs y)).

Definition isoString (t : Z) : string :=
  yearString (YearFromTime t) ++
  String "-" (padDigits 2 (MonthFromTime t + 1) ++
  String "-" (padDigits 2 (DateFromTime t) ++
  String "T" (padDigits 2 (HourFromTime t) ++
  String ":" (padDigits 2 (MinFromTime t) ++
  String ":" (padDigits 2 (SecFromTime t) ++
  String "." (padDigits 3 (msFromTime t) ++ "Z")))))).

(** [d.toISOString()] throws a [RangeError] on an invalid date. *)
Definition toISOString (d : Date) : result string :=
  match d with
  | Some t => Ok (isoString t)
  | None => Throw RangeErrorInvalidTime
  end.

(** ** Parsing: [new Date(string)]

    The Date Time String Format of ECMA-262.  What [Date.parse] does with
    any other string is left to the implementation; such a string is
    invalid here.  A date-time without an offset is local time, and the
    host zone is taken to be UTC.  Like V8 the parser accepts any day from
    01 to 31 and lets [MakeDay] carry the overflow. *)

Fixpoint readN (n : nat) (s : string) (acc : Z) : option (Z * string) :=
  match n with
  | O => Some (acc, s)
  | S n' =>
      match s with
      | String c r =>
          match digitVal c with
          | Some d => readN n' r (10 * acc + d)
          | None => None
          end
      | EmptyString => None
      end
  end.

(** The zone suffix, in minutes east of UTC. *)
Definition parseZone (s : string) : option Z :=
  match s with
  | EmptyString => Some 0
  | String c r =>
      if Ascii.eqb c "Z" then
        match r with EmptyString => Some 0 | _ => None end
      else if Ascii.eqb c "+" || Ascii.eqb c "-" then
        match readN 2 r 0 with
        | Some (hh, String c' r') =>
            if Ascii.eqb c' ":" then
              match readN 2 r' 0 with
              | Some (mm, EmptyString) =>
                  if (hh <=? 23) && (mm <=? 59) then
                    Some ((if Ascii.eqb c "-" then -1 else 1) * (hh * 60 + mm))
                  else None
              | _ => None
              end
            else None
        | _ => None
        end
      else None
  end.

Definition assemble (y mo d h mi s ms zone : Z) : TimeValue :=
  let timeOk :=
    ((h <=? 23) && (mi <=? 59) && (s <=? 59))
    || ((h =? 24) && (mi =? 0) && (s =? 0) && (ms =? 0)) in
  if (1 <=? mo) && (mo <=? 12) && (1 <=? d) && (d <=? 31) && timeOk then
    TimeClip (MakeDate (MakeDay y (mo - 1) d) (MakeTime h mi s ms)
              - zone * msPerMinute)
  else None.

(** [HH:mm], [HH:mm:ss] or [HH:mm:ss.sss], then the zone. *)
Definition parseTime (y mo d : Z) (s : string) : TimeValue :=
  match readN 2 s 0 with
  | Some (h, String c1 r1) =>
      if Ascii.eqb c1 ":" then
        match readN 2 r1 0 with
        | Some (mi, String c2 r2) =>
            if Ascii.eqb c2 ":" then
              match readN 2 r2 0 with
              | Some (sec, String c3 r3) =>
                  if Ascii.eqb c3 "." then
                    match readN 3 r3 0 with
                    | Some (ms, r4) =>
                        match parseZone r4 with
                        | Some z => assemble y mo d h mi sec ms z
                        | None => None
                        end
                    | None => None
                    end
                  else
                    match parseZone (String c3 r3) with
                    | Some z => assemble y mo d h mi sec 0 z
                    | None => None
                    end
              | Some (sec, EmptyString) => assemble y mo d h mi sec 0 0
              | None => None
              end
            else
              match parseZone (String c2 r2) with
              | Some z => assemble y mo d h mi 0 0 z
              | None => None
              end
        | Some (mi, EmptyString) => assemble y mo d h mi 0 0 0
        | None => None
        end
      else None
  | _ => None
  end.

(** After the year: nothing, [-MM], [-MM-DD], each optionally followed by
    [T] and a time. *)
Definition parseAfterYear (y : Z) (s : string) : TimeValue :=
  match s with
  | EmptyString => assemble y 1 1 0 0 0 0 0
  | String c r =>
      if Ascii.eqb c "T" then parseTime y 1 1 r
      else if Ascii.eqb c "-" then
        match readN 2 r 0 with
        | Some (mo, EmptyString) => assemble y mo 1 0 0 0 0 0
        | Some (mo, String c1 r1) =>
            if Ascii.eqb c1 "T" then parseTime y mo 1 r1
            else if Ascii.eqb c1 "-" then
              match readN 2 r1 0 with
              | Some (d, EmptyString) => assemble y mo d 0 0 0 0 0
              | Some (d, String c2 r2) =>
                  if Ascii.eqb c2 "T" then parseTime y mo d r2 else None
              | None => None
              end
            else None
        | None => None
        end
      else None
  end.

Definition parseDate (s : string) : TimeValue :=
  match s with
  | EmptyString => None
  | String c r =>
      if Ascii.eqb c "+" then
        match readN 6 r 0 with
        | Some (y, rest) => parseAfterYear y rest
        | None => None
        end
      else if Ascii.eqb c "-" then
        match readN 6 r 0 with
        | Some (y, rest) => if y =? 0 then None else parseAfterYear (- y) rest
        | None => None
        end
      else
        match readN 4 s 0 with
        | Some (y, rest) => parseAfterYear y rest
        | None => None
        end
  end.

(** [new Date(timestamp)] for a string. *)
Definition newDateOfString (timestamp : string) : Date := parseDate timestamp.

(* ================================================================== *)
(** * The data model of forecast.ts *)

Definition AccountSlug : Type := string.

Module Occurrence.
Record t : Type := mk {
  accountSlug : AccountSlug;
  amount : Q;
  timestamp : string
}.
End Occurrence.
Abbreviation Occurrence := Occurrence.t.

Module AnchorCheckpoint.
Record t : Type := mk {
  id : string;
  accountSlug : AccountSlug;
  balance : Q;
  timestamp : string
}.
End AnchorCheckpoint.
Abbreviation AnchorCheckpoint := AnchorCheckpoint.t.

Inductive AnchorSource : Type := checkpoint | rollforward | initial.

Module AnchorMetadata.
Record t : Type := mk {
  balance : Q;
  timestamp : string;
  source : AnchorSource;
  checkpointId : option string;
  isInterim : bool
}.
End AnchorMetadata.
Abbreviation AnchorMetadata := AnchorMetadata.t.

Module EndingBalanceCell.
Record t : Type := mk {
  ym : string;
  accountSlug : AccountSlug;
  beginningBalance : Q;
  balance : Q;
  netAfterAnchor : Q;
  anchor : AnchorMetadata
}.
End EndingBalanceCell.
Abbreviation EndingBalanceCell := EndingBalanceCell.t.

Module WeeklyBalanceCell.
Record t : Type := mk {
  ym : string;
  accountSlug : AccountSlug;
  weekKey : string;
  beginningBalance : Q;
  balance : Q;
  netAfterAnchor : Q;
  anchor : AnchorMetadata
}.
End WeeklyBalanceCell.
Abbreviation WeeklyBalanceCell := WeeklyBalanceCell.t.

Module ForecastResult.
Record t : Type := mk {
  months : list string;
  accounts : list AccountSlug;
  endingBalances : Rec (Rec EndingBalanceCell);
  weeklyBalances : Rec (Rec (Rec WeeklyBalanceCell))
}.
End ForecastResult.
Abbreviation ForecastResult := ForecastResult.t.

Module BuildForecastParams.
Record t : Type := mk {
  months : list string;
  occurrences : list Occurrence;
  priorEndingBalances : Rec Q;
  checkpoints : list AnchorCheckpoint
}.
End BuildForecastParams.
Abbreviation BuildForecastParams := BuildForecastParams.t.

Module WeekWindow.
Record t : Type := mk {
  start : Date;
  end_ : Date;
  weekKey : string
}.
End WeekWindow.
Abbreviation WeekWindow := WeekWindow.t.

(* ================================================================== *)
(** * The functions of forecast.ts *)

Definition toUtcDate (timestamp : string) : result Date :=
  let date := newDateOfString timestamp in
  match getTime date with
  | None => Throw (InvalidTimestamp timestamp)
  | Some _ => Ok date
  end.

(** [const [year, month] = ym.split('-').map(Number)]: a missing element
    is [undefined]. *)
Definition yearAndMonth (ym : string)
  : option JsNumber * option JsNumber :=
  let parts := map Number (split "-" ym) in
  (nth_error parts 0, nth_error parts 1).

(** [ToNumber] of a value that may be [undefined]. *)
Definition toNumber (x : option JsNumber) : JsNumber :=
  match x with
  | Some n => n
  | None => NaN
  end.

Definition startOfMonth (ym : string) : result Date :=
  let '(year, month) := yearAndMonth ym in
  if falsyOpt year || falsyOpt month then Throw (InvalidMonthIdentifier ym)
  else Ok (newDate (DateUTC (toNumber year) (numSub1 (toNumber month)) 1)).

Definition monthEndExclusive (ym : string) : result Date :=
  let '(year, month) := yearAndMonth ym in
  if falsyOpt year || falsyOpt month then Throw (InvalidMonthIdentifier ym)
  else Ok (newDate (DateUTC (toNumber year) (toNumber month) 1)).

Definition toIsoDate (date : Date) : result string :=
  s <- toISOString date ;; Ok (substring 0 10 s).

Definition toIsoTimestamp (date : Date) : result string :=
  toISOString date.

Definition clonePriorBalances (source : Rec Q) : Rec Q :=
  fromEntries (map (fun kv => (fst kv, snd kv)) source).

Definition listAccounts (occurrences : list Occurrence)
    (checkpoints : list AnchorCheckpoint) (priorEndingBalances : Rec Q)
  : list AccountSlug :=
  let accounts : list string := [] in
  let accounts :=
    fold_left (fun acc item => setAdd (Occurrence.accountSlug item) acc)
              occurrences accounts in
  let accounts :=
    fold_left (fun acc item => setAdd (AnchorCheckpoint.accountSlug item) acc)
              checkpoints accounts in
  let accounts :=
    fold_left (fun acc key => setAdd key acc) (keys priorEndingBalances)
              accounts in
  sortStrings accounts.

(** The comparator is the difference of the two time values, so the sort
    is ascending by time and keeps the input order of equal times.  No
    comparison takes place on fewer than two items; on two or more every
    item is compared, and parsed, at least once. *)
Definition sortIsoStrings {T : Type} (timestampOf : T -> string)
    (items : list T) : result (list T) :=
  match items with
  | [] | [_] => Ok items
  | _ =>
      keyed <- mapM (fun item =>
                 d <- toUtcDate (timestampOf item) ;; Ok (getTime d, item))
               items ;;
      Ok (map snd (stableSort (fun a b => tv_leb (fst a) (fst b)) keyed))
  end.

Definition filterOccurrencesForWindow (occurrences : list Occurrence)
    (account : AccountSlug) (windowStart windowEnd : Date)
  : result (list Occurrence) :=
  let startMs := getTime windowStart in
  let endMs := getTime windowEnd in
  filterM (fun occ =>
    if negb (String.eqb (Occurrence.accountSlug occ) account) then Ok false
    else
      d <- toUtcDate (Occurrence.timestamp occ) ;;
      let ts := getTime d in
      Ok (tv_geb ts startMs && tv_ltb ts endMs)) occurrences.

Definition filterCheckpointsForWindow (checkpoints : list AnchorCheckpoint)
    (account : AccountSlug) (windowStart windowEnd : Date)
  : result (list AnchorCheckpoint) :=
  let startMs := getTime windowStart in
  let endMs := getTime windowEnd in
  filterM (fun cp =>
    if negb (String.eqb (AnchorCheckpoint.accountSlug cp) account) then Ok false
    else
      d <- toUtcDate (AnchorCheckpoint.timestamp cp) ;;
      let ts := getTime d in
      Ok (tv_geb ts startMs && tv_ltb ts endMs)) checkpoints.

(** [items[items.length - 1]] *)
Fixpoint lastItem {A : Type} (l : list A) : option A :=
  match l with
  | [] => None
  | [x] => Some x
  | _ :: l' => lastItem l'
  end.

Definition sourceIsCheckpoint (s : AnchorSource) : bool :=
  match s with checkpoint => true | _ => false end.

(** Lines 187-207 (and 302-322): the anchor of one account in one window,
    from the running balances and the sorted checkpoints of the window. *)
Definition resolveAnchor (priorBalances : Rec Q) (account : AccountSlug)
    (windowStart : Date) (accountCheckpoints : list AnchorCheckpoint)
  : result AnchorMetadata :=
  let hadPriorBalance := hasOwnProperty priorBalances account in
  let priorBalance :=
    if hadPriorBalance then
      match get account priorBalances with Some b => b | None => 0%Q end
    else 0%Q in
  startIso <- toIsoTimestamp windowStart ;;
  let anchor :=
    AnchorMetadata.mk priorBalance startIso
      (if hadPriorBalance then rollforward else initial) None false in
  match lastItem accountCheckpoints with
  | Some latestCheckpoint =>
      checkpointTimestamp <- toUtcDate (AnchorCheckpoint.timestamp latestCheckpoint) ;;
      Ok (AnchorMetadata.mk
            (AnchorCheckpoint.balance latestCheckpoint)
            (AnchorCheckpoint.timestamp latestCheckpoint)
            checkpoint
            (Some (AnchorCheckpoint.id latestCheckpoint))
            (tv_gtb (getTime checkpointTimestamp) (getTime windowStart)))
  | None => Ok anchor
  end.

(** Lines 209-217 (and 324-332): the net activity after the anchor. *)
Definition sumAfterAnchor (anchor : AnchorMetadata)
    (accountOccurrences : list Occurrence) : result Q :=
  anchorDate <- toUtcDate (AnchorMetadata.timestamp anchor) ;;
  let anchorTime := getTime anchorDate in
  kept <- filterM (fun occ =>
            d <- toUtcDate (Occurrence.timestamp occ) ;;
            let occTime := getTime d in
            if tv_ltb occTime anchorTime then Ok false
            else if sourceIsCheckpoint (AnchorMetadata.source anchor)
                    && tv_eqb occTime anchorTime then Ok false
            else Ok true) accountOccurrences ;;
  Ok (fold_left (fun sum occ => (sum + Occurrence.amount occ)%Q) kept 0%Q).

(** The block that [computeEndingBalances] (lines 182-219) and
    [computeWeeklyBalances] (lines 292-334) both run for one account and
    one window: the anchor and the net activity after it. *)
Definition windowCell (occurrences : list Occurrence)
    (checkpoints : list AnchorCheckpoint) (priorBalances : Rec Q)
    (account : AccountSlug) (windowStart windowEnd : Date)
  : result (AnchorMetadata * Q) :=
  accountOccurrences <-
    filterOccurrencesForWindow occurrences account windowStart windowEnd ;;
  accountCheckpoints <-
    (l <- filterCheckpointsForWindow checkpoints account windowStart windowEnd ;;
     sortIsoStrings AnchorCheckpoint.timestamp l) ;;
  anchor <- resolveAnchor priorBalances account windowStart accountCheckpoints ;;
  netAfterAnchor <- sumAfterAnchor anchor accountOccurrences ;;
  Ok (anchor, netAfterAnchor).

(** The body of the loop over the accounts of one month. *)
Definition monthAccountStep (ym : string) (occurrences : list Occurrence)
    (checkpoints : list AnchorCheckpoint) (monthStart monthEnd : Date)
    (st : Rec Q * Rec EndingBalanceCell) (account : AccountSlug)
  : result (Rec Q * Rec EndingBalanceCell) :=
  let '(priorBalances, monthCells) := st in
  '(anchor, netAfterAnchor) <-
    windowCell occurrences checkpoints priorBalances account monthStart monthEnd ;;
  let endingBalance := (AnchorMetadata.balance anchor + netAfterAnchor)%Q in
  let priorBalances := set account endingBalance priorBalances in
  let monthCells :=
    set account
      (EndingBalanceCell.mk ym account (AnchorMetadata.balance anchor)
         endingBalance netAfterAnchor anchor)
      monthCells in
  Ok (priorBalances, monthCells).

(** The body of the loop over the months. *)
Definition monthStep (occurrences : list Occurrence)
    (checkpoints : list AnchorCheckpoint) (accounts : list AccountSlug)
    (st : Rec Q * Rec (Rec EndingBalanceCell)) (ym : string)
  : result (Rec Q * Rec (Rec EndingBalanceCell)) :=
  let '(priorBalances, monthlyResult) := st in
  monthStart <- startOfMonth ym ;;
  monthEnd <- monthEndExclusive ym ;;
  '(priorBalances, monthCells) <-
    foldM (monthAccountStep ym occurrences checkpoints monthStart monthEnd)
          accounts (priorBalances, []) ;;
  Ok (priorBalances, set ym monthCells monthlyResult).

Definition computeEndingBalances (months : list string)
    (occurrences : list Occurrence) (priorEndingBalances : Rec Q)
    (checkpoints : list AnchorCheckpoint)
  : result (Rec (Rec EndingBalanceCell)) :=
  let orderedMonths := sortStrings months in
  let accounts := listAccounts occurrences checkpoints priorEndingBalances in
  let priorBalances := clonePriorBalances priorEndingBalances in
  '(_, monthlyResult) <-
    foldM (monthStep occurrences checkpoints accounts) orderedMonths
          (priorBalances, []) ;;
  Ok monthlyResult.

Definition dayMs : Z := 24 * 60 * 60 * 1000.

(** [a + b] on numbers that may be [NaN]. *)
Definition numAdd (a b : option Z) : option Z :=
  match a, b with
  | Some x, Some y => Some (x + y)
  | _, _ => None
  end.

(** The [while] loop of [computeWeeksInMonth]; [fuel] bounds the number of
    tests of the loop condition. *)
Fixpoint weeksLoop (fuel : nat) (cursor monthEnd : Date)
    (windows : list WeekWindow) : result (list WeekWindow) :=
  match fuel with
  | O => Throw FuelExhausted
  | S fuel' =>
      if tv_ltb (getTime cursor) (getTime monthEnd) then
        let weekStart := newDate (getTime cursor) in
        let dayOfWeek := getUTCDay weekStart in
        let weekEnd := newDate (getTime weekStart) in
        let weekEnd :=
          setUTCDate weekEnd
            (numAdd (getUTCDate weekEnd)
               (match dayOfWeek with
                | Some d => Some (if d =? 0 then 0 else 7 - d)
                | None => None
                end)) in
        let weekEnd :=
          if tv_leb (getTime weekEnd) (getTime weekStart)
          then setUTCDate weekEnd (numAdd (getUTCDate weekEnd) (Some 7))
          else weekEnd in
        let exclusiveEnd :=
          newDate (tv_min (tv_add (getTime weekEnd) dayMs) (getTime monthEnd)) in
        let weekKeyDate := newDate (tv_add (getTime exclusiveEnd) (- dayMs)) in
        weekKey <- toIsoDate weekKeyDate ;;
        weeksLoop fuel' exclusiveEnd monthEnd
          (windows ++ [WeekWindow.mk weekStart exclusiveEnd weekKey])
      else Ok windows
  end.

(** One test of the loop condition per iteration and a final one; every
    iteration moves the cursor by a day or more. *)
Definition weeksFuel (monthStart monthEnd : Date) : nat :=
  match getTime monthStart, getTime monthEnd with
  | Some s, Some e => S (S (Z.to_nat ((e - s) / msPerDay)))
  | _, _ => 1%nat
  end.

Definition computeWeeksInMonth (ym : string) : result (list WeekWindow) :=
  monthStart <- startOfMonth ym ;;
  monthEnd <- monthEndExclusive ym ;;
  let cursor := newDate (getTime monthStart) in
  weeksLoop (weeksFuel monthStart monthEnd) cursor monthEnd [].

Definition weekAccountStep (ym : string) (occurrences : list Occurrence)
    (checkpoints : list AnchorCheckpoint) (week : WeekWindow)
    (st : Rec Q * Rec WeeklyBalanceCell) (account : AccountSlug)
  : result (Rec Q * Rec WeeklyBalanceCell) :=
  let '(priorBalances, weekCells) := st in
  '(anchor, netAfterAnchor) <-
    windowCell occurrences checkpoints priorBalances account
      (WeekWindow.start week) (WeekWindow.end_ week) ;;
  let endingBalance := (AnchorMetadata.balance anchor + netAfterAnchor)%Q in
  let priorBalances := set account endingBalance priorBalances in
  let weekCells :=
    set account
      (WeeklyBalanceCell.mk ym account (WeekWindow.weekKey week)
         (AnchorMetadata.balance anchor) endingBalance netAfterAnchor anchor)
      weekCells in
  Ok (priorBalances, weekCells).

Definition weekStep (ym : string) (occurrences : list Occurrence)
    (checkpoints : list AnchorCheckpoint) (accounts : list AccountSlug)
    (st : Rec Q * Rec (Rec WeeklyBalanceCell)) (week : WeekWindow)
  : result (Rec Q * Rec (Rec WeeklyBalanceCell)) :=
  let '(priorBalances, monthWeeks) := st in
  '(priorBalances, weekCells) <-
    foldM (weekAccountStep ym occurrences checkpoints week) accounts
          (priorBalances, []) ;;
  Ok (priorBalances, set (WeekWindow.weekKey week) weekCells monthWeeks).

Definition weeklyMonthStep (occurrences : list Occurrence)
    (checkpoints : list AnchorCheckpoint) (accounts : list AccountSlug)
    (st : Rec Q * Rec (Rec (Rec WeeklyBalanceCell))) (ym : string)
  : result (Rec Q * Rec (Rec (Rec WeeklyBalanceCell))) :=
  let '(priorBalances, weeklyResult) := st in
  weeks <- computeWeeksInMonth ym ;;
  '(priorBalances, monthWeeks) <-
    foldM (weekStep ym occurrences checkpoints accounts) weeks
          (priorBalances, []) ;;
  Ok (priorBalances, set ym monthWeeks weeklyResult).

Definition computeWeeklyBalances (months : list string)
    (occurrences : list Occurrence) (priorEndingBalances : Rec Q)
    (checkpoints : list AnchorCheckpoint)
  : result (Rec (Rec (Rec WeeklyBalanceCell))) :=
  let orderedMonths := sortStrings months in
  let accounts := listAccounts occurrences checkpoints priorEndingBalances in
  let priorBalances := clonePriorBalances priorEndingBalances in
  '(_, weeklyResult) <-
    foldM (weeklyMonthStep occurrences checkpoints accounts) orderedMonths
          (priorBalances, []) ;;
  Ok weeklyResult.

Definition almostEqual (a b : Q) : bool := almostEqualTol a b (1 # 100).

Definition getOrEmpty {V : Type} (k : string) (r : Rec (Rec V)) : Rec V :=
  match get k r with
  | Some v => v
  | None => []
  end.

Definition assertBalanceRollForward
    (endingBalances : Rec (Rec EndingBalanceCell)) : result unit :=
  let orderedMonths := sortStrings (keys endingBalances) in
  _ <- foldM (fun (lastEnding : Rec Q) ym =>
         let monthCells := getOrEmpty ym endingBalances in
         foldM (fun (lastEnding : Rec Q) entry =>
           let '(account, cell) := entry in
           match get account lastEnding with
           | Some expectedBeginning =>
               if negb (almostEqual (EndingBalanceCell.beginningBalance cell)
                                    expectedBeginning)
               then Throw (MonthlyRollForwardViolation account ym
                             expectedBeginning
                             (EndingBalanceCell.beginningBalance cell))
               else Ok (set account (EndingBalanceCell.balance cell) lastEnding)
           | None => Ok (set account (EndingBalanceCell.balance cell) lastEnding)
           end) monthCells lastEnding)
       orderedMonths [] ;;
  Ok tt.

Definition isEmptyString (s : string) : bool :=
  match s with EmptyString => true | _ => false end.

Definition assertWeeklyBalanceRollForward
    (weeklyBalances : Rec (Rec (Rec WeeklyBalanceCell)))
    (endingBalances : Rec (Rec EndingBalanceCell)) : result unit :=
  let orderedMonths := sortStrings (keys weeklyBalances) in
  _ <- foldM (fun (lastEnding : Rec Q) ym =>
         let weekMap := getOrEmpty ym weeklyBalances in
         let weekKeys := sortStrings (keys weekMap) in
         lastEnding <-
           foldM (fun (lastEnding : Rec Q) weekKey =>
             let weekCells := getOrEmpty weekKey weekMap in
             foldM (fun (lastEnding : Rec Q) entry =>
               let '(account, cell) := entry in
               match get account lastEnding with
               | Some expectedBeginning =>
                   if negb (almostEqual (WeeklyBalanceCell.beginningBalance cell)
                                        expectedBeginning)
                   then Throw (WeeklyRollForwardViolation account weekKey
                                 expectedBeginning
                                 (WeeklyBalanceCell.beginningBalance cell))
                   else Ok (set account (WeeklyBalanceCell.balance cell) lastEnding)
               | None => Ok (set account (WeeklyBalanceCell.balance cell) lastEnding)
               end) weekCells lastEnding)
           weekKeys lastEnding ;;
         let monthEndingCells := getOrEmpty ym endingBalances in
         _ <- foldM (fun (_ : unit) entry =>
                let '(account, monthCell) := entry in
                let lastWeekKey := lastItem weekKeys in
                let lastWeekCell :=
                  match lastWeekKey with
                  | Some k =>
                      if isEmptyString k then None
                      else
                        match get k weekMap with
                        | Some cells => get account cells
                        | None => None
                        end
                  | None => None
                  end in
                match lastWeekCell with
                | Some cell =>
                    if negb (almostEqual (WeeklyBalanceCell.balance cell)
                                         (EndingBalanceCell.balance monthCell))
                    then Throw (WeeklyMonthlyMismatch account ym
                                  (WeeklyBalanceCell.balance cell)
                                  (EndingBalanceCell.balance monthCell))
                    else Ok tt
                | None => Ok tt
                end) monthEndingCells tt ;;
         Ok lastEnding)
       orderedMonths [] ;;
  Ok tt.

Definition buildForecast (params : BuildForecastParams) : result ForecastResult :=
  let months := BuildForecastParams.months params in
  let occurrences := BuildForecastParams.occurrences params in
  let priorEndingBalances := BuildForecastParams.priorEndingBalances params in
  let checkpoints := BuildForecastParams.checkpoints params in
  let orderedMonths := sortStrings months in
  let accounts := listAccounts occurrences checkpoints priorEndingBalances in
  endingBalances <-
    computeEndingBalances orderedMonths occurrences priorEndingBalances checkpoints ;;
  _ <- assertBalanceRollForward endingBalances ;;
  weeklyBalances <-
    computeWeeklyBalances orderedMonths occurrences priorEndingBalances checkpoints ;;
  _ <- assertWeeklyBalanceRollForward weeklyBalances endingBalances ;;
  Ok (ForecastResult.mk orderedMonths accounts endingBalances weeklyBalances).

(* ================================================================== *)
(** * The sample data of the dashboard page *)

Definition occ (a : string) (amt : Z) (ts : string) : Occurrence :=
  Occurrence.mk a (inject_Z amt) ts.

Definition operatingOccurrences : list Occurrence :=
  [ occ "operating" 450 "2025-01-03T10:00:00Z";
    occ "operating" (-180) "2025-01-07T18:30:00Z";
    occ "operating" (-220) "2025-01-20T15:45:00Z";
    occ "operating" 375 "2025-02-04T09:05:00Z";
    occ "operating" (-120) "2025-02-12T12:00:00Z";
    occ "operating" (-315) "2025-02-21T13:15:00Z" ].

Definition profitOccurrences : list Occurrence :=
  [ occ "profit" 75 "2025-01-10T11:00:00Z";
    occ "profit" (-50) "2025-01-25T08:00:00Z";
    occ "profit" 80 "2025-02-08T16:00:00Z" ].

Definition cpOperatingJan : AnchorCheckpoint :=
  AnchorCheckpoint.mk "cp-operating-jan" "operating" 1480 "2025-01-17T14:00:00Z".

Definition cpProfitFeb : AnchorCheckpoint :=
  AnchorCheckpoint.mk "cp-profit-feb" "profit" 430 "2025-02-18T13:30:00Z".

(** The scenario with the account [operating] alone. *)
Definition operatingParams : BuildForecastParams :=
  BuildForecastParams.mk ["2025-01"; "2025-02"] operatingOccurrences
    [("operating", 1250%Q)] [cpOperatingJan].

(** [sampleParams] of the dashboard page. *)
Definition sampleParams : BuildForecastParams :=
  BuildForecastParams.mk ["2025-01"; "2025-02"]
    (operatingOccurrences ++ profitOccurrences)
    [("operating", 1250%Q); ("profit", 300%Q)]
    [cpOperatingJan; cpProfitFeb].

(* ================================================================== *)
(** * Vocabulary of the properties

    Pure descriptions of what the engine computes, in the words of the
    specification.  They are compared with the functions above in the
    lemmas and theorems that follow. *)

(** The time value a timestamp string parses to, [NaN] when malformed. *)
Definition timeOfString (timestamp : string) : TimeValue :=
  getTime (newDateOfString timestamp).

(** The timestamp lies in the half-open window. *)
Definition inWindow (windowStart windowEnd : Date) (timestamp : string) : bool :=
  tv_geb (timeOfString timestamp) (getTime windowStart)
  && tv_ltb (timeOfString timestamp) (getTime windowEnd).

Definition occurrenceInWindow (account : AccountSlug)
    (windowStart windowEnd : Date) (o : Occurrence) : bool :=
  String.eqb (Occurrence.accountSlug o) account
  && inWindow windowStart windowEnd (Occurrence.timestamp o).

Definition checkpointInWindow (account : AccountSlug)
    (windowStart windowEnd : Date) (c : AnchorCheckpoint) : bool :=
  String.eqb (AnchorCheckpoint.accountSlug c) account
  && inWindow windowStart windowEnd (AnchorCheckpoint.timestamp c).

(** The sum of the signed amounts, 0 for no occurrence. *)
Definition sumAmounts (l : list Occurrence) : Q :=
  fold_left (fun sum o => (sum + Occurrence.amount o)%Q) l 0%Q.

Definition checkpointTime (c : AnchorCheckpoint) : TimeValue :=
  timeOfString (AnchorCheckpoint.timestamp c).

(** The last element of the stable ascending sort, without sorting: the
    greatest element, and among equals the one supplied last. *)
Fixpoint latestBy {A : Type} (le : A -> A -> bool) (l : list A) : option A :=
  match l with
  | [] => None
  | x :: l' =>
      match latestBy le l' with
      | None => Some x
      | Some b => if le x b then Some b else Some x
      end
  end.

Definition checkpointLe (a b : AnchorCheckpoint) : bool :=
  tv_leb (checkpointTime a) (checkpointTime b).

Definition latestCheckpoint (l : list AnchorCheckpoint) : option AnchorCheckpoint :=
  latestBy checkpointLe l.

Definition validCheckpoint (c : AnchorCheckpoint) : Prop :=
  exists t, checkpointTime c = Some t.

(** The running balance of an account, 0 when the account has none. *)
Definition balanceOrZero (priorBalances : Rec Q) (account : AccountSlug) : Q :=
  match get account priorBalances with
  | Some b => b
  | None => 0%Q
  end.

(** An occurrence counts after the anchor when its time is at or after the
    anchor's, except at the very instant of a checkpoint anchor. *)
Definition keptAfterAnchor (anchor : AnchorMetadata) (o : Occurrence) : bool :=
  let occTime := timeOfString (Occurrence.timestamp o) in
  let anchorTime := timeOfString (AnchorMetadata.timestamp anchor) in
  tv_geb occTime anchorTime
  && negb (sourceIsCheckpoint (AnchorMetadata.source anchor)
           && tv_eqb occTime anchorTime).

(** The time value of a [Date] object is [NaN] or within the range that
    [TimeClip] admits. *)
Definition wfDate (d : Date) : Prop :=
  forall t, getTime d = Some t -> Z.abs t <= maxTime.

(** The anchor of a window, by cases on the latest checkpoint in it. *)
Definition anchorFor (priorBalances : Rec Q) (account : AccountSlug)
    (windowStart : Z) (latest : option AnchorCheckpoint) : AnchorMetadata :=
  match latest with
  | None =>
      AnchorMetadata.mk (balanceOrZero priorBalances account)
        (isoString windowStart)
        (if hasOwnProperty priorBalances account then rollforward else initial)
        None false
  | Some c =>
      AnchorMetadata.mk (AnchorCheckpoint.balance c)
        (AnchorCheckpoint.timestamp c) checkpoint
        (Some (AnchorCheckpoint.id c))
        (tv_gtb (checkpointTime c) (Some windowStart))
  end.

(** The ending balance of one account over one window, from the balance
    the account enters the window with. *)
Definition endingBalanceOf (occs : list Occurrence) (cps : list AnchorCheckpoint)
    (a : AccountSlug) (ws we : Date) (p : Q) : Q :=
  match latestCheckpoint (filter (checkpointInWindow a ws we) cps) with
  | None => (p + sumAmounts (filter (occurrenceInWindow a ws we) occs))%Q
  | Some c =>
      (AnchorCheckpoint.balance c
       + sumAmounts
           (filter (fun o => occurrenceInWindow a ws we o
                             && tv_ltb (checkpointTime c)
                                       (timeOfString (Occurrence.timestamp o)))
                   occs))%Q
  end.

(** The cell a month, and a week, record for an account. *)
Definition monthCellOf (ym : string) (a : AccountSlug)
    (anchor : AnchorMetadata) (net : Q) : EndingBalanceCell :=
  EndingBalanceCell.mk ym a (AnchorMetadata.balance anchor)
    (AnchorMetadata.balance anchor + net)%Q net anchor.

Definition weekCellOf (ym : string) (week : WeekWindow) (a : AccountSlug)
    (anchor : AnchorMetadata) (net : Q) : WeeklyBalanceCell :=
  WeeklyBalanceCell.mk ym a (WeekWindow.weekKey week)
    (AnchorMetadata.balance anchor)
    (AnchorMetadata.balance anchor + net)%Q net anchor.

(** Every account has a running balance. *)
Definition allPresent (accounts : list AccountSlug) (P : Rec Q) : Prop :=
  forall a, In a accounts -> get a P <> None.

(** Two running-balance states hold equal balances for every account. *)
Definition agree (accounts : list AccountSlug) (P1 P2 : Rec Q) : Prop :=
  forall a, In a accounts -> (balanceOrZero P1 a == balanceOrZero P2 a)%Q.

(** A chain of windows from [s] to [e]: each starts where the previous one
    ends, none is empty. *)
Inductive chain : Z -> Z -> list WeekWindow -> Prop :=
| chain_nil s : chain s s []
| chain_cons s x e w ws :
    WeekWindow.start w = Some s -> WeekWindow.end_ w = Some x ->
    Z.abs s <= maxTime -> s < x -> chain x e ws -> chain s e (w :: ws).

Definition dayAligned (t : Z) : Prop := t mod msPerDay = 0.

(** The weekly cells stored under the key of the last week of a month
    carry the ending balances of the monthly cells. *)
Definition reconciled (Rm : Rec (Rec EndingBalanceCell))
    (Rw : Rec (Rec (Rec WeeklyBalanceCell))) : Prop :=
  forall ym' cells wmap W w wcells a wc mc,
    get ym' Rm = Some cells -> get ym' Rw = Some wmap ->
    computeWeeksInMonth ym' = Ok W -> lastItem W = Some w ->
    get (WeekWindow.weekKey w) wmap = Some wcells ->
    get a wcells = Some wc -> get a cells = Some mc ->
    (WeeklyBalanceCell.balance wc == EndingBalanceCell.balance mc)%Q.

(** The monthly cells the specification expects for [operating]. *)
Definition janOperating : EndingBalanceCell :=
  EndingBalanceCell.mk "2025-01" "operating" 1480 1260 (-220)
    (AnchorMetadata.mk 1480 "2025-01-17T14:00:00Z" checkpoint
       (Some "cp-operating-jan") true).

Definition febOperating : EndingBalanceCell :=
  EndingBalanceCell.mk "2025-02" "operating" 1260 1200 (-60)
    (AnchorMetadata.mk 1260 "2025-02-01T00:00:00.000Z" rollforward None false).

Definition sampleOccurrences : list Occurrence :=
  (operatingOccurrences ++ profitOccurrences)%list.

Definition sampleCheckpoints : list AnchorCheckpoint :=
  [cpOperatingJan; cpProfitFeb].

Definition samplePrior : Rec Q := [("operating", 1250%Q); ("profit", 300%Q)].

(** Prior balances that leave [profit] without a balance. *)
Definition partialPrior : Rec Q := [("operating", 1250%Q)].

(** Every timestamp of the input parses. *)
Definition wellFormedTimestamps (occs : list Occurrence)
    (cps : list AnchorCheckpoint) : Prop :=
  Forall (fun o => exists t, timeOfString (Occurrence.timestamp o) = Some t) occs /\
  Forall validCheckpoint cps.

(** The identifier parses and the month starts at a valid date. *)
Definition wellFormedMonth (ym : string) : Prop :=
  exists s we, startOfMonth ym = Ok (Some s) /\ monthEndExclusive ym = Ok we.

(** ** Vocabulary of the further properties *)

(** The time value of an item, through the timestamp it carries. *)
Definition timeOf {T : Type} (timestampOf : T -> string) (x : T) : TimeValue :=
  timeOfString (timestampOf x).

(** The scenario of [operatingParams] without its checkpoint. *)
Definition plainParams : BuildForecastParams :=
  BuildForecastParams.mk ["2025-02"; "2025-01"] operatingOccurrences
    [("operating", 1250%Q)] [].
(** An occurrence, a checkpoint, of the account whose timestamp does not
    parse. *)
Definition badOccurrence (a : AccountSlug) (o : Occurrence) : bool :=
  String.eqb (Occurrence.accountSlug o) a
  && match timeOfString (Occurrence.timestamp o) with Some _ => false | None => true end.

Definition badCheckpoint (a : AccountSlug) (c : AnchorCheckpoint) : bool :=
  String.eqb (AnchorCheckpoint.accountSlug c) a
  && match timeOfString (AnchorCheckpoint.timestamp c) with Some _ => false | None => true end.

(** The calendar date [YYYY-MM-DD] of a four-digit year. *)
Definition dateString (y m d : Z) : string :=
  padDigits 4 y ++ String "-" (padDigits 2 m ++ String "-" (padDigits 2 d)).

(** The identifier reads as month [m] (1 to 12) of the year [y]. *)
Definition denotesMonth (ym : string) (y m : Z) : Prop :=
  exists qy qm,
    yearAndMonth ym = (Some (Finite qy), Some (Finite qm)) /\
    (qy == inject_Z y)%Q /\ (qm == inject_Z m)%Q /\ 1 <= m <= 12.

(** The exclusive end of the week that starts at the day [c] of a month
    that ends at [e]: the Monday after the first Sunday that follows [c]
    (a Sunday does not end its own week), or the end of the month. *)
Definition weekEndFrom (c e : Z) : Z :=
  Z.min (c + (if WeekDay c =? 0 then 8 else 8 - WeekDay c) * msPerDay) e.

(** The weeks of the loop of [computeWeeksInMonth] from the cursor [c]. *)
Inductive weekChain (e : Z) : Z -> list WeekWindow -> Prop :=
| weekChain_nil : weekChain e e []
| weekChain_cons c key W :
    c < e ->
    toIsoDate (Some (weekEndFrom c e - dayMs)) = Ok key ->
    weekChain e (weekEndFrom c e) W ->
    weekChain e c (WeekWindow.mk (Some c) (Some (weekEndFrom c e)) key :: W).

Section Verifier.
Context {Cell : Type}.
Variable close : Q -> Q -> bool.
Variables beginning balance : Cell -> Q.

(** The body of the loop over the entries of a month (lines 369-377) and
    of a week (lines 394-402); [close] is the comparison within the
    tolerance, [almostEqual] of either engine, and [violation] builds the
    error of the loop. *)
Definition checkEntry (violation : AccountSlug -> Q -> Q -> JsError)
    (lastEnding : Rec Q) (entry : string * Cell) : result (Rec Q) :=
  let '(account, cell) := entry in
  match get account lastEnding with
  | Some expectedBeginning =>
      if negb (close (beginning cell) expectedBeginning)
      then Throw (violation account expectedBeginning (beginning cell))
      else Ok (set account (balance cell) lastEnding)
  | None => Ok (set account (balance cell) lastEnding)
  end.

(** Every cell of the table begins within the tolerance of the ending
    balance on record for its account, if there is one. *)
Definition beginsAt (last : string -> option Q) (cells : Rec Cell) : Prop :=
  forall a c v,
    get a cells = Some c -> last a = Some v ->
    close (beginning c) v = true.

(** The ending balances on record after the cells of a table. *)
Definition recordedAfter (last : string -> option Q) (cells : Rec Cell)
  : string -> option Q :=
  fun a => match get a cells with
           | Some c => Some (balance c)
           | None => last a
           end.

(** The tables, in order, each begin at what is on record before it. *)
Fixpoint continuousFrom (last : string -> option Q) (tables : list (Rec Cell))
  : Prop :=
  match tables with
  | [] => True
  | cells :: rest =>
      beginsAt last cells /\ continuousFrom (recordedAfter last cells) rest
  end.

(** Any two consecutive tables: the later cell of an account begins within
    the tolerance of the ending balance of the earlier one. *)
Definition consecutive (P : Cell -> Cell -> Prop) (tables : list (Rec Cell)) : Prop :=
  forall pre t1 t2 post a c1 c2,
    tables = (pre ++ t1 :: t2 :: post)%list ->
    get a t1 = Some c1 -> get a t2 = Some c2 -> P c1 c2.
End Verifier.

Definition isMonthlyViolation (close : Q -> Q -> bool) (e : JsError) : Prop :=
  exists account ym expected got,
    e = MonthlyRollForwardViolation account ym expected got /\
    close got expected = false.

(** The monthly verifier (lines 361-379) with the comparison [close]. *)
Definition monthlyChecks (close : Q -> Q -> bool)
    (endingBalances : Rec (Rec EndingBalanceCell)) : result unit :=
  _ <- foldM (fun L ym =>
         foldM (checkEntry close EndingBalanceCell.beginningBalance
                  EndingBalanceCell.balance
                  (fun account expected got =>
                     MonthlyRollForwardViolation account ym expected got))
               (getOrEmpty ym endingBalances) L)
       (sortStrings (keys endingBalances)) [] ;;
  Ok tt.

(** The monthly tables in the order of the months. *)
Definition monthTables (endingBalances : Rec (Rec EndingBalanceCell))
    (months : list string) : list (Rec EndingBalanceCell) :=
  map (fun ym => getOrEmpty ym endingBalances) months.

Section Tables.
Context {Cell : Type}.
Variables (beginning balance : Cell -> Q) (anchorOf : Cell -> AnchorMetadata).
Variables (occs : list Occurrence) (cps : list AnchorCheckpoint).
Variable accounts : list AccountSlug.

(** The table [cells] is what the loop over the accounts writes for one
    window from the running balances [P], which it leaves as [P']. *)
Definition windowTable (P : Rec Q) (ws we : Date) (cells : Rec Cell)
    (P' : Rec Q) : Prop :=
  keys cells = accounts /\
  (forall a, In a accounts ->
     exists anchor net c,
       windowCell occs cps P a ws we = Ok (anchor, net) /\
       get a cells = Some c /\
       anchorOf c = anchor /\
       beginning c = AnchorMetadata.balance anchor /\
       balance c = (AnchorMetadata.balance anchor + net)%Q /\
       get a P' = Some (balance c)) /\
  (forall b, ~ In b accounts -> get b P' = get b P).

(** The tables of a sequence of windows, each run from the balances the
    previous one leaves. *)
Inductive tableRun : Rec Q -> list (Date * Date * Rec Cell) -> Rec Q -> Prop :=
| tableRun_nil P : tableRun P [] P
| tableRun_cons P ws we cells P1 rest P' :
    windowTable P ws we cells P1 -> tableRun P1 rest P' ->
    tableRun P ((ws, we, cells) :: rest) P'.
End Tables.

(** The window of a month, invalid dates where the identifier is refused. *)
Definition monthWindow (ym : string) : Date * Date :=
  (match startOfMonth ym with Ok d => d | Throw _ => None end,
   match monthEndExclusive ym with Ok d => d | Throw _ => None end).

(** The identifier reads as a month of a year from 100 to 9999. *)
Definition calendarMonth (ym : string) : Prop :=
  exists y m, denotesMonth ym y m /\ 100 <= y <= 9999.

(** The body of the loop that compares the last week of a month with the
    monthly cells (lines 406-414). *)
Definition checkMonthEnd (close : Q -> Q -> bool) (ym : string)
    (weekMap : Rec (Rec WeeklyBalanceCell))
    (weekKeys : list string) (_ : unit) (entry : string * EndingBalanceCell)
  : result unit :=
  let '(account, monthCell) := entry in
  let lastWeekKey := lastItem weekKeys in
  let lastWeekCell :=
    match lastWeekKey with
    | Some k =>
        if isEmptyString k then None
        else
          match get k weekMap with
          | Some cells => get account cells
          | None => None
          end
    | None => None
    end in
  match lastWeekCell with
  | Some cell =>
      if negb (close (WeeklyBalanceCell.balance cell)
                     (EndingBalanceCell.balance monthCell))
      then Throw (WeeklyMonthlyMismatch account ym
                    (WeeklyBalanceCell.balance cell)
                    (EndingBalanceCell.balance monthCell))
      else Ok tt
  | None => Ok tt
  end.

(** The weekly verifier (lines 381-416) with the comparison [close]. *)
Definition weeklyChecks (close : Q -> Q -> bool)
    (weeklyBalances : Rec (Rec (Rec WeeklyBalanceCell)))
    (endingBalances : Rec (Rec EndingBalanceCell)) : result unit :=
  _ <- foldM (fun L ym =>
         L' <- foldM (fun L weekKey =>
                  foldM (checkEntry close WeeklyBalanceCell.beginningBalance
                           WeeklyBalanceCell.balance
                           (fun account expected got =>
                              WeeklyRollForwardViolation account weekKey
                                expected got))
                        (getOrEmpty weekKey (getOrEmpty ym weeklyBalances)) L)
                (sortStrings (keys (getOrEmpty ym weeklyBalances))) L ;;
         _ <- foldM (checkMonthEnd close ym (getOrEmpty ym weeklyBalances)
                       (sortStrings (keys (getOrEmpty ym weeklyBalances))))
                    (getOrEmpty ym endingBalances) tt ;;
         Ok L')
       (sortStrings (keys weeklyBalances)) [] ;;
  Ok tt.

(** The weekly tables in the order in which the weekly verifier visits
    them: month by month, the week keys of a month in ascending order. *)
Definition weekTables (weeklyBalances : Rec (Rec (Rec WeeklyBalanceCell)))
    (months : list string) : list (Rec WeeklyBalanceCell) :=
  flat_map (fun ym =>
              map (fun k => getOrEmpty k (getOrEmpty ym weeklyBalances))
                  (sortStrings (keys (getOrEmpty ym weeklyBalances))))
           months.

Definition isWeeklyViolation (close : Q -> Q -> bool) (e : JsError) : Prop :=
  exists account weekKey expected got,
    e = WeeklyRollForwardViolation account weekKey expected got /\
    close got expected = false.

(** A monthly table as the monthly pass writes it for [ym]: one cell for
    each account, filed under the account, that carries the month and the
    account and ends at its beginning balance plus its net activity. *)
Definition monthTableOf (accounts : list AccountSlug) (ym : string)
    (cells : Rec EndingBalanceCell) : Prop :=
  keys cells = accounts /\
  forall a c,
    get a cells = Some c ->
    EndingBalanceCell.ym c = ym /\
    EndingBalanceCell.accountSlug c = a /\
    EndingBalanceCell.beginningBalance c
    = AnchorMetadata.balance (EndingBalanceCell.anchor c) /\
    EndingBalanceCell.balance c
    = (EndingBalanceCell.beginningBalance c + EndingBalanceCell.netAfterAnchor c)%Q.

(** The occurrences, and the checkpoints, of one account. *)
Definition occurrencesOf (a : AccountSlug) (occs : list Occurrence) : list Occurrence :=
  filter (fun o => String.eqb (Occurrence.accountSlug o) a) occs.

Definition checkpointsOf (a : AccountSlug) (cps : list AnchorCheckpoint)
  : list AnchorCheckpoint :=
  filter (fun c => String.eqb (AnchorCheckpoint.accountSlug c) a) cps.

(* ================================================================== *)
(** * Plain keys

    The property names that a JavaScript object treats like any other: not
    a name made of digits (a canonical array index is enumerated before
    the other names, whatever the order of insertion), and not the name of
    a member of [Object.prototype] (an empty object answers to these, and
    an assignment to [__proto__] stores no property). *)

Definition objectPrototypeNames : list string :=
  [ "constructor"; "hasOwnProperty"; "isPrototypeOf"; "propertyIsEnumerable";
    "toLocaleString"; "toString"; "valueOf"; "__proto__";
    "__defineGetter__"; "__defineSetter__";
    "__lookupGetter__"; "__lookupSetter__" ].

Fixpoint digitsOnly (s : string) : bool :=
  match s with
  | EmptyString => true
  | String c rest =>
      match digitVal c with
      | Some _ => digitsOnly rest
      | None => false
      end
  end.

Definition plainKey (s : string) : bool :=
  negb (digitsOnly s) && negb (existsb (String.eqb s) objectPrototypeNames).

(** Every account has a plain slug. *)
Definition plainAccounts (accounts : list AccountSlug) : bool :=
  forallb plainKey accounts.

(* ================================================================== *)
(** * The engine in binary64 arithmetic

    A JavaScript [number] is a binary64 value, and [a + b] and [a - b] are
    the exact results rounded to the nearest binary64 value, ties to the
    even significand.  [round64] is that rounding on rationals; a finite
    binary64 value is a rational that [round64] leaves as it is.  A result
    beyond the largest finite value, which JavaScript turns into
    [Infinity], is not modelled: the properties stated for this engine
    bound the magnitudes they are about. *)

(** The integer nearest to [n / d], for [d > 0]; of two that are equally
    near, the even one. *)
Definition roundHalfEven (n d : Z) : Z :=
  let q := n / d in
  match 2 * (n mod d) ?= d with
  | Lt => q
  | Gt => q + 1
  | Eq => if Z.even q then q else q + 1
  end.

(** The integer part of the binary logarithm of [n / d], for [n, d > 0]. *)
Definition floorLog2 (n d : Z) : Z :=
  let k := Z.log2 n - Z.log2 d in
  if 0 <=? k
  then (if d * 2 ^ k <=? n then k else k - 1)
  else (if d <=? n * 2 ^ (- k) then k else k - 1).

(** A significand of 53 bits, and an exponent of the last place that is at
    least -1074 (below it the values are subnormal). *)
Definition round64 (x : Q) : Q :=
  let n := Z.abs (Qnum x) in
  let d := Zpos (Qden x) in
  if n =? 0 then 0%Q
  else
    let e := Z.max (floorLog2 n d - 52) (-1074) in
    let r :=
      if 0 <=? e then inject_Z (roundHalfEven n (d * 2 ^ e) * 2 ^ e)
      else
        let m := roundHalfEven (n * 2 ^ (- e)) d in
        if m mod 2 ^ (- e) =? 0 then inject_Z (m / 2 ^ (- e))
        else Qmake m (Z.to_pos (2 ^ (- e))) in
    if Qnum x <? 0 then Qopp r else r.




Module Binary64.

(** Lines 209-217 (and 324-332): [reduce((sum, occ) => sum + occ.amount, 0)]
    rounds every partial sum. *)
Definition sumAfterAnchor (anchor : AnchorMetadata)
    (accountOccurrences : list Occurrence) : result Q :=
  anchorDate <- toUtcDate (AnchorMetadata.timestamp anchor) ;;
  let anchorTime := getTime anchorDate in
  kept <- filterM (fun occ =>
            d <- toUtcDate (Occurrence.timestamp occ) ;;
            let occTime := getTime d in
            if tv_ltb occTime anchorTime then Ok false
            else if sourceIsCheckpoint (AnchorMetadata.source anchor)
                    && tv_eqb occTime anchorTime then Ok false
            else Ok true) accountOccurrences ;;
  Ok (fold_left (fun sum occ => round64 (sum + Occurrence.amount occ)%Q) kept 0%Q).

Definition windowCell (occurrences : list Occurrence)
    (checkpoints : list AnchorCheckpoint) (priorBalances : Rec Q)
    (account : AccountSlug) (windowStart windowEnd : Date)
  : result (AnchorMetadata * Q) :=
  accountOccurrences <-
    filterOccurrencesForWindow occurrences account windowStart windowEnd ;;
  accountCheckpoints <-
    (l <- filterCheckpointsForWindow checkpoints account windowStart windowEnd ;;
     sortIsoStrings AnchorCheckpoint.timestamp l) ;;
  anchor <- resolveAnchor priorBalances account windowStart accountCheckpoints ;;
  netAfterAnchor <- sumAfterAnchor anchor accountOccurrences ;;
  Ok (anchor, netAfterAnchor).

Definition monthAccountStep (ym : string) (occurrences : list Occurrence)
    (checkpoints : list AnchorCheckpoint) (monthStart monthEnd : Date)
    (st : Rec Q * Rec EndingBalanceCell) (account : AccountSlug)
  : result (Rec Q * Rec EndingBalanceCell) :=
  let '(priorBalances, monthCells) := st in
  '(anchor, netAfterAnchor) <-
    windowCell occurrences checkpoints priorBalances account monthStart monthEnd ;;
  let endingBalance := round64 (AnchorMetadata.balance anchor + netAfterAnchor)%Q in
  let priorBalances := set account endingBalance priorBalances in
  let monthCells :=
    set account
      (EndingBalanceCell.mk ym account (AnchorMetadata.balance anchor)
         endingBalance netAfterAnchor anchor)
      monthCells in
  Ok (priorBalances, monthCells).

Definition monthStep (occurrences : list Occurrence)
    (checkpoints : list AnchorCheckpoint) (accounts : list AccountSlug)
    (st : Rec Q * Rec (Rec EndingBalanceCell)) (ym : string)
  : result (Rec Q * Rec (Rec EndingBalanceCell)) :=
  let '(priorBalances, monthlyResult) := st in
  monthStart <- startOfMonth ym ;;
  monthEnd <- monthEndExclusive ym ;;
  '(priorBalances, monthCells) <-
    foldM (monthAccountStep ym occurrences checkpoints monthStart monthEnd)
          accounts (priorBalances, []) ;;
  Ok (priorBalances, set ym monthCells monthlyResult).

Definition computeEndingBalances (months : list string)
    (occurrences : list Occurrence) (priorEndingBalances : Rec Q)
    (checkpoints : list AnchorCheckpoint)
  : result (Rec (Rec EndingBalanceCell)) :=
  let orderedMonths := sortStrings months in
  let accounts := listAccounts occurrences checkpoints priorEndingBalances in
  let priorBalances := clonePriorBalances priorEndingBalances in
  '(_, monthlyResult) <-
    foldM (monthStep occurrences checkpoints accounts) orderedMonths
          (priorBalances, []) ;;
  Ok monthlyResult.

Definition weekAccountStep (ym : string) (occurrences : list Occurrence)
    (checkpoints : list AnchorCheckpoint) (week : WeekWindow)
    (st : Rec Q * Rec WeeklyBalanceCell) (account : AccountSlug)
  : result (Rec Q * Rec WeeklyBalanceCell) :=
  let '(priorBalances, weekCells) := st in
  '(anchor, netAfterAnchor) <-
    windowCell occurrences checkpoints priorBalances account
      (WeekWindow.start week) (WeekWindow.end_ week) ;;
  let endingBalance := round64 (AnchorMetadata.balance anchor + netAfterAnchor)%Q in
  let priorBalances := set account endingBalance priorBalances in
  let weekCells :=
    set account
      (WeeklyBalanceCell.mk ym account (WeekWindow.weekKey week)
         (AnchorMetadata.balance anchor) endingBalance netAfterAnchor anchor)
      weekCells in
  Ok (priorBalances, weekCells).

Definition weekStep (ym : string) (occurrences : list Occurrence)
    (checkpoints : list AnchorCheckpoint) (accounts : list AccountSlug)
    (st : Rec Q * Rec (Rec WeeklyBalanceCell)) (week : WeekWindow)
  : result (Rec Q * Rec (Rec WeeklyBalanceCell)) :=
  let '(priorBalances, monthWeeks) := st in
  '(priorBalances, weekCells) <-
    foldM (weekAccountStep ym occurrences checkpoints week) accounts
          (priorBalances, []) ;;
  Ok (priorBalances, set (WeekWindow.weekKey week) weekCells monthWeeks).

Definition weeklyMonthStep (occurrences : list Occurrence)
    (checkpoints : list AnchorCheckpoint) (accounts : list AccountSlug)
    (st : Rec Q * Rec (Rec (Rec WeeklyBalanceCell))) (ym : string)
  : result (Rec Q * Rec (Rec (Rec WeeklyBalanceCell))) :=
  let '(priorBalances, weeklyResult) := st in
  weeks <- computeWeeksInMonth ym ;;
  '(priorBalances, monthWeeks) <-
    foldM (weekStep ym occurrences checkpoints accounts) weeks
          (priorBalances, []) ;;
  Ok (priorBalances, set ym monthWeeks weeklyResult).

Definition computeWeeklyBalances (months : list string)
    (occurrences : list Occurrence) (priorEndingBalances : Rec Q)
    (checkpoints : list AnchorCheckpoint)
  : result (Rec (Rec (Rec WeeklyBalanceCell))) :=
  let orderedMonths := sortStrings months in
  let accounts := listAccounts occurrences checkpoints priorEndingBalances in
  let priorBalances := clonePriorBalances priorEndingBalances in
  '(_, weeklyResult) <-
    foldM (weeklyMonthStep occurrences checkpoints accounts) orderedMonths
          (priorBalances, []) ;;
  Ok weeklyResult.

(** [Math.abs(a - b) <= tolerance]: the difference is rounded, and the
    default tolerance is the binary64 value of the literal [0.01]. *)
Definition almostEqual (a b : Q) : bool :=
  Qle_bool (Qabs (round64 (a - b))) (round64 (1 # 100)).

Definition assertBalanceRollForward
    (endingBalances : Rec (Rec EndingBalanceCell)) : result unit :=
  let orderedMonths := sortStrings (keys endingBalances) in
  _ <- foldM (fun (lastEnding : Rec Q) ym =>
         let monthCells := getOrEmpty ym endingBalances in
         foldM (fun (lastEnding : Rec Q) entry =>
           let '(account, cell) := entry in
           match get account lastEnding with
           | Some expectedBeginning =>
               if negb (almostEqual (EndingBalanceCell.beginningBalance cell)
                                    expectedBeginning)
               then Throw (MonthlyRollForwardViolation account ym
                             expectedBeginning
                             (EndingBalanceCell.beginningBalance cell))
               else Ok (set account (EndingBalanceCell.balance cell) lastEnding)
           | None => Ok (set account (EndingBalanceCell.balance cell) lastEnding)
           end) monthCells lastEnding)
       orderedMonths [] ;;
  Ok tt.

Definition assertWeeklyBalanceRollForward
    (weeklyBalances : Rec (Rec (Rec WeeklyBalanceCell)))
    (endingBalances : Rec (Rec EndingBalanceCell)) : result unit :=
  let orderedMonths := sortStrings (keys weeklyBalances) in
  _ <- foldM (fun (lastEnding : Rec Q) ym =>
         let weekMap := getOrEmpty ym weeklyBalances in
         let weekKeys := sortStrings (keys weekMap) in
         lastEnding <-
           foldM (fun (lastEnding : Rec Q) weekKey =>
             let weekCells := getOrEmpty weekKey weekMap in
             foldM (fun (lastEnding : Rec Q) entry =>
               let '(account, cell) := entry in
               match get account lastEnding with
               | Some expectedBeginning =>
                   if negb (almostEqual (WeeklyBalanceCell.beginningBalance cell)
                                        expectedBeginning)
                   then Throw (WeeklyRollForwardViolation account weekKey
                                 expectedBeginning
                                 (WeeklyBalanceCell.beginningBalance cell))
                   else Ok (set account (WeeklyBalanceCell.balance cell) lastEnding)
               | None => Ok (set account (WeeklyBalanceCell.balance cell) lastEnding)
               end) weekCells lastEnding)
           weekKeys lastEnding ;;
         let monthEndingCells := getOrEmpty ym endingBalances in
         _ <- foldM (fun (_ : unit) entry =>
                let '(account, monthCell) := entry in
                let lastWeekKey := lastItem weekKeys in
                let lastWeekCell :=
                  match lastWeekKey with
                  | Some k =>
                      if isEmptyString k then None
                      else
                        match get k weekMap with
                        | Some cells => get account cells
                        | None => None
                        end
                  | None => None
                  end in
                match lastWeekCell with
                | Some cell =>
                    if negb (almostEqual (WeeklyBalanceCell.balance cell)
                                         (EndingBalanceCell.balance monthCell))
                    then Throw (WeeklyMonthlyMismatch account ym
                                  (WeeklyBalanceCell.balance cell)
                                  (EndingBalanceCell.balance monthCell))
                    else Ok tt
                | None => Ok tt
                end) monthEndingCells tt ;;
         Ok lastEnding)
       orderedMonths [] ;;
  Ok tt.

Definition buildForecast (params : BuildForecastParams) : result ForecastResult :=
  let months := BuildForecastParams.months params in
  let occurrences := BuildForecastParams.occurrences params in
  let priorEndingBalances := BuildForecastParams.priorEndingBalances params in
  let checkpoints := BuildForecastParams.checkpoints params in
  let orderedMonths := sortStrings months in
  let accounts := listAccounts occurrences checkpoints priorEndingBalances in
  endingBalances <-
    computeEndingBalances orderedMonths occurrences priorEndingBalances checkpoints ;;
  _ <- assertBalanceRollForward endingBalances ;;
  weeklyBalances <-
    computeWeeklyBalances orderedMonths occurrences priorEndingBalances checkpoints ;;
  _ <- assertWeeklyBalanceRollForward weeklyBalances endingBalances ;;
  Ok (ForecastResult.mk orderedMonths accounts endingBalances weeklyBalances).

End Binary64.

(** ** Inputs on which the sums are exact *)

(** A whole number. *)
Definition whole (q : Q) : bool := Pos.eqb (Qden q) 1.

Definition magnitude (q : Q) : Z := Z.abs (Qnum q).

Definition total {A : Type} (f : A -> Z) (l : list A) : Z :=
  fold_right (fun x acc => f x + acc) 0 l.

Definition amountMagnitude (o : Occurrence) : Z := magnitude (Occurrence.amount o).

Definition balanceMagnitude (c : AnchorCheckpoint) : Z :=
  magnitude (AnchorCheckpoint.balance c).

Definition priorMagnitude (kv : string * Q) : Z := magnitude (snd kv).

(** The number of weeks of a month, none when the identifier is refused. *)
Definition weeksIn (ym : string) : Z :=
  match computeWeeksInMonth ym with
  | Ok weeks => Z.of_nat (List.length weeks)
  | Throw _ => 0
  end.

(** The windows the two passes process for a month: the month itself in
    the monthly pass, its weeks in the weekly pass. *)
Definition windowsOf (ym : string) : Z := 1 + weeksIn ym.

(** Balances and amounts are whole numbers, and an account that started at
    the largest balance and received the magnitude of every amount in every
    window would stay within 2^52: then no sum of either pass is rounded. *)
Definition exactSums (months : list string) (occs : list Occurrence)
    (prior : Rec Q) (cps : list AnchorCheckpoint) : bool :=
  forallb (fun o => whole (Occurrence.amount o)) occs
  && forallb (fun kv => whole (snd kv)) prior
  && forallb (fun c => whole (AnchorCheckpoint.balance c)) cps
  && (total priorMagnitude prior + total balanceMagnitude cps
      + total windowsOf months * total amountMagnitude occs
      <=? 2 ^ 52).

(** A whole number of magnitude at most [B]. *)
Definition wholeWithin (B : Z) (q : Q) : Prop :=
  Qden q = 1%positive /\ Z.abs (Qnum q) <= B.

(** Every running balance is a whole number of magnitude at most [B]. *)
Definition boundedRec (B : Z) (P : Rec Q) : Prop :=
  forall a v, get a P = Some v -> wholeWithin B v.



(* ================================================================== *)
(** * The calendar *)

Section Calendar.

Lemma DayFromYear_succ y : DayFromYear (y + 1) = DayFromYear y + DaysInYear y.
Proof.
  unfold DayFromYear, DaysInYear, InLeapYear.
  destruct (Z.eqb_spec (y mod 4) 0), (Z.eqb_spec (y mod 100) 0),
    (Z.eqb_spec (y mod 400) 0); cbn [negb];
    Z.div_mod_to_equations; lia.
Qed.

Lemma DayFromYear_lt y1 y2 : y1 < y2 -> DayFromYear y1 < DayFromYear y2.
Proof. unfold DayFromYear. intros. Z.div_mod_to_equations. lia. Qed.

Lemma DayFromYear_le y1 y2 : y1 <= y2 -> DayFromYear y1 <= DayFromYear y2.
Proof.
  intros H. destruct (Z.eq_dec y1 y2) as [->|]; [lia|].
  apply Z.lt_le_incl, DayFromYear_lt. lia.
Qed.

Lemma YearFromDay_spec d :
  DayFromYear (YearFromDay d) <= d < DayFromYear (YearFromDay d + 1).
Proof.
  unfold YearFromDay.
  set (y0 := 1970 + 400 * d / 146097).
  destruct (Z.ltb_spec d (DayFromYear y0)).
  - replace (y0 - 1 + 1) with y0 by lia. split; [|lia].
    unfold DayFromYear in *. subst y0. Z.div_mod_to_equations. lia.
  - destruct (Z.leb_spec (DayFromYear (y0 + 1)) d).
    + split; [lia|].
      unfold DayFromYear in *. subst y0. Z.div_mod_to_equations. lia.
    + lia.
Qed.

Lemma YearFromDay_unique y d :
  DayFromYear y <= d < DayFromYear (y + 1) -> YearFromDay d = y.
Proof.
  intros H. pose proof (YearFromDay_spec d) as S.
  destruct (Z.lt_trichotomy (YearFromDay d) y) as [L|[E|G]]; [|exact E|].
  - assert (DayFromYear (YearFromDay d + 1) <= DayFromYear y)
      by (apply DayFromYear_le; lia). lia.
  - assert (DayFromYear (y + 1) <= DayFromYear (YearFromDay d))
      by (apply DayFromYear_le; lia). lia.
Qed.

Lemma DayWithinYear_range t :
  0 <= DayWithinYear t < DaysInYear (YearFromTime t).
Proof.
  unfold DayWithinYear, YearFromTime.
  pose proof (YearFromDay_spec (Day t)) as S.
  rewrite DayFromYear_succ in S. lia.
Qed.

Lemma DayFromMonth_inverse d leap :
  0 <= d < 365 + leapDays leap ->
  let m := MonthFromDayWithinYear d leap in
  0 <= m <= 11 /\
  1 <= d - DayFromMonth m leap + 1 <= 31.
Proof.
  intros H. cbv zeta. unfold MonthFromDayWithinYear, DayFromMonth.
  repeat match goal with
         | |- context [?a <? ?b] => destruct (Z.ltb_spec a b)
         end; cbn; destruct leap; cbn [leapDays] in *; lia.
Qed.

Lemma MonthFromTime_range t : 0 <= MonthFromTime t <= 11.
Proof.
  unfold MonthFromTime.
  pose proof (DayWithinYear_range t) as R.
  apply DayFromMonth_inverse.
  unfold DaysInYear in R. destruct (InLeapYear _); cbn; lia.
Qed.

Lemma DateFromTime_range t : 1 <= DateFromTime t <= 31.
Proof.
  unfold DateFromTime, MonthFromTime.
  pose proof (DayWithinYear_range t) as R.
  apply DayFromMonth_inverse.
  unfold DaysInYear in R. destruct (InLeapYear _); cbn; lia.
Qed.

(** The calendar date of a time value denotes its day. *)
Lemma MakeDay_of_time t :
  MakeDay (YearFromTime t) (MonthFromTime t) (DateFromTime t) = Day t.
Proof.
  pose proof (MonthFromTime_range t) as M.
  unfold MakeDay.
  replace (MonthFromTime t / 12) with 0
    by (symmetry; apply Z.div_small; lia).
  rewrite Z.mod_small by lia. rewrite Z.add_0_r.
  unfold DateFromTime, DayWithinYear. lia.
Qed.

Lemma MakeTime_of_time t :
  MakeTime (HourFromTime t) (MinFromTime t) (SecFromTime t) (msFromTime t)
  = TimeWithinDay t.
Proof.
  unfold MakeTime, HourFromTime, MinFromTime, SecFromTime, msFromTime,
    TimeWithinDay, msPerHour, msPerMinute, msPerSecond, msPerDay.
  Z.div_mod_to_equations. lia.
Qed.

Lemma MakeDate_of_time t : MakeDate (Day t) (TimeWithinDay t) = t.
Proof.
  unfold MakeDate, Day, TimeWithinDay, msPerDay.
  Z.div_mod_to_equations. lia.
Qed.

Lemma YearFromTime_range t :
  Z.abs t <= maxTime -> -271821 <= YearFromTime t <= 275760.
Proof.
  intros H. unfold YearFromTime.
  pose proof (YearFromDay_spec (Day t)) as S.
  assert (D : -100000000 <= Day t <= 100000000).
  { unfold Day, msPerDay, maxTime in *. Z.div_mod_to_equations. lia. }
  split.
  - destruct (Z.le_gt_cases (-271821) (YearFromDay (Day t))) as [|L]; [assumption|].
    assert (DayFromYear (YearFromDay (Day t) + 1) <= DayFromYear (-271821))
      by (apply DayFromYear_le; lia).
    assert (DayFromYear (-271821) <= -100000000) by (vm_compute; discriminate).
    lia.
  - destruct (Z.le_gt_cases (YearFromDay (Day t)) 275760) as [|L]; [assumption|].
    assert (DayFromYear 275761 <= DayFromYear (YearFromDay (Day t)))
      by (apply DayFromYear_le; lia).
    assert (100000000 < DayFromYear 275761) by (vm_compute; reflexivity).
    lia.
Qed.

(** The year, month and date of the first days of a month. *)
Lemma YearFromDay_MakeDay y m dt :
  0 <= m <= 11 -> 1 <= dt <= 28 ->
  let d := MakeDay y m dt in
  YearFromDay d = y /\
  MonthFromDayWithinYear (d - DayFromYear y) (InLeapYear y) = m /\
  d - DayFromYear y - DayFromMonth m (InLeapYear y) + 1 = dt.
Proof.
  intros Hm Hd. cbv zeta. unfold MakeDay.
  replace (m / 12) with 0 by (symmetry; apply Z.div_small; lia).
  rewrite Z.mod_small by lia. rewrite Z.add_0_r.
  assert (Y : YearFromDay (DayFromYear y + DayFromMonth m (InLeapYear y) + dt - 1) = y).
  { apply YearFromDay_unique. rewrite DayFromYear_succ.
    unfold DaysInYear, DayFromMonth.
    repeat match goal with
           | |- context [?a =? ?b] => destruct (Z.eqb_spec a b)
           end; destruct (InLeapYear y); cbn [leapDays]; lia. }
  split; [exact Y|]. split; [|lia].
  replace (DayFromYear y + DayFromMonth m (InLeapYear y) + dt - 1 - DayFromYear y)
    with (DayFromMonth m (InLeapYear y) + dt - 1) by lia.
  unfold MonthFromDayWithinYear, DayFromMonth.
  assert (m = 0 \/ m = 1 \/ m = 2 \/ m = 3 \/ m = 4 \/ m = 5 \/ m = 6
          \/ m = 7 \/ m = 8 \/ m = 9 \/ m = 10 \/ m = 11) as C by lia.
  destruct (InLeapYear y); cbn [leapDays];
    repeat (destruct C as [->|C]; [cbn [Z.eqb Pos.eqb];
      repeat match goal with
             | |- context [?a <? ?b] => destruct (Z.ltb_spec a b); try lia
             end; reflexivity|]);
    subst m; cbn [Z.eqb Pos.eqb];
    repeat match goal with
           | |- context [?a <? ?b] => destruct (Z.ltb_spec a b); try lia
           end; reflexivity.
Qed.

End Calendar.

(* ================================================================== *)
(** * [toISOString] and [new Date(string)] are inverse *)

Lemma digitVal_digitChar d : 0 <= d <= 9 -> digitVal (digitChar d) = Some d.
Proof.
  intros H.
  assert (d = 0 \/ d = 1 \/ d = 2 \/ d = 3 \/ d = 4 \/ d = 5 \/ d = 6
          \/ d = 7 \/ d = 8 \/ d = 9) as C by lia.
  repeat (destruct C as [->|C]; [reflexivity|]). subst; reflexivity.
Qed.

Lemma digitChar_not_sign d :
  0 <= d <= 9 ->
  Ascii.eqb (digitChar d) "+" = false /\ Ascii.eqb (digitChar d) "-" = false.
Proof.
  intros H.
  assert (d = 0 \/ d = 1 \/ d = 2 \/ d = 3 \/ d = 4 \/ d = 5 \/ d = 6
          \/ d = 7 \/ d = 8 \/ d = 9) as C by lia.
  repeat (destruct C as [->|C]; [split; reflexivity|]). subst; split; reflexivity.
Qed.

Lemma readN_padDigits n v rest acc :
  0 <= v ->
  readN n (padDigits n v ++ rest) acc
  = Some (acc * 10 ^ Z.of_nat n + v mod 10 ^ Z.of_nat n, rest).
Proof.
  intros Hv. revert acc. induction n as [|n IH]; intros acc.
  - cbn. rewrite Z.mod_1_r. f_equal. f_equal. lia.
  - cbn [padDigits readN append].
    rewrite digitVal_digitChar
      by (pose proof (Z.mod_pos_bound (v / 10 ^ Z.of_nat n) 10); lia).
    rewrite IH. f_equal. f_equal.
    rewrite Nat2Z.inj_succ, Z.pow_succ_r by lia.
    assert (P : 0 < 10 ^ Z.of_nat n) by (apply Z.pow_pos_nonneg; lia).
    rewrite (Z.mul_comm 10 (10 ^ Z.of_nat n)).
    rewrite (Z.rem_mul_r v (10 ^ Z.of_nat n) 10) by lia.
    lia.
Qed.

Arguments padDigits : simpl never.
Arguments readN : simpl never.

Lemma parseDate_yearString y rest :
  -999999 <= y <= 999999 ->
  parseDate (yearString y ++ rest) = parseAfterYear y rest.
Proof.
  intros Hy. unfold yearString.
  destruct ((0 <=? y) && (y <=? 9999)) eqn:E.
  - apply andb_prop in E as [E1 E2].
    apply Z.leb_le in E1. apply Z.leb_le in E2.
    assert (R : readN 4 (padDigits 4 y ++ rest) 0 = Some (y, rest)).
    { rewrite readN_padDigits by lia. cbn [Z.of_nat Z.mul Z.add].
      change (10 ^ Z.of_nat 4) with 10000. rewrite Z.mod_small by lia. reflexivity. }
    unfold parseDate.
    change (padDigits 4 y ++ rest)
      with (String (digitChar ((y / 10 ^ Z.of_nat 3) mod 10)) (padDigits 3 y ++ rest)) at 1.
    cbv iota beta.
    destruct (digitChar_not_sign ((y / 10 ^ Z.of_nat 3) mod 10)) as [P M].
    { pose proof (Z.mod_pos_bound (y / 10 ^ Z.of_nat 3) 10). lia. }
    rewrite P, M.
    change (String (digitChar ((y / 10 ^ Z.of_nat 3) mod 10)) (padDigits 3 y ++ rest))
      with (padDigits 4 y ++ rest).
    rewrite R. reflexivity.
  - assert (R : readN 6 (padDigits 6 (Z.abs y) ++ rest) 0 = Some (Z.abs y, rest)).
    { rewrite readN_padDigits by lia.
      change (10 ^ Z.of_nat 6) with 1000000. rewrite Z.mod_small by lia. reflexivity. }
    destruct (Z.leb_spec 0 y) as [P|N].
    + cbn [append parseDate]. cbn [Ascii.eqb Bool.eqb]. cbv iota.
      rewrite R. f_equal. lia.
    + cbn [append parseDate]. cbn [Ascii.eqb Bool.eqb]. cbv iota.
      rewrite R. destruct (Z.eqb_spec (Z.abs y) 0); [lia|]. f_equal. lia.
Qed.

Lemma readN_pad2 v rest : 0 <= v < 100 ->
  readN 2 (padDigits 2 v ++ rest) 0 = Some (v, rest).
Proof.
  intros H. rewrite readN_padDigits by lia.
  change (10 ^ Z.of_nat 2) with 100. rewrite Z.mod_small by lia. reflexivity.
Qed.

Lemma readN_pad3 v rest : 0 <= v < 1000 ->
  readN 3 (padDigits 3 v ++ rest) 0 = Some (v, rest).
Proof.
  intros H. rewrite readN_padDigits by lia.
  change (10 ^ Z.of_nat 3) with 1000. rewrite Z.mod_small by lia. reflexivity.
Qed.

Lemma time_fields_range t :
  0 <= HourFromTime t < 24 /\ 0 <= MinFromTime t < 60 /\
  0 <= SecFromTime t < 60 /\ 0 <= msFromTime t < 1000.
Proof.
  unfold HourFromTime, MinFromTime, SecFromTime, msFromTime, msPerSecond.
  repeat split; try apply Z.mod_pos_bound; lia.
Qed.

Theorem parseDate_isoString t :
  Z.abs t <= maxTime -> parseDate (isoString t) = Some t.
Proof.
  intros Ht. unfold isoString.
  pose proof (YearFromTime_range t Ht) as Y.
  pose proof (MonthFromTime_range t) as M.
  pose proof (DateFromTime_range t) as D.
  destruct (time_fields_range t) as (H & Mi & S & Ms).
  rewrite parseDate_yearString by lia.
  cbn [parseAfterYear Ascii.eqb Bool.eqb]. cbv iota.
  rewrite readN_pad2 by lia.
  cbn [Ascii.eqb Bool.eqb]. cbv iota.
  rewrite readN_pad2 by lia.
  cbn [Ascii.eqb Bool.eqb]. cbv iota.
  unfold parseTime.
  rewrite readN_pad2 by lia. cbn [Ascii.eqb Bool.eqb]. cbv iota.
  rewrite readN_pad2 by lia. cbn [Ascii.eqb Bool.eqb]. cbv iota.
  rewrite readN_pad2 by lia. cbn [Ascii.eqb Bool.eqb]. cbv iota.
  rewrite readN_pad3 by lia.
  cbn [parseZone Ascii.eqb Bool.eqb]. cbv iota.
  unfold assemble.
  replace ((1 <=? MonthFromTime t + 1) && (MonthFromTime t + 1 <=? 12)
           && (1 <=? DateFromTime t) && (DateFromTime t <=? 31)) with true
    by (symmetry; rewrite !andb_true_iff, !Z.leb_le; lia).
  replace ((HourFromTime t <=? 23) && (MinFromTime t <=? 59)
           && (SecFromTime t <=? 59)) with true
    by (symmetry; rewrite !andb_true_iff, !Z.leb_le; lia).
  cbn [andb orb].
  replace (MonthFromTime t + 1 - 1) with (MonthFromTime t) by lia.
  rewrite MakeDay_of_time, MakeTime_of_time, MakeDate_of_time.
  rewrite Z.mul_0_l, Z.sub_0_r. unfold TimeClip.
  destruct (Z.leb_spec (Z.abs t) maxTime); [reflexivity|lia].
Qed.

(* ================================================================== *)
(** * The result monad, filters and sorting *)

Lemma bind_Ok {A B} (m : result A) (k : A -> result B) b :
  bind m k = Ok b -> exists a, m = Ok a /\ k a = Ok b.
Proof. destruct m; cbn; intros H; [eauto|discriminate]. Qed.

Ltac inv_bind H :=
  let a := fresh "a" in let Ha := fresh "Ha" in
  apply bind_Ok in H; destruct H as (a & Ha & H).

Lemma toUtcDate_Ok ts d :
  toUtcDate ts = Ok d -> d = timeOfString ts /\ exists t, timeOfString ts = Some t.
Proof.
  unfold toUtcDate, timeOfString, getTime.
  destruct (newDateOfString ts) eqn:E; [|discriminate].
  intros H. injection H as <-. eauto.
Qed.

Lemma toUtcDate_valid ts t :
  timeOfString ts = Some t -> toUtcDate ts = Ok (Some t).
Proof.
  unfold toUtcDate, timeOfString, getTime. intros ->. reflexivity.
Qed.

Lemma inWindow_valid ws we ts :
  inWindow ws we ts = true -> exists t, timeOfString ts = Some t.
Proof.
  unfold inWindow, tv_geb, tv_leb. destruct (timeOfString ts); [eauto|].
  destruct (getTime ws); discriminate.
Qed.

Section FilterM.
Context {A : Type}.

Lemma filterM_pure (p : A -> result bool) (q : A -> bool) l :
  Forall (fun x => p x = Ok (q x)) l -> filterM p l = Ok (filter q l).
Proof.
  induction 1 as [|x l Hx _ IH]; [reflexivity|].
  cbn. rewrite Hx. cbn. rewrite IH. cbn. reflexivity.
Qed.

Lemma filterM_Ok (p : A -> result bool) l r :
  filterM p l = Ok r -> Forall (fun x => exists b, p x = Ok b) l.
Proof.
  revert r. induction l as [|x l IH]; intros r H; [constructor|].
  cbn in H. inv_bind H. inv_bind H. constructor; eauto.
Qed.
End FilterM.

Lemma filter_filter {A} (p q : A -> bool) l :
  filter p (filter q l) = filter (fun x => q x && p x) l.
Proof.
  induction l as [|x l IH]; [reflexivity|].
  cbn. destruct (q x); cbn; [destruct (p x)|]; rewrite IH; reflexivity.
Qed.

Lemma filterOccurrencesForWindow_Ok occs a ws we l :
  filterOccurrencesForWindow occs a ws we = Ok l ->
  l = filter (occurrenceInWindow a ws we) occs.
Proof.
  unfold filterOccurrencesForWindow. intros H.
  pose proof (filterM_Ok _ _ _ H) as V.
  erewrite filterM_pure in H; [injection H as <-; reflexivity|].
  rewrite Forall_forall in *. intros o Ho. destruct (V o Ho) as [b Hb].
  unfold occurrenceInWindow, inWindow.
  destruct (String.eqb (Occurrence.accountSlug o) a); cbn [negb andb] in *; [|reflexivity].
  inv_bind Hb. rewrite Ha. apply toUtcDate_Ok in Ha as [-> _]. reflexivity.
Qed.

Lemma filterCheckpointsForWindow_Ok cps a ws we l :
  filterCheckpointsForWindow cps a ws we = Ok l ->
  l = filter (checkpointInWindow a ws we) cps.
Proof.
  unfold filterCheckpointsForWindow. intros H.
  pose proof (filterM_Ok _ _ _ H) as V.
  erewrite filterM_pure in H; [injection H as <-; reflexivity|].
  rewrite Forall_forall in *. intros o Ho. destruct (V o Ho) as [b Hb].
  unfold checkpointInWindow, inWindow.
  destruct (String.eqb (AnchorCheckpoint.accountSlug o) a); cbn [negb andb] in *; [|reflexivity].
  inv_bind Hb. rewrite Ha. apply toUtcDate_Ok in Ha as [-> _]. reflexivity.
Qed.

Section SortFacts.
Context {A : Type} (le : A -> A -> bool) (good : A -> Prop).
Hypothesis le_total :
  forall x y, good x -> good y -> le x y = true \/ le y x = true.
Hypothesis le_trans :
  forall x y z, good x -> good y -> good z ->
                le x y = true -> le y z = true -> le x z = true.

Local Abbreviation R := (fun x y => le x y = true).

Lemma insertSorted_Permutation x l : Permutation (x :: l) (insertSorted le x l).
Proof.
  induction l as [|y l IH]; cbn; [reflexivity|].
  destruct (le x y); [reflexivity|].
  rewrite perm_swap. constructor. exact IH.
Qed.

Lemma stableSort_Permutation l : Permutation l (stableSort le l).
Proof.
  induction l as [|x l IH]; cbn; [constructor|].
  rewrite <- insertSorted_Permutation. constructor. exact IH.
Qed.

Lemma insertSorted_sorted x l :
  good x -> Forall good l ->
  StronglySorted R l -> StronglySorted R (insertSorted le x l).
Proof.
  intros Gx Gl S. induction S as [|y l S IH F]; cbn.
  - repeat constructor.
  - inversion Gl as [|? ? Gy Gl']; subst.
    destruct (le x y) eqn:E.
    + constructor; [constructor; assumption|].
      constructor; [exact E|].
      rewrite Forall_forall in *. intros z Hz.
      apply (le_trans x y z); auto; apply F; exact Hz.
    + constructor; [apply IH; assumption|].
      rewrite Forall_forall in *. intros z Hz.
      apply (Permutation_in _ (Permutation_sym (insertSorted_Permutation x l))) in Hz.
      destruct Hz as [<-|Hz]; [|auto].
      destruct (le_total x y Gx Gy) as [H|H]; [congruence|exact H].
Qed.

Lemma stableSort_sorted l :
  Forall good l -> StronglySorted R (stableSort le l).
Proof.
  induction 1 as [|x l Gx Gl IH]; cbn; [constructor|].
  apply insertSorted_sorted; auto.
  rewrite Forall_forall in *. intros z Hz.
  apply Gl. eapply Permutation_in; [symmetry; apply stableSort_Permutation|exact Hz].
Qed.

Lemma lastItem_In (l : list A) b : lastItem l = Some b -> In b l.
Proof.
  induction l as [|x [|y l] IH]; cbn; intros H; [discriminate| |].
  - injection H as <-. auto.
  - right. apply IH. exact H.
Qed.

Lemma lastItem_cons x (l : list A) :
  lastItem (x :: l) = match lastItem l with None => Some x | Some b => Some b end.
Proof.
  destruct l as [|y l]; [reflexivity|].
  change (lastItem (x :: y :: l)) with (lastItem (y :: l)).
  destruct (lastItem (y :: l)) eqn:E; [reflexivity|].
  exfalso. clear - E. revert y E. induction l as [|z l IH]; intros y E; [discriminate|].
  apply (IH z). exact E.
Qed.

Lemma lastItem_insertSorted x l :
  good x -> Forall good l -> StronglySorted R l ->
  lastItem (insertSorted le x l)
  = match lastItem l with
    | None => Some x
    | Some b => if le x b then Some b else Some x
    end.
Proof.
  intros Gx Gl S. induction S as [|y l S IH F]; [reflexivity|].
  inversion Gl as [|? ? Gy Gl']; subst.
  cbn [insertSorted]. destruct (le x y) eqn:E.
  - rewrite lastItem_cons. destruct (lastItem (y :: l)) as [b|] eqn:L.
    + assert (Hb : In b (y :: l)) by (apply lastItem_In; exact L).
      assert (le x b = true) as ->; [|reflexivity].
      destruct Hb as [<-|Hb]; [exact E|].
      rewrite Forall_forall in *. apply (le_trans x y b); auto; apply F; exact Hb.
    + rewrite lastItem_cons in L. destruct (lastItem l); discriminate.
  - rewrite lastItem_cons, IH by assumption.
    rewrite (lastItem_cons y l).
    destruct (lastItem l) as [b|]; [destruct (le x b); reflexivity|].
    rewrite E. reflexivity.
Qed.

Lemma lastItem_stableSort l :
  Forall good l -> lastItem (stableSort le l) = latestBy le l.
Proof.
  induction 1 as [|x l Gx Gl IH]; [reflexivity|].
  cbn [stableSort latestBy].
  rewrite lastItem_insertSorted; auto.
  - rewrite IH. reflexivity.
  - rewrite Forall_forall in *. intros z Hz.
    apply Gl. eapply Permutation_in; [symmetry; apply stableSort_Permutation|exact Hz].
  - apply stableSort_sorted. exact Gl.
Qed.

Lemma stableSort_sorted_id l :
  Sorted R l -> stableSort le l = l.
Proof.
  induction 1 as [|x l S IH H]; [reflexivity|].
  cbn. rewrite IH. destruct H as [|y l H]; [reflexivity|].
  cbn. cbv beta in H. rewrite H. reflexivity.
Qed.

(** What [latestBy] selects: nothing before it is greater, everything
    after it is strictly smaller. *)
Lemma latestBy_spec l c :
  Forall good l -> latestBy le l = Some c ->
  exists before after,
    l = (before ++ c :: after)%list /\
    Forall (fun x => le x c = true) before /\
    Forall (fun x => le c x = false) after.
Proof.
  intros G. revert c. induction G as [|x l Gx Gl IH]; intros c H; [discriminate|].
  cbn in H. destruct (latestBy le l) as [b|] eqn:L.
  - destruct (IH b eq_refl) as (before & after & -> & Hb & Ha).
    destruct (le x b) eqn:E; injection H as <-.
    + exists (x :: before), after. repeat split; auto.
    + exists [], (before ++ b :: after)%list. repeat split; auto.
      assert (Gb : good b).
      { rewrite Forall_forall in Gl. apply Gl. apply in_or_app. right. left. reflexivity. }
      assert (Hbx : le b x = true).
      { destruct (le_total x b Gx Gb); congruence. }
      rewrite Forall_forall in *. intros z Hz.
      destruct (le x z) eqn:Ez; [|reflexivity].
      assert (Gz : good z) by (apply Gl; exact Hz).
      assert (Hzb : le z b = true).
      { apply in_app_or in Hz. destruct Hz as [Hz|[<-|Hz]].
        - apply Hb. exact Hz.
        - destruct (le_total b b Gb Gb); assumption.
        - specialize (Ha z Hz). cbn in Ha.
          destruct (le_total z b Gz Gb); congruence. }
      rewrite (le_trans x z b) in E; auto; discriminate.
  - injection H as <-. exists [], l. repeat split; auto.
    destruct l as [|a l]; [constructor|]. cbn in L.
    destruct (latestBy le l) as [b|]; [destruct (le a b)|]; discriminate.
Qed.
End SortFacts.

Lemma stableSort_keyed {A K} (f : K -> K -> bool) (k : A -> K) l :
  stableSort (fun a b => f (fst a) (fst b)) (map (fun x => (k x, x)) l)
  = map (fun x => (k x, x)) (stableSort (fun a b => f (k a) (k b)) l).
Proof.
  induction l as [|x l IH]; [reflexivity|].
  cbn [map stableSort]. rewrite IH.
  generalize (stableSort (fun a b => f (k a) (k b)) l). intros s.
  induction s as [|y s IHs]; [reflexivity|].
  cbn. destruct (f (k x) (k y)); [reflexivity|]. rewrite IHs. reflexivity.
Qed.

Lemma mapM_keyed l :
  Forall validCheckpoint l ->
  mapM (fun item => d <- toUtcDate (AnchorCheckpoint.timestamp item) ;;
                    Ok (getTime d, item)) l
  = Ok (map (fun c => (checkpointTime c, c)) l).
Proof.
  induction 1 as [|c l [t Hc] _ IH]; [reflexivity|].
  cbn [mapM map]. unfold checkpointTime in Hc.
  rewrite (toUtcDate_valid _ _ Hc). cbn [bind]. rewrite IH. cbn [bind].
  unfold checkpointTime, getTime. rewrite Hc. reflexivity.
Qed.

Lemma sortIsoStrings_Ok l :
  Forall validCheckpoint l ->
  sortIsoStrings AnchorCheckpoint.timestamp l = Ok (stableSort checkpointLe l).
Proof.
  intros V. unfold sortIsoStrings.
  destruct l as [|x [|y l]]; [reflexivity|reflexivity|].
  rewrite mapM_keyed by exact V. cbn [bind].
  rewrite (stableSort_keyed tv_leb checkpointTime).
  rewrite map_map. cbn [snd]. rewrite map_id. reflexivity.
Qed.

Lemma checkpointLe_total x y :
  validCheckpoint x -> validCheckpoint y ->
  checkpointLe x y = true \/ checkpointLe y x = true.
Proof.
  intros [a Ha] [b Hb]. unfold checkpointLe, tv_leb. rewrite Ha, Hb.
  rewrite !Z.leb_le. lia.
Qed.

Lemma checkpointLe_trans x y z :
  validCheckpoint x -> validCheckpoint y -> validCheckpoint z ->
  checkpointLe x y = true -> checkpointLe y z = true -> checkpointLe x z = true.
Proof.
  intros [a Ha] [b Hb] [c Hc]. unfold checkpointLe, tv_leb. rewrite Ha, Hb, Hc.
  rewrite !Z.leb_le. lia.
Qed.

Lemma filter_checkpoints_valid a ws we cps :
  Forall validCheckpoint (filter (checkpointInWindow a ws we) cps).
Proof.
  rewrite Forall_forall. intros c Hc. apply filter_In in Hc as [_ Hc].
  unfold checkpointInWindow in Hc. apply andb_prop in Hc as [_ Hc].
  apply inWindow_valid in Hc. exact Hc.
Qed.

Lemma priorBalance_eq P a :
  (if hasOwnProperty P a
   then match get a P with Some b => b | None => 0%Q end
   else 0%Q) = balanceOrZero P a.
Proof. unfold hasOwnProperty, balanceOrZero. destruct (get a P); reflexivity. Qed.

Lemma latestBy_In {A} (le : A -> A -> bool) l c :
  latestBy le l = Some c -> In c l.
Proof.
  revert c. induction l as [|x l IH]; intros c H; [discriminate|].
  cbn in H. destruct (latestBy le l) as [b|].
  - destruct (le x b); injection H as <-; [right; apply IH; reflexivity|left; reflexivity].
  - injection H as <-. left. reflexivity.
Qed.

Lemma windowCell_Ok occs cps P a ws we anchor net :
  windowCell occs cps P a ws we = Ok (anchor, net) ->
  exists s,
    getTime ws = Some s /\
    anchor = anchorFor P a s
               (latestCheckpoint (filter (checkpointInWindow a ws we) cps)) /\
    net = sumAmounts
            (filter (fun o => occurrenceInWindow a ws we o && keptAfterAnchor anchor o)
                    occs).
Proof.
  unfold windowCell. intros H.
  inv_bind H. rename a0 into accOccs. apply filterOccurrencesForWindow_Ok in Ha. subst accOccs.
  inv_bind H. rename a0 into sorted.
  inv_bind Ha. rename a0 into cin. apply filterCheckpointsForWindow_Ok in Ha0. subst cin.
  rewrite sortIsoStrings_Ok in Ha by apply filter_checkpoints_valid.
  injection Ha as <-.
  inv_bind H. rename a0 into anchor'.
  inv_bind H. rename a0 into net'. injection H as <- <-.
  (* the anchor *)
  unfold resolveAnchor in Ha.
  inv_bind Ha. rename a0 into startIso.
  unfold toIsoTimestamp, toISOString in Ha1.
  destruct ws as [s|]; [|discriminate]. injection Ha1 as <-.
  exists s. split; [reflexivity|].
  rewrite priorBalance_eq in Ha.
  rewrite (lastItem_stableSort checkpointLe validCheckpoint
             checkpointLe_total checkpointLe_trans) in Ha
    by apply filter_checkpoints_valid.
  fold (latestCheckpoint (filter (checkpointInWindow a (Some s) we) cps)) in Ha.
  assert (An : anchor' = anchorFor P a s
            (latestCheckpoint (filter (checkpointInWindow a (Some s) we) cps))).
  { destruct (latestCheckpoint _) as [c|] eqn:L.
    - inv_bind Ha. apply toUtcDate_Ok in Ha1 as [-> _].
      injection Ha as <-. reflexivity.
    - injection Ha as <-. reflexivity. }
  split; [exact An|].
  (* the net activity *)
  unfold sumAfterAnchor in Ha0.
  inv_bind Ha0. rename a0 into anchorDate.
  apply toUtcDate_Ok in Ha1 as [-> [ta Hta]].
  inv_bind Ha0. rename a0 into kept. injection Ha0 as <-.
  erewrite filterM_pure in Ha1.
  - injection Ha1 as <-. rewrite filter_filter. reflexivity.
  - rewrite Forall_forall. intros o Ho. apply filter_In in Ho as [_ Ho].
    unfold occurrenceInWindow in Ho. apply andb_prop in Ho as [_ Ho].
    apply inWindow_valid in Ho as [t Ht].
    rewrite (toUtcDate_valid _ _ Ht). cbn [bind].
    unfold keptAfterAnchor, getTime. rewrite Ht, Hta.
    unfold tv_ltb, tv_geb, tv_leb, tv_eqb.
    destruct (Z.ltb_spec t ta), (Z.leb_spec ta t); try lia; cbn [andb negb];
      [reflexivity|].
    destruct (sourceIsCheckpoint (AnchorMetadata.source anchor') && (t =? ta));
      reflexivity.
Qed.

(* ================================================================== *)
(** * Dictionaries and the loop over the accounts *)

Section RecFacts.
Context {V : Type}.

Lemma get_set_eq k (v : V) r : get k (set k v r) = Some v.
Proof.
  induction r as [|[k' v'] r IH]; cbn.
  - rewrite String.eqb_refl. reflexivity.
  - destruct (String.eqb k k') eqn:E; cbn; rewrite ?String.eqb_refl, ?E; auto.
Qed.

Lemma get_set_ne k k' (v : V) r : k <> k' -> get k (set k' v r) = get k r.
Proof.
  intros N. induction r as [|[k2 v2] r IH]; cbn.
  - apply String.eqb_neq in N. rewrite N. reflexivity.
  - destruct (String.eqb k' k2) eqn:E; cbn.
    + apply String.eqb_eq in E. subst k2.
      apply String.eqb_neq in N. rewrite N. reflexivity.
    + destruct (String.eqb k k2); auto.
Qed.

Lemma get_In_keys k (r : Rec V) v : get k r = Some v -> In k (keys r).
Proof.
  induction r as [|[k' v'] r IH]; cbn; [discriminate|].
  destruct (String.eqb_spec k k'); [left; congruence|right; auto].
Qed.

Lemma keys_set k (v : V) r :
  keys (set k v r) = if existsb (String.eqb k) (keys r) then keys r else (keys r ++ [k])%list.
Proof.
  unfold keys. induction r as [|[k' v'] r IH]; cbn; [reflexivity|].
  destruct (String.eqb_spec k k'); cbn; [congruence|].
  rewrite IH. destruct (existsb (String.eqb k) (map fst r)); reflexivity.
Qed.

Lemma NoDup_keys_set k (v : V) r : NoDup (keys r) -> NoDup (keys (set k v r)).
Proof.
  intros N. rewrite keys_set. destruct (existsb (String.eqb k) (keys r)) eqn:E; [exact N|].
  apply NoDup_app; [exact N|repeat constructor; auto|].
  intros x Hx [E'|[]]. subst x.
  assert (existsb (String.eqb k) (keys r) = true); [|congruence].
  apply existsb_exists. exists k. split; [exact Hx|apply String.eqb_refl].
Qed.
End RecFacts.

Lemma foldM_app {S A} (f : S -> A -> result S) l1 l2 s :
  foldM f (l1 ++ l2) s = (s' <- foldM f l1 s ;; foldM f l2 s').
Proof.
  revert s. induction l1 as [|a l1 IH]; intros s; [reflexivity|].
  cbn. destruct (f s a); cbn; [apply IH|reflexivity].
Qed.

Lemma resolveAnchor_ext P P' a ws l :
  get a P = get a P' -> resolveAnchor P a ws l = resolveAnchor P' a ws l.
Proof. intros E. unfold resolveAnchor, hasOwnProperty. rewrite E. reflexivity. Qed.

Lemma windowCell_ext occs cps P P' a ws we :
  get a P = get a P' ->
  windowCell occs cps P a ws we = windowCell occs cps P' a ws we.
Proof.
  intros E. unfold windowCell.
  destruct (filterOccurrencesForWindow occs a ws we); [|reflexivity]. cbn [bind].
  destruct (bind (filterCheckpointsForWindow cps a ws we) _); [|reflexivity]. cbn [bind].
  rewrite (resolveAnchor_ext P P' a ws _ E). reflexivity.
Qed.

Section AccountFold.
Context {Cell : Type}.
Variables (occs : list Occurrence) (cps : list AnchorCheckpoint).
Variables (ws we : Date).
Variable mkCell : AccountSlug -> AnchorMetadata -> Q -> Cell.
Variable step : Rec Q * Rec Cell -> AccountSlug -> result (Rec Q * Rec Cell).
Hypothesis step_eq : forall P C a,
  step (P, C) a =
  (r <- windowCell occs cps P a ws we ;;
   Ok (set a (AnchorMetadata.balance (fst r) + snd r)%Q P,
       set a (mkCell a (fst r) (snd r)) C)).

Lemma accounts_fold accounts :
  NoDup accounts ->
  forall P C P' C',
    foldM step accounts (P, C) = Ok (P', C') ->
    (forall a, In a accounts ->
       exists anchor net,
         windowCell occs cps P a ws we = Ok (anchor, net) /\
         get a P' = Some (AnchorMetadata.balance anchor + net)%Q /\
         get a C' = Some (mkCell a anchor net)) /\
    (forall b, ~ In b accounts -> get b P' = get b P /\ get b C' = get b C).
Proof.
  induction 1 as [|a0 accounts N0 N IH]; intros P C P' C' H.
  - cbn in H. injection H as <- <-. split; [intros a []|auto].
  - cbn [foldM] in H. inv_bind H. destruct a as [P1 C1].
    rewrite step_eq in Ha. inv_bind Ha. destruct a as [anchor0 net0].
    cbn [fst snd] in Ha. injection Ha as <- <-.
    destruct (IH _ _ _ _ H) as [In1 Out1]. split.
    + intros a [<-|Ha].
      * exists anchor0, net0. split; [exact Ha0|].
        destruct (Out1 a0 N0) as [-> ->]. rewrite !get_set_eq. auto.
      * destruct (In1 a Ha) as (anchor & net & W & GP & GC).
        exists anchor, net. split; [|auto].
        rewrite <- W. apply windowCell_ext.
        symmetry. apply get_set_ne. intros ->. contradiction.
    + intros b Hb. destruct (Out1 b) as [-> ->]; [intros Hb'; apply Hb; right; exact Hb'|].
      rewrite !get_set_ne by (intros ->; apply Hb; left; reflexivity). auto.
Qed.
End AccountFold.

Lemma monthAccountStep_eq ym occs cps ws we P C a :
  monthAccountStep ym occs cps ws we (P, C) a =
  (r <- windowCell occs cps P a ws we ;;
   Ok (set a (AnchorMetadata.balance (fst r) + snd r)%Q P,
       set a ((fun a anchor net =>
                 EndingBalanceCell.mk ym a (AnchorMetadata.balance anchor)
                   (AnchorMetadata.balance anchor + net)%Q net anchor)
              a (fst r) (snd r)) C)).
Proof.
  unfold monthAccountStep. destruct (windowCell occs cps P a ws we) as [[anchor net]|]; reflexivity.
Qed.

Lemma weekAccountStep_eq ym occs cps week P C a :
  weekAccountStep ym occs cps week (P, C) a =
  (r <- windowCell occs cps P a (WeekWindow.start week) (WeekWindow.end_ week) ;;
   Ok (set a (AnchorMetadata.balance (fst r) + snd r)%Q P,
       set a ((fun a anchor net =>
                 WeeklyBalanceCell.mk ym a (WeekWindow.weekKey week)
                   (AnchorMetadata.balance anchor)
                   (AnchorMetadata.balance anchor + net)%Q net anchor)
              a (fst r) (snd r)) C)).
Proof.
  unfold weekAccountStep.
  destruct (windowCell occs cps P a _ _) as [[anchor net]|]; reflexivity.
Qed.

Lemma monthStep_Ok occs cps accounts P R ym P' R' :
  NoDup accounts ->
  monthStep occs cps accounts (P, R) ym = Ok (P', R') ->
  exists ws we cells,
    startOfMonth ym = Ok ws /\ monthEndExclusive ym = Ok we /\
    R' = set ym cells R /\
    (forall a, In a accounts ->
       exists anchor net,
         windowCell occs cps P a ws we = Ok (anchor, net) /\
         get a P' = Some (AnchorMetadata.balance anchor + net)%Q /\
         get a cells = Some (monthCellOf ym a anchor net)) /\
    (forall b, ~ In b accounts -> get b P' = get b P /\ get b cells = None).
Proof.
  intros N H. unfold monthStep in H.
  inv_bind H. rename a into ws. inv_bind H. rename a into we.
  inv_bind H. destruct a as [P1 cells]. injection H as <- <-.
  exists ws, we, cells. repeat split; auto.
  - intros a Hin.
    destruct (accounts_fold occs cps ws we _ _ (monthAccountStep_eq ym occs cps ws we)
                accounts N _ _ _ _ Ha1) as [I _].
    apply I. exact Hin.
  - destruct (accounts_fold occs cps ws we _ _ (monthAccountStep_eq ym occs cps ws we)
                accounts N _ _ _ _ Ha1) as [_ O].
    apply O. exact H.
  - destruct (accounts_fold occs cps ws we _ _ (monthAccountStep_eq ym occs cps ws we)
                accounts N _ _ _ _ Ha1) as [_ O].
    apply O. exact H.
Qed.

Lemma setAdd_NoDup x s : NoDup s -> NoDup (setAdd x s).
Proof.
  intros N. unfold setAdd. destruct (existsb (String.eqb x) s) eqn:E; [exact N|].
  apply NoDup_app; [exact N|repeat constructor; auto|].
  intros y Hy [E'|[]]. subst y.
  assert (existsb (String.eqb x) s = true); [|congruence].
  apply existsb_exists. exists x. split; [exact Hy|apply String.eqb_refl].
Qed.

Lemma fold_setAdd_NoDup {A} (f : A -> string) l s :
  NoDup s -> NoDup (fold_left (fun acc item => setAdd (f item) acc) l s).
Proof.
  revert s. induction l as [|x l IH]; intros s N; [exact N|].
  cbn. apply IH. apply setAdd_NoDup. exact N.
Qed.

Lemma listAccounts_NoDup occs cps prior : NoDup (listAccounts occs cps prior).
Proof.
  unfold listAccounts, sortStrings.
  eapply Permutation_NoDup; [apply stableSort_Permutation|].
  apply (fold_setAdd_NoDup (fun k : string => k)).
  apply (fold_setAdd_NoDup AnchorCheckpoint.accountSlug).
  apply (fold_setAdd_NoDup Occurrence.accountSlug).
  constructor.
Qed.

Section MonthsFold.
Variables (occs : list Occurrence) (cps : list AnchorCheckpoint).
Variable accounts : list AccountSlug.
Hypothesis accounts_NoDup : NoDup accounts.

Local Abbreviation step := (monthStep occs cps accounts).

Lemma months_fold_other months :
  forall P R P' R' ym,
    ~ In ym months ->
    foldM step months (P, R) = Ok (P', R') ->
    get ym R' = get ym R.
Proof.
  induction months as [|m months IH]; intros P R P' R' ym N H.
  - cbn in H. injection H as <- <-. reflexivity.
  - cbn [foldM] in H. inv_bind H. destruct a as [P1 R1].
    apply monthStep_Ok in Ha as (ws & we & cells & _ & _ & -> & _); [|exact accounts_NoDup].
    rewrite (IH _ _ _ _ ym) with (2 := H) by (intros X; apply N; right; exact X).
    apply get_set_ne. intros ->. apply N. left. reflexivity.
Qed.

Lemma monthStep_allPresent P R ym P' R' :
  step (P, R) ym = Ok (P', R') -> allPresent accounts P'.
Proof.
  intros H. apply monthStep_Ok in H as (ws & we & cells & _ & _ & _ & I & _);
    [|exact accounts_NoDup].
  intros a Ha. destruct (I a Ha) as (anchor & net & _ & -> & _). discriminate.
Qed.

Lemma anchorFor_not_initial P a s latest :
  get a P <> None ->
  AnchorMetadata.source (anchorFor P a s latest) <> initial.
Proof.
  intros Hp. destruct latest as [c|]; cbn; [discriminate|].
  unfold hasOwnProperty. destruct (get a P); [discriminate|contradiction].
Qed.

Lemma later_months_no_initial months :
  forall P R P' R',
    allPresent accounts P ->
    foldM step months (P, R) = Ok (P', R') ->
    forall ym, In ym months ->
    forall cells a c,
      get ym R' = Some cells -> get a cells = Some c ->
      AnchorMetadata.source (EndingBalanceCell.anchor c) <> initial.
Proof.
  induction months as [|m months IH]; intros P R P' R' AP H ym Hin cells a c Gc Ga;
    [destruct Hin|].
  cbn [foldM] in H. inv_bind H. destruct a0 as [P1 R1].
  pose proof (monthStep_allPresent _ _ _ _ _ Ha) as AP1.
  destruct (in_dec string_dec ym months) as [I|NI].
  - exact (IH _ _ _ _ AP1 H ym I cells a c Gc Ga).
  - destruct Hin as [->|]; [|contradiction].
    rewrite (months_fold_other _ _ _ _ _ _ NI H) in Gc.
    apply monthStep_Ok in Ha as (ws & we & cells0 & _ & _ & -> & I & O);
      [|exact accounts_NoDup].
    rewrite get_set_eq in Gc. injection Gc as <-.
    destruct (in_dec string_dec a accounts) as [Ia|Na].
    + destruct (I a Ia) as (anchor & net & W & _ & Gcell).
      rewrite Gcell in Ga. injection Ga as <-. cbn.
      apply windowCell_Ok in W as (s & _ & -> & _).
      apply anchorFor_not_initial. apply AP. exact Ia.
    + destruct (O a Na) as [_ G]. congruence.
Qed.
End MonthsFold.

(* ================================================================== *)
(** * The order of the months *)

Lemma almostEqual_Qeq a b : (a == b)%Q -> almostEqual a b = true.
Proof.
  intros E. unfold almostEqual, almostEqualTol. apply Qle_bool_iff.
  assert (Z0 : (a - b == 0)%Q) by (rewrite E; ring).
  rewrite Z0. discriminate.
Qed.

Lemma string_leb_iff a b : String.leb a b = true <-> a = b \/ String_as_OT.lt a b.
Proof.
  unfold String.leb.
  pose proof (String_as_OT.cmp_eq a b) as E.
  pose proof (String_as_OT.cmp_lt a b) as L.
  unfold String_as_OT.cmp in *.
  destruct (String.compare a b) eqn:C; split; intros H; auto; try discriminate.
  - left. apply E. reflexivity.
  - right. apply L. reflexivity.
  - destruct H as [H|H]; [apply E in H|apply L in H]; discriminate.
Qed.

Lemma string_leb_trans a b c :
  String.leb a b = true -> String.leb b c = true -> String.leb a c = true.
Proof.
  rewrite !string_leb_iff. intros [->|H1] [->|H2]; auto.
  right. eapply String_as_OT.lt_trans; eauto.
Qed.

Lemma sortStrings_sorted l :
  StronglySorted (fun x y => String.leb x y = true) (sortStrings l).
Proof.
  unfold sortStrings.
  apply (stableSort_sorted String.leb (fun _ => True)).
  - intros x y _ _. apply String.leb_total.
  - intros x y z _ _ _. apply string_leb_trans.
  - rewrite Forall_forall. auto.
Qed.



Lemma Sorted_app_prefix {A} (R : A -> A -> Prop) l1 l2 :
  Sorted R (l1 ++ l2) -> Sorted R l1.
Proof.
  induction l1 as [|x l1 IH]; [constructor|].
  cbn. intros H. inversion H as [|? ? S Hd]; subst.
  constructor; [auto|].
  destruct l1; [constructor|]. cbn in Hd. inversion Hd; subst. constructor. assumption.
Qed.

Lemma sortStrings_prefix months l1 l2 :
  sortStrings months = (l1 ++ l2)%list -> sortStrings l1 = l1.
Proof.
  intros S. pose proof (sortStrings_sorted months) as Srt. rewrite S in Srt.
  apply StronglySorted_Sorted in Srt. apply Sorted_app_prefix in Srt.
  unfold sortStrings. apply stableSort_sorted_id. exact Srt.
Qed.

Lemma months_fold_NoDup occs cps accounts months :
  NoDup accounts ->
  forall P R P' R',
    NoDup (keys R) ->
    foldM (monthStep occs cps accounts) months (P, R) = Ok (P', R') ->
    NoDup (keys R').
Proof.
  intros N. induction months as [|m months IH]; intros P R P' R' NR H.
  - cbn in H. injection H as <- <-. exact NR.
  - cbn [foldM] in H. inv_bind H. destruct a as [P1 R1].
    apply monthStep_Ok in Ha as (ws & we & cells & _ & _ & -> & _); [|exact N].
    eapply IH; [|exact H]. apply NoDup_keys_set. exact NR.
Qed.

Lemma keptAfterAnchor_ext anchor1 anchor2 o :
  AnchorMetadata.timestamp anchor1 = AnchorMetadata.timestamp anchor2 ->
  sourceIsCheckpoint (AnchorMetadata.source anchor1)
  = sourceIsCheckpoint (AnchorMetadata.source anchor2) ->
  keptAfterAnchor anchor1 o = keptAfterAnchor anchor2 o.
Proof. unfold keptAfterAnchor. intros -> ->. reflexivity. Qed.

(* ================================================================== *)
(** * The weeks of a month *)

Lemma newDate_Some t : Z.abs t <= maxTime -> newDate (Some t) = Some t.
Proof.
  intros H. unfold newDate, TimeClip.
  destruct (Z.leb_spec (Z.abs t) maxTime); [reflexivity|lia].
Qed.

Lemma TimeClip_Some t : Z.abs t <= maxTime -> TimeClip t = Some t.
Proof.
  intros H. unfold TimeClip.
  destruct (Z.leb_spec (Z.abs t) maxTime); [reflexivity|lia].
Qed.

Lemma TimeClip_inv t t' : TimeClip t = Some t' -> t' = t /\ Z.abs t <= maxTime.
Proof.
  unfold TimeClip. destruct (Z.leb_spec (Z.abs t) maxTime) as [L|L]; [|discriminate].
  intros E. injection E as <-. auto.
Qed.

Lemma setUTCDate_add t k :
  setUTCDate (Some t) (numAdd (getUTCDate (Some t)) (Some k))
  = TimeClip (t + k * msPerDay).
Proof.
  cbn [setUTCDate getUTCDate numAdd]. f_equal.
  replace (MakeDay (YearFromTime t) (MonthFromTime t) (DateFromTime t + k))
    with (MakeDay (YearFromTime t) (MonthFromTime t) (DateFromTime t) + k)
    by (unfold MakeDay; lia).
  rewrite MakeDay_of_time.
  rewrite <- (MakeDate_of_time t) at 3. unfold MakeDate. lia.
Qed.

Lemma WeekDay_range t : 0 <= WeekDay t < 7.
Proof. unfold WeekDay. apply Z.mod_pos_bound. lia. Qed.

Lemma chain_app s x e W1 W2 : chain s x W1 -> chain x e W2 -> chain s e (W1 ++ W2).
Proof.
  intros C1 C2. induction C1; [exact C2|].
  cbn. econstructor; eauto.
Qed.

Lemma chain_le s e W : chain s e W -> s <= e.
Proof. induction 1; lia. Qed.

Lemma weeksLoop_chain fuel :
  forall c e acc,
    dayAligned c -> dayAligned e ->
    - maxTime <= c -> c <= e -> e + 7 * msPerDay <= maxTime ->
    ((e - c) / msPerDay + 1 <= Z.of_nat fuel) ->
    exists W, weeksLoop fuel (Some c) (Some e) acc = Ok (acc ++ W)%list /\ chain c e W.
Proof.
  induction fuel as [|fuel IH]; intros c e acc Ac Ae Lc Lce Le F.
  - exfalso. assert (0 <= (e - c) / msPerDay) by (apply Z.div_pos; unfold msPerDay; lia). lia.
  - cbn [weeksLoop]. unfold getTime. cbn [tv_ltb].
    destruct (Z.ltb_spec c e) as [Hlt|Hge].
    2:{ exists []. rewrite app_nil_r. split; [reflexivity|].
        replace e with c by lia. constructor. }
    assert (Cm : Z.abs c <= maxTime) by (unfold msPerDay in *; lia).
    rewrite !(newDate_Some c Cm).
    pose proof (WeekDay_range c) as WD.
    set (k := if WeekDay c =? 0 then 0 else 7 - WeekDay c).
    set (k' := if WeekDay c =? 0 then 7 else 7 - WeekDay c).
    assert (Hk' : 1 <= k' <= 7) by (subst k'; destruct (Z.eqb_spec (WeekDay c) 0); lia).
    assert (E1 : (if tv_leb (getTime (setUTCDate (Some c) (numAdd (getUTCDate (Some c)) (Some k))))
                            (Some c)
                  then setUTCDate (setUTCDate (Some c) (numAdd (getUTCDate (Some c)) (Some k)))
                         (numAdd (getUTCDate (setUTCDate (Some c) (numAdd (getUTCDate (Some c)) (Some k))))
                                 (Some 7))
                  else setUTCDate (Some c) (numAdd (getUTCDate (Some c)) (Some k)))
                 = Some (c + k' * msPerDay)).
    { rewrite setUTCDate_add. subst k k'.
      destruct (Z.eqb_spec (WeekDay c) 0).
      - rewrite Z.mul_0_l, Z.add_0_r. rewrite (TimeClip_Some c Cm).
        unfold getTime. cbn [tv_leb]. rewrite Z.leb_refl.
        rewrite setUTCDate_add. apply TimeClip_Some. unfold msPerDay in *. lia.
      - rewrite TimeClip_Some by (unfold msPerDay in *; lia).
        unfold getTime. cbn [tv_leb].
        destruct (Z.leb_spec (c + (7 - WeekDay c) * msPerDay) c);
          [unfold msPerDay in *; lia|reflexivity]. }
    cbn [getUTCDay]. fold k. unfold getTime in E1. rewrite E1. clear E1.
    unfold getTime. cbn [tv_add tv_min].
    set (x := Z.min (c + k' * msPerDay + dayMs) e).
    assert (Ce : c + msPerDay <= e).
    { unfold dayAligned, msPerDay in *. Z.div_mod_to_equations. lia. }
    assert (Hx : c + msPerDay <= x <= e).
    { subst x. unfold dayMs, msPerDay in *. lia. }
    assert (Ax : dayAligned x).
    { subst x. unfold dayAligned in *.
      destruct (Z.min_spec (c + k' * msPerDay + dayMs) e) as [[_ ->]|[_ ->]]; [|exact Ae].
      unfold dayMs, msPerDay in *. Z.div_mod_to_equations. lia. }
    rewrite (newDate_Some x) by (unfold msPerDay in *; lia).
    cbn [tv_add].
    rewrite (newDate_Some (x + - dayMs)) by (unfold dayMs, msPerDay in *; lia).
    cbn [toIsoDate toISOString bind].
    edestruct (IH x e) as (W & HW & CW); try eassumption; try lia.
    { unfold msPerDay in *. lia. }
    { assert ((e - x) / msPerDay + 1 <= (e - c) / msPerDay); [|lia].
      unfold dayAligned, msPerDay in *. Z.div_mod_to_equations. lia. }
    eexists (_ :: W). rewrite HW, <- app_assoc. split; [reflexivity|].
    econstructor; [reflexivity|reflexivity|exact Cm| |exact CW].
    unfold msPerDay in *. lia.
Qed.

Lemma first_of_month_bound y m :
  0 <= m <= 11 -> MakeDay y m 1 <= 100000000 -> MakeDay y m 1 <= 99999988.
Proof.
  intros Hm Hd.
  destruct (YearFromDay_MakeDay y m 1 Hm ltac:(lia)) as (HY & HM & HD).
  remember (MakeDay y m 1) as D eqn:ED. clear ED.
  destruct (Z_le_gt_dec D 99999988) as [|G]; [assumption|exfalso].
  assert (C : D = 99999989 \/ D = 99999990 \/ D = 99999991 \/ D = 99999992
              \/ D = 99999993 \/ D = 99999994 \/ D = 99999995 \/ D = 99999996
              \/ D = 99999997 \/ D = 99999998 \/ D = 99999999 \/ D = 100000000)
    by lia.
  repeat (destruct C as [->|C];
          [vm_compute in HY; subst y; vm_compute in HM; subst m;
           vm_compute in HD; discriminate|]).
  subst D. vm_compute in HY; subst y; vm_compute in HM; subst m;
    vm_compute in HD; discriminate.
Qed.

Lemma MakeDay_normal y m d :
  MakeDay y m d = MakeDay (y + m / 12) (m mod 12) d.
Proof.
  unfold MakeDay.
  replace (m mod 12 / 12) with 0
    by (symmetry; apply Z.div_small; apply Z.mod_pos_bound; lia).
  rewrite Z.mod_mod by lia. rewrite Z.add_0_r. reflexivity.
Qed.

Lemma DateUTC_first y m t :
  DateUTC y m 1 = Some t ->
  dayAligned t /\ Z.abs t <= maxTime /\ t <= 99999988 * msPerDay.
Proof.
  unfold DateUTC. destruct y as [| |qy]; try discriminate.
  destruct m as [| |qm]; try discriminate.
  intros H. apply TimeClip_inv in H as [-> H].
  remember (if (0 <=? truncQ qy) && (truncQ qy <=? 99)
            then 1900 + truncQ qy else truncQ qy) as yr eqn:Eyr. clear Eyr.
  change (MakeTime 0 0 0 0) with 0 in *. unfold MakeDate in *.
  rewrite Z.add_0_r in *. repeat split; [|exact H|].
  - unfold dayAligned. apply Z.mod_mul. unfold msPerDay. lia.
  - rewrite MakeDay_normal in *.
    assert (MakeDay (yr + truncQ qm / 12) (truncQ qm mod 12) 1 <= 99999988);
      [|unfold msPerDay; lia].
    apply first_of_month_bound; [pose proof (Z.mod_pos_bound (truncQ qm) 12); lia|].
    unfold maxTime, msPerDay in H. lia.
Qed.

Lemma month_bounds_Ok ym d :
  startOfMonth ym = Ok d \/ monthEndExclusive ym = Ok d ->
  forall t, d = Some t ->
            dayAligned t /\ Z.abs t <= maxTime /\ t <= 99999988 * msPerDay.
Proof.
  unfold startOfMonth, monthEndExclusive.
  destruct (yearAndMonth ym) as [year month].
  destruct (falsyOpt year || falsyOpt month); [intros [H|H]; discriminate|].
  intros [H|H] t ->; injection H as H; unfold newDate in H;
    match type of H with
    | match ?x with _ => _ end = _ => destruct x as [u|] eqn:E; [|discriminate]
    end;
    pose proof (DateUTC_first _ _ _ E) as (A & B & C);
    rewrite TimeClip_Some in H by exact B; injection H as <-; auto.
Qed.

Lemma computeWeeksInMonth_chain ym s e :
  startOfMonth ym = Ok (Some s) -> monthEndExclusive ym = Ok (Some e) ->
  s <= e ->
  exists W, computeWeeksInMonth ym = Ok W /\ chain s e W.
Proof.
  intros Hs He Hse. unfold computeWeeksInMonth. rewrite Hs, He. cbn [bind].
  destruct (month_bounds_Ok ym _ (or_introl Hs) s eq_refl) as (As & Bs & _).
  destruct (month_bounds_Ok ym _ (or_intror He) e eq_refl) as (Ae & Be & Ce).
  unfold getTime. rewrite (newDate_Some s Bs).
  destruct (weeksLoop_chain (weeksFuel (Some s) (Some e)) s e [] As Ae) as (W & HW & CW).
  - lia.
  - exact Hse.
  - unfold msPerDay, maxTime in *. lia.
  - unfold weeksFuel, getTime.
    assert (0 <= (e - s) / msPerDay) by (apply Z.div_pos; unfold msPerDay; lia).
    lia.
  - exists W. split; [exact HW|exact CW].
Qed.

Lemma computeWeeksInMonth_cases ym W :
  computeWeeksInMonth ym = Ok W ->
  exists ws we,
    startOfMonth ym = Ok ws /\ monthEndExclusive ym = Ok we /\
    ((tv_ltb (getTime ws) (getTime we) = false /\ W = []) \/
     (exists s e, ws = Some s /\ we = Some e /\ s < e /\ chain s e W)).
Proof.
  intros H. pose proof H as H0. unfold computeWeeksInMonth in H.
  inv_bind H. rename a into ws. inv_bind H. rename a into we.
  exists ws, we. split; [exact Ha|]. split; [exact Ha0|].
  destruct (tv_ltb (getTime ws) (getTime we)) eqn:L.
  - right. destruct ws as [s|]; [|discriminate]. destruct we as [e|]; [|discriminate].
    cbn in L. apply Z.ltb_lt in L.
    destruct (computeWeeksInMonth_chain ym s e Ha Ha0 ltac:(lia)) as (W' & HW & CW).
    rewrite H0 in HW. injection HW as <-. exists s, e. auto.
  - left. split; [reflexivity|].
    assert (N : newDate (getTime ws) = ws).
    { destruct ws as [s|]; [|reflexivity].
      destruct (month_bounds_Ok ym _ (or_introl Ha) s eq_refl) as (_ & B & _).
      apply newDate_Some. exact B. }
    rewrite N in H. unfold weeksFuel in H.
    destruct (getTime ws) eqn:Es, (getTime we) eqn:Ee; cbn [weeksLoop] in H;
      rewrite ?Es, ?Ee, L in H; injection H as <-; reflexivity.
Qed.

(** The fuel of the loop is never exhausted: [computeWeeksInMonth] returns
    the weeks or throws what the source throws. *)
Lemma computeWeeksInMonth_fuel ym : computeWeeksInMonth ym <> Throw FuelExhausted.
Proof.
  intros H. pose proof H as H0. unfold computeWeeksInMonth in H.
  destruct (startOfMonth ym) as [ws|err] eqn:Hs.
  2:{ unfold startOfMonth in Hs. destruct (yearAndMonth ym) as [year month].
      destruct (falsyOpt year || falsyOpt month); [|discriminate].
      injection Hs as <-. discriminate. }
  destruct (monthEndExclusive ym) as [we|err] eqn:He.
  2:{ unfold monthEndExclusive in He. destruct (yearAndMonth ym) as [year month].
      destruct (falsyOpt year || falsyOpt month); [|discriminate].
      injection He as <-. discriminate. }
  cbn [bind] in H.
  destruct (tv_ltb (getTime ws) (getTime we)) eqn:L.
  - destruct ws as [s|]; [|discriminate]. destruct we as [e|]; [|discriminate].
    cbn in L. apply Z.ltb_lt in L.
    destruct (computeWeeksInMonth_chain ym s e Hs He ltac:(lia)) as (W & HW & _).
    rewrite H0 in HW. discriminate.
  - assert (N : newDate (getTime ws) = ws).
    { destruct ws as [s|]; [|reflexivity].
      destruct (month_bounds_Ok ym _ (or_introl Hs) s eq_refl) as (_ & B & _).
      apply newDate_Some. exact B. }
    rewrite N in H. unfold weeksFuel in H.
    destruct (getTime ws) eqn:Es, (getTime we) eqn:Ee; cbn [weeksLoop] in H;
      rewrite ?Es, ?Ee, L in H; discriminate.
Qed.

Lemma chain_nonempty s e W : chain s e W -> s < e -> W <> [].
Proof. intros C L. destruct C; [lia|discriminate]. Qed.

Lemma chain_first s e w W : chain s e (w :: W) -> WeekWindow.start w = Some s.
Proof. inversion 1; assumption. Qed.

Lemma chain_last s e W w :
  chain s e W -> lastItem W = Some w -> WeekWindow.end_ w = Some e.
Proof.
  induction 1 as [|s x e w0 ws Hs Hx B L C IH]; [discriminate|].
  rewrite lastItem_cons. destruct (lastItem ws) as [b|] eqn:E.
  - intros H. injection H as <-. apply IH. reflexivity.
  - intros H. injection H as <-. inversion C; subst; [exact Hx|].
    rewrite lastItem_cons in E. destruct (lastItem _); discriminate.
Qed.

Lemma chain_adjacent s e W :
  chain s e W ->
  forall i w1 w2,
    nth_error W i = Some w1 -> nth_error W (S i) = Some w2 ->
    WeekWindow.start w2 = WeekWindow.end_ w1.
Proof.
  induction 1 as [|s x e w0 ws Hs Hx B L C IH]; intros i w1 w2 H1 H2.
  - destruct i; discriminate.
  - destruct i as [|i].
    + cbn in H1, H2. injection H1 as <-. destruct ws as [|w' ws']; [discriminate|].
      cbn in H2. injection H2 as <-. rewrite Hx. apply (chain_first _ _ _ _ C).
    + cbn in H1. change (nth_error ws (S i) = Some w2) in H2. eapply IH; eauto.
Qed.

Lemma chain_proper s e W :
  chain s e W ->
  Forall (fun w => exists a b, WeekWindow.start w = Some a /\
                               WeekWindow.end_ w = Some b /\ a < b) W.
Proof. induction 1; constructor; eauto. Qed.

(* ================================================================== *)
(** * Ending balances over adjacent windows *)

Lemma occurrenceInWindow_valid a ws we o :
  occurrenceInWindow a ws we o = true ->
  exists t, timeOfString (Occurrence.timestamp o) = Some t /\
            tv_geb (Some t) (getTime ws) = true /\ tv_ltb (Some t) (getTime we) = true.
Proof.
  unfold occurrenceInWindow, inWindow. intros H.
  apply andb_prop in H as [_ H]. apply andb_prop in H as [H1 H2].
  destruct (timeOfString (Occurrence.timestamp o)) as [t|]; [eauto|].
  unfold tv_geb, tv_leb in H1. destruct (getTime ws); discriminate.
Qed.

Lemma windowCell_ending occs cps P a ws we anchor net :
  wfDate ws ->
  windowCell occs cps P a ws we = Ok (anchor, net) ->
  (AnchorMetadata.balance anchor + net)%Q
  = endingBalanceOf occs cps a ws we (balanceOrZero P a).
Proof.
  intros Wf H. apply windowCell_Ok in H as (s & Hs & An & Net).
  unfold endingBalanceOf. subst net.
  destruct (latestCheckpoint _) as [c|] eqn:L; cbn [anchorFor] in An; subst anchor;
    cbn [AnchorMetadata.balance]; f_equal; f_equal; apply filter_ext; intros o;
    destruct (occurrenceInWindow a ws we o) eqn:I; cbn [andb]; try reflexivity;
    apply occurrenceInWindow_valid in I as (t & Ht & G & _);
    unfold keptAfterAnchor;
    cbn [AnchorMetadata.timestamp AnchorMetadata.source sourceIsCheckpoint andb negb];
    rewrite Ht.
  - apply latestBy_In in L. apply filter_In in L as [_ L].
    unfold checkpointInWindow in L. apply andb_prop in L as [_ L].
    apply inWindow_valid in L as [tc Htc].
    unfold checkpointTime. rewrite Htc. unfold tv_geb, tv_leb, tv_eqb, tv_ltb.
    destruct (Z.leb_spec tc t), (Z.eqb_spec t tc), (Z.ltb_spec tc t); cbn; lia || reflexivity.
  - unfold timeOfString, newDateOfString. rewrite parseDate_isoString by (apply Wf; exact Hs).
    unfold getTime in *. rewrite Hs in G. rewrite G.
    destruct (hasOwnProperty P a); reflexivity.
Qed.

Lemma fold_amounts l acc :
  (fold_left (fun sum o => sum + Occurrence.amount o) l acc == acc + sumAmounts l)%Q.
Proof.
  unfold sumAmounts. revert acc. induction l as [|o l IH]; intros acc; cbn.
  - ring.
  - rewrite IH, (IH (0 + Occurrence.amount o)%Q). ring.
Qed.

Lemma sumAmounts_cons o l :
  (sumAmounts (o :: l) == Occurrence.amount o + sumAmounts l)%Q.
Proof. unfold sumAmounts at 1. cbn. rewrite fold_amounts. ring. Qed.

Lemma sumAmounts_split (p q1 q2 : Occurrence -> bool) l :
  (forall o, In o l -> p o = q1 o || q2 o) ->
  (forall o, In o l -> q1 o && q2 o = false) ->
  (sumAmounts (filter p l)
   == sumAmounts (filter q1 l) + sumAmounts (filter q2 l))%Q.
Proof.
  induction l as [|o l IH]; intros U D; cbn [filter].
  - reflexivity.
  - assert (IH' := IH (fun x Hx => U x (or_intror Hx)) (fun x Hx => D x (or_intror Hx))).
    rewrite (U o (or_introl eq_refl)).
    pose proof (D o (or_introl eq_refl)) as Do.
    destruct (q1 o), (q2 o); cbn [orb] in *; try discriminate;
      rewrite ?sumAmounts_cons, IH'; ring.
Qed.

Lemma latestBy_None {A} (le : A -> A -> bool) l : latestBy le l = None -> l = [].
Proof.
  destruct l as [|x l]; [reflexivity|]. cbn.
  destruct (latestBy le l) as [b|]; [destruct (le x b)|]; discriminate.
Qed.

Section Merge.
Variables (occs : list Occurrence) (cps : list AnchorCheckpoint).
Variable a : AccountSlug.
Variables s m e : Z.
Hypothesis Hsm : s <= m.
Hypothesis Hme : m <= e.

Lemma inWindow_merge ts :
  inWindow (Some s) (Some e) ts
  = inWindow (Some s) (Some m) ts || inWindow (Some m) (Some e) ts.
Proof.
  unfold inWindow, getTime, tv_geb, tv_leb, tv_ltb.
  destruct (timeOfString ts) as [t|]; [|reflexivity].
  destruct (Z.leb_spec s t), (Z.ltb_spec t e), (Z.ltb_spec t m), (Z.leb_spec m t);
    cbn; lia || reflexivity.
Qed.

Lemma inWindow_disjoint ts :
  inWindow (Some s) (Some m) ts && inWindow (Some m) (Some e) ts = false.
Proof.
  unfold inWindow, getTime, tv_geb, tv_leb, tv_ltb.
  destruct (timeOfString ts) as [t|]; [|reflexivity].
  destruct (Z.leb_spec s t), (Z.ltb_spec t e), (Z.ltb_spec t m), (Z.leb_spec m t);
    cbn; lia || reflexivity.
Qed.

Local Abbreviation cpL := (checkpointInWindow a (Some s) (Some m)).
Local Abbreviation cpR := (checkpointInWindow a (Some m) (Some e)).
Local Abbreviation cpA := (checkpointInWindow a (Some s) (Some e)).

Lemma checkpoint_time_left c :
  cpL c = true -> exists t, checkpointTime c = Some t /\ s <= t < m.
Proof.
  unfold checkpointInWindow, inWindow, checkpointTime, getTime, tv_geb, tv_leb, tv_ltb.
  intros H. apply andb_prop in H as [_ H]. apply andb_prop in H as [H1 H2].
  destruct (timeOfString _) as [t|]; [|discriminate].
  exists t. rewrite Z.leb_le in H1. rewrite Z.ltb_lt in H2. auto.
Qed.

Lemma checkpoint_time_right c :
  cpR c = true -> exists t, checkpointTime c = Some t /\ m <= t < e.
Proof.
  unfold checkpointInWindow, inWindow, checkpointTime, getTime, tv_geb, tv_leb, tv_ltb.
  intros H. apply andb_prop in H as [_ H]. apply andb_prop in H as [H1 H2].
  destruct (timeOfString _) as [t|]; [|discriminate].
  exists t. rewrite Z.leb_le in H1. rewrite Z.ltb_lt in H2. auto.
Qed.

Lemma cpA_split c : cpA c = cpL c || cpR c.
Proof.
  unfold checkpointInWindow. rewrite inWindow_merge.
  destruct (String.eqb _ _); reflexivity.
Qed.

Lemma latest_merge_right l c :
  latestCheckpoint (filter cpR l) = Some c ->
  latestCheckpoint (filter cpA l) = Some c.
Proof.
  unfold latestCheckpoint. revert c.
  induction l as [|x l IH]; intros c H; [discriminate|].
  cbn [filter] in *. rewrite cpA_split.
  destruct (cpR x) eqn:R.
  - rewrite orb_true_r. cbn [latestBy] in *.
    destruct (latestBy checkpointLe (filter cpR l)) as [b|] eqn:LR.
    + rewrite (IH b eq_refl). exact H.
    + injection H as <-.
      destruct (latestBy checkpointLe (filter cpA l)) as [b|] eqn:LA; [|reflexivity].
      apply latestBy_In in LA. apply filter_In in LA as [Ib Hb].
      rewrite cpA_split in Hb.
      assert (cpR b = false).
      { destruct (cpR b) eqn:Rb; [|reflexivity].
        assert (Inb : In b (filter cpR l)) by (apply filter_In; auto).
        apply latestBy_None in LR. rewrite LR in Inb. contradiction. }
      rewrite H, orb_false_r in Hb.
      apply checkpoint_time_left in Hb as (tb & Hb & Rb).
      apply checkpoint_time_right in R as (tx & Hx & Rx).
      unfold checkpointLe, tv_leb. rewrite Hb, Hx.
      destruct (Z.leb_spec tx tb); [lia|reflexivity].
  - rewrite orb_false_r. destruct (cpL x) eqn:Lx; [|apply IH; exact H].
    cbn [latestBy]. rewrite (IH c H).
    apply checkpoint_time_left in Lx as (tx & Hx & Rx).
    apply latestBy_In in H. apply filter_In in H as [_ H].
    apply checkpoint_time_right in H as (tc & Hc & Rc).
    unfold checkpointLe, tv_leb. rewrite Hc, Hx.
    destruct (Z.leb_spec tx tc); [reflexivity|lia].
Qed.

Lemma filter_merge_left l :
  filter cpR l = [] -> filter cpA l = filter cpL l.
Proof.
  intros H. apply filter_ext_in. intros c Hc. rewrite cpA_split.
  destruct (cpR c) eqn:R; [|apply orb_false_r].
  assert (In c (filter cpR l)) by (apply filter_In; auto).
  rewrite H in *. contradiction.
Qed.

Lemma endingBalanceOf_merge p :
  (endingBalanceOf occs cps a (Some m) (Some e)
     (endingBalanceOf occs cps a (Some s) (Some m) p)
   == endingBalanceOf occs cps a (Some s) (Some e) p)%Q.
Proof.
  unfold endingBalanceOf at 1 3.
  destruct (latestCheckpoint (filter cpR cps)) as [c2|] eqn:L2.
  - rewrite (latest_merge_right _ _ L2).
    apply latestBy_In in L2. apply filter_In in L2 as [_ L2].
    apply checkpoint_time_right in L2 as (t2 & H2 & R2).
    assert (E : filter (fun o => occurrenceInWindow a (Some m) (Some e) o
                                 && tv_ltb (checkpointTime c2) (timeOfString (Occurrence.timestamp o))) occs
                = filter (fun o => occurrenceInWindow a (Some s) (Some e) o
                                 && tv_ltb (checkpointTime c2) (timeOfString (Occurrence.timestamp o))) occs).
    { apply filter_ext. intros o. unfold occurrenceInWindow. rewrite inWindow_merge.
      rewrite H2. unfold inWindow, getTime, tv_geb, tv_leb, tv_ltb.
      destruct (timeOfString _) as [t|]; [|rewrite !andb_false_r; reflexivity].
      destruct (String.eqb _ _); [|reflexivity]. cbn [andb].
      destruct (Z.leb_spec s t), (Z.ltb_spec t e), (Z.ltb_spec t m), (Z.leb_spec m t),
        (Z.ltb_spec t2 t); cbn; lia || reflexivity. }
    rewrite E. reflexivity.
  - apply latestBy_None in L2.
    rewrite (filter_merge_left _ L2). unfold endingBalanceOf.
    destruct (latestCheckpoint (filter cpL cps)) as [c1|] eqn:L1.
    + apply latestBy_In in L1. apply filter_In in L1 as [_ L1].
      apply checkpoint_time_left in L1 as (t1 & H1 & R1).
      rewrite (sumAmounts_split
                 (fun o => occurrenceInWindow a (Some s) (Some e) o
                           && tv_ltb (checkpointTime c1) (timeOfString (Occurrence.timestamp o)))
                 (fun o => occurrenceInWindow a (Some s) (Some m) o
                           && tv_ltb (checkpointTime c1) (timeOfString (Occurrence.timestamp o)))
                 (occurrenceInWindow a (Some m) (Some e))).
      * ring.
      * intros o _. unfold occurrenceInWindow. rewrite inWindow_merge.
        rewrite H1. unfold inWindow, getTime, tv_geb, tv_leb, tv_ltb.
        destruct (timeOfString _) as [t|]; [|rewrite !andb_false_r; reflexivity].
        destruct (String.eqb _ _); [|reflexivity]. cbn [andb].
        destruct (Z.leb_spec s t), (Z.ltb_spec t e), (Z.ltb_spec t m), (Z.leb_spec m t),
          (Z.ltb_spec t1 t); cbn; lia || reflexivity.
      * intros o _. unfold occurrenceInWindow.
        pose proof (inWindow_disjoint (Occurrence.timestamp o)) as D.
        destruct (String.eqb _ _); [|reflexivity]. cbn [andb].
        destruct (inWindow (Some s) (Some m) _), (inWindow (Some m) (Some e) _);
          cbn in *; try discriminate; try reflexivity.
        apply andb_false_r.
    + rewrite (sumAmounts_split
                 (occurrenceInWindow a (Some s) (Some e))
                 (occurrenceInWindow a (Some s) (Some m))
                 (occurrenceInWindow a (Some m) (Some e))).
      * ring.
      * intros o _. unfold occurrenceInWindow. rewrite inWindow_merge.
        destruct (String.eqb _ _); reflexivity.
      * intros o _. unfold occurrenceInWindow.
        pose proof (inWindow_disjoint (Occurrence.timestamp o)) as D.
        destruct (String.eqb _ _); [exact D|reflexivity].
Qed.
End Merge.

Lemma endingBalanceOf_proper occs cps a ws we p p' :
  (p == p')%Q ->
  (endingBalanceOf occs cps a ws we p == endingBalanceOf occs cps a ws we p')%Q.
Proof.
  intros E. unfold endingBalanceOf. destruct (latestCheckpoint _); [reflexivity|].
  rewrite E. reflexivity.
Qed.

Lemma endingBalanceOf_empty occs cps a ws we p :
  tv_ltb (getTime ws) (getTime we) = false ->
  (endingBalanceOf occs cps a ws we p == p)%Q.
Proof.
  intros E. unfold endingBalanceOf.
  assert (W : forall ts, inWindow ws we ts = false).
  { intros ts. unfold inWindow, getTime, tv_geb, tv_leb, tv_ltb in *.
    destruct (timeOfString ts) as [t|], ws as [s|], we as [e|]; try reflexivity.
    - destruct (Z.leb_spec s t), (Z.ltb_spec t e), (Z.ltb_spec s e); cbn; try reflexivity;
        try discriminate; lia.
    - apply andb_false_r. }
  assert (F1 : filter (checkpointInWindow a ws we) cps = []).
  { rewrite <- (filter_ext_in (fun _ => false)).
    - induction cps; [reflexivity|assumption].
    - intros c _. unfold checkpointInWindow. rewrite W. symmetry. apply andb_false_r. }
  assert (F2 : filter (occurrenceInWindow a ws we) occs = []).
  { rewrite <- (filter_ext_in (fun _ => false)).
    - induction occs; [reflexivity|assumption].
    - intros c _. unfold occurrenceInWindow. rewrite W. symmetry. apply andb_false_r. }
  rewrite F1, F2. cbn. unfold sumAmounts. cbn. ring.
Qed.

(* ================================================================== *)
(** * The weekly pass against the monthly pass *)

Lemma weekStep_Ok ym occs cps accounts P M week P' M' :
  NoDup accounts ->
  weekStep ym occs cps accounts (P, M) week = Ok (P', M') ->
  exists cells,
    M' = set (WeekWindow.weekKey week) cells M /\
    (forall a, In a accounts ->
       exists anchor net,
         windowCell occs cps P a (WeekWindow.start week) (WeekWindow.end_ week)
         = Ok (anchor, net) /\
         get a P' = Some (AnchorMetadata.balance anchor + net)%Q /\
         get a cells = Some (weekCellOf ym week a anchor net)) /\
    (forall b, ~ In b accounts -> get b P' = get b P /\ get b cells = None).
Proof.
  intros N H. unfold weekStep in H.
  inv_bind H. destruct a as [P1 cells]. injection H as <- <-.
  exists cells. split; [reflexivity|].
  destruct (accounts_fold occs cps _ _ _ _ (weekAccountStep_eq ym occs cps week)
              accounts N _ _ _ _ Ha) as [I O].
  split; [exact I|]. intros b Hb. destruct (O b Hb). auto.
Qed.

Section Weeks.
Variables (ym : string) (occs : list Occurrence) (cps : list AnchorCheckpoint).
Variable accounts : list AccountSlug.
Hypothesis accounts_NoDup : NoDup accounts.

Lemma weeks_fold_balance s e W :
  chain s e W ->
  forall P M P' M',
    foldM (weekStep ym occs cps accounts) W (P, M) = Ok (P', M') ->
    forall a, In a accounts ->
      (balanceOrZero P' a
       == endingBalanceOf occs cps a (Some s) (Some e) (balanceOrZero P a))%Q.
Proof.
  induction 1 as [s|s x e w ws Hs Hx B L C IH]; intros P M P' M' H a Ia.
  - cbn in H. injection H as <- <-.
    symmetry. apply endingBalanceOf_empty. cbn. apply Z.ltb_irrefl.
  - cbn [foldM] in H. inv_bind H. destruct a0 as [P1 M1].
    apply weekStep_Ok in Ha as (cells & _ & I & _); [|exact accounts_NoDup].
    destruct (I a Ia) as (anchor & net & W & GP & _).
    rewrite Hs, Hx in W.
    apply windowCell_ending in W; [|intros t Ht; injection Ht as <-; exact B].
    rewrite (IH _ _ _ _ H a Ia).
    unfold balanceOrZero at 1. rewrite GP, W.
    apply endingBalanceOf_merge; [lia|exact (chain_le _ _ _ C)].
Qed.

Lemma weeks_fold_last W :
  forall P M P' M' w,
    foldM (weekStep ym occs cps accounts) W (P, M) = Ok (P', M') ->
    lastItem W = Some w ->
    exists cells,
      get (WeekWindow.weekKey w) M' = Some cells /\
      forall a c, get a cells = Some c ->
                  In a accounts /\
                  get a P' = Some (WeeklyBalanceCell.balance c).
Proof.
  induction W as [|w0 W IH]; intros P M P' M' w H L; [discriminate|].
  cbn [foldM] in H. inv_bind H. destruct a as [P1 M1].
  rewrite lastItem_cons in L. destruct (lastItem W) as [b|] eqn:E.
  - injection L as <-. eapply IH; eauto.
  - injection L as <-. destruct W as [|w1 W].
    2:{ rewrite lastItem_cons in E. destruct (lastItem W); discriminate. }
    cbn in H. injection H as <- <-.
    apply weekStep_Ok in Ha as (cells & -> & I & O); [|exact accounts_NoDup].
    exists cells. split; [apply get_set_eq|].
    intros a c Gc. destruct (in_dec string_dec a accounts) as [Ia|Na].
    + split; [exact Ia|]. destruct (I a Ia) as (anchor & net & _ & GP & GC).
      rewrite GC in Gc. injection Gc as <-. exact GP.
    + destruct (O a Na) as [_ G]. congruence.
Qed.

(** One month, in the monthly pass and in the weekly pass. *)
Lemma month_pair Pm Rm Pw Rw Pm' Rm' Pw' Rw' :
  agree accounts Pm Pw ->
  monthStep occs cps accounts (Pm, Rm) ym = Ok (Pm', Rm') ->
  weeklyMonthStep occs cps accounts (Pw, Rw) ym = Ok (Pw', Rw') ->
  agree accounts Pm' Pw' /\
  exists cells wmap,
    Rm' = set ym cells Rm /\ Rw' = set ym wmap Rw /\
    forall W w wcells a wc mc,
      computeWeeksInMonth ym = Ok W -> lastItem W = Some w ->
      get (WeekWindow.weekKey w) wmap = Some wcells ->
      get a wcells = Some wc -> get a cells = Some mc ->
      (WeeklyBalanceCell.balance wc == EndingBalanceCell.balance mc)%Q.
Proof.
  intros Ag Hm Hw.
  apply monthStep_Ok in Hm as (ws & we & cells & Sm & Em & -> & I & O);
    [|exact accounts_NoDup].
  unfold weeklyMonthStep in Hw. inv_bind Hw. rename a into W.
  inv_bind Hw. destruct a as [Pw1 wmap]. injection Hw as <- <-.
  assert (Wf : wfDate ws).
  { intros t Ht. unfold getTime in Ht.
    destruct (month_bounds_Ok ym ws (or_introl Sm) t Ht) as (_ & B & _). exact B. }
  assert (Mb : forall a, In a accounts ->
             exists mc, get a cells = Some mc /\
               get a Pm' = Some (EndingBalanceCell.balance mc) /\
               EndingBalanceCell.balance mc
               = endingBalanceOf occs cps a ws we (balanceOrZero Pm a)).
  { intros a Ia. destruct (I a Ia) as (anchor & net & Wc & GP & GC).
    exists (monthCellOf ym a anchor net). split; [exact GC|]. split; [exact GP|].
    cbn. apply windowCell_ending; assumption. }
  destruct (computeWeeksInMonth_cases ym W Ha) as (ws' & we' & Sm' & Em' & Cases).
  rewrite Sm in Sm'. injection Sm' as <-. rewrite Em in Em'. injection Em' as <-.
  destruct Cases as [[Lt ->]|(s & e & -> & -> & Lt & C)].
  - cbn in Ha0. injection Ha0 as <- <-. split.
    + intros a Ia. destruct (Mb a Ia) as (mc & _ & GP & Eq).
      unfold balanceOrZero at 1. rewrite GP, Eq.
      rewrite endingBalanceOf_empty by exact Lt. apply Ag. exact Ia.
    + exists cells, []. split; [reflexivity|]. split; [reflexivity|].
      intros W w wcells a wc mc HW. rewrite Ha in HW. injection HW as <-. discriminate.
  - split.
    + intros a Ia. destruct (Mb a Ia) as (mc & _ & GP & Eq).
      unfold balanceOrZero at 1. rewrite GP, Eq.
      rewrite (weeks_fold_balance _ _ _ C _ _ _ _ Ha0 a Ia).
      apply endingBalanceOf_proper. apply Ag. exact Ia.
    + exists cells, wmap. split; [reflexivity|]. split; [reflexivity|].
      intros W' w wcells a wc mc HW L Gw Gwc Gmc.
      rewrite Ha in HW. injection HW as <-.
      destruct (weeks_fold_last _ _ _ _ _ _ Ha0 L) as (wcells' & Gw' & Hc).
      rewrite Gw in Gw'. injection Gw' as <-.
      destruct (Hc a wc Gwc) as [Ia GP].
      destruct (Mb a Ia) as (mc' & Gmc' & _ & Eq).
      rewrite Gmc in Gmc'. injection Gmc' as <-.
      rewrite Eq.
      pose proof (weeks_fold_balance _ _ _ C _ _ _ _ Ha0 a Ia) as Bal.
      unfold balanceOrZero at 1 in Bal. rewrite GP in Bal. rewrite Bal.
      apply endingBalanceOf_proper. symmetry. apply Ag. exact Ia.
Qed.
End Weeks.

Lemma months_pair occs cps accounts months :
  NoDup accounts ->
  forall Pm Rm Pw Rw Pm' Rm' Pw' Rw',
    agree accounts Pm Pw -> reconciled Rm Rw ->
    foldM (monthStep occs cps accounts) months (Pm, Rm) = Ok (Pm', Rm') ->
    foldM (weeklyMonthStep occs cps accounts) months (Pw, Rw) = Ok (Pw', Rw') ->
    reconciled Rm' Rw'.
Proof.
  intros N. induction months as [|m months IH]; intros Pm Rm Pw Rw Pm' Rm' Pw' Rw' Ag Rc Hm Hw.
  - cbn in Hm, Hw. injection Hm as <- <-. injection Hw as <- <-. exact Rc.
  - cbn [foldM] in Hm, Hw. inv_bind Hm. destruct a as [Pm1 Rm1].
    inv_bind Hw. destruct a as [Pw1 Rw1].
    destruct (month_pair m occs cps accounts N _ _ _ _ _ _ _ _ Ag Ha Ha0)
      as (Ag1 & cells & wmap & -> & -> & Here).
    eapply IH; [exact Ag1| |exact Hm|exact Hw].
    intros ym' cells' wmap' W w wcells a wc mc G1 G2.
    destruct (string_dec ym' m) as [->|Ne].
    + rewrite get_set_eq in G1. rewrite get_set_eq in G2.
      injection G1 as <-. injection G2 as <-.
      apply Here.
    + rewrite get_set_ne in G1 by exact Ne. rewrite get_set_ne in G2 by exact Ne.
      eapply Rc; eauto.
Qed.

(* ================================================================== *)
(** * Month windows *)

Lemma truncQ_Z q z : (q == inject_Z z)%Q -> truncQ q = z.
Proof.
  intros E. unfold truncQ.
  assert (F : Qfloor q = z) by (rewrite E; apply Qfloor_Z).
  destruct (Qle_bool 0 q) eqn:L; [exact F|].
  assert (Qfloor (- q) = - z).
  { rewrite E. rewrite <- inject_Z_opp. apply Qfloor_Z. }
  lia.
Qed.

Lemma day_times_ms d :
  Day (d * msPerDay) = d /\ TimeWithinDay (d * msPerDay) = 0.
Proof.
  unfold Day, TimeWithinDay. split.
  - apply Z.div_mul. unfold msPerDay. lia.
  - apply Z.mod_mul. unfold msPerDay. lia.
Qed.

(** The time value of the first day of month [m] (0-11) of year [y]. *)
Lemma first_instant y m :
  0 <= m <= 11 ->
  let t := MakeDate (MakeDay y m 1) (MakeTime 0 0 0 0) in
  YearFromTime t = y /\ MonthFromTime t = m /\ DateFromTime t = 1 /\
  TimeWithinDay t = 0.
Proof.
  intros Hm. cbv zeta. change (MakeTime 0 0 0 0) with 0.
  unfold MakeDate. rewrite Z.add_0_r.
  destruct (day_times_ms (MakeDay y m 1)) as [D T].
  destruct (YearFromDay_MakeDay y m 1 Hm ltac:(lia)) as (HY & HM & HD).
  assert (Y : YearFromTime (MakeDay y m 1 * msPerDay) = y)
    by (unfold YearFromTime; rewrite D; exact HY).
  assert (M : MonthFromTime (MakeDay y m 1 * msPerDay) = m)
    by (unfold MonthFromTime, DayWithinYear; rewrite Y, D; exact HM).
  repeat split; auto.
  unfold DateFromTime, DayWithinYear. rewrite M, Y, D. lia.
Qed.

Lemma first_instant_range y m :
  100 <= y <= 275759 -> 0 <= m <= 12 ->
  Z.abs (MakeDate (MakeDay y m 1) (MakeTime 0 0 0 0)) <= maxTime.
Proof.
  intros Hy Hm. change (MakeTime 0 0 0 0) with 0. unfold MakeDate.
  rewrite Z.add_0_r.
  assert (L : DayFromYear 100 <= DayFromYear y) by (apply DayFromYear_le; lia).
  assert (U : DayFromYear (y + 1) <= DayFromYear 275760) by (apply DayFromYear_le; lia).
  assert (L0 : -100000000 <= DayFromYear 100) by (vm_compute; discriminate).
  assert (U0 : DayFromYear 275760 <= 100000000) by (vm_compute; discriminate).
  rewrite DayFromYear_succ in U.
  assert (B : DayFromYear y <= MakeDay y m 1 <= DayFromYear y + DaysInYear y).
  { rewrite MakeDay_normal. unfold MakeDay.
    replace (m mod 12 / 12) with 0
      by (symmetry; apply Z.div_small; apply Z.mod_pos_bound; lia).
    rewrite Z.mod_mod by lia. rewrite Z.add_0_r.
    destruct (Z.eq_dec m 12) as [->|Ne].
    - change (12 / 12) with 1. change (12 mod 12) with 0.
      rewrite DayFromYear_succ. cbn [DayFromMonth Z.eqb]. unfold DaysInYear.
      destruct (InLeapYear y); lia.
    - replace (m / 12) with 0 by (symmetry; apply Z.div_small; lia).
      rewrite Z.mod_small by lia. rewrite Z.add_0_r.
      unfold DaysInYear, DayFromMonth.
      repeat match goal with
             | |- context [?a =? ?b] => destruct (Z.eqb_spec a b)
             end; destruct (InLeapYear y); cbn [leapDays]; lia. }
  unfold DaysInYear in *. unfold maxTime, msPerDay.
  destruct (InLeapYear y); lia.
Qed.

(* ================================================================== *)
(** * Both passes return on well-formed input *)

Section Returns.
Variables (occs : list Occurrence) (cps : list AnchorCheckpoint).
Hypothesis WF : wellFormedTimestamps occs cps.

Lemma filterOccurrencesForWindow_returns a ws we :
  filterOccurrencesForWindow occs a ws we
  = Ok (filter (occurrenceInWindow a ws we) occs).
Proof.
  unfold filterOccurrencesForWindow. apply filterM_pure.
  destruct WF as [Vo _]. rewrite Forall_forall in *. intros o Ho.
  destruct (Vo o Ho) as [t Ht]. unfold occurrenceInWindow, inWindow.
  destruct (String.eqb (Occurrence.accountSlug o) a); cbn [negb andb]; [|reflexivity].
  rewrite (toUtcDate_valid _ _ Ht). cbn [bind]. unfold getTime. rewrite Ht. reflexivity.
Qed.

Lemma filterCheckpointsForWindow_returns a ws we :
  filterCheckpointsForWindow cps a ws we
  = Ok (filter (checkpointInWindow a ws we) cps).
Proof.
  unfold filterCheckpointsForWindow. apply filterM_pure.
  destruct WF as [_ Vc]. rewrite Forall_forall in *. intros c Hc.
  destruct (Vc c Hc) as [t Ht]. unfold checkpointInWindow, inWindow.
  destruct (String.eqb (AnchorCheckpoint.accountSlug c) a); cbn [negb andb]; [|reflexivity].
  unfold checkpointTime in Ht.
  rewrite (toUtcDate_valid _ _ Ht). cbn [bind]. unfold getTime. rewrite Ht. reflexivity.
Qed.

Lemma windowCell_returns P a s we :
  Z.abs s <= maxTime ->
  exists anchor net, windowCell occs cps P a (Some s) we = Ok (anchor, net).
Proof.
  intros B. unfold windowCell.
  rewrite filterOccurrencesForWindow_returns, filterCheckpointsForWindow_returns.
  cbn [bind]. rewrite sortIsoStrings_Ok by apply filter_checkpoints_valid.
  cbn [bind].
  assert (R : exists anchor,
             resolveAnchor P a (Some s)
               (stableSort checkpointLe (filter (checkpointInWindow a (Some s) we) cps))
             = Ok anchor /\
             exists t, timeOfString (AnchorMetadata.timestamp anchor) = Some t).
  { unfold resolveAnchor. cbn [toIsoTimestamp toISOString bind].
    rewrite (lastItem_stableSort checkpointLe validCheckpoint
               checkpointLe_total checkpointLe_trans)
      by apply filter_checkpoints_valid.
    destruct (latestBy checkpointLe _) as [c|] eqn:L.
    - apply latestBy_In in L.
      pose proof (filter_checkpoints_valid a (Some s) we cps) as V.
      rewrite Forall_forall in V. destruct (V c L) as [t Ht].
      unfold checkpointTime in Ht. rewrite (toUtcDate_valid _ _ Ht). cbn [bind].
      eexists. split; [reflexivity|]. cbn. eauto.
    - eexists. split; [reflexivity|]. cbn. exists s.
      unfold timeOfString, newDateOfString, getTime.
      apply parseDate_isoString. exact B. }
  destruct R as (anchor & -> & t & Ht). cbn [bind].
  unfold sumAfterAnchor. rewrite (toUtcDate_valid _ _ Ht). cbn [bind].
  erewrite filterM_pure.
  - cbn [bind]. eauto.
  - rewrite Forall_forall. intros o Ho. apply filter_In in Ho as [_ Ho].
    apply occurrenceInWindow_valid in Ho as (to & Hto & _).
    rewrite (toUtcDate_valid _ _ Hto). cbn [bind].
    instantiate (1 := fun o =>
      negb (tv_ltb (timeOfString (Occurrence.timestamp o)) (Some t))
      && negb (sourceIsCheckpoint (AnchorMetadata.source anchor)
               && tv_eqb (timeOfString (Occurrence.timestamp o)) (Some t))).
    cbn beta. unfold getTime. rewrite Hto.
    destruct (tv_ltb (Some to) (Some t)); [reflexivity|]. cbn [negb andb].
    destruct (sourceIsCheckpoint _ && tv_eqb (Some to) (Some t)); reflexivity.
Qed.

Lemma accounts_fold_returns {Cell : Type}
    (step : Rec Q * Rec Cell -> AccountSlug -> result (Rec Q * Rec Cell))
    (mkCell : AccountSlug -> AnchorMetadata -> Q -> Cell) s we :
  Z.abs s <= maxTime ->
  (forall P C a,
     step (P, C) a =
     (r <- windowCell occs cps P a (Some s) we ;;
      Ok (set a (AnchorMetadata.balance (fst r) + snd r)%Q P,
          set a (mkCell a (fst r) (snd r)) C))) ->
  forall accounts st, exists st', foldM step accounts st = Ok st'.
Proof.
  intros B E accounts. induction accounts as [|a accounts IH]; intros [P C].
  - eexists. reflexivity.
  - cbn [foldM]. rewrite E.
    destruct (windowCell_returns P a s we B) as (anchor & net & ->). cbn [bind].
    apply IH.
Qed.

Lemma monthStep_returns accounts st ym :
  wellFormedMonth ym ->
  exists st', monthStep occs cps accounts st ym = Ok st'.
Proof.
  intros (s & we & Hs & He). destruct st as [P R]. unfold monthStep.
  rewrite Hs, He. cbn [bind].
  destruct (month_bounds_Ok ym _ (or_introl Hs) s eq_refl) as (_ & B & _).
  destruct (accounts_fold_returns _ _ s we B
              (monthAccountStep_eq ym occs cps (Some s) we) accounts (P, []))
    as ([P' C'] & ->).
  cbn [bind]. eauto.
Qed.

Lemma weeks_fold_returns ym accounts s e W :
  chain s e W ->
  forall st, exists st', foldM (weekStep ym occs cps accounts) W st = Ok st'.
Proof.
  induction 1 as [s|s x e w ws Hs Hx B L C IH]; intros [P M].
  - eexists. reflexivity.
  - cbn [foldM]. unfold weekStep at 1.
    assert (E : forall P0 C0 a,
               weekAccountStep ym occs cps w (P0, C0) a =
               (r <- windowCell occs cps P0 a (Some s) (Some x) ;;
                Ok (set a (AnchorMetadata.balance (fst r) + snd r)%Q P0,
                    set a (weekCellOf ym w a (fst r) (snd r)) C0))).
    { intros P0 C0 a. rewrite weekAccountStep_eq, Hs, Hx. reflexivity. }
    destruct (accounts_fold_returns _ _ s (Some x) B E accounts (P, []))
      as ([P' C'] & ->).
    cbn [bind]. apply IH.
Qed.

Lemma weeklyMonthStep_returns accounts st ym :
  wellFormedMonth ym ->
  exists st', weeklyMonthStep occs cps accounts st ym = Ok st'.
Proof.
  intros (s & we & Hs & He). destruct st as [P R]. unfold weeklyMonthStep.
  destruct (computeWeeksInMonth ym) as [W|err] eqn:HW.
  - cbn [bind].
    destruct (computeWeeksInMonth_cases ym W HW) as (ws' & we' & Hs' & He' & Cases).
    destruct Cases as [[_ ->]|(s' & e' & _ & _ & _ & C)].
    + cbn. eauto.
    + destruct (weeks_fold_returns ym accounts _ _ _ C (P, [])) as ([P' M'] & ->).
      cbn [bind]. eauto.
  - exfalso. unfold computeWeeksInMonth in HW. rewrite Hs, He in HW. cbn [bind] in HW.
    destruct (month_bounds_Ok ym _ (or_introl Hs) s eq_refl) as (_ & B & _).
    unfold getTime in HW. rewrite (newDate_Some s B) in HW.
    destruct we as [e|].
    + destruct (Z_le_gt_dec s e) as [Le|Gt].
      * destruct (computeWeeksInMonth_chain ym s e Hs He Le) as (W & HW' & _).
        unfold computeWeeksInMonth in HW'. rewrite Hs, He in HW'. cbn [bind] in HW'.
        unfold getTime in HW'. rewrite (newDate_Some s B) in HW'. congruence.
      * unfold weeksFuel, getTime in HW. cbn [weeksLoop getTime tv_ltb] in HW.
        unfold getTime in HW. cbn [tv_ltb] in HW.
        destruct (Z.ltb_spec s e); [lia|discriminate].
    + cbn in HW. discriminate.
Qed.

Lemma foldM_returns {S A} (f : S -> A -> result S) (ok : A -> Prop) l :
  (forall s a, ok a -> exists s', f s a = Ok s') ->
  Forall ok l -> forall s, exists s', foldM f l s = Ok s'.
Proof.
  intros H. induction 1 as [|a l Ha _ IH]; intros s.
  - eexists. reflexivity.
  - cbn [foldM]. destruct (H s a Ha) as (s1 & ->). cbn [bind]. apply IH.
Qed.
End Returns.

(** On well-formed input both passes return. *)
Lemma passes_return months occs prior cps :
  wellFormedTimestamps occs cps ->
  Forall wellFormedMonth months ->
  (exists monthly, computeEndingBalances months occs prior cps = Ok monthly) /\
  (exists weekly, computeWeeklyBalances months occs prior cps = Ok weekly).
Proof.
  intros WF WM.
  assert (WS : Forall wellFormedMonth (sortStrings months)).
  { rewrite Forall_forall in *. intros ym H. apply WM.
    eapply Permutation_in; [symmetry; apply stableSort_Permutation|exact H]. }
  unfold computeEndingBalances, computeWeeklyBalances. split.
  - destruct (foldM_returns (monthStep occs cps (listAccounts occs cps prior))
                wellFormedMonth (sortStrings months)
                (fun st ym H => monthStep_returns occs cps WF _ st ym H) WS
                (clonePriorBalances prior, [])) as ([P R] & ->).
    cbn. eauto.
  - destruct (foldM_returns (weeklyMonthStep occs cps (listAccounts occs cps prior))
                wellFormedMonth (sortStrings months)
                (fun st ym H => weeklyMonthStep_returns occs cps WF _ st ym H) WS
                (clonePriorBalances prior, [])) as ([P R] & ->).
    cbn. eauto.
Qed.

(** The two passes of the engine with exact sums reconcile. *)
Lemma passes_reconciled months occs prior cps monthly weekly :
  computeEndingBalances months occs prior cps = Ok monthly ->
  computeWeeklyBalances months occs prior cps = Ok weekly ->
  reconciled monthly weekly.
Proof.
  unfold computeEndingBalances, computeWeeklyBalances. intros Hm Hw.
  inv_bind Hm. destruct a as [Pm Rm]. injection Hm as <-.
  inv_bind Hw. destruct a as [Pw Rw]. injection Hw as <-.
  pose proof (listAccounts_NoDup occs cps prior) as N.
  eapply (months_pair occs cps _ (sortStrings months) N); [| |exact Ha|exact Ha0].
  - intros x _. reflexivity.
  - intros ym' c' m' W' w' wc' a' x y G. discriminate.
Qed.

(* ================================================================== *)
(* ================================================================== *)
(** * Binary64 arithmetic on whole numbers *)

Lemma round64_whole z : Z.abs z <= 2 ^ 53 -> round64 (inject_Z z) = inject_Z z.
Proof.
  intros B. unfold round64. cbn [inject_Z Qnum Qden].
  destruct (Z.eqb_spec (Z.abs z) 0) as [E0|N0].
  { replace z with 0 by lia. reflexivity. }
  set (n := Z.abs z) in *.
  assert (Pn : 0 < n) by lia.
  assert (L : floorLog2 n 1 = Z.log2 n).
  { unfold floorLog2. change (Z.log2 1) with 0. rewrite Z.sub_0_r.
    pose proof (Z.log2_nonneg n) as NN.
    destruct (Z.leb_spec 0 (Z.log2 n)); [|lia].
    pose proof (Z.log2_spec n Pn) as [Lo _].
    destruct (Z.leb_spec (1 * 2 ^ Z.log2 n) n); [reflexivity|lia]. }
  rewrite L. clear L.
  pose proof (Z.log2_nonneg n) as NN.
  rewrite Z.max_l by lia.
  assert (R : (if 0 <=? Z.log2 n - 52
               then inject_Z (roundHalfEven n (1 * 2 ^ (Z.log2 n - 52)) * 2 ^ (Z.log2 n - 52))
               else
                 if roundHalfEven (n * 2 ^ (- (Z.log2 n - 52))) 1
                    mod 2 ^ (- (Z.log2 n - 52)) =? 0
                 then inject_Z (roundHalfEven (n * 2 ^ (- (Z.log2 n - 52))) 1
                                / 2 ^ (- (Z.log2 n - 52)))
                 else Qmake (roundHalfEven (n * 2 ^ (- (Z.log2 n - 52))) 1)
                            (Z.to_pos (2 ^ (- (Z.log2 n - 52)))))
              = inject_Z n).
  { assert (One : forall k, roundHalfEven k 1 = k).
    { intros k. unfold roundHalfEven. rewrite Z.div_1_r, Z.mod_1_r. reflexivity. }
    destruct (Z.leb_spec 0 (Z.log2 n - 52)) as [Ge|Lt].
    - (* 2^52 <= n <= 2^53 *)
      assert (C : Z.log2 n = 52 \/ Z.log2 n = 53).
      { assert (Z.log2 n <= 53); [|lia].
        destruct (Z_le_gt_dec (Z.log2 n) 53) as [|G]; [assumption|exfalso].
        assert (2 ^ 54 <= n); [|lia].
        apply Z.log2_le_pow2; lia. }
      destruct C as [C|C]; rewrite C.
      + change (52 - 52) with 0. change (1 * 2 ^ 0) with 1. rewrite One.
        f_equal. lia.
      + change (53 - 52) with 1. change (1 * 2 ^ 1) with 2.
        assert (En : n = 2 ^ 53).
        { pose proof (Z.log2_spec n Pn) as [Lo _]. rewrite C in Lo. lia. }
        rewrite En. vm_compute. reflexivity.
    - rewrite One. set (k := - (Z.log2 n - 52)) in *.
      assert (Pk : 0 < 2 ^ k) by (apply Z.pow_pos_nonneg; lia).
      rewrite Z.mod_mul by lia. cbn [Z.eqb]. rewrite Z.div_mul by lia. reflexivity. }
  rewrite R. subst n. destruct (Z.ltb_spec z 0) as [Neg|Pos].
  - unfold Qopp, inject_Z. cbn [Qnum Qden]. f_equal. lia.
  - f_equal. lia.
Qed.

Lemma wholeWithin_inject B q : wholeWithin B q -> q = inject_Z (Qnum q).
Proof. destruct q as [n d]. intros [D _]. cbn in *. subst d. reflexivity. Qed.

Lemma round64_within B q : wholeWithin B q -> B <= 2 ^ 53 -> round64 q = q.
Proof.
  intros W L. rewrite (wholeWithin_inject B q W). apply round64_whole.
  destruct W as [_ W]. lia.
Qed.

Lemma wholeWithin_le B B' q : B <= B' -> wholeWithin B q -> wholeWithin B' q.
Proof. intros L [D W]. split; [exact D|lia]. Qed.

Lemma wholeWithin_0 B : 0 <= B -> wholeWithin B 0%Q.
Proof. intros L. split; [reflexivity|cbn; lia]. Qed.

Lemma wholeWithin_plus B S x y :
  wholeWithin B x -> wholeWithin S y -> wholeWithin (B + S) (x + y)%Q.
Proof.
  destruct x as [nx dx], y as [ny dy]. unfold wholeWithin. cbn [Qnum Qden].
  intros [Dx Wx] [Dy Wy]. subst dx dy.
  unfold Qplus. cbn [Qnum Qden]. split; [reflexivity|].
  change (Z.pos 1) with 1. lia.
Qed.

Lemma whole_magnitude q : whole q = true -> wholeWithin (magnitude q) q.
Proof.
  unfold whole, wholeWithin, magnitude. intros H. apply Pos.eqb_eq in H. split; [exact H|lia].
Qed.

Lemma total_cons {A} (f : A -> Z) x l : total f (x :: l) = f x + total f l.
Proof. reflexivity. Qed.

Lemma total_nonneg {A} (f : A -> Z) l : (forall x, 0 <= f x) -> 0 <= total f l.
Proof.
  intros H. induction l as [|x l IH]; [cbn; lia|].
  rewrite total_cons. specialize (H x). lia.
Qed.

Lemma total_In {A} (f : A -> Z) l x :
  (forall y, 0 <= f y) -> In x l -> f x <= total f l.
Proof.
  intros H. induction l as [|y l IH]; [intros []|]. rewrite total_cons. intros [->|I].
  - pose proof (total_nonneg f l H). lia.
  - specialize (IH I). specialize (H y). lia.
Qed.

Lemma total_app {A} (f : A -> Z) l1 l2 : total f (l1 ++ l2) = total f l1 + total f l2.
Proof.
  induction l1 as [|x l1 IH]; [reflexivity|].
  cbn [app]. rewrite !total_cons, IH. lia.
Qed.

Lemma total_Permutation {A} (f : A -> Z) l l' :
  Permutation l l' -> total f l = total f l'.
Proof. induction 1; rewrite ?total_cons; lia. Qed.

Lemma magnitude_nonneg q : 0 <= magnitude q.
Proof. unfold magnitude. lia. Qed.

(** An equal pair passes the comparison, however the difference is
    rounded. *)
Lemma almostEqual64_Qeq a b : (a == b)%Q -> Binary64.almostEqual a b = true.
Proof.
  intros E. unfold Binary64.almostEqual.
  assert (Z0 : Qnum (a - b) = 0).
  { unfold Qeq in E. destruct a as [na da], b as [nb db]. cbn in *. lia. }
  assert (R : round64 (a - b) = 0%Q).
  { unfold round64. rewrite Z0. reflexivity. }
  rewrite R. vm_compute. reflexivity.
Qed.

(* ================================================================== *)
(** * On whole numbers within 2^52 the two engines agree *)

Lemma filterM_total {A} (p : A -> result bool) (f : A -> Z) (G : A -> Prop) l :
  (forall x, 0 <= f x) ->
  forall r, filterM p l = Ok r -> Forall G l ->
            Forall G r /\ total f r <= total f l.
Proof.
  intros Nf. induction l as [|x l IH]; intros r H F.
  - cbn in H. injection H as <-. split; [constructor|lia].
  - cbn in H. inv_bind H. inv_bind H. injection H as <-.
    apply Forall_cons_iff in F as [Gx F].
    destruct (IH _ Ha0 F) as [Fr Tr]. specialize (Nf x).
    rewrite total_cons. destruct a.
    + split; [constructor; assumption|]. rewrite total_cons. lia.
    + split; [exact Fr|lia].
Qed.

Lemma filter_total {A} (p : A -> bool) (f : A -> Z) (G : A -> Prop) l :
  (forall x, 0 <= f x) -> Forall G l ->
  Forall G (filter p l) /\ total f (filter p l) <= total f l.
Proof.
  intros Nf. induction 1 as [|x l Gx F [Fr Tr]]; [split; [constructor|cbn; lia]|].
  cbn [filter]. specialize (Nf x). rewrite total_cons. destruct (p x).
  - split; [constructor; assumption|]. rewrite total_cons. lia.
  - split; [exact Fr|lia].
Qed.

Lemma amountMagnitude_nonneg o : 0 <= amountMagnitude o.
Proof. apply magnitude_nonneg. Qed.

Lemma sums_exact l :
  Forall (fun o => whole (Occurrence.amount o) = true) l ->
  forall A acc,
    wholeWithin A acc -> A + total amountMagnitude l <= 2 ^ 53 ->
    fold_left (fun sum occ => round64 (sum + Occurrence.amount occ)%Q) l acc
    = fold_left (fun sum occ => (sum + Occurrence.amount occ)%Q) l acc.
Proof.
  induction 1 as [|o l Wo _ IH]; intros A acc Wa L; [reflexivity|].
  rewrite total_cons in L. cbn [fold_left].
  pose proof (amountMagnitude_nonneg o) as No.
  pose proof (total_nonneg amountMagnitude l amountMagnitude_nonneg) as Nl.
  assert (W1 : wholeWithin (A + amountMagnitude o) (acc + Occurrence.amount o)%Q)
    by (apply wholeWithin_plus; [exact Wa|apply whole_magnitude; exact Wo]).
  rewrite (round64_within _ _ W1) by lia.
  apply (IH (A + amountMagnitude o)); [exact W1|lia].
Qed.

Lemma fold_within l :
  Forall (fun o => whole (Occurrence.amount o) = true) l ->
  forall A acc,
    wholeWithin A acc ->
    wholeWithin (A + total amountMagnitude l)
      (fold_left (fun sum occ => (sum + Occurrence.amount occ)%Q) l acc).
Proof.
  induction 1 as [|o l Wo _ IH]; intros A acc Wa.
  - cbn. rewrite Z.add_0_r. exact Wa.
  - rewrite total_cons. cbn [fold_left].
    replace (A + (amountMagnitude o + total amountMagnitude l))
      with (A + amountMagnitude o + total amountMagnitude l) by lia.
    apply IH. apply wholeWithin_plus; [exact Wa|apply whole_magnitude; exact Wo].
Qed.

Lemma sumAmounts_within l :
  Forall (fun o => whole (Occurrence.amount o) = true) l ->
  wholeWithin (total amountMagnitude l) (sumAmounts l).
Proof.
  intros F. pose proof (fold_within l F 0 0%Q (wholeWithin_0 0 ltac:(lia))) as W.
  exact W.
Qed.

Lemma sumAfterAnchor64 anchor l :
  Forall (fun o => whole (Occurrence.amount o) = true) l ->
  total amountMagnitude l <= 2 ^ 53 ->
  Binary64.sumAfterAnchor anchor l = sumAfterAnchor anchor l.
Proof.
  intros F L. unfold Binary64.sumAfterAnchor, sumAfterAnchor.
  destruct (toUtcDate (AnchorMetadata.timestamp anchor)) as [d|e]; cbn [bind]; [|reflexivity].
  match goal with
  | |- bind ?m _ = _ => destruct m as [kept|e] eqn:K
  end; cbn [bind]; [|reflexivity].
  destruct (filterM_total _ amountMagnitude _ _ amountMagnitude_nonneg _ K F) as [Fk Tk].
  f_equal. apply (sums_exact kept Fk 0); [apply wholeWithin_0; lia|lia].
Qed.

Section ExactSums.
Variables (occs : list Occurrence) (cps : list AnchorCheckpoint).
Hypothesis whole_amounts : Forall (fun o => whole (Occurrence.amount o) = true) occs.
Hypothesis whole_checkpoints :
  Forall (fun c => whole (AnchorCheckpoint.balance c) = true) cps.

Local Abbreviation amounts := (total amountMagnitude occs).
Local Abbreviation anchors := (total balanceMagnitude cps).

Lemma windowCell64 P a ws we :
  amounts <= 2 ^ 53 ->
  Binary64.windowCell occs cps P a ws we = windowCell occs cps P a ws we.
Proof.
  intros L. unfold Binary64.windowCell, windowCell.
  destruct (filterOccurrencesForWindow occs a ws we) as [l|e] eqn:F; cbn [bind];
    [|reflexivity].
  apply filterOccurrencesForWindow_Ok in F. subst l.
  destruct (filter_total (occurrenceInWindow a ws we) amountMagnitude _ occs
              amountMagnitude_nonneg whole_amounts) as [Fl Tl].
  match goal with
  | |- bind ?m _ = _ => destruct m as [sorted|e]
  end; cbn [bind]; [|reflexivity].
  destruct (resolveAnchor P a ws sorted) as [anchor|e]; cbn [bind]; [|reflexivity].
  rewrite sumAfterAnchor64; [reflexivity|exact Fl|lia].
Qed.

Lemma window_within P a ws we anchor net B :
  windowCell occs cps P a ws we = Ok (anchor, net) ->
  wholeWithin B (balanceOrZero P a) -> anchors <= B ->
  wholeWithin B (AnchorMetadata.balance anchor) /\ wholeWithin amounts net.
Proof.
  intros W Wp Lc. apply windowCell_Ok in W as (s & _ & -> & ->). split.
  - destruct (latestCheckpoint _) as [c|] eqn:Lt; cbn [anchorFor AnchorMetadata.balance];
      [|exact Wp].
    apply latestBy_In in Lt. apply filter_In in Lt as [Ic _].
    rewrite Forall_forall in whole_checkpoints.
    apply (wholeWithin_le (balanceMagnitude c)); [|apply whole_magnitude; auto].
    pose proof (total_In balanceMagnitude cps c
                  (fun c => magnitude_nonneg (AnchorCheckpoint.balance c)) Ic).
    lia.
  - match goal with
    | |- wholeWithin _ (sumAmounts (filter ?p occs)) =>
        destruct (filter_total p amountMagnitude _ occs
                    amountMagnitude_nonneg whole_amounts) as [Fl Tl];
        apply (wholeWithin_le (total amountMagnitude (filter p occs))); [exact Tl|];
        apply sumAmounts_within; exact Fl
    end.
Qed.

Section AccountFold64.
Context {Cell : Type}.
Variables ws we : Date.
Variable mkCell : AccountSlug -> AnchorMetadata -> Q -> Q -> Cell.
Variables step step64 : Rec Q * Rec Cell -> AccountSlug -> result (Rec Q * Rec Cell).
Hypothesis step_eq : forall P Cs a,
  step (P, Cs) a =
  (r <- windowCell occs cps P a ws we ;;
   Ok (set a (AnchorMetadata.balance (fst r) + snd r)%Q P,
       set a (mkCell a (fst r) (snd r) (AnchorMetadata.balance (fst r) + snd r)%Q) Cs)).
Hypothesis step64_eq : forall P Cs a,
  step64 (P, Cs) a =
  (r <- Binary64.windowCell occs cps P a ws we ;;
   Ok (set a (round64 (AnchorMetadata.balance (fst r) + snd r)%Q) P,
       set a (mkCell a (fst r) (snd r)
                (round64 (AnchorMetadata.balance (fst r) + snd r)%Q)) Cs)).

Lemma accounts_fold64 accounts B :
  NoDup accounts -> anchors <= B -> B + amounts <= 2 ^ 53 ->
  forall P Cs,
    (forall a, In a accounts -> wholeWithin B (balanceOrZero P a)) ->
    foldM step64 accounts (P, Cs) = foldM step accounts (P, Cs).
Proof.
  intros N Lc L. pose proof (total_nonneg balanceMagnitude cps
                              (fun c => magnitude_nonneg (AnchorCheckpoint.balance c))) as Nc.
  induction N as [|a0 accounts N0 N IH]; intros P Cs Wp; [reflexivity|].
  cbn [foldM]. rewrite step64_eq, step_eq, windowCell64 by lia.
  destruct (windowCell occs cps P a0 ws we) as [[anchor net]|e] eqn:W; cbn [bind fst snd];
    [|reflexivity].
  destruct (window_within _ _ _ _ _ _ B W (Wp a0 (or_introl eq_refl)) Lc) as [Wa Wn].
  rewrite (round64_within (B + amounts)) by (try apply wholeWithin_plus; auto).
  apply IH. intros a Ha. unfold balanceOrZero. rewrite get_set_ne.
  - apply Wp. right. exact Ha.
  - intros ->. contradiction.
Qed.

Lemma accounts_fold_within accounts B P Cs P' Cs' :
  NoDup accounts -> anchors <= B ->
  boundedRec B P ->
  foldM step accounts (P, Cs) = Ok (P', Cs') ->
  boundedRec (B + amounts) P'.
Proof.
  intros N Lc Bp H.
  pose proof (total_nonneg balanceMagnitude cps
                (fun c => magnitude_nonneg (AnchorCheckpoint.balance c))) as Nc.
  pose proof (total_nonneg amountMagnitude occs amountMagnitude_nonneg) as Ns.
  destruct (accounts_fold occs cps ws we
              (fun a anchor net =>
                 mkCell a anchor net (AnchorMetadata.balance anchor + net)%Q)
              step step_eq accounts N _ _ _ _ H) as [I O].
  intros b v G. destruct (in_dec string_dec b accounts) as [Ib|Nb].
  - destruct (I b Ib) as (anchor & net & W & GP & _).
    rewrite GP in G. injection G as <-.
    assert (Wb : wholeWithin B (balanceOrZero P b)).
    { unfold balanceOrZero. destruct (get b P) as [x|] eqn:Gx;
        [exact (Bp b x Gx)|apply wholeWithin_0; lia]. }
    destruct (window_within _ _ _ _ _ _ B W Wb Lc) as [Wa Wn].
    apply wholeWithin_plus; assumption.
  - destruct (O b Nb) as [E _]. rewrite E in G.
    apply (wholeWithin_le B); [lia|]. exact (Bp b v G).
Qed.
End AccountFold64.

Lemma boundedRec_balance B P a : 0 <= B -> boundedRec B P -> wholeWithin B (balanceOrZero P a).
Proof.
  intros L Bp. unfold balanceOrZero. destruct (get a P) as [x|] eqn:G;
    [exact (Bp a x G)|apply wholeWithin_0; exact L].
Qed.

Lemma monthStep64 accounts B P R ym :
  NoDup accounts -> anchors <= B -> B + amounts <= 2 ^ 53 -> boundedRec B P ->
  Binary64.monthStep occs cps accounts (P, R) ym = monthStep occs cps accounts (P, R) ym /\
  forall P' R', monthStep occs cps accounts (P, R) ym = Ok (P', R') ->
                boundedRec (B + amounts) P'.
Proof.
  intros N Lc L Bp.
  pose proof (total_nonneg balanceMagnitude cps
                (fun c => magnitude_nonneg (AnchorCheckpoint.balance c))) as Nc.
  unfold Binary64.monthStep, monthStep.
  destruct (startOfMonth ym) as [ws|e]; cbn [bind]; [|split; [reflexivity|discriminate]].
  destruct (monthEndExclusive ym) as [we|e]; cbn [bind]; [|split; [reflexivity|discriminate]].
  assert (E1 : forall P Cs a,
    monthAccountStep ym occs cps ws we (P, Cs) a =
    (r <- windowCell occs cps P a ws we ;;
     Ok (set a (AnchorMetadata.balance (fst r) + snd r)%Q P,
         set a ((fun a anchor net e =>
                   EndingBalanceCell.mk ym a (AnchorMetadata.balance anchor) e net anchor)
                a (fst r) (snd r) (AnchorMetadata.balance (fst r) + snd r)%Q) Cs))).
  { intros P0 Cs a. unfold monthAccountStep.
    destruct (windowCell occs cps P0 a ws we) as [[? ?]|]; reflexivity. }
  assert (E2 : forall P Cs a,
    Binary64.monthAccountStep ym occs cps ws we (P, Cs) a =
    (r <- Binary64.windowCell occs cps P a ws we ;;
     Ok (set a (round64 (AnchorMetadata.balance (fst r) + snd r)%Q) P,
         set a ((fun a anchor net e =>
                   EndingBalanceCell.mk ym a (AnchorMetadata.balance anchor) e net anchor)
                a (fst r) (snd r)
                (round64 (AnchorMetadata.balance (fst r) + snd r)%Q)) Cs))).
  { intros P0 Cs a. unfold Binary64.monthAccountStep.
    destruct (Binary64.windowCell occs cps P0 a ws we) as [[? ?]|]; reflexivity. }
  rewrite (accounts_fold64 ws we _ _ _ E1 E2 accounts B N Lc L)
    by (intros a _; apply boundedRec_balance; [lia|exact Bp]).
  split; [reflexivity|].
  intros P' R' H. inv_bind H. destruct a as [P1 cells]. injection H as <- _.
  exact (accounts_fold_within ws we _ _ E1 accounts B _ _ _ _ N Lc Bp Ha).
Qed.

Lemma weekStep64 ym accounts B P M week :
  NoDup accounts -> anchors <= B -> B + amounts <= 2 ^ 53 -> boundedRec B P ->
  Binary64.weekStep ym occs cps accounts (P, M) week
  = weekStep ym occs cps accounts (P, M) week /\
  forall P' M', weekStep ym occs cps accounts (P, M) week = Ok (P', M') ->
                boundedRec (B + amounts) P'.
Proof.
  intros N Lc L Bp.
  pose proof (total_nonneg balanceMagnitude cps
                (fun c => magnitude_nonneg (AnchorCheckpoint.balance c))) as Nc.
  unfold Binary64.weekStep, weekStep.
  assert (E1 : forall P Cs a,
    weekAccountStep ym occs cps week (P, Cs) a =
    (r <- windowCell occs cps P a (WeekWindow.start week) (WeekWindow.end_ week) ;;
     Ok (set a (AnchorMetadata.balance (fst r) + snd r)%Q P,
         set a ((fun a anchor net e =>
                   WeeklyBalanceCell.mk ym a (WeekWindow.weekKey week)
                     (AnchorMetadata.balance anchor) e net anchor)
                a (fst r) (snd r) (AnchorMetadata.balance (fst r) + snd r)%Q) Cs))).
  { intros P0 Cs a. unfold weekAccountStep.
    destruct (windowCell occs cps P0 a _ _) as [[? ?]|]; reflexivity. }
  assert (E2 : forall P Cs a,
    Binary64.weekAccountStep ym occs cps week (P, Cs) a =
    (r <- Binary64.windowCell occs cps P a (WeekWindow.start week) (WeekWindow.end_ week) ;;
     Ok (set a (round64 (AnchorMetadata.balance (fst r) + snd r)%Q) P,
         set a ((fun a anchor net e =>
                   WeeklyBalanceCell.mk ym a (WeekWindow.weekKey week)
                     (AnchorMetadata.balance anchor) e net anchor)
                a (fst r) (snd r)
                (round64 (AnchorMetadata.balance (fst r) + snd r)%Q)) Cs))).
  { intros P0 Cs a. unfold Binary64.weekAccountStep.
    destruct (Binary64.windowCell occs cps P0 a _ _) as [[? ?]|]; reflexivity. }
  rewrite (accounts_fold64 _ _ _ _ _ E1 E2 accounts B N Lc L)
    by (intros a _; apply boundedRec_balance; [lia|exact Bp]).
  split; [reflexivity|].
  intros P' M' H. inv_bind H. destruct a as [P1 cells]. injection H as <- _.
  exact (accounts_fold_within _ _ _ _ E1 accounts B _ _ _ _ N Lc Bp Ha).
Qed.
End ExactSums.

Lemma total_const {A} (c : Z) (l : list A) :
  total (fun _ => c) l = Z.of_nat (List.length l) * c.
Proof.
  induction l as [|x l IH]; [reflexivity|].
  rewrite total_cons, IH. cbn [List.length]. lia.
Qed.

(** Two loops that agree while the state stays within a budget that each
    element draws on. *)
Lemma foldM_budget {St A} (Inv : Z -> St -> Prop) (w : A -> Z) (lim : Z)
    (f g : St -> A -> result St) l :
  (forall a, In a l -> 0 <= w a) ->
  (forall B s a, In a l -> Inv B s -> B + w a <= lim ->
     f s a = g s a /\ forall s', g s a = Ok s' -> Inv (B + w a) s') ->
  forall B s,
    Inv B s -> B + total w l <= lim ->
    foldM f l s = foldM g l s /\
    forall s', foldM g l s = Ok s' -> Inv (B + total w l) s'.
Proof.
  induction l as [|a l IH]; intros Nw Step B s I L.
  - split; [reflexivity|]. cbn. intros s' H. injection H as <-.
    rewrite Z.add_0_r. exact I.
  - rewrite total_cons in L.
    assert (Nl : 0 <= total w l).
    { clear - Nw. induction l as [|x l IH]; [cbn; lia|].
      rewrite total_cons.
      assert (0 <= w x) by (apply Nw; right; left; reflexivity).
      assert (0 <= total w l); [|lia].
      apply IH. intros y [->|Hy]; apply Nw; [left|right; right]; auto. }
    pose proof (Nw a (or_introl eq_refl)) as Na.
    destruct (Step B s a (or_introl eq_refl) I ltac:(lia)) as [E K].
    cbn [foldM]. rewrite E.
    destruct (g s a) as [s1|e] eqn:G; cbn [bind]; [|split; [reflexivity|discriminate]].
    specialize (K s1 eq_refl).
    destruct (IH ltac:(intros x Hx; apply Nw; right; exact Hx)
                 ltac:(intros B0 s0 x Hx; apply Step; right; exact Hx)
                 (B + w a) s1 K ltac:(lia)) as [E' K'].
    split; [exact E'|]. intros s' H. rewrite total_cons.
    replace (B + (w a + total w l)) with (B + w a + total w l) by lia.
    apply K'. exact H.
Qed.

Lemma get_fromEntries_In {V} (l : list (string * V)) :
  forall r a v,
    get a (fold_left (fun r kv => set (fst kv) (snd kv) r) l r) = Some v ->
    In (a, v) l \/ get a r = Some v.
Proof.
  induction l as [|[k x] l IH]; intros r a v H; [right; exact H|].
  cbn [fold_left fst snd] in H. destruct (IH _ _ _ H) as [I|G].
  - left. right. exact I.
  - destruct (String.eqb_spec a k) as [->|Ne].
    + rewrite get_set_eq in G. injection G as <-. left. left. reflexivity.
    + rewrite get_set_ne in G by exact Ne. right. exact G.
Qed.

Lemma windowsOf_pos ym : 1 <= windowsOf ym.
Proof.
  unfold windowsOf, weeksIn. destruct (computeWeeksInMonth ym); lia.
Qed.

Section ExactPasses.
Variables (occs : list Occurrence) (cps : list AnchorCheckpoint).
Variable accounts : list AccountSlug.
Hypothesis accounts_NoDup : NoDup accounts.
Hypothesis whole_amounts : Forall (fun o => whole (Occurrence.amount o) = true) occs.
Hypothesis whole_checkpoints :
  Forall (fun c => whole (AnchorCheckpoint.balance c) = true) cps.

Local Abbreviation amounts := (total amountMagnitude occs).
Local Abbreviation anchors := (total balanceMagnitude cps).

Lemma months_fold64 months B P R :
  anchors <= B -> boundedRec B P ->
  B + Z.of_nat (List.length months) * amounts <= 2 ^ 53 ->
  foldM (Binary64.monthStep occs cps accounts) months (P, R)
  = foldM (monthStep occs cps accounts) months (P, R).
Proof.
  intros Lc Bp L.
  pose proof (total_nonneg amountMagnitude occs amountMagnitude_nonneg) as Ns.
  rewrite <- total_const in L.
  refine (proj1 (foldM_budget
                   (fun B (st : Rec Q * Rec (Rec EndingBalanceCell)) =>
                      anchors <= B /\ boundedRec B (fst st))
                   (fun _ => amounts) (2 ^ 53) _ _ months _ _ B (P, R) _ L)).
  - intros; exact Ns.
  - intros B0 [P0 R0] ym _ [Lc0 Bp0] L0. cbn [fst] in Bp0.
    destruct (monthStep64 occs cps whole_amounts whole_checkpoints accounts B0 P0 R0 ym
                accounts_NoDup Lc0 L0 Bp0) as [E K].
    split; [exact E|]. intros [P' R'] H. cbn [fst]. split; [lia|eauto].
  - split; assumption.
Qed.

Lemma weeks_fold64 ym weeks B P M :
  anchors <= B -> boundedRec B P ->
  B + Z.of_nat (List.length weeks) * amounts <= 2 ^ 53 ->
  foldM (Binary64.weekStep ym occs cps accounts) weeks (P, M)
  = foldM (weekStep ym occs cps accounts) weeks (P, M) /\
  forall P' M',
    foldM (weekStep ym occs cps accounts) weeks (P, M) = Ok (P', M') ->
    boundedRec (B + Z.of_nat (List.length weeks) * amounts) P'.
Proof.
  intros Lc Bp L.
  pose proof (total_nonneg amountMagnitude occs amountMagnitude_nonneg) as Ns.
  rewrite <- total_const in L |- *.
  destruct (foldM_budget
              (fun B (st : Rec Q * Rec (Rec WeeklyBalanceCell)) =>
                 anchors <= B /\ boundedRec B (fst st))
              (fun _ => amounts) (2 ^ 53)
              (Binary64.weekStep ym occs cps accounts) (weekStep ym occs cps accounts)
              weeks) with (B := B) (s := (P, M)) as [E K].
  - intros; exact Ns.
  - intros B0 [P0 M0] w _ [Lc0 Bp0] L0. cbn [fst] in Bp0.
    destruct (weekStep64 occs cps whole_amounts whole_checkpoints ym accounts B0 P0 M0 w
                accounts_NoDup Lc0 L0 Bp0) as [E K].
    split; [exact E|]. intros [P' M'] H. cbn [fst]. split; [lia|eauto].
  - split; assumption.
  - exact L.
  - split; [exact E|]. intros P' M' H. exact (proj2 (K (P', M') H)).
Qed.

Lemma weekly_months_fold64 months B P R :
  anchors <= B -> boundedRec B P ->
  B + total weeksIn months * amounts <= 2 ^ 53 ->
  foldM (Binary64.weeklyMonthStep occs cps accounts) months (P, R)
  = foldM (weeklyMonthStep occs cps accounts) months (P, R).
Proof.
  intros Lc Bp L.
  pose proof (total_nonneg amountMagnitude occs amountMagnitude_nonneg) as Ns.
  assert (Nw : forall ym, 0 <= weeksIn ym).
  { intros ym. unfold weeksIn. destruct (computeWeeksInMonth ym); lia. }
  assert (T : total (fun ym => weeksIn ym * amounts) months
              = total weeksIn months * amounts).
  { clear. induction months as [|m l IH]; [reflexivity|].
    rewrite !total_cons, IH. lia. }
  rewrite <- T in L.
  refine (proj1 (foldM_budget
                   (fun B (st : Rec Q * Rec (Rec (Rec WeeklyBalanceCell))) =>
                      anchors <= B /\ boundedRec B (fst st))
                   (fun ym => weeksIn ym * amounts) (2 ^ 53) _ _ months _ _
                   B (P, R) _ L)).
  - intros ym _. specialize (Nw ym). nia.
  - intros B0 [P0 R0] ym _ [Lc0 Bp0] L0. cbn [fst] in Bp0.
    unfold Binary64.weeklyMonthStep, weeklyMonthStep.
    unfold weeksIn in L0 |- *.
    destruct (computeWeeksInMonth ym) as [weeks|e]; cbn [bind];
      [|split; [reflexivity|discriminate]].
    destruct (weeks_fold64 ym weeks B0 P0 [] Lc0 Bp0 L0) as [E K].
    split.
    + exact (f_equal
               (fun r => bind r (fun x : Rec Q * Rec (Rec WeeklyBalanceCell) =>
                                   let '(p, m) := x in Ok (p, set ym m R0))) E).
    + intros [P' R'] H. inv_bind H. destruct a as [P1 M1]. injection H as <- _.
      cbn [fst]. split; [specialize (Nw ym); nia|eauto].
  - split; assumption.
Qed.
End ExactPasses.

Lemma exactSums_spec months occs prior cps :
  exactSums months occs prior cps = true ->
  Forall (fun o => whole (Occurrence.amount o) = true) occs /\
  Forall (fun c => whole (AnchorCheckpoint.balance c) = true) cps /\
  boundedRec (total priorMagnitude prior + total balanceMagnitude cps)
             (clonePriorBalances prior) /\
  total priorMagnitude prior + total balanceMagnitude cps
  + total windowsOf months * total amountMagnitude occs <= 2 ^ 52.
Proof.
  unfold exactSums. intros H.
  apply andb_prop in H as [H H4]. apply andb_prop in H as [H H3].
  apply andb_prop in H as [H1 H2].
  rewrite forallb_forall in H1, H2, H3. apply Z.leb_le in H4.
  split; [rewrite Forall_forall; exact H1|].
  split; [rewrite Forall_forall; exact H3|].
  split; [|exact H4].
  pose proof (total_nonneg balanceMagnitude cps
                (fun c => magnitude_nonneg (AnchorCheckpoint.balance c))) as Nc.
  intros a v G. unfold clonePriorBalances, fromEntries in G.
  apply get_fromEntries_In in G as [I|G]; [|discriminate].
  apply in_map_iff in I as ([k x] & E & I). cbn [fst snd] in E. injection E as -> ->.
  apply (wholeWithin_le (priorMagnitude (a, v))).
  - pose proof (total_In priorMagnitude prior (a, v)
                  (fun kv => magnitude_nonneg (snd kv)) I). lia.
  - apply (whole_magnitude v). exact (H2 (a, v) I).
Qed.

(** On whole numbers within the bound, the binary64 passes compute what
    the exact passes compute. *)
Lemma passes_exact months occs prior cps :
  exactSums months occs prior cps = true ->
  Binary64.computeEndingBalances months occs prior cps
  = computeEndingBalances months occs prior cps /\
  Binary64.computeWeeklyBalances months occs prior cps
  = computeWeeklyBalances months occs prior cps.
Proof.
  intros H. destruct (exactSums_spec _ _ _ _ H) as (Wo & Wc & Bp & L).
  pose proof (listAccounts_NoDup occs cps prior) as N.
  pose proof (total_nonneg amountMagnitude occs amountMagnitude_nonneg) as Ns.
  pose proof (total_nonneg balanceMagnitude cps
                (fun c => magnitude_nonneg (AnchorCheckpoint.balance c))) as Nc.
  pose proof (total_nonneg priorMagnitude prior
                (fun kv => magnitude_nonneg (snd kv))) as Np.
  assert (Ps : total windowsOf (sortStrings months) = total windowsOf months).
  { symmetry. apply total_Permutation. apply stableSort_Permutation. }
  assert (Split : total windowsOf (sortStrings months)
                  = Z.of_nat (List.length (sortStrings months))
                    + total weeksIn (sortStrings months)).
  { generalize (sortStrings months). intros l.
    induction l as [|m l IH]; [reflexivity|].
    rewrite !total_cons, IH. unfold windowsOf. cbn [List.length]. lia. }
  assert (Nw : 0 <= total weeksIn (sortStrings months)).
  { apply total_nonneg. intros ym. unfold weeksIn.
    destruct (computeWeeksInMonth ym); lia. }
  split.
  - unfold Binary64.computeEndingBalances, computeEndingBalances.
    refine (f_equal
              (fun r => bind r (fun x : Rec Q * Rec (Rec EndingBalanceCell) =>
                                  let '(_, m) := x in Ok m))
              (months_fold64 occs cps _ N Wo Wc (sortStrings months)
                 (total priorMagnitude prior + total balanceMagnitude cps) _ []
                 ltac:(lia) Bp _)). nia.
  - unfold Binary64.computeWeeklyBalances, computeWeeklyBalances.
    refine (f_equal
              (fun r => bind r (fun x : Rec Q * Rec (Rec (Rec WeeklyBalanceCell)) =>
                                  let '(_, m) := x in Ok m))
              (weekly_months_fold64 occs cps _ N Wo Wc (sortStrings months)
                 (total priorMagnitude prior + total balanceMagnitude cps) _ []
                 ltac:(lia) Bp _)). nia.
Qed.

(* ================================================================== *)
(** * The properties of the engine *)

(** Evaluates [t] and supplies the value it returns. *)
Ltac exists_value t :=
  let r := eval vm_compute in t in
  match r with
  | Ok ?v => exists v
  | Some ?v => exists v
  end.

(** C1.  The literal scenario of the specification: months 2025-01 and
    2025-02, account [operating] with prior ending balance 1250, six
    occurrences and a checkpoint of 1480 at 2025-01-17T14:00Z.  The
    monthly pass computes the two cells the specification expects
    ([janOperating], [febOperating]), yet [buildForecast] does not return
    them: the weekly verifier throws at the week that holds the checkpoint,
    where the beginning balance 1480 differs from the previous week's
    ending balance 1520. *)
Theorem operating_scenario :
  computeEndingBalances ["2025-01"; "2025-02"] operatingOccurrences
    [("operating", 1250%Q)] [cpOperatingJan]
  = Ok [("2025-01", [("operating", janOperating)]);
        ("2025-02", [("operating", febOperating)])] /\
  buildForecast operatingParams
  = Throw (WeeklyRollForwardViolation "operating" "2025-01-19" 1520 1480).
Proof. split; vm_compute; reflexivity. Qed.

(** C2.  The continuity verifiers do throw on self-consistent input:
    on [sampleParams], the data the dashboard page passes to
    [buildForecast], the monthly verifier rejects the February cell of
    [profit], whose checkpoint anchor 430 differs from the January ending
    balance 325. *)
Theorem sample_params_rejected :
  buildForecast sampleParams
  = Throw (MonthlyRollForwardViolation "profit" "2025-02" 325 430).
Proof. vm_compute. reflexivity. Qed.






(** C5.  For a window and an account: the net activity is the sum of the
    amounts of the occurrences of the account in the half-open window that
    are kept after the anchor ([keptAfterAnchor]: time at or after the
    anchor time, except the exact instant of a checkpoint anchor); an
    anchor that is not a checkpoint sits at the window start, so an
    occurrence at the window start is kept; and both the monthly and the
    weekly step record [anchor.balance + netAfterAnchor] as the ending
    balance and as the running balance of the account. *)
Theorem net_after_anchor occs cps P a ws we anchor net :
  wfDate ws ->
  windowCell occs cps P a ws we = Ok (anchor, net) ->
  net = sumAmounts
          (filter (fun o => occurrenceInWindow a ws we o && keptAfterAnchor anchor o)
                  occs) /\
  (AnchorMetadata.source anchor <> checkpoint ->
   timeOfString (AnchorMetadata.timestamp anchor) = getTime ws) /\
  (forall ym C,
     monthAccountStep ym occs cps ws we (P, C) a
     = Ok (set a (AnchorMetadata.balance anchor + net)%Q P,
           set a (EndingBalanceCell.mk ym a (AnchorMetadata.balance anchor)
                    (AnchorMetadata.balance anchor + net)%Q net anchor) C)) /\
  (forall ym week C,
     WeekWindow.start week = ws -> WeekWindow.end_ week = we ->
     weekAccountStep ym occs cps week (P, C) a
     = Ok (set a (AnchorMetadata.balance anchor + net)%Q P,
           set a (WeeklyBalanceCell.mk ym a (WeekWindow.weekKey week)
                    (AnchorMetadata.balance anchor)
                    (AnchorMetadata.balance anchor + net)%Q net anchor) C)).
Proof.
  intros Wf H. pose proof H as H0.
  apply windowCell_Ok in H as (s & Hs & An & Net).
  split; [exact Net|]. split; [|split].
  - intros Src. destruct (latestCheckpoint _) as [c|]; cbn in An; subst anchor;
      [contradiction Src; reflexivity|].
    cbn. unfold timeOfString, newDateOfString.
    rewrite parseDate_isoString by (apply Wf; exact Hs). symmetry. exact Hs.
  - intros ym C. unfold monthAccountStep. rewrite H0. reflexivity.
  - intros ym week C <- <-. unfold weekAccountStep. rewrite H0. reflexivity.
Qed.

Lemma net_after_anchor_witness :
  let ws : Date := Some 1735689600000 in
  let we : Date := Some 1738368000000 in
  let anchor :=
    AnchorMetadata.mk 1480 "2025-01-17T14:00:00Z" checkpoint
      (Some "cp-operating-jan") true in
  wfDate ws /\
  windowCell operatingOccurrences [cpOperatingJan] [("operating", 1250%Q)]
    "operating" ws we = Ok (anchor, (-220)%Q) /\
  (-220)%Q
  = sumAmounts
      (filter (fun o => occurrenceInWindow "operating" ws we o
                        && keptAfterAnchor anchor o)
              operatingOccurrences).
Proof.
  cbv zeta.
  assert (W : wfDate (Some 1735689600000)).
  { intros t H. injection H as <-. vm_compute. discriminate. }
  split; [exact W|]. split; [vm_compute; reflexivity|].
  apply (net_after_anchor operatingOccurrences [cpOperatingJan]
           [("operating", 1250%Q)] "operating"
           (Some 1735689600000) (Some 1738368000000) _ _ W).
  vm_compute. reflexivity.
Defined.

(** C6.  The anchor of a window for an account.  With no checkpoint of
    the account in the window, the anchor carries the running balance (0
    when there is none), the window start as timestamp, the source
    [rollforward] when a running balance exists and [initial] otherwise,
    and is not interim.  With checkpoints in the window, the anchor is the
    checkpoint [c] such that none before it in input order is later and
    every one after it is strictly earlier; its source is [checkpoint],
    with the id and balance of [c], interim exactly when [c] is strictly
    after the window start. *)
Theorem anchor_resolution occs cps P a ws we anchor net :
  windowCell occs cps P a ws we = Ok (anchor, net) ->
  let inside := filter (checkpointInWindow a ws we) cps in
  (inside = [] ->
     AnchorMetadata.balance anchor = balanceOrZero P a /\
     toIsoTimestamp ws = Ok (AnchorMetadata.timestamp anchor) /\
     AnchorMetadata.source anchor
     = (if hasOwnProperty P a then rollforward else initial) /\
     AnchorMetadata.checkpointId anchor = None /\
     AnchorMetadata.isInterim anchor = false) /\
  (inside <> [] ->
     exists before c after,
       inside = (before ++ c :: after)%list /\
       Forall (fun x => tv_leb (checkpointTime x) (checkpointTime c) = true) before /\
       Forall (fun x => tv_ltb (checkpointTime x) (checkpointTime c) = true) after /\
       anchor = AnchorMetadata.mk (AnchorCheckpoint.balance c)
                  (AnchorCheckpoint.timestamp c) checkpoint
                  (Some (AnchorCheckpoint.id c))
                  (tv_gtb (checkpointTime c) (getTime ws))).
Proof.
  intros H inside. apply windowCell_Ok in H as (s & Hs & An & _).
  fold inside in An. split.
  - intros E. rewrite E in An. cbn in An. subst anchor. cbn.
    unfold toIsoTimestamp, toISOString. unfold getTime in Hs. rewrite Hs. auto.
  - intros NE. destruct (latestCheckpoint inside) as [c|] eqn:L.
    2:{ apply latestBy_None in L. contradiction. }
    pose proof (filter_checkpoints_valid a ws we cps) as V. fold inside in V.
    destruct (latestBy_spec checkpointLe validCheckpoint
                checkpointLe_total checkpointLe_trans inside c V L)
      as (before & after & E & Hb & Ha).
    exists before, c, after. split; [exact E|]. split; [exact Hb|]. split.
    + rewrite Forall_forall in *. intros x Hx. specialize (Ha x Hx).
      assert (Vx : validCheckpoint x)
        by (apply V; rewrite E; apply in_or_app; right; right; exact Hx).
      assert (Vc : validCheckpoint c)
        by (apply V; rewrite E; apply in_or_app; right; left; reflexivity).
      destruct Vx as [tx Tx], Vc as [tc Tc].
      unfold checkpointLe, tv_leb in Ha. unfold tv_ltb. rewrite Tx, Tc in *.
      apply Z.leb_gt in Ha. apply Z.ltb_lt. exact Ha.
    + cbn in An. rewrite An. unfold getTime in *. rewrite Hs. reflexivity.
Qed.

Lemma anchor_resolution_witness :
  let ws : Date := Some 1735689600000 in
  let we : Date := Some 1738368000000 in
  let anchor :=
    AnchorMetadata.mk 1480 "2025-01-17T14:00:00Z" checkpoint
      (Some "cp-operating-jan") true in
  windowCell operatingOccurrences [cpOperatingJan] [("operating", 1250%Q)]
    "operating" ws we = Ok (anchor, (-220)%Q) /\
  exists before c after,
    filter (checkpointInWindow "operating" ws we) [cpOperatingJan]
    = (before ++ c :: after)%list /\
    Forall (fun x => tv_leb (checkpointTime x) (checkpointTime c) = true) before /\
    Forall (fun x => tv_ltb (checkpointTime x) (checkpointTime c) = true) after /\
    anchor = AnchorMetadata.mk (AnchorCheckpoint.balance c)
               (AnchorCheckpoint.timestamp c) checkpoint
               (Some (AnchorCheckpoint.id c))
               (tv_gtb (checkpointTime c) (getTime ws)).
Proof.
  cbv zeta. split; [vm_compute; reflexivity|].
  apply (anchor_resolution operatingOccurrences [cpOperatingJan]
           [("operating", 1250%Q)] "operating"
           (Some 1735689600000) (Some 1738368000000) _ (-220)%Q).
  - vm_compute. reflexivity.
  - vm_compute. discriminate.
Defined.

(** C7.  For every month identifier with a proper window, the weekly
    windows of [computeWeeksInMonth] partition it: there is at least one,
    the first starts at the month start, each next one starts at the
    exclusive end of the previous one, the last ends at the exclusive end
    of the month, and none is empty. *)
Theorem weeks_partition_month ym s e :
  startOfMonth ym = Ok (Some s) ->
  monthEndExclusive ym = Ok (Some e) ->
  s < e ->
  exists first rest,
    computeWeeksInMonth ym = Ok (first :: rest) /\
    WeekWindow.start first = Some s /\
    (forall i w1 w2,
       nth_error (first :: rest) i = Some w1 ->
       nth_error (first :: rest) (S i) = Some w2 ->
       WeekWindow.start w2 = WeekWindow.end_ w1) /\
    (exists final, lastItem (first :: rest) = Some final /\
                   WeekWindow.end_ final = Some e) /\
    Forall (fun w => exists a b, WeekWindow.start w = Some a /\
                                 WeekWindow.end_ w = Some b /\ a < b)
           (first :: rest).
Proof.
  intros Hs He L.
  destruct (computeWeeksInMonth_chain ym s e Hs He ltac:(lia)) as (W & HW & C).
  destruct W as [|first rest]; [exfalso; exact (chain_nonempty _ _ _ C L eq_refl)|].
  exists first, rest. split; [exact HW|]. split; [exact (chain_first _ _ _ _ C)|].
  split; [exact (chain_adjacent _ _ _ C)|]. split; [|exact (chain_proper _ _ _ C)].
  destruct (lastItem (first :: rest)) as [final|] eqn:E.
  - exists final. split; [reflexivity|]. exact (chain_last _ _ _ _ C E).
  - rewrite lastItem_cons in E. destruct (lastItem rest); discriminate.
Qed.

Lemma weeks_partition_month_witness :
  startOfMonth "2025-01" = Ok (Some 1735689600000) /\
  monthEndExclusive "2025-01" = Ok (Some 1738368000000) /\
  exists first rest,
    computeWeeksInMonth "2025-01" = Ok (first :: rest) /\
    WeekWindow.start first = Some 1735689600000 /\
    (forall i w1 w2,
       nth_error (first :: rest) i = Some w1 ->
       nth_error (first :: rest) (S i) = Some w2 ->
       WeekWindow.start w2 = WeekWindow.end_ w1) /\
    (exists final, lastItem (first :: rest) = Some final /\
                   WeekWindow.end_ final = Some 1738368000000) /\
    Forall (fun w => exists a b, WeekWindow.start w = Some a /\
                                 WeekWindow.end_ w = Some b /\ a < b)
           (first :: rest).
Proof.
  split; [vm_compute; reflexivity|]. split; [vm_compute; reflexivity|].
  apply (weeks_partition_month "2025-01" 1735689600000 1738368000000);
    vm_compute; reflexivity.
Defined.

(** C8, as amended.  The monthly window construction raises the error
    exactly when the year field or the month field of the identifier is
    missing, zero or not a number.  When the fields are an integer year
    from 100 to 275759 and a month from 1 to 12, the start is the first
    instant of that UTC calendar month and the exclusive end is the first
    instant of the following month. *)
Theorem month_window ym :
  let '(year, month) := yearAndMonth ym in
  (startOfMonth ym = Throw (InvalidMonthIdentifier ym)
   <-> falsyOpt year || falsyOpt month = true) /\
  (monthEndExclusive ym = Throw (InvalidMonthIdentifier ym)
   <-> falsyOpt year || falsyOpt month = true) /\
  (forall qy qm y m,
     year = Some (Finite qy) -> month = Some (Finite qm) ->
     (qy == inject_Z y)%Q -> (qm == inject_Z m)%Q ->
     100 <= y <= 275759 -> 1 <= m <= 12 ->
     exists s e,
       startOfMonth ym = Ok (Some s) /\ monthEndExclusive ym = Ok (Some e) /\
       YearFromTime s = y /\ MonthFromTime s = m - 1 /\
       DateFromTime s = 1 /\ TimeWithinDay s = 0 /\
       YearFromTime e = (if m =? 12 then y + 1 else y) /\
       MonthFromTime e = (if m =? 12 then 0 else m) /\
       DateFromTime e = 1 /\ TimeWithinDay e = 0 /\ s < e).
Proof.
  unfold startOfMonth, monthEndExclusive.
  destruct (yearAndMonth ym) as [year month].
  split; [destruct (falsyOpt year || falsyOpt month); split; intros E;
          reflexivity || discriminate E|].
  split; [destruct (falsyOpt year || falsyOpt month); split; intros E;
          reflexivity || discriminate E|].
  intros qy qm y m -> -> Ey Em Hy Hm.
  assert (Fy : Qeq_bool qy 0 = false).
  { destruct (Qeq_bool qy 0) eqn:E; [|reflexivity].
    apply Qeq_bool_iff in E. rewrite Ey in E.
    apply (inject_Z_injective y 0) in E. lia. }
  assert (Fm : Qeq_bool qm 0 = false).
  { destruct (Qeq_bool qm 0) eqn:E; [|reflexivity].
    apply Qeq_bool_iff in E. rewrite Em in E.
    apply (inject_Z_injective m 0) in E. lia. }
  cbn [falsyOpt falsy toNumber numSub1 orb]. rewrite Fy, Fm. cbn [orb].
  unfold DateUTC.
  rewrite (truncQ_Z qy y Ey), (truncQ_Z qm m Em).
  rewrite (truncQ_Z (qm - 1) (m - 1))
    by (rewrite Em; unfold Z.sub; rewrite inject_Z_plus; reflexivity).
  replace ((0 <=? y) && (y <=? 99)) with false
    by (symmetry; apply andb_false_iff; right; apply Z.leb_gt; lia).
  rewrite (TimeClip_Some _ (first_instant_range y (m - 1) Hy ltac:(lia))).
  rewrite (TimeClip_Some _ (first_instant_range y m Hy ltac:(lia))).
  rewrite !newDate_Some
    by (apply first_instant_range; lia).
  eexists _, _. split; [reflexivity|]. split; [reflexivity|].
  destruct (first_instant y (m - 1) ltac:(lia)) as (A1 & A2 & A3 & A4).
  repeat (split; [assumption|]).
  rewrite (MakeDay_normal y m 1).
  destruct (Z.eqb_spec m 12) as [->|Ne].
  - change (12 / 12) with 1. change (12 mod 12) with 0.
    destruct (first_instant (y + 1) 0 ltac:(lia)) as (B1 & B2 & B3 & B4).
    repeat (split; [assumption|]).
    change (MakeTime 0 0 0 0) with 0. unfold MakeDate, MakeDay.
    change ((12 - 1) / 12) with 0. change ((12 - 1) mod 12) with 11.
    change (0 / 12) with 0. change (0 mod 12) with 0.
    rewrite !Z.add_0_r, DayFromYear_succ. cbn [DayFromMonth Z.eqb Pos.eqb].
    unfold DaysInYear, msPerDay. destruct (InLeapYear y); cbn [leapDays]; lia.
  - replace (m / 12) with 0 by (symmetry; apply Z.div_small; lia).
    rewrite Z.mod_small by lia. rewrite Z.add_0_r.
    destruct (first_instant y m ltac:(lia)) as (B1 & B2 & B3 & B4).
    repeat (split; [assumption|]).
    change (MakeTime 0 0 0 0) with 0. unfold MakeDate, MakeDay.
    replace ((m - 1) / 12) with 0 by (symmetry; apply Z.div_small; lia).
    replace (m / 12) with 0 by (symmetry; apply Z.div_small; lia).
    rewrite !Z.mod_small by lia. rewrite !Z.add_0_r.
    assert (DayFromMonth (m - 1) (InLeapYear y) < DayFromMonth m (InLeapYear y)).
    { unfold DayFromMonth.
      assert (C : m = 1 \/ m = 2 \/ m = 3 \/ m = 4 \/ m = 5 \/ m = 6 \/ m = 7
                  \/ m = 8 \/ m = 9 \/ m = 10 \/ m = 11) by lia.
      destruct (InLeapYear y); cbn [leapDays];
        repeat (destruct C as [->|C]; [cbn; lia|]); subst m; cbn; lia. }
    unfold msPerDay. lia.
Qed.

(** The identifier is not validated beyond the truthiness of its two
    fields: 2025-13 raises no error and yields the window of January 2026,
    and the year of 0050-01 is read as 1950. *)
Lemma identifier_not_validated :
  (* month 13 *)
  yearAndMonth "2025-13" = (Some (Finite 2025), Some (Finite 13)) /\
  startOfMonth "2025-13" <> Throw (InvalidMonthIdentifier "2025-13") /\
  startOfMonth "2025-13" = Ok (Some 1767225600000) /\
  toISOString (Some 1767225600000) = Ok "2026-01-01T00:00:00.000Z" /\
  monthEndExclusive "2025-13" = Ok (Some 1769904000000) /\
  toISOString (Some 1769904000000) = Ok "2026-02-01T00:00:00.000Z" /\
  (* a year below 100 *)
  yearAndMonth "0050-01" = (Some (Finite 50), Some (Finite 1)) /\
  startOfMonth "0050-01" = Ok (Some (-631152000000)) /\
  toISOString (Some (-631152000000)) = Ok "1950-01-01T00:00:00.000Z".
Proof. repeat split; try (vm_compute; reflexivity). vm_compute. discriminate. Qed.

Lemma month_window_witness :
  yearAndMonth "2025-01" = (Some (Finite 2025), Some (Finite 1)) /\
  exists s e,
    startOfMonth "2025-01" = Ok (Some s) /\ monthEndExclusive "2025-01" = Ok (Some e) /\
    YearFromTime s = 2025 /\ MonthFromTime s = 1 - 1 /\
    DateFromTime s = 1 /\ TimeWithinDay s = 0 /\
    YearFromTime e = (if 1 =? 12 then 2025 + 1 else 2025) /\
    MonthFromTime e = (if 1 =? 12 then 0 else 1) /\
    DateFromTime e = 1 /\ TimeWithinDay e = 0 /\ s < e.
Proof.
  split; [vm_compute; reflexivity|].
  pose proof (month_window "2025-01") as T.
  change (yearAndMonth "2025-01") with (Some (Finite 2025), Some (Finite 1)) in T.
  destruct T as (_ & _ & T).
  apply (T 2025%Q 1%Q 2025 1); try reflexivity; lia.
Defined.

(** C9.  A month listed twice is processed twice.  Where the sorted list
    reads [pre ++ m :: m :: post] with no further copy of [m], the run
    that stops after the earlier pass and the full run both hold a table
    for [m], the output holds one entry per identifier, and both tables
    hold a cell for every account (the slug [__proto__] apart, under which
    JavaScript stores nothing).  The cell of the output is that of the
    later pass: it counts the same net activity as the cell of the
    earlier pass; where a checkpoint anchors the account the two cells
    are equal, and otherwise the later cell rolls forward from the
    earlier one, beginning at its ending balance and ending one net
    activity higher. *)
Theorem duplicate_month_compounds months occs prior cps out pre m post :
  computeEndingBalances months occs prior cps = Ok out ->
  sortStrings months = (pre ++ m :: m :: post)%list ->
  ~ In m post ->
  exists out1 cells1 cells2,
    computeEndingBalances (pre ++ [m]) occs prior cps = Ok out1 /\
    get m out1 = Some cells1 /\
    get m out = Some cells2 /\
    NoDup (keys out) /\
    forall a,
      In a (listAccounts occs cps prior) -> a <> "__proto__" ->
      exists c1 c2,
        get a cells1 = Some c1 /\
        get a cells2 = Some c2 /\
        EndingBalanceCell.netAfterAnchor c2 = EndingBalanceCell.netAfterAnchor c1 /\
        (AnchorMetadata.source (EndingBalanceCell.anchor c1) = checkpoint ->
         c2 = c1) /\
        (AnchorMetadata.source (EndingBalanceCell.anchor c1) <> checkpoint ->
         AnchorMetadata.source (EndingBalanceCell.anchor c2) = rollforward /\
         EndingBalanceCell.beginningBalance c2 = EndingBalanceCell.balance c1 /\
         EndingBalanceCell.balance c2
         = (EndingBalanceCell.balance c1 + EndingBalanceCell.netAfterAnchor c1)%Q).
Proof.
  unfold computeEndingBalances. intros H S Nm.
  assert (Spre : sortStrings (pre ++ [m]) = (pre ++ [m])%list).
  { apply (sortStrings_prefix months _ (m :: post)). rewrite S, <- app_assoc. reflexivity. }
  rewrite Spre. rewrite S in H.
  inv_bind H. destruct a as [Pn Rn]. injection H as <-.
  pose proof (listAccounts_NoDup occs cps prior) as N.
  assert (ND : NoDup (keys Rn)).
  { refine (months_fold_NoDup _ _ _ _ N _ [] _ _ _ Ha). constructor. }
  rewrite foldM_app in Ha. inv_bind Ha. destruct a as [Pa Ra].
  cbn [foldM] in Ha. inv_bind Ha. destruct a as [P1 R1].
  inv_bind Ha. destruct a as [P2 R2].
  assert (G2 : get m Rn = get m R2)
    by exact (months_fold_other _ _ _ N _ _ _ _ _ _ Nm Ha).
  pose proof Ha1 as Step1.
  apply monthStep_Ok in Ha1 as (ws1 & we1 & cs1 & Sm1 & Em1 & -> & I1 & O1); [|exact N].
  apply monthStep_Ok in Ha2 as (ws2 & we2 & cs2 & Sm2 & Em2 & -> & I2 & O2); [|exact N].
  rewrite Sm1 in Sm2. injection Sm2 as <-. rewrite Em1 in Em2. injection Em2 as <-.
  rewrite get_set_eq in G2.
  exists (set m cs1 Ra), cs1, cs2. split.
  { rewrite foldM_app, Ha0. cbn [bind foldM]. rewrite Step1. reflexivity. }
  split; [apply get_set_eq|]. split; [exact G2|]. split; [exact ND|].
  intros a Ia _.
  destruct (I1 a Ia) as (anchor1 & net1 & W1 & GP1 & GC1).
  destruct (I2 a Ia) as (anchor2 & net2 & W2 & GP2 & GC2).
  exists (monthCellOf m a anchor1 net1), (monthCellOf m a anchor2 net2).
  split; [exact GC1|]. split; [exact GC2|].
  apply windowCell_Ok in W1 as (s1 & T1 & An1 & Net1).
  apply windowCell_Ok in W2 as (s2 & T2 & An2 & Net2).
  rewrite T1 in T2. injection T2 as <-.
  cbn [monthCellOf EndingBalanceCell.beginningBalance EndingBalanceCell.balance
       EndingBalanceCell.anchor EndingBalanceCell.netAfterAnchor].
  destruct (latestCheckpoint _) as [cp|] eqn:L; cbn [anchorFor] in An1, An2.
  - rewrite <- An1 in An2. subst anchor2.
    rewrite <- Net1 in Net2. subst net2.
    split; [reflexivity|]. split; [reflexivity|].
    rewrite An1. cbn. congruence.
  - assert (K : forall o, keptAfterAnchor anchor2 o = keptAfterAnchor anchor1 o).
    { intros o. apply keptAfterAnchor_ext; subst anchor1 anchor2; cbn; [reflexivity|].
      destruct (hasOwnProperty Pa a), (hasOwnProperty P1 a); reflexivity. }
    assert (E2 : net2 = net1).
    { rewrite Net1, Net2. f_equal. apply filter_ext. intros o. rewrite K. reflexivity. }
    rewrite E2. split; [reflexivity|]. split.
    + subst anchor1. cbn. destruct (hasOwnProperty Pa a); discriminate.
    + intros _. subst anchor2.
      cbn [AnchorMetadata.source AnchorMetadata.balance].
      unfold hasOwnProperty, balanceOrZero. rewrite GP1. auto.
Qed.

Lemma duplicate_month_compounds_witness :
  sortStrings ["2025-01"; "2025-01"] = ([] ++ "2025-01" :: "2025-01" :: [])%list /\
  exists out out1 cells1 cells2 c1 c2,
    computeEndingBalances ["2025-01"; "2025-01"] sampleOccurrences samplePrior
      sampleCheckpoints = Ok out /\
    computeEndingBalances ([] ++ ["2025-01"]) sampleOccurrences samplePrior
      sampleCheckpoints = Ok out1 /\
    keys out = ["2025-01"] /\
    get "2025-01" out1 = Some cells1 /\
    get "2025-01" out = Some cells2 /\
    get "profit" cells1 = Some c1 /\
    get "profit" cells2 = Some c2 /\
    AnchorMetadata.source (EndingBalanceCell.anchor c1) = rollforward /\
    EndingBalanceCell.beginningBalance c1 = 300%Q /\
    EndingBalanceCell.netAfterAnchor c1 = 25%Q /\
    EndingBalanceCell.balance c1 = 325%Q /\
    AnchorMetadata.source (EndingBalanceCell.anchor c2) = rollforward /\
    EndingBalanceCell.beginningBalance c2 = 325%Q /\
    EndingBalanceCell.netAfterAnchor c2 = 25%Q /\
    EndingBalanceCell.balance c2 = 350%Q.
Proof.
  split; [vm_compute; reflexivity|].
  exists_value (computeEndingBalances ["2025-01"; "2025-01"] sampleOccurrences
                  samplePrior sampleCheckpoints).
  match goal with
  | |- exists out1 cells1 cells2 c1 c2, ?H /\ _ =>
      assert (Hc : H) by (vm_compute; reflexivity);
      destruct (duplicate_month_compounds ["2025-01"; "2025-01"] sampleOccurrences
                  samplePrior sampleCheckpoints _ [] "2025-01" [] Hc
                  ltac:(vm_compute; reflexivity) ltac:(intros []))
        as (out1 & cells1 & cells2 & H1 & G1 & G2 & _ & Hall)
  end.
  destruct (Hall "profit" ltac:(vm_compute; auto) ltac:(discriminate))
    as (c1 & c2 & Gc1 & Gc2 & Hnet & _ & Hroll).
  exists out1, cells1, cells2, c1, c2.
  assert (V1 : Ok out1 = computeEndingBalances ([] ++ ["2025-01"]) sampleOccurrences
                   samplePrior sampleCheckpoints) by (symmetry; exact H1).
  vm_compute in V1. injection V1 as V1.
  assert (C1 : Some cells1 = get "2025-01" out1) by (symmetry; exact G1).
  rewrite V1 in C1. vm_compute in C1. injection C1 as C1.
  assert (D1 : Some c1 = get "profit" cells1) by (symmetry; exact Gc1).
  rewrite C1 in D1. vm_compute in D1. injection D1 as D1.
  assert (S1 : AnchorMetadata.source (EndingBalanceCell.anchor c1) = rollforward)
    by (rewrite D1; reflexivity).
  assert (B1 : EndingBalanceCell.beginningBalance c1 = 300%Q) by (rewrite D1; reflexivity).
  assert (N1 : EndingBalanceCell.netAfterAnchor c1 = 25%Q) by (rewrite D1; reflexivity).
  assert (E1 : EndingBalanceCell.balance c1 = 325%Q) by (rewrite D1; reflexivity).
  destruct Hroll as (S2 & B2 & E2); [rewrite S1; discriminate|].
  rewrite Hnet, N1, E1 in *.
  repeat split; try assumption; try reflexivity.
Defined.

(** C10.  Over a non-empty month list, no cell of a month processed after
    the first has the anchor source [initial]; a cell with that source
    belongs to the first month, which is then listed once. *)
Theorem initial_only_in_first_month months occs prior cps out first rest :
  computeEndingBalances months occs prior cps = Ok out ->
  sortStrings months = first :: rest ->
  forall ym cells a c,
    get ym out = Some cells -> get a cells = Some c ->
    (In ym rest ->
     AnchorMetadata.source (EndingBalanceCell.anchor c) <> initial) /\
    (AnchorMetadata.source (EndingBalanceCell.anchor c) = initial ->
     ym = first /\ ~ In first rest).
Proof.
  unfold computeEndingBalances. intros H S ym cells a c Gc Ga.
  rewrite S in H. inv_bind H. destruct a0 as [Pn Rn]. injection H as <-.
  cbn [foldM] in Ha. inv_bind Ha. destruct a0 as [P1 R1].
  pose proof (listAccounts_NoDup occs cps prior) as N.
  pose proof (monthStep_allPresent _ _ _ N _ _ _ _ _ Ha0) as AP1.
  assert (L : In ym rest ->
              AnchorMetadata.source (EndingBalanceCell.anchor c) <> initial).
  { intros I. exact (later_months_no_initial _ _ _ N rest _ _ _ _ AP1 Ha ym I cells a c Gc Ga). }
  split; [exact L|]. intros Src.
  assert (NI : ~ In ym rest) by (intros I; apply (L I Src)).
  rewrite (months_fold_other _ _ _ N _ _ _ _ _ _ NI Ha) in Gc.
  apply monthStep_Ok in Ha0 as (ws & we & cells0 & _ & _ & -> & _); [|exact N].
  destruct (string_dec ym first) as [->|Ne]; [auto|].
  rewrite get_set_ne in Gc by exact Ne. discriminate.
Qed.

Lemma initial_only_in_first_month_witness :
  exists out cells c,
    computeEndingBalances ["2025-01"; "2025-02"] sampleOccurrences partialPrior
      sampleCheckpoints = Ok out /\
    sortStrings ["2025-01"; "2025-02"] = "2025-01" :: ["2025-02"] /\
    get "2025-01" out = Some cells /\ get "profit" cells = Some c /\
    AnchorMetadata.source (EndingBalanceCell.anchor c) = initial /\
    (In "2025-01" ["2025-02"] ->
     AnchorMetadata.source (EndingBalanceCell.anchor c) <> initial) /\
    (AnchorMetadata.source (EndingBalanceCell.anchor c) = initial ->
     "2025-01" = "2025-01" /\ ~ In "2025-01" ["2025-02"]).
Proof.
  exists_value (computeEndingBalances ["2025-01"; "2025-02"] sampleOccurrences
                  partialPrior sampleCheckpoints).
  match goal with
  | |- exists cells c, _ /\ _ /\ get _ ?out = _ /\ _ =>
      exists_value (get "2025-01" out);
      exists_value (match get "2025-01" out with
                    | Some c => get "profit" c | None => None end)
  end.
  do 5 (split; [vm_compute; reflexivity|]).
  eapply (initial_only_in_first_month ["2025-01"; "2025-02"] sampleOccurrences
            partialPrior sampleCheckpoints _ "2025-01" ["2025-02"]
            ltac:(vm_compute; reflexivity) ltac:(vm_compute; reflexivity)
            "2025-01" _ "profit"); vm_compute; reflexivity.
Defined.

(* ================================================================== *)
(** * Timestamps, accounts and sorting *)

Lemma toUtcDate_invalid ts :
  timeOfString ts = None -> toUtcDate ts = Throw (InvalidTimestamp ts).
Proof. unfold toUtcDate, timeOfString, getTime. intros ->. reflexivity. Qed.

Lemma In_fold_setAdd {A} (f : A -> string) l :
  forall s a,
    In a (fold_left (fun acc item => setAdd (f item) acc) l s)
    <-> In a s \/ exists x, In x l /\ f x = a.
Proof.
  induction l as [|x l IH]; intros s a; cbn [fold_left].
  - split; [auto|]. intros [H|(x & [] & _)]. exact H.
  - rewrite IH. unfold setAdd.
    destruct (existsb (String.eqb (f x)) s) eqn:E.
    + split.
      * intros [H|(y & Hy & <-)]; [auto|]. right. exists y. split; [right|]; auto.
      * intros [H|(y & [<-|Hy] & <-)]; [auto| |right; eauto].
        left. apply existsb_exists in E as (z & Hz & Ez).
        apply String.eqb_eq in Ez. subst z. exact Hz.
    + rewrite in_app_iff. cbn [In]. split.
      * intros [[H|[<-|[]]]|(y & Hy & <-)]; [auto| |].
        -- right. exists x. auto.
        -- right. exists y. auto.
      * intros [H|(y & [<-|Hy] & <-)]; [auto|auto|right; eauto].
Qed.

Lemma sorted_NoDup_strict l :
  StronglySorted (fun x y => String.leb x y = true) l -> NoDup l ->
  StronglySorted String_as_OT.lt l.
Proof.
  induction 1 as [|x l S IH F]; intros N; [constructor|].
  inversion N as [|? ? Hx N']; subst. constructor; [auto|].
  rewrite Forall_forall in *. intros y Hy.
  destruct (proj1 (string_leb_iff x y) (F y Hy)) as [->|L]; [contradiction|exact L].
Qed.

Section KeyedSort.
Context {T : Type} (timestampOf : T -> string).

Local Abbreviation time := (timeOf timestampOf).
Local Abbreviation timeLe := (fun a b : T => tv_leb (time a) (time b)).
Local Abbreviation valid := (fun x : T => exists t, time x = Some t).

Lemma mapM_keyed_valid l :
  Forall valid l ->
  mapM (fun item => d <- toUtcDate (timestampOf item) ;; Ok (getTime d, item)) l
  = Ok (map (fun x => (time x, x)) l).
Proof.
  induction 1 as [|c l [t Hc] _ IH]; [reflexivity|].
  cbn [mapM map]. unfold timeOf in Hc.
  rewrite (toUtcDate_valid _ _ Hc). cbn [bind]. rewrite IH. cbn [bind].
  unfold timeOf, getTime. rewrite Hc. reflexivity.
Qed.

Lemma mapM_keyed_Ok l keyed :
  mapM (fun item => d <- toUtcDate (timestampOf item) ;; Ok (getTime d, item)) l
  = Ok keyed ->
  Forall (fun x => exists t, toUtcDate (timestampOf x) = Ok (Some t)) l.
Proof.
  revert keyed. induction l as [|x l IH]; intros keyed H; [constructor|].
  cbn [mapM] in H. destruct (time x) as [t|] eqn:Hx; unfold timeOf in Hx.
  - rewrite (toUtcDate_valid _ _ Hx) in H. cbn [bind] in H.
    destruct (mapM _ l) as [r|e] eqn:M; [|discriminate].
    constructor; [exists t; apply toUtcDate_valid; exact Hx|]. eapply IH. reflexivity.
  - rewrite (toUtcDate_invalid _ Hx) in H. discriminate.
Qed.

Lemma timeLe_total x y : valid x -> valid y -> timeLe x y = true \/ timeLe y x = true.
Proof.
  intros [a Ha] [b Hb]. unfold tv_leb. rewrite Ha, Hb. rewrite !Z.leb_le. lia.
Qed.

Lemma timeLe_trans x y z :
  valid x -> valid y -> valid z ->
  timeLe x y = true -> timeLe y z = true -> timeLe x z = true.
Proof.
  intros [a Ha] [b Hb] [c Hc]. unfold tv_leb. rewrite Ha, Hb, Hc.
  rewrite !Z.leb_le. lia.
Qed.

(** The stable sort keeps the input order of the items of one time. *)
Lemma insertSorted_stable t x l :
  filter (fun y => tv_eqb (time y) (Some t)) (insertSorted timeLe x l)
  = filter (fun y => tv_eqb (time y) (Some t)) (x :: l).
Proof.
  induction l as [|y l IH]; [reflexivity|].
  cbn [insertSorted]. destruct (tv_leb (time x) (time y)) eqn:L; [reflexivity|].
  cbn [filter] in *. rewrite IH.
  destruct (tv_eqb (time x) (Some t)) eqn:Ex; [|reflexivity].
  destruct (tv_eqb (time y) (Some t)) eqn:Ey; [|reflexivity].
  exfalso. unfold tv_eqb, tv_leb in *.
  destruct (time x), (time y); try discriminate.
  apply Z.eqb_eq in Ex, Ey. apply Z.leb_gt in L. lia.
Qed.

Lemma stableSort_stable t l :
  filter (fun y => tv_eqb (time y) (Some t)) (stableSort timeLe l)
  = filter (fun y => tv_eqb (time y) (Some t)) l.
Proof.
  induction l as [|x l IH]; [reflexivity|].
  cbn [stableSort]. rewrite insertSorted_stable. cbn [filter]. rewrite IH. reflexivity.
Qed.

Lemma sortIsoStrings_valid l :
  Forall valid l -> sortIsoStrings timestampOf l = Ok (stableSort timeLe l).
Proof.
  intros V. unfold sortIsoStrings.
  destruct l as [|x [|y l]]; [reflexivity|reflexivity|].
  rewrite mapM_keyed_valid by exact V. cbn [bind].
  rewrite (stableSort_keyed tv_leb time).
  rewrite map_map. cbn [snd]. rewrite map_id. reflexivity.
Qed.
End KeyedSort.

Lemma sortStrings_Permutation_eq l1 l2 :
  Permutation l1 l2 -> sortStrings l1 = sortStrings l2.
Proof.
  intros P.
  assert (P' : Permutation (sortStrings l1) (sortStrings l2)).
  { unfold sortStrings. rewrite <- !(stableSort_Permutation String.leb). exact P. }
  pose proof (sortStrings_sorted l1) as S1. pose proof (sortStrings_sorted l2) as S2.
  revert P' S1 S2. generalize (sortStrings l1) (sortStrings l2). clear.
  induction l as [|x l IH]; intros l' P S1 S2.
  - apply Permutation_nil in P. subst. reflexivity.
  - destruct l' as [|y l']; [apply Permutation_sym, Permutation_nil in P; discriminate|].
    inversion S1 as [|? ? S1' F1]; subst. inversion S2 as [|? ? S2' F2]; subst.
    assert (E : x = y).
    { rewrite Forall_forall in F1, F2.
      assert (Hy : In y (x :: l)) by (eapply Permutation_in; [symmetry; exact P|left; reflexivity]).
      assert (Hx : In x (y :: l')) by (eapply Permutation_in; [exact P|left; reflexivity]).
      destruct Hy as [E|Hy]; [exact E|]. destruct Hx as [E|Hx]; [auto|].
      apply String.leb_antisym; auto. }
    subst y. f_equal. apply IH; auto. eapply Permutation_cons_inv. exact P.
Qed.

Lemma sortStrings_idempotent l : sortStrings (sortStrings l) = sortStrings l.
Proof.
  symmetry. apply sortStrings_Permutation_eq. apply stableSort_Permutation.
Qed.

(** The window filters stop at the first item of the account that does
    not parse. *)
Lemma filterOccurrencesForWindow_find occs a ws we :
  filterOccurrencesForWindow occs a ws we
  = match find (badOccurrence a) occs with
    | Some bad => Throw (InvalidTimestamp (Occurrence.timestamp bad))
    | None => Ok (filter (occurrenceInWindow a ws we) occs)
    end.
Proof.
  induction occs as [|o l IH]; [reflexivity|].
  unfold filterOccurrencesForWindow in *. cbn [filterM find filter].
  rewrite IH. clear IH.
  destruct (String.eqb (Occurrence.accountSlug o) a) eqn:Ea; cbn [negb].
  - destruct (timeOfString (Occurrence.timestamp o)) as [t|] eqn:Ht.
    + assert (B : badOccurrence a o = false)
        by (unfold badOccurrence; rewrite Ea, Ht; reflexivity).
      assert (W : occurrenceInWindow a ws we o
                  = tv_geb (Some t) (getTime ws) && tv_ltb (Some t) (getTime we))
        by (unfold occurrenceInWindow, inWindow; rewrite Ea, Ht; reflexivity).
      rewrite B, W, (toUtcDate_valid _ _ Ht). cbn [bind]. unfold getTime.
      destruct (find (badOccurrence a) l); reflexivity.
    + assert (B : badOccurrence a o = true)
        by (unfold badOccurrence; rewrite Ea, Ht; reflexivity).
      rewrite B, (toUtcDate_invalid _ Ht). reflexivity.
  - assert (B : badOccurrence a o = false) by (unfold badOccurrence; rewrite Ea; reflexivity).
    assert (W : occurrenceInWindow a ws we o = false)
      by (unfold occurrenceInWindow; rewrite Ea; reflexivity).
    rewrite B, W. cbn [bind]. destruct (find (badOccurrence a) l); reflexivity.
Qed.

Lemma filterCheckpointsForWindow_find cps a ws we :
  filterCheckpointsForWindow cps a ws we
  = match find (badCheckpoint a) cps with
    | Some bad => Throw (InvalidTimestamp (AnchorCheckpoint.timestamp bad))
    | None => Ok (filter (checkpointInWindow a ws we) cps)
    end.
Proof.
  induction cps as [|o l IH]; [reflexivity|].
  unfold filterCheckpointsForWindow in *. cbn [filterM find filter].
  rewrite IH. clear IH.
  destruct (String.eqb (AnchorCheckpoint.accountSlug o) a) eqn:Ea; cbn [negb].
  - destruct (timeOfString (AnchorCheckpoint.timestamp o)) as [t|] eqn:Ht.
    + assert (B : badCheckpoint a o = false)
        by (unfold badCheckpoint; rewrite Ea, Ht; reflexivity).
      assert (W : checkpointInWindow a ws we o
                  = tv_geb (Some t) (getTime ws) && tv_ltb (Some t) (getTime we))
        by (unfold checkpointInWindow, inWindow; rewrite Ea, Ht; reflexivity).
      rewrite B, W, (toUtcDate_valid _ _ Ht). cbn [bind]. unfold getTime.
      destruct (find (badCheckpoint a) l); reflexivity.
    + assert (B : badCheckpoint a o = true)
        by (unfold badCheckpoint; rewrite Ea, Ht; reflexivity).
      rewrite B, (toUtcDate_invalid _ Ht). reflexivity.
  - assert (B : badCheckpoint a o = false) by (unfold badCheckpoint; rewrite Ea; reflexivity).
    assert (W : checkpointInWindow a ws we o = false)
      by (unfold checkpointInWindow; rewrite Ea; reflexivity).
    rewrite B, W. cbn [bind]. destruct (find (badCheckpoint a) l); reflexivity.
Qed.

Lemma find_none_iff {A} (p : A -> bool) l :
  find p l = None <-> forall x, In x l -> p x = false.
Proof.
  split; [apply find_none|].
  induction l as [|x l IH]; intros H; [reflexivity|].
  cbn. rewrite (H x) by (left; reflexivity). apply IH. intros y Hy. apply H. right. exact Hy.
Qed.

(** The accounts of [listAccounts]. *)
Lemma listAccounts_members occs cps prior :
  StronglySorted String_as_OT.lt (listAccounts occs cps prior) /\
  forall a,
    In a (listAccounts occs cps prior) <->
    (exists o, In o occs /\ Occurrence.accountSlug o = a) \/
    (exists c, In c cps /\ AnchorCheckpoint.accountSlug c = a) \/
    In a (keys prior).
Proof.
  split.
  - apply sorted_NoDup_strict; [apply sortStrings_sorted|apply listAccounts_NoDup].
  - intros a. unfold listAccounts, sortStrings.
    split.
    + intros H. eapply Permutation_in in H; [|symmetry; apply stableSort_Permutation].
      apply (In_fold_setAdd (fun k : string => k)) in H.
      destruct H as [H|(k & Hk & <-)]; [|auto].
      apply In_fold_setAdd in H. destruct H as [H|H]; [|auto].
      apply In_fold_setAdd in H. destruct H as [[]|H]. auto.
    + intros H. eapply Permutation_in; [apply stableSort_Permutation|].
      apply (In_fold_setAdd (fun k : string => k)).
      destruct H as [H|[H|H]]; [| |right; eauto].
      * left. apply In_fold_setAdd. left. apply In_fold_setAdd. right. exact H.
      * left. apply In_fold_setAdd. right. exact H.
Qed.

(* ================================================================== *)
(** * Further properties of the engine *)

(** X1.  [toIsoTimestamp] and [toUtcDate] are inverse on valid dates: the
    ISO string of a date within the range of time values parses back to
    that very date. *)
Theorem iso_timestamp_round_trip t :
  Z.abs t <= maxTime ->
  exists s, toIsoTimestamp (newDate (Some t)) = Ok s /\
            toUtcDate s = Ok (newDate (Some t)).
Proof.
  intros B. rewrite (newDate_Some t B). exists (isoString t). split; [reflexivity|].
  apply toUtcDate_valid. unfold timeOfString, newDateOfString, getTime.
  apply parseDate_isoString. exact B.
Qed.

Lemma iso_timestamp_round_trip_witness :
  Z.abs 1737122400000 <= maxTime /\
  toIsoTimestamp (newDate (Some 1737122400000)) = Ok "2025-01-17T14:00:00.000Z" /\
  exists s, toIsoTimestamp (newDate (Some 1737122400000)) = Ok s /\
            toUtcDate s = Ok (newDate (Some 1737122400000)).
Proof.
  split; [vm_compute; discriminate|]. split; [vm_compute; reflexivity|].
  apply (iso_timestamp_round_trip 1737122400000). vm_compute. discriminate.
Defined.

(** X2.  [listAccounts] returns the account slugs of the occurrences, of
    the checkpoints and of the prior balances, each once, in strictly
    ascending order. *)
Theorem listAccounts_spec occs cps prior :
  StronglySorted String_as_OT.lt (listAccounts occs cps prior) /\
  forall a,
    In a (listAccounts occs cps prior) <->
    (exists o, In o occs /\ Occurrence.accountSlug o = a) \/
    (exists c, In c cps /\ AnchorCheckpoint.accountSlug c = a) \/
    In a (keys prior).
Proof. apply listAccounts_members. Qed.

(** X3.  [sortIsoStrings]: fewer than two items are returned as they are,
    unparsed.  Two or more items whose timestamps all parse are returned
    as a permutation in ascending order of time in which the items of one
    time keep their input order.  When the call returns on two or more
    items, [toUtcDate] returns a valid date for the timestamp of every
    item. *)
Theorem sortIsoStrings_spec {T : Type} (timestampOf : T -> string) (items : list T) :
  ((List.length items < 2)%nat -> sortIsoStrings timestampOf items = Ok items) /\
  (Forall (fun x => exists t, timeOf timestampOf x = Some t) items ->
   exists sorted,
     sortIsoStrings timestampOf items = Ok sorted /\
     Permutation items sorted /\
     StronglySorted (fun x y => tv_leb (timeOf timestampOf x) (timeOf timestampOf y) = true)
       sorted /\
     forall t, filter (fun y => tv_eqb (timeOf timestampOf y) (Some t)) sorted
               = filter (fun y => tv_eqb (timeOf timestampOf y) (Some t)) items) /\
  ((2 <= List.length items)%nat ->
   forall sorted, sortIsoStrings timestampOf items = Ok sorted ->
   Forall (fun x => exists t, toUtcDate (timestampOf x) = Ok (Some t)) items).
Proof.
  split; [|split].
  - destruct items as [|x [|y l]]; cbn [List.length]; intros H; try reflexivity. lia.
  - intros V. exists (stableSort (fun a b => tv_leb (timeOf timestampOf a) (timeOf timestampOf b)) items).
    split; [apply sortIsoStrings_valid; exact V|].
    split; [apply stableSort_Permutation|].
    split; [|intros t; apply stableSort_stable].
    apply (stableSort_sorted _ (fun x => exists t, timeOf timestampOf x = Some t)).
    + apply timeLe_total.
    + apply timeLe_trans.
    + exact V.
  - intros L sorted H. unfold sortIsoStrings in H.
    destruct items as [|x [|y l]]; cbn [List.length] in L; try lia.
    inv_bind H. eapply mapM_keyed_Ok. exact Ha.
Qed.

(** X4.  Both window filters keep, in input order, the items of the
    account whose time lies in the half-open window, provided the
    timestamps of the items of that account parse; the timestamps of other
    accounts are not looked at.  When a filter returns, [toUtcDate]
    returns a valid date for the timestamp of every item of the account,
    in the window or not. *)
Theorem window_filters_spec occs cps a ws we :
  ((forall o, In o occs -> Occurrence.accountSlug o = a ->
              exists t, timeOfString (Occurrence.timestamp o) = Some t) ->
   filterOccurrencesForWindow occs a ws we
   = Ok (filter (occurrenceInWindow a ws we) occs)) /\
  ((forall c, In c cps -> AnchorCheckpoint.accountSlug c = a ->
              exists t, timeOfString (AnchorCheckpoint.timestamp c) = Some t) ->
   filterCheckpointsForWindow cps a ws we
   = Ok (filter (checkpointInWindow a ws we) cps)) /\
  (forall kept,
     filterOccurrencesForWindow occs a ws we = Ok kept ->
     forall o, In o occs -> Occurrence.accountSlug o = a ->
               exists t, toUtcDate (Occurrence.timestamp o) = Ok (Some t)) /\
  (forall kept,
     filterCheckpointsForWindow cps a ws we = Ok kept ->
     forall c, In c cps -> AnchorCheckpoint.accountSlug c = a ->
               exists t, toUtcDate (AnchorCheckpoint.timestamp c) = Ok (Some t)).
Proof.
  split; [|split; [|split]].
  - intros V. rewrite filterOccurrencesForWindow_find.
    rewrite (proj2 (find_none_iff _ _)); [reflexivity|].
    intros o Ho. unfold badOccurrence.
    destruct (String.eqb_spec (Occurrence.accountSlug o) a) as [E|N]; [|reflexivity].
    destruct (V o Ho E) as [t ->]. reflexivity.
  - intros V. rewrite filterCheckpointsForWindow_find.
    rewrite (proj2 (find_none_iff _ _)); [reflexivity|].
    intros c Hc. unfold badCheckpoint.
    destruct (String.eqb_spec (AnchorCheckpoint.accountSlug c) a) as [E|N]; [|reflexivity].
    destruct (V c Hc E) as [t ->]. reflexivity.
  - intros kept H o Ho E. rewrite filterOccurrencesForWindow_find in H.
    destruct (find (badOccurrence a) occs) eqn:F; [discriminate|].
    pose proof (find_none _ _ F o Ho) as B. unfold badOccurrence in B.
    rewrite E, String.eqb_refl in B. cbn [andb] in B.
    destruct (timeOfString (Occurrence.timestamp o)) as [t|] eqn:T; [|discriminate].
    exists t. apply toUtcDate_valid. exact T.
  - intros kept H c Hc E. rewrite filterCheckpointsForWindow_find in H.
    destruct (find (badCheckpoint a) cps) eqn:F; [discriminate|].
    pose proof (find_none _ _ F c Hc) as B. unfold badCheckpoint in B.
    rewrite E, String.eqb_refl in B. cbn [andb] in B.
    destruct (timeOfString (AnchorCheckpoint.timestamp c)) as [t|] eqn:T; [|discriminate].
    exists t. apply toUtcDate_valid. exact T.
Qed.

Lemma window_filters_spec_witness :
  let occs := [occ "profit" 1 "soon"; occ "operating" 450 "2025-01-03T10:00:00Z";
               occ "operating" 5 "2025-02-01T00:00:00Z"] in
  (forall o, In o occs -> Occurrence.accountSlug o = "operating" ->
             exists t, timeOfString (Occurrence.timestamp o) = Some t) /\
  filterOccurrencesForWindow occs "operating" (Some 1735689600000) (Some 1738368000000)
  = Ok [occ "operating" 450 "2025-01-03T10:00:00Z"].
Proof.
  intros occs.
  assert (V : forall o, In o occs -> Occurrence.accountSlug o = "operating" ->
                        exists t, timeOfString (Occurrence.timestamp o) = Some t).
  { intros o [<-|[<-|[<-|[]]]] E; vm_compute in E; try discriminate;
      eexists; vm_compute; reflexivity. }
  split; [exact V|].
  rewrite (proj1 (window_filters_spec occs [] "operating"
                    (Some 1735689600000) (Some 1738368000000)) V).
  vm_compute. reflexivity.
Defined.

(** X5.  The order in which the caller lists the months is irrelevant:
    the monthly pass, the weekly pass and [buildForecast] give the same
    result on any two permutations of a month list. *)
Theorem month_order_irrelevant months months' occs prior cps :
  Permutation months months' ->
  computeEndingBalances months occs prior cps
  = computeEndingBalances months' occs prior cps /\
  computeWeeklyBalances months occs prior cps
  = computeWeeklyBalances months' occs prior cps /\
  buildForecast (BuildForecastParams.mk months occs prior cps)
  = buildForecast (BuildForecastParams.mk months' occs prior cps).
Proof.
  intros P. apply sortStrings_Permutation_eq in P.
  unfold buildForecast, computeEndingBalances, computeWeeklyBalances.
  cbn [BuildForecastParams.months BuildForecastParams.occurrences
       BuildForecastParams.priorEndingBalances BuildForecastParams.checkpoints].
  rewrite P. auto.
Qed.

Lemma month_order_irrelevant_witness :
  Permutation ["2025-02"; "2025-01"] ["2025-01"; "2025-02"] /\
  computeEndingBalances ["2025-02"; "2025-01"] sampleOccurrences samplePrior
    sampleCheckpoints
  = computeEndingBalances ["2025-01"; "2025-02"] sampleOccurrences samplePrior
      sampleCheckpoints.
Proof.
  split; [apply perm_swap|].
  apply (month_order_irrelevant ["2025-02"; "2025-01"] ["2025-01"; "2025-02"]).
  apply perm_swap.
Defined.

(** X6.  When [buildForecast] returns, the result lists the caller's
    months in ascending order and the accounts of [listAccounts], and its
    two tables are the outputs of the monthly and of the weekly pass on the
    caller's months (sorting them a second time changes nothing), both
    accepted by the verifiers. *)
Theorem buildForecast_result params r :
  buildForecast params = Ok r ->
  let months := BuildForecastParams.months params in
  let occs := BuildForecastParams.occurrences params in
  let prior := BuildForecastParams.priorEndingBalances params in
  let cps := BuildForecastParams.checkpoints params in
  ForecastResult.months r = sortStrings months /\
  Permutation months (ForecastResult.months r) /\
  StronglySorted (fun x y => String.leb x y = true) (ForecastResult.months r) /\
  ForecastResult.accounts r = listAccounts occs cps prior /\
  computeEndingBalances months occs prior cps = Ok (ForecastResult.endingBalances r) /\
  computeWeeklyBalances months occs prior cps = Ok (ForecastResult.weeklyBalances r) /\
  assertBalanceRollForward (ForecastResult.endingBalances r) = Ok tt /\
  assertWeeklyBalanceRollForward (ForecastResult.weeklyBalances r)
    (ForecastResult.endingBalances r) = Ok tt.
Proof.
  intros H. cbv zeta. unfold buildForecast in H.
  inv_bind H. rename a into e, Ha into He. inv_bind H. destruct a.
  inv_bind H. rename a into w, Ha0 into Hw. inv_bind H. destruct a.
  injection H as <-. cbn [ForecastResult.months ForecastResult.accounts
    ForecastResult.endingBalances ForecastResult.weeklyBalances].
  unfold computeEndingBalances, computeWeeklyBalances in *.
  rewrite sortStrings_idempotent in He, Hw.
  repeat split; auto.
  - apply stableSort_Permutation.
  - apply sortStrings_sorted.
Qed.

Lemma buildForecast_result_witness :
  exists r,
    buildForecast plainParams = Ok r /\
    ForecastResult.months r = ["2025-01"; "2025-02"] /\
    ForecastResult.accounts r = ["operating"] /\
    computeEndingBalances ["2025-02"; "2025-01"] operatingOccurrences
      [("operating", 1250%Q)] [] = Ok (ForecastResult.endingBalances r).
Proof.
  exists_value (buildForecast plainParams).
  match goal with
  | |- ?L = ?R /\ _ => assert (H : L = R) by (vm_compute; reflexivity)
  end.
  split; [exact H|].
  destruct (buildForecast_result _ _ H) as (M & _ & _ & A & E & _).
  split; [exact M|]. split; [exact A|]. exact E.
Defined.

(* ================================================================== *)
(** * Calendar dates as strings *)

Lemma append_empty_r s : s ++ EmptyString = s.
Proof. induction s as [|c s IH]; [reflexivity|]. cbn. rewrite IH. reflexivity. Qed.

Lemma padDigits_length n v : String.length (padDigits n v) = n.
Proof.
  induction n as [|n IH]; [reflexivity|].
  change (padDigits (S n) v)
    with (String (digitChar ((v / 10 ^ Z.of_nat n) mod 10)) (padDigits n v)).
  cbn [String.length]. rewrite IH. reflexivity.
Qed.

Lemma substring_0_append p r :
  substring 0 (String.length p) (p ++ r) = p.
Proof. induction p as [|c p IH]; cbn; [destruct r; reflexivity|rewrite IH; reflexivity]. Qed.

Lemma append_assoc_string (a b c : string) : (a ++ b) ++ c = a ++ (b ++ c).
Proof. induction a as [|x a IH]; [reflexivity|]. cbn. rewrite IH. reflexivity. Qed.

Lemma length_append_string (a b : string) :
  String.length (a ++ b) = (String.length a + String.length b)%nat.
Proof. induction a as [|x a IH]; [reflexivity|]. cbn. rewrite IH. reflexivity. Qed.

Lemma dateString_length y m d : String.length (dateString y m d) = 10%nat.
Proof.
  unfold dateString. rewrite length_append_string. cbn [String.length].
  rewrite length_append_string. cbn [String.length].
  rewrite !padDigits_length. reflexivity.
Qed.

(** [toISOString().slice(0, 10)] is the calendar date when the year has
    four digits. *)
Lemma isoString_date t :
  0 <= YearFromTime t <= 9999 ->
  substring 0 10 (isoString t)
  = dateString (YearFromTime t) (MonthFromTime t + 1) (DateFromTime t).
Proof.
  intros Y. unfold isoString, yearString.
  replace ((0 <=? YearFromTime t) && (YearFromTime t <=? 9999)) with true
    by (symmetry; rewrite andb_true_iff, !Z.leb_le; lia).
  set (rest := String "T" _).
  replace (padDigits 4 (YearFromTime t) ++
           String "-" (padDigits 2 (MonthFromTime t + 1) ++
           String "-" (padDigits 2 (DateFromTime t) ++ rest)))
    with (dateString (YearFromTime t) (MonthFromTime t + 1) (DateFromTime t) ++ rest).
  - rewrite <- (dateString_length (YearFromTime t) (MonthFromTime t + 1) (DateFromTime t)) at 1.
    apply substring_0_append.
  - unfold dateString. rewrite append_assoc_string. cbn [append].
    rewrite append_assoc_string. cbn [append]. reflexivity.
Qed.

Lemma parseDate_dateString y m d :
  0 <= y <= 9999 -> 1 <= m <= 12 -> 1 <= d <= 31 ->
  parseDate (dateString y m d) = TimeClip (MakeDay y (m - 1) d * msPerDay).
Proof.
  intros Y M D. unfold dateString.
  replace (padDigits 4 y) with (yearString y)
    by (unfold yearString;
        replace ((0 <=? y) && (y <=? 9999)) with true
          by (symmetry; rewrite andb_true_iff, !Z.leb_le; lia);
        reflexivity).
  rewrite parseDate_yearString by lia.
  cbn [parseAfterYear Ascii.eqb Bool.eqb]. cbv iota.
  rewrite readN_pad2 by lia.
  cbn [Ascii.eqb Bool.eqb]. cbv iota.
  rewrite <- (append_empty_r (padDigits 2 d)).
  rewrite readN_pad2 by lia.
  unfold assemble.
  replace ((1 <=? m) && (m <=? 12) && (1 <=? d) && (d <=? 31)) with true
    by (symmetry; rewrite !andb_true_iff, !Z.leb_le; lia).
  cbn [andb orb Z.leb Z.compare]. change (MakeTime 0 0 0 0) with 0.
  unfold MakeDate. f_equal. lia.
Qed.

Lemma Day_bound t : Z.abs t <= maxTime -> Z.abs (Day t * msPerDay) <= maxTime.
Proof.
  unfold Day, maxTime, msPerDay. intros H. Z.div_mod_to_equations. lia.
Qed.

Lemma timeOfString_isoDate t :
  Z.abs t <= maxTime -> 0 <= YearFromTime t <= 9999 ->
  timeOfString (substring 0 10 (isoString t)) = Some (Day t * msPerDay).
Proof.
  intros B Y. rewrite isoString_date by exact Y.
  unfold timeOfString, newDateOfString, getTime.
  pose proof (MonthFromTime_range t) as M.
  pose proof (DateFromTime_range t) as D.
  rewrite parseDate_dateString by lia.
  replace (MonthFromTime t + 1 - 1) with (MonthFromTime t) by lia.
  rewrite MakeDay_of_time. apply TimeClip_Some. apply Day_bound. exact B.
Qed.

(** ** The order of date strings *)

Lemma digitChar_code d : 0 <= d <= 9 -> nat_of_ascii (digitChar d) = Z.to_nat (48 + d).
Proof.
  intros H.
  assert (d = 0 \/ d = 1 \/ d = 2 \/ d = 3 \/ d = 4 \/ d = 5 \/ d = 6
          \/ d = 7 \/ d = 8 \/ d = 9) as C by lia.
  repeat (destruct C as [->|C]; [reflexivity|]). subst; reflexivity.
Qed.

Lemma padDigits_lt n : forall a b r1 r2,
  0 <= a -> 0 <= b ->
  a mod 10 ^ Z.of_nat n < b mod 10 ^ Z.of_nat n ->
  String_as_OT.lt (padDigits n a ++ r1) (padDigits n b ++ r2).
Proof.
  induction n as [|n IH]; intros a b r1 r2 Ha Hb L.
  - cbn in L. rewrite !Z.mod_1_r in L. lia.
  - change (padDigits (S n) a)
      with (String (digitChar ((a / 10 ^ Z.of_nat n) mod 10)) (padDigits n a)).
    change (padDigits (S n) b)
      with (String (digitChar ((b / 10 ^ Z.of_nat n) mod 10)) (padDigits n b)).
    cbn [append].
    rewrite Nat2Z.inj_succ, Z.pow_succ_r in L by lia.
    assert (P : 0 < 10 ^ Z.of_nat n) by (apply Z.pow_pos_nonneg; lia).
    rewrite (Z.mul_comm 10 (10 ^ Z.of_nat n)) in L.
    rewrite (Z.rem_mul_r a (10 ^ Z.of_nat n) 10) in L by lia.
    rewrite (Z.rem_mul_r b (10 ^ Z.of_nat n) 10) in L by lia.
    pose proof (Z.mod_pos_bound a (10 ^ Z.of_nat n) P) as La.
    pose proof (Z.mod_pos_bound b (10 ^ Z.of_nat n) P) as Lb.
    pose proof (Z.mod_pos_bound (a / 10 ^ Z.of_nat n) 10 ltac:(lia)) as Da.
    pose proof (Z.mod_pos_bound (b / 10 ^ Z.of_nat n) 10 ltac:(lia)) as Db.
    set (da := (a / 10 ^ Z.of_nat n) mod 10) in *.
    set (db := (b / 10 ^ Z.of_nat n) mod 10) in *.
    destruct (Z.lt_trichotomy da db) as [Lt|[Eq|Gt]].
    + apply String_as_OT.lts_head. rewrite !digitChar_code by lia. lia.
    + rewrite Eq. apply String_as_OT.lts_tail. apply IH; lia.
    + exfalso. nia.
Qed.

Lemma lt_append_same p r1 r2 :
  String_as_OT.lt r1 r2 -> String_as_OT.lt (p ++ r1) (p ++ r2).
Proof.
  intros H. induction p as [|c p IH]; [exact H|].
  cbn [append]. apply String_as_OT.lts_tail. exact IH.
Qed.

Lemma dateString_lt y1 m1 d1 y2 m2 d2 :
  0 <= y1 <= 9999 -> 0 <= y2 <= 9999 ->
  0 <= m1 < 100 -> 0 <= m2 < 100 -> 0 <= d1 < 100 -> 0 <= d2 < 100 ->
  y1 < y2 \/ (y1 = y2 /\ (m1 < m2 \/ (m1 = m2 /\ d1 < d2))) ->
  String_as_OT.lt (dateString y1 m1 d1) (dateString y2 m2 d2).
Proof.
  intros Y1 Y2 M1 M2 D1 D2 H. unfold dateString.
  destruct H as [H|[-> [H|[-> H]]]].
  - apply padDigits_lt; try lia. change (10 ^ Z.of_nat 4) with 10000.
    rewrite !Z.mod_small by lia. exact H.
  - apply lt_append_same. apply String_as_OT.lts_tail.
    apply padDigits_lt; try lia. change (10 ^ Z.of_nat 2) with 100.
    rewrite !Z.mod_small by lia. exact H.
  - apply lt_append_same. apply String_as_OT.lts_tail.
    apply lt_append_same. apply String_as_OT.lts_tail.
    rewrite <- (append_empty_r (padDigits 2 d1)), <- (append_empty_r (padDigits 2 d2)).
    apply padDigits_lt; try lia. change (10 ^ Z.of_nat 2) with 100.
    rewrite !Z.mod_small by lia. exact H.
Qed.

Lemma YearFromTime_mono t1 t2 : Day t1 <= Day t2 -> YearFromTime t1 <= YearFromTime t2.
Proof.
  intros L. unfold YearFromTime.
  pose proof (YearFromDay_spec (Day t1)) as [A1 B1].
  pose proof (YearFromDay_spec (Day t2)) as [A2 B2].
  destruct (Z_le_gt_dec (YearFromDay (Day t1)) (YearFromDay (Day t2))) as [|G]; [assumption|].
  exfalso.
  assert (DayFromYear (YearFromDay (Day t2) + 1) <= DayFromYear (YearFromDay (Day t1)))
    by (apply DayFromYear_le; lia).
  lia.
Qed.

Lemma MonthFromDayWithinYear_mono d1 d2 leap :
  d1 <= d2 -> MonthFromDayWithinYear d1 leap <= MonthFromDayWithinYear d2 leap.
Proof.
  intros L. unfold MonthFromDayWithinYear.
  repeat match goal with
         | |- context [?a <? ?b] => destruct (Z.ltb_spec a b)
         end; lia.
Qed.

(** Earlier days have smaller date strings. *)
Lemma isoDate_lt t1 t2 :
  0 <= YearFromTime t1 -> YearFromTime t2 <= 9999 ->
  Day t1 < Day t2 ->
  String_as_OT.lt (substring 0 10 (isoString t1)) (substring 0 10 (isoString t2)).
Proof.
  intros Y1 Y2 L.
  pose proof (YearFromTime_mono t1 t2 ltac:(lia)) as Ym.
  rewrite !isoString_date by lia.
  pose proof (MonthFromTime_range t1). pose proof (MonthFromTime_range t2).
  pose proof (DateFromTime_range t1). pose proof (DateFromTime_range t2).
  apply dateString_lt; try lia.
  destruct (Z.eq_dec (YearFromTime t1) (YearFromTime t2)) as [E|N]; [right|left; lia].
  split; [exact E|].
  assert (Lw : DayWithinYear t1 < DayWithinYear t2)
    by (unfold DayWithinYear; rewrite E; lia).
  pose proof (MonthFromDayWithinYear_mono (DayWithinYear t1) (DayWithinYear t2)
                (InLeapYear (YearFromTime t2)) ltac:(lia)) as Mm.
  unfold DateFromTime, MonthFromTime in *. rewrite E in *.
  destruct (Z.eq_dec (MonthFromDayWithinYear (DayWithinYear t1) (InLeapYear (YearFromTime t2)))
                     (MonthFromDayWithinYear (DayWithinYear t2) (InLeapYear (YearFromTime t2))))
    as [Em|Nm]; [right|left; lia].
  split; [lia|]. rewrite Em. lia.
Qed.

(* ================================================================== *)
(** * The weeks of a month, one by one *)

Lemma weeksLoop_weekChain fuel :
  forall c e acc,
    dayAligned c -> dayAligned e ->
    - maxTime <= c -> c <= e -> e + 7 * msPerDay <= maxTime ->
    ((e - c) / msPerDay + 1 <= Z.of_nat fuel) ->
    exists W, weeksLoop fuel (Some c) (Some e) acc = Ok (acc ++ W)%list /\
              weekChain e c W.
Proof.
  induction fuel as [|fuel IH]; intros c e acc Ac Ae Lc Lce Le F.
  - exfalso. assert (0 <= (e - c) / msPerDay) by (apply Z.div_pos; unfold msPerDay; lia). lia.
  - cbn [weeksLoop]. unfold getTime. cbn [tv_ltb].
    destruct (Z.ltb_spec c e) as [Hlt|Hge].
    2:{ exists []. rewrite app_nil_r. split; [reflexivity|].
        replace c with e by lia. constructor. }
    assert (Cm : Z.abs c <= maxTime) by (unfold msPerDay in *; lia).
    rewrite !(newDate_Some c Cm).
    pose proof (WeekDay_range c) as WD.
    set (k := if WeekDay c =? 0 then 0 else 7 - WeekDay c).
    set (k' := if WeekDay c =? 0 then 7 else 7 - WeekDay c).
    assert (Hk' : 1 <= k' <= 7) by (subst k'; destruct (Z.eqb_spec (WeekDay c) 0); lia).
    assert (E1 : (if tv_leb (getTime (setUTCDate (Some c) (numAdd (getUTCDate (Some c)) (Some k))))
                            (Some c)
                  then setUTCDate (setUTCDate (Some c) (numAdd (getUTCDate (Some c)) (Some k)))
                         (numAdd (getUTCDate (setUTCDate (Some c) (numAdd (getUTCDate (Some c)) (Some k))))
                                 (Some 7))
                  else setUTCDate (Some c) (numAdd (getUTCDate (Some c)) (Some k)))
                 = Some (c + k' * msPerDay)).
    { rewrite setUTCDate_add. subst k k'.
      destruct (Z.eqb_spec (WeekDay c) 0).
      - rewrite Z.mul_0_l, Z.add_0_r. rewrite (TimeClip_Some c Cm).
        unfold getTime. cbn [tv_leb]. rewrite Z.leb_refl.
        rewrite setUTCDate_add. apply TimeClip_Some. unfold msPerDay in *. lia.
      - rewrite TimeClip_Some by (unfold msPerDay in *; lia).
        unfold getTime. cbn [tv_leb].
        destruct (Z.leb_spec (c + (7 - WeekDay c) * msPerDay) c);
          [unfold msPerDay in *; lia|reflexivity]. }
    cbn [getUTCDay]. fold k. unfold getTime in E1. rewrite E1. clear E1.
    unfold getTime. cbn [tv_add tv_min].
    replace (Z.min (c + k' * msPerDay + dayMs) e) with (weekEndFrom c e)
      by (unfold weekEndFrom, dayMs, msPerDay; subst k';
          destruct (Z.eqb_spec (WeekDay c) 0); f_equal; lia).
    set (x := weekEndFrom c e).
    assert (Ce : c + msPerDay <= e).
    { unfold dayAligned, msPerDay in *. Z.div_mod_to_equations. lia. }
    assert (Hx : c + msPerDay <= x <= e).
    { subst x. unfold weekEndFrom, msPerDay in *.
      destruct (Z.eqb_spec (WeekDay c) 0); lia. }
    assert (Ax : dayAligned x).
    { subst x. unfold weekEndFrom, dayAligned in *.
      match goal with
      | |- Z.min ?u e mod _ = 0 =>
          destruct (Z.min_spec u e) as [[_ ->]|[_ ->]]; [|exact Ae]
      end.
      destruct (Z.eqb_spec (WeekDay c) 0);
        unfold msPerDay in *; Z.div_mod_to_equations; lia. }
    rewrite (newDate_Some x) by (unfold msPerDay in *; lia).
    cbn [tv_add].
    rewrite (newDate_Some (x + - dayMs)) by (unfold dayMs, msPerDay in *; lia).
    cbn [toIsoDate toISOString bind].
    edestruct (IH x e) as (W & HW & CW); try eassumption; try lia.
    { unfold msPerDay in *. lia. }
    { assert ((e - x) / msPerDay + 1 <= (e - c) / msPerDay); [|lia].
      unfold dayAligned, msPerDay in *. Z.div_mod_to_equations. lia. }
    eexists (_ :: W). rewrite HW, <- app_assoc. split; [reflexivity|].
    apply weekChain_cons; [exact Hlt| |exact CW].
    fold x. replace (x - dayMs) with (x + - dayMs) by lia. reflexivity.
Qed.

Lemma computeWeeksInMonth_weekChain ym s e W :
  startOfMonth ym = Ok (Some s) -> monthEndExclusive ym = Ok (Some e) ->
  s <= e ->
  computeWeeksInMonth ym = Ok W -> weekChain e s W.
Proof.
  intros Hs He Hse HW0. unfold computeWeeksInMonth in HW0.
  rewrite Hs, He in HW0. cbn [bind] in HW0.
  destruct (month_bounds_Ok ym _ (or_introl Hs) s eq_refl) as (As & Bs & _).
  destruct (month_bounds_Ok ym _ (or_intror He) e eq_refl) as (Ae & Be & Ce).
  unfold getTime in HW0. rewrite (newDate_Some s Bs) in HW0.
  destruct (weeksLoop_weekChain (weeksFuel (Some s) (Some e)) s e [] As Ae) as (W' & HW & CW).
  - lia.
  - exact Hse.
  - unfold msPerDay, maxTime in *. lia.
  - unfold weeksFuel, getTime.
    assert (0 <= (e - s) / msPerDay) by (apply Z.div_pos; unfold msPerDay; lia).
    lia.
  - rewrite HW in HW0. injection HW0 as <-. exact CW.
Qed.

Lemma weekChain_end e W : weekChain e e W -> W = [].
Proof. inversion 1; [reflexivity|lia]. Qed.

Lemma weekEndFrom_facts c e :
  dayAligned c -> dayAligned e -> c < e ->
  let x := weekEndFrom c e in
  dayAligned x /\ c + msPerDay <= x <= e /\ x - c <= 8 * msPerDay /\
  (x = e \/ WeekDay x = 1) /\
  (x - c = 8 * msPerDay -> WeekDay c = 0) /\
  (WeekDay c = 1 -> x = Z.min (c + 7 * msPerDay) e).
Proof.
  intros Ac Ae L. cbv zeta. unfold weekEndFrom, WeekDay, Day, dayAligned in *.
  pose proof (Z.mod_pos_bound (c / msPerDay + 4) 7 ltac:(lia)) as R.
  destruct (Z.eqb_spec ((c / msPerDay + 4) mod 7) 0) as [E0|N0];
    match goal with
    | |- context [Z.min ?u e] => destruct (Z.min_spec u e) as [[Lm ->]|[Lm ->]]
    end; unfold msPerDay in *;
    (repeat split; try (intros; Z.div_mod_to_equations; lia);
     try (left; lia); try (right; Z.div_mod_to_equations; lia)).
Qed.

Lemma weekChain_shape e :
  forall c W,
    weekChain e c W -> dayAligned c -> dayAligned e ->
    Forall (fun w => exists a b,
      WeekWindow.start w = Some a /\ WeekWindow.end_ w = Some b /\
      dayAligned a /\ dayAligned b /\
      msPerDay <= b - a <= 8 * msPerDay /\
      (a = c \/ WeekDay a = 1) /\
      (b = e \/ WeekDay (b - msPerDay) = 0) /\
      (b - a = 8 * msPerDay -> a = c /\ WeekDay a = 0) /\
      WeekWindow.weekKey w = substring 0 10 (isoString (b - msPerDay)) /\
      b = weekEndFrom a e) W.
Proof.
  induction 1 as [|c key W L K C IH]; intros Ac Ae; [constructor|].
  destruct (weekEndFrom_facts c e Ac Ae L) as (Ax & Bx & Lx & Ex & E8 & _).
  constructor.
  - exists c, (weekEndFrom c e). cbn [WeekWindow.start WeekWindow.end_ WeekWindow.weekKey].
    cbn in K. injection K as <-.
    repeat split; auto; try lia.
    destruct Ex as [Ex|Ex]; [left; exact Ex|right].
    unfold WeekDay, Day, dayAligned, msPerDay in *. Z.div_mod_to_equations. lia.
  - destruct Ex as [Ex|Ex].
    + rewrite Ex in C. apply weekChain_end in C. subst W. constructor.
    + eapply Forall_impl; [|apply IH; assumption].
      intros w (a & b & Hs & He & Aa & Ab & Len & St & En & E8' & Hk & Hb).
      exists a, b. repeat split; auto; try lia.
      all: try (exfalso; destruct (E8' H) as [-> W0]; lia).
      destruct St as [->|St]; [right; exact Ex|right; exact St].
Qed.

Lemma weekChain_count_monday e :
  forall c W,
    weekChain e c W -> dayAligned c -> dayAligned e -> WeekDay c = 1 ->
    Z.of_nat (List.length W) = (e - c + 7 * msPerDay - 1) / (7 * msPerDay).
Proof.
  induction 1 as [|c key W L K C IH]; intros Ac Ae Mon.
  - cbn. replace (e - e + 7 * msPerDay - 1) with (7 * msPerDay - 1) by lia.
    symmetry. apply Z.div_small. unfold msPerDay. lia.
  - destruct (weekEndFrom_facts c e Ac Ae L) as (Ax & Bx & Lx & Ex & _ & E7).
    specialize (E7 Mon). cbn [List.length]. rewrite Nat2Z.inj_succ.
    destruct Ex as [Ex|Ex].
    + rewrite Ex in C. apply weekChain_end in C. subst W. cbn.
      assert (e - c <= 7 * msPerDay) by lia.
      unfold msPerDay in *. Z.div_mod_to_equations. lia.
    + rewrite (IH Ax Ae Ex).
      destruct (Z.min_spec (c + 7 * msPerDay) e) as [[Lm Em]|[Lm Em]]; rewrite Em in E7.
      * rewrite E7. unfold msPerDay. Z.div_mod_to_equations. lia.
      * rewrite E7 in C. apply weekChain_end in C. subst W.
        rewrite E7 in IH. unfold msPerDay in *. Z.div_mod_to_equations. lia.
Qed.

Lemma weekChain_keys e :
  forall c W,
    weekChain e c W -> dayAligned c -> dayAligned e ->
    Forall (fun w => exists b,
      WeekWindow.end_ w = Some b /\ c < b <= e /\ dayAligned b /\
      WeekWindow.weekKey w = substring 0 10 (isoString (b - msPerDay))) W.
Proof.
  induction 1 as [|c key W L K C IH]; intros Ac Ae; [constructor|].
  destruct (weekEndFrom_facts c e Ac Ae L) as (Ax & Bx & _).
  constructor.
  - exists (weekEndFrom c e). cbn in K. injection K as <-.
    cbn [WeekWindow.end_ WeekWindow.weekKey]. unfold msPerDay in *.
    repeat split; auto; lia.
  - eapply Forall_impl; [|apply IH; assumption].
    intros w (b & He & Rb & Ab & Hk). exists b. unfold msPerDay in *.
    repeat split; auto; lia.
Qed.

Lemma Day_mono t1 t2 : t1 <= t2 -> Day t1 <= Day t2.
Proof. intros L. unfold Day. apply Z.div_le_mono; [unfold msPerDay|]; lia. Qed.

Lemma Day_aligned_lt a b :
  dayAligned a -> dayAligned b -> a < b -> Day (a - msPerDay) < Day (b - msPerDay).
Proof.
  unfold dayAligned, Day, msPerDay. intros. Z.div_mod_to_equations. lia.
Qed.

Lemma weekChain_keys_sorted e :
  forall c W,
    weekChain e c W -> dayAligned c -> dayAligned e ->
    0 <= YearFromTime c -> YearFromTime (e - msPerDay) <= 9999 ->
    StronglySorted String_as_OT.lt (map WeekWindow.weekKey W).
Proof.
  induction 1 as [|c key W L K C IH]; intros Ac Ae Y0 Y1; [constructor|].
  destruct (weekEndFrom_facts c e Ac Ae L) as (Ax & Bx & _).
  cbn [map WeekWindow.weekKey]. constructor.
  - apply IH; auto.
    etransitivity; [exact Y0|]. apply YearFromTime_mono, Day_mono. unfold msPerDay in *. lia.
  - cbn in K. injection K as <-.
    rewrite Forall_map.
    eapply Forall_impl; [|apply (weekChain_keys e _ _ C Ax Ae)].
    intros w (b & He & Rb & Ab & ->).
    replace (weekEndFrom c e - dayMs) with (weekEndFrom c e - msPerDay) by reflexivity.
    apply isoDate_lt.
    + etransitivity; [exact Y0|]. apply YearFromTime_mono, Day_mono.
      unfold msPerDay in *. lia.
    + etransitivity; [|exact Y1]. apply YearFromTime_mono, Day_mono. lia.
    + apply Day_aligned_lt; auto. lia.
Qed.

(** ** The window of a month of the calendar *)

Lemma denotesMonth_window ym y m :
  denotesMonth ym y m -> 100 <= y <= 275759 ->
  exists s e,
    startOfMonth ym = Ok (Some s) /\ monthEndExclusive ym = Ok (Some e) /\
    28 * msPerDay <= e - s <= 31 * msPerDay /\
    DayFromYear y * msPerDay <= s /\ e <= DayFromYear (y + 1) * msPerDay.
Proof.
  intros (qy & qm & YM & Ey & Em & Hm) Hy.
  unfold startOfMonth, monthEndExclusive. rewrite YM.
  assert (Fy : Qeq_bool qy 0 = false).
  { destruct (Qeq_bool qy 0) eqn:E; [|reflexivity].
    apply Qeq_bool_iff in E. rewrite Ey in E.
    apply (inject_Z_injective y 0) in E. lia. }
  assert (Fm : Qeq_bool qm 0 = false).
  { destruct (Qeq_bool qm 0) eqn:E; [|reflexivity].
    apply Qeq_bool_iff in E. rewrite Em in E.
    apply (inject_Z_injective m 0) in E. lia. }
  cbn [falsyOpt falsy toNumber numSub1 orb]. rewrite Fy, Fm. cbn [orb].
  unfold DateUTC.
  rewrite (truncQ_Z qy y Ey), (truncQ_Z qm m Em).
  rewrite (truncQ_Z (qm - 1) (m - 1))
    by (rewrite Em; unfold Z.sub; rewrite inject_Z_plus; reflexivity).
  replace ((0 <=? y) && (y <=? 99)) with false
    by (symmetry; apply andb_false_iff; right; apply Z.leb_gt; lia).
  rewrite (TimeClip_Some _ (first_instant_range y (m - 1) Hy ltac:(lia))).
  rewrite (TimeClip_Some _ (first_instant_range y m Hy ltac:(lia))).
  rewrite !newDate_Some by (apply first_instant_range; lia).
  eexists _, _. split; [reflexivity|]. split; [reflexivity|].
  change (MakeTime 0 0 0 0) with 0. unfold MakeDate. rewrite !Z.add_0_r.
  rewrite (MakeDay_normal y m 1). unfold MakeDay.
  replace ((m - 1) / 12) with 0 by (symmetry; apply Z.div_small; lia).
  rewrite (Z.mod_small (m - 1)) by lia.
  replace (m mod 12 / 12) with 0
    by (symmetry; apply Z.div_small; apply Z.mod_pos_bound; lia).
  rewrite Z.mod_mod by lia. rewrite !Z.add_0_r.
  pose proof (DayFromYear_succ y) as Sy. unfold DaysInYear in Sy.
  assert (C : m = 1 \/ m = 2 \/ m = 3 \/ m = 4 \/ m = 5 \/ m = 6 \/ m = 7
              \/ m = 8 \/ m = 9 \/ m = 10 \/ m = 11 \/ m = 12) by lia.
  unfold msPerDay.
  repeat (destruct C as [->|C];
          [cbn; rewrite ?Z.add_0_r, ?Sy; destruct (InLeapYear y); cbn [leapDays]; lia|]).
  subst m. cbn. rewrite ?Z.add_0_r, ?Sy. destruct (InLeapYear y); cbn [leapDays]; lia.
Qed.

Lemma year_within y t :
  DayFromYear y * msPerDay <= t < DayFromYear (y + 1) * msPerDay ->
  YearFromTime t = y.
Proof.
  intros H. unfold YearFromTime. apply YearFromDay_unique.
  unfold Day, msPerDay in *. Z.div_mod_to_equations. lia.
Qed.

Lemma chain_starts_after s e W :
  chain s e W ->
  Forall (fun w => exists a, WeekWindow.start w = Some a /\ s <= a) W.
Proof.
  induction 1 as [|s x e w ws Hs Hx B L C IH]; constructor.
  - exists s. split; [exact Hs|lia].
  - eapply Forall_impl; [|exact IH]. intros w' (a & Ha & La). exists a. split; [exact Ha|lia].
Qed.

Lemma chain_one_window s e W :
  chain s e W ->
  forall ts t, timeOfString ts = Some t -> s <= t < e ->
  exists pre w post,
    W = (pre ++ w :: post)%list /\
    inWindow (WeekWindow.start w) (WeekWindow.end_ w) ts = true /\
    Forall (fun w' => inWindow (WeekWindow.start w') (WeekWindow.end_ w') ts = false)
           (pre ++ post)%list.
Proof.
  induction 1 as [|s x e w ws Hs Hx B L C IH]; intros ts t Ht R; [lia|].
  destruct (Z_lt_ge_dec t x) as [Lt|Ge].
  - exists [], w, ws. split; [reflexivity|]. split.
    + unfold inWindow, tv_geb, tv_leb, tv_ltb, getTime. rewrite Ht, Hs, Hx.
      apply andb_true_iff. rewrite Z.leb_le, Z.ltb_lt. lia.
    + cbn [app]. eapply Forall_impl; [|apply (chain_starts_after _ _ _ C)].
      intros w' (a & Ha & La). unfold inWindow, tv_geb, tv_leb, getTime.
      rewrite Ht, Ha. apply andb_false_iff. left. apply Z.leb_gt. lia.
  - destruct (IH ts t Ht ltac:(lia)) as (pre & w' & post & -> & In' & Out').
    exists (w :: pre), w', post. split; [reflexivity|]. split; [exact In'|].
    cbn [app]. constructor; [|exact Out'].
    unfold inWindow, tv_ltb, getTime. rewrite Ht, Hx.
    apply andb_false_iff. right. apply Z.ltb_ge. lia.
Qed.

Lemma chain_outside s e W :
  chain s e W ->
  forall ts, (forall t, timeOfString ts = Some t -> t < s \/ e <= t) ->
  Forall (fun w => inWindow (WeekWindow.start w) (WeekWindow.end_ w) ts = false) W.
Proof.
  induction 1 as [|s x e w ws Hs Hx B L C IH]; intros ts Out; constructor.
  - unfold inWindow, tv_geb, tv_leb, tv_ltb, getTime. rewrite Hs, Hx.
    destruct (timeOfString ts) as [t|] eqn:Ht; [|reflexivity].
    pose proof (chain_le _ _ _ C). apply andb_false_iff.
    rewrite Z.leb_gt, Z.ltb_ge. destruct (Out t eq_refl); lia.
  - apply IH. intros t Ht. destruct (Out t Ht); lia.
Qed.

(** The keys of the weeks of a month of the years 100 to 9999. *)
Lemma calendar_week_keys ym y m weeks :
  denotesMonth ym y m -> 100 <= y <= 9999 ->
  computeWeeksInMonth ym = Ok weeks ->
  StronglySorted String_as_OT.lt (map WeekWindow.weekKey weeks) /\
  sortStrings (map WeekWindow.weekKey weeks) = map WeekWindow.weekKey weeks /\
  Forall (fun w => exists b,
    WeekWindow.end_ w = Some b /\
    toUtcDate (WeekWindow.weekKey w) = Ok (Some (b - msPerDay))) weeks.
Proof.
  intros D Hy HW.
  destruct (denotesMonth_window ym y m D ltac:(lia)) as (s & e & Hs & He & Len & Ls & Le).
  destruct (month_bounds_Ok ym _ (or_introl Hs) s eq_refl) as (As & Bs & _).
  destruct (month_bounds_Ok ym _ (or_intror He) e eq_refl) as (Ae & Be & _).
  assert (Lse : s < e) by (unfold msPerDay in *; lia).
  pose proof (computeWeeksInMonth_weekChain ym s e weeks Hs He ltac:(lia) HW) as C.
  assert (Yin : forall t, s <= t < e -> YearFromTime t = y).
  { intros t R. apply year_within. lia. }
  assert (S : StronglySorted String_as_OT.lt (map WeekWindow.weekKey weeks)).
  { apply (weekChain_keys_sorted e s weeks C As Ae).
    - rewrite Yin by lia. lia.
    - rewrite Yin by (unfold msPerDay in *; lia). lia. }
  split; [exact S|]. split.
  - unfold sortStrings. apply stableSort_sorted_id.
    apply StronglySorted_Sorted. clear - S.
    induction S as [|k l S IH F]; constructor; auto.
    eapply Forall_impl; [|exact F]. intros k' L. apply string_leb_iff. right. exact L.
  - eapply Forall_impl; [|apply (weekChain_keys e s weeks C As Ae)].
    intros w (b & Hb & Rb & Ab & Hk). exists b. split; [exact Hb|].
    rewrite Hk. apply toUtcDate_valid.
    assert (Rd : s <= b - msPerDay < e).
    { clear - As Ab Rb. unfold dayAligned, msPerDay in *. Z.div_mod_to_equations. lia. }
    assert (Bd : Z.abs (b - msPerDay) <= maxTime) by lia.
    rewrite timeOfString_isoDate; [|exact Bd|rewrite Yin by exact Rd; lia].
    apply f_equal. clear - Ab.
    unfold dayAligned, Day, msPerDay in *. Z.div_mod_to_equations. lia.
Qed.

(* ================================================================== *)
(** * Properties of the weeks *)

(** X7.  The weeks of a month with a proper window are whole days.  Every
    week but the first starts on a Monday, every week but the last ends
    with a Sunday, and the key of a week is the date of its last day.  A
    week that starts on a Sunday (the first week of a month that starts on
    one) runs for eight days, through the Sunday after, and a week that
    starts on any other day runs through the next Sunday, unless the month
    ends before; so a week lasts from one to eight days, and eight only
    from the first of a month that starts on a Sunday.  The first week
    starts with the month, every other week starts where the week before
    ends, and the last week ends with the month. *)
Theorem week_shape ym s e weeks :
  startOfMonth ym = Ok (Some s) ->
  monthEndExclusive ym = Ok (Some e) ->
  computeWeeksInMonth ym = Ok weeks ->
  Forall (fun w => exists a b key,
    WeekWindow.start w = Some a /\ WeekWindow.end_ w = Some b /\
    dayAligned a /\ dayAligned b /\
    msPerDay <= b - a <= 8 * msPerDay /\
    (a = s \/ WeekDay a = 1) /\
    (b = e \/ WeekDay (b - msPerDay) = 0) /\
    (b - a = 8 * msPerDay -> a = s /\ WeekDay s = 0) /\
    (WeekDay a = 0 -> b = Z.min (a + 8 * msPerDay) e) /\
    (WeekDay a <> 0 -> b = Z.min (a + (8 - WeekDay a) * msPerDay) e) /\
    toIsoDate (Some (b - msPerDay)) = Ok key /\
    WeekWindow.weekKey w = key) weeks /\
  (s < e ->
   exists first rest,
     weeks = first :: rest /\
     WeekWindow.start first = Some s /\
     (forall i w1 w2,
        nth_error weeks i = Some w1 -> nth_error weeks (S i) = Some w2 ->
        WeekWindow.start w2 = WeekWindow.end_ w1) /\
     exists final, lastItem weeks = Some final /\ WeekWindow.end_ final = Some e).
Proof.
  intros Hs He HW.
  destruct (month_bounds_Ok ym _ (or_introl Hs) s eq_refl) as (As & _).
  destruct (month_bounds_Ok ym _ (or_intror He) e eq_refl) as (Ae & _).
  split.
  { destruct (Z_le_gt_dec s e) as [Le|Gt].
    - pose proof (computeWeeksInMonth_weekChain ym s e weeks Hs He Le HW) as C.
      eapply Forall_impl; [|apply (weekChain_shape e s weeks C As Ae)].
      intros w (a & b & H1 & H2 & H3 & H4 & H5 & H6 & H7 & H8 & H9 & H10).
      exists a, b, (substring 0 10 (isoString (b - msPerDay))).
      assert (E0 : WeekDay a = 0 -> b = Z.min (a + 8 * msPerDay) e).
      { intros W0. rewrite H10. unfold weekEndFrom. rewrite W0. reflexivity. }
      assert (E1 : WeekDay a <> 0 -> b = Z.min (a + (8 - WeekDay a) * msPerDay) e).
      { intros W1. rewrite H10. unfold weekEndFrom.
        destruct (Z.eqb_spec (WeekDay a) 0); [contradiction|reflexivity]. }
      repeat split; auto; try lia.
      all: destruct (H8 H) as [-> W0]; auto.
    - destruct (computeWeeksInMonth_cases ym weeks HW) as (ws & we & Hs' & He' & Cases).
      rewrite Hs in Hs'. rewrite He in He'. injection Hs' as <-. injection He' as <-.
      destruct Cases as [[_ ->]|(s' & e' & Es & Ee & L & _)]; [constructor|].
      injection Es as <-. injection Ee as <-. lia. }
  intros L.
  destruct (computeWeeksInMonth_chain ym s e Hs He ltac:(lia)) as (W & HW' & C).
  rewrite HW in HW'. injection HW' as <-.
  destruct weeks as [|first rest]; [exfalso; exact (chain_nonempty _ _ _ C L eq_refl)|].
  exists first, rest. split; [reflexivity|]. split; [exact (chain_first _ _ _ _ C)|].
  split; [exact (chain_adjacent _ _ _ C)|].
  destruct (lastItem (first :: rest)) as [final|] eqn:E.
  - exists final. split; [reflexivity|]. exact (chain_last _ _ _ _ C E).
  - rewrite lastItem_cons in E. destruct (lastItem rest); discriminate.
Qed.

Lemma week_shape_witness :
  exists weeks,
    startOfMonth "2025-06" = Ok (Some 1748736000000) /\
    monthEndExclusive "2025-06" = Ok (Some 1751328000000) /\
    computeWeeksInMonth "2025-06" = Ok weeks /\
    map WeekWindow.weekKey weeks
    = ["2025-06-08"; "2025-06-15"; "2025-06-22"; "2025-06-29"; "2025-06-30"] /\
    WeekDay 1748736000000 = 0 /\
    hd_error weeks
    = Some (WeekWindow.mk (Some 1748736000000)
              (Some (1748736000000 + 8 * msPerDay)) "2025-06-08") /\
    Forall (fun w => exists a b key,
      WeekWindow.start w = Some a /\ WeekWindow.end_ w = Some b /\
      dayAligned a /\ dayAligned b /\
      msPerDay <= b - a <= 8 * msPerDay /\
      (a = 1748736000000 \/ WeekDay a = 1) /\
      (b = 1751328000000 \/ WeekDay (b - msPerDay) = 0) /\
      (b - a = 8 * msPerDay -> a = 1748736000000 /\ WeekDay 1748736000000 = 0) /\
      (WeekDay a = 0 -> b = Z.min (a + 8 * msPerDay) 1751328000000) /\
      (WeekDay a <> 0 -> b = Z.min (a + (8 - WeekDay a) * msPerDay) 1751328000000) /\
      toIsoDate (Some (b - msPerDay)) = Ok key /\
      WeekWindow.weekKey w = key) weeks.
Proof.
  exists_value (computeWeeksInMonth "2025-06").
  split; [vm_compute; reflexivity|]. split; [vm_compute; reflexivity|].
  split; [vm_compute; reflexivity|]. split; [vm_compute; reflexivity|].
  split; [vm_compute; reflexivity|]. split; [vm_compute; reflexivity|].
  apply (proj1 (week_shape "2025-06" 1748736000000 1751328000000 _
                  ltac:(vm_compute; reflexivity) ltac:(vm_compute; reflexivity)
                  ltac:(vm_compute; reflexivity))).
Defined.

(** X8.  A month of the calendar (year 100 to 275759) has from four to six
    weeks. *)
Theorem weeks_count ym y m weeks :
  denotesMonth ym y m -> 100 <= y <= 275759 ->
  computeWeeksInMonth ym = Ok weeks ->
  (4 <= List.length weeks <= 6)%nat.
Proof.
  intros D Hy HW.
  destruct (denotesMonth_window ym y m D Hy) as (s & e & Hs & He & Len & _).
  destruct (month_bounds_Ok ym _ (or_introl Hs) s eq_refl) as (As & _).
  destruct (month_bounds_Ok ym _ (or_intror He) e eq_refl) as (Ae & _).
  assert (Lse : s < e) by (unfold msPerDay in *; lia).
  pose proof (computeWeeksInMonth_weekChain ym s e weeks Hs He ltac:(lia) HW) as C.
  inversion C as [|c key W L K C' E1]; subst; [lia|].
  destruct (weekEndFrom_facts s e As Ae Lse) as (Ax & Bx & Lx & Ex & _).
  destruct Ex as [Ex|Ex]; [unfold msPerDay in *; lia|].
  pose proof (weekChain_count_monday e _ _ C' Ax Ae Ex) as N.
  cbn [List.length].
  assert (3 <= Z.of_nat (List.length W) <= 5); [|lia].
  rewrite N. unfold msPerDay in *. Z.div_mod_to_equations. lia.
Qed.

Lemma weeks_count_witness :
  denotesMonth "2025-01" 2025 1 /\
  exists weeks,
    computeWeeksInMonth "2025-01" = Ok weeks /\
    List.length weeks = 5%nat /\
    (4 <= List.length weeks <= 6)%nat.
Proof.
  assert (D : denotesMonth "2025-01" 2025 1).
  { exists 2025%Q, 1%Q. split; [vm_compute; reflexivity|].
    split; [reflexivity|]. split; [reflexivity|]. lia. }
  split; [exact D|].
  exists_value (computeWeeksInMonth "2025-01").
  split; [vm_compute; reflexivity|]. split; [vm_compute; reflexivity|].
  apply (weeks_count "2025-01" 2025 1); [exact D|lia|vm_compute; reflexivity].
Defined.

(** X9.  In a month of a year from 100 to 9999 the keys of the weeks are
    strictly ascending strings, in the order of the weeks: no two weeks
    share a key and sorting the keys lists the weeks in time.  Each key
    parses back to the first instant of the last day of its week. *)
Theorem week_keys_ascending ym y m weeks :
  denotesMonth ym y m -> 100 <= y <= 9999 ->
  computeWeeksInMonth ym = Ok weeks ->
  StronglySorted String_as_OT.lt (map WeekWindow.weekKey weeks) /\
  sortStrings (map WeekWindow.weekKey weeks) = map WeekWindow.weekKey weeks /\
  Forall (fun w => exists b,
    WeekWindow.end_ w = Some b /\
    toUtcDate (WeekWindow.weekKey w) = Ok (Some (b - msPerDay))) weeks.
Proof. apply calendar_week_keys. Qed.

Lemma week_keys_ascending_witness :
  denotesMonth "2025-01" 2025 1 /\
  exists weeks,
    computeWeeksInMonth "2025-01" = Ok weeks /\
    map WeekWindow.weekKey weeks
    = ["2025-01-05"; "2025-01-12"; "2025-01-19"; "2025-01-26"; "2025-01-31"] /\
    StronglySorted String_as_OT.lt (map WeekWindow.weekKey weeks).
Proof.
  assert (D : denotesMonth "2025-01" 2025 1).
  { exists 2025%Q, 1%Q. split; [vm_compute; reflexivity|].
    split; [reflexivity|]. split; [reflexivity|]. lia. }
  split; [exact D|].
  exists_value (computeWeeksInMonth "2025-01").
  split; [vm_compute; reflexivity|]. split; [vm_compute; reflexivity|].
  apply (week_keys_ascending "2025-01" 2025 1); [exact D|lia|vm_compute; reflexivity].
Defined.

(** X10.  [toIsoDate] of a date in the years 0 to 9999 is the ten
    characters of its calendar date, and they parse back to the first
    instant of that day. *)
Theorem toIsoDate_round_trip t :
  Z.abs t <= maxTime -> 0 <= YearFromTime t <= 9999 ->
  exists s,
    toIsoDate (Some t) = Ok s /\
    s = dateString (YearFromTime t) (MonthFromTime t + 1) (DateFromTime t) /\
    String.length s = 10%nat /\
    toUtcDate s = Ok (Some (Day t * msPerDay)).
Proof.
  intros B Y. exists (substring 0 10 (isoString t)). split; [reflexivity|].
  split; [apply isoString_date; exact Y|]. split.
  - rewrite isoString_date by exact Y. apply dateString_length.
  - apply toUtcDate_valid. apply timeOfString_isoDate; assumption.
Qed.

Lemma toIsoDate_round_trip_witness :
  toIsoDate (Some 1737122400000) = Ok "2025-01-17" /\
  exists s,
    toIsoDate (Some 1737122400000) = Ok s /\
    s = dateString (YearFromTime 1737122400000) (MonthFromTime 1737122400000 + 1)
          (DateFromTime 1737122400000) /\
    String.length s = 10%nat /\
    toUtcDate s = Ok (Some (Day 1737122400000 * msPerDay)).
Proof.
  split; [vm_compute; reflexivity|].
  apply (toIsoDate_round_trip 1737122400000);
    [vm_compute; discriminate|vm_compute; split; discriminate].
Defined.

(** X11.  Within a month with a proper window every instant belongs to
    exactly one week: a timestamp of the month lies in the window of one
    week and of no other, a timestamp outside the month (or one that does
    not parse) in the window of none. *)
Theorem instant_in_one_week ym s e weeks ts :
  startOfMonth ym = Ok (Some s) ->
  monthEndExclusive ym = Ok (Some e) ->
  computeWeeksInMonth ym = Ok weeks ->
  (forall t, timeOfString ts = Some t -> s <= t < e ->
     exists pre w post,
       weeks = (pre ++ w :: post)%list /\
       inWindow (WeekWindow.start w) (WeekWindow.end_ w) ts = true /\
       Forall (fun w' => inWindow (WeekWindow.start w') (WeekWindow.end_ w') ts = false)
              (pre ++ post)%list) /\
  (inWindow (Some s) (Some e) ts = false ->
   Forall (fun w => inWindow (WeekWindow.start w) (WeekWindow.end_ w) ts = false) weeks).
Proof.
  intros Hs He HW.
  destruct (computeWeeksInMonth_cases ym weeks HW) as (ws & we & Hs' & He' & Cases).
  rewrite Hs in Hs'. rewrite He in He'. injection Hs' as <-. injection He' as <-.
  destruct Cases as [[L ->]|(s' & e' & Es & Ee & L & C)].
  - cbn in L. apply Z.ltb_ge in L. split; [intros; lia|constructor].
  - injection Es as <-. injection Ee as <-. split.
    + intros t Ht R. eapply chain_one_window; eauto.
    + intros Out. apply (chain_outside _ _ _ C). intros t Ht.
      unfold inWindow, tv_geb, tv_leb, tv_ltb, getTime in Out. rewrite Ht in Out.
      apply andb_false_iff in Out. rewrite Z.leb_gt, Z.ltb_ge in Out. lia.
Qed.

Lemma instant_in_one_week_witness :
  startOfMonth "2025-01" = Ok (Some 1735689600000) /\
  monthEndExclusive "2025-01" = Ok (Some 1738368000000) /\
  timeOfString "2025-01-17T14:00:00Z" = Some 1737122400000 /\
  exists weeks,
    computeWeeksInMonth "2025-01" = Ok weeks /\
    exists pre w post,
      weeks = (pre ++ w :: post)%list /\
      inWindow (WeekWindow.start w) (WeekWindow.end_ w) "2025-01-17T14:00:00Z" = true /\
      Forall (fun w' => inWindow (WeekWindow.start w') (WeekWindow.end_ w')
                          "2025-01-17T14:00:00Z" = false)
             (pre ++ post)%list.
Proof.
  split; [vm_compute; reflexivity|]. split; [vm_compute; reflexivity|].
  split; [vm_compute; reflexivity|].
  exists_value (computeWeeksInMonth "2025-01").
  split; [vm_compute; reflexivity|].
  eapply (proj1 (instant_in_one_week "2025-01" 1735689600000 1738368000000 _
                   "2025-01-17T14:00:00Z"
                   ltac:(vm_compute; reflexivity) ltac:(vm_compute; reflexivity)
                   ltac:(vm_compute; reflexivity))
                1737122400000 ltac:(vm_compute; reflexivity) ltac:(lia)).
Defined.

(* ================================================================== *)
(** * The verifiers *)

Lemma get_not_In_keys {V} k (r : Rec V) : ~ In k (keys r) -> get k r = None.
Proof.
  intros N. destruct (get k r) eqn:E; [|reflexivity].
  exfalso. apply N. eapply get_In_keys. exact E.
Qed.

Lemma In_keys_get {V} k (r : Rec V) : In k (keys r) -> exists v, get k r = Some v.
Proof.
  induction r as [|[k' v] r IH]; [intros []|].
  cbn. destruct (String.eqb_spec k k') as [->|Ne]; [eauto|].
  intros [E|H]; [congruence|auto].
Qed.

Lemma get_cons {V} k k' (v : V) r :
  get k ((k', v) :: r) = if String.eqb k k' then Some v else get k r.
Proof. reflexivity. Qed.

Section VerifierFacts.
Context {Cell : Type}.
Variable close : Q -> Q -> bool.
Variables beginning balance : Cell -> Q.

Local Abbreviation check := (checkEntry close beginning balance).
Local Abbreviation begins := (beginsAt close beginning).
Local Abbreviation after := (recordedAfter balance).
Local Abbreviation continuous := (continuousFrom close beginning balance).

(** The loop over the entries of one table. *)
Lemma checkEntries_spec violation cells :
  NoDup (keys cells) ->
  forall L,
    match foldM (check violation) cells L with
    | Ok L' =>
        begins (fun a => get a L) cells /\
        forall a, get a L' = after (fun a => get a L) cells a
    | Throw e =>
        ~ begins (fun a => get a L) cells /\
        exists a c x,
          get a cells = Some c /\ get a L = Some x /\
          close (beginning c) x = false /\
          e = violation a x (beginning c)
    end.
Proof.
  induction cells as [|[a0 c0] rest IH]; intros N L.
  - cbn. split; [intros a c v H; discriminate|reflexivity].
  - cbn [keys map fst] in N. inversion N as [|? ? N0 N']; subst.
    assert (G0 : get a0 rest = None) by (apply get_not_In_keys; exact N0).
    change (foldM (check violation) ((a0, c0) :: rest) L)
      with (bind (check violation L (a0, c0))
                 (fun s' => foldM (check violation) rest s')).
    assert (Hc : check violation L (a0, c0)
                 = match get a0 L with
                   | Some x =>
                       if negb (close (beginning c0) x)
                       then Throw (violation a0 x (beginning c0))
                       else Ok (set a0 (balance c0) L)
                   | None => Ok (set a0 (balance c0) L)
                   end) by reflexivity.
    rewrite Hc. clear Hc.
    assert (Step : forall L1,
      (forall a, a <> a0 -> get a L1 = get a L) ->
      get a0 L1 = Some (balance c0) ->
      (forall v, get a0 L = Some v -> close (beginning c0) v = true) ->
      match foldM (check violation) rest L1 with
      | Ok L' =>
          begins (fun a => get a L) ((a0, c0) :: rest) /\
          forall a, get a L' = after (fun a => get a L) ((a0, c0) :: rest) a
      | Throw e =>
          ~ begins (fun a => get a L) ((a0, c0) :: rest) /\
          exists a c x,
            get a ((a0, c0) :: rest) = Some c /\ get a L = Some x /\
            close (beginning c) x = false /\
            e = violation a x (beginning c)
      end).
    { intros L1 Other Own Pass. specialize (IH N' L1).
      destruct (foldM (check violation) rest L1) as [L'|e].
      - destruct IH as [B A]. split.
        + intros a c v Ga Gl. rewrite get_cons in Ga.
          destruct (String.eqb_spec a a0) as [->|Ne].
          * injection Ga as <-. apply Pass. exact Gl.
          * apply (B a c v Ga). rewrite Other by exact Ne. exact Gl.
        + intros a. rewrite A. unfold recordedAfter. rewrite get_cons.
          destruct (String.eqb_spec a a0) as [->|Ne].
          * rewrite G0. exact Own.
          * rewrite Other by exact Ne. reflexivity.
      - destruct IH as [B (a & c & x & Ga & Gl & F & ->)].
        assert (Ne : a <> a0) by (intros ->; congruence).
        split.
        + intros Bg. apply (f_equal negb) in F. cbn in F.
          assert (T : close (beginning c) x = true).
          { apply (Bg a c x).
            - rewrite get_cons. destruct (String.eqb_spec a a0); [contradiction|exact Ga].
            - rewrite <- Other by exact Ne. exact Gl. }
          rewrite T in F. discriminate.
        + exists a, c, x. rewrite get_cons.
          destruct (String.eqb_spec a a0); [contradiction|].
          rewrite <- Other by exact Ne. auto. }
    destruct (get a0 L) as [x|] eqn:Gx.
    + destruct (close (beginning c0) x) eqn:AE; cbn [negb bind].
      * apply Step.
        -- intros a Ne. apply get_set_ne. exact Ne.
        -- apply get_set_eq.
        -- intros v Hv. injection Hv as <-. exact AE.
      * split.
        -- intros Bg. specialize (Bg a0 c0 x). rewrite get_cons, String.eqb_refl in Bg.
           rewrite Bg in AE by auto. discriminate.
        -- exists a0, c0, x. rewrite get_cons, String.eqb_refl. auto.
    + cbn [bind]. apply Step.
      * intros a Ne. apply get_set_ne. exact Ne.
      * apply get_set_eq.
      * intros v Hv. discriminate.
Qed.

Lemma begins_ext l l' cells :
  (forall a, l a = l' a) -> begins l cells -> begins l' cells.
Proof. intros E B a c v Ga Gl. apply (B a c v Ga). rewrite E. exact Gl. Qed.

Lemma continuous_ext tables :
  forall l l', (forall a, l a = l' a) -> continuous l tables -> continuous l' tables.
Proof.
  induction tables as [|t rest IH]; intros l l' E H; [exact I|].
  destruct H as [B C]. split; [eapply begins_ext; eauto|].
  eapply IH; [|exact C]. intros a. unfold recordedAfter. rewrite E. reflexivity.
Qed.

(** The loop over the tables, whatever error each table reports. *)
Lemma checkTables_spec {K} (violation : K -> AccountSlug -> Q -> Q -> JsError)
    (table : K -> Rec Cell) ks :
  Forall (fun k => NoDup (keys (table k))) ks ->
  forall L,
    match foldM (fun L k => foldM (check (violation k)) (table k) L) ks L with
    | Ok L' => continuous (fun a => get a L) (map table ks)
    | Throw e =>
        ~ continuous (fun a => get a L) (map table ks) /\
        exists k a x g, In k ks /\ e = violation k a x g /\ close g x = false
    end.
Proof.
  induction 1 as [|k ks Nk _ IH]; intros L; [exact I|].
  cbn [foldM map]. pose proof (checkEntries_spec (violation k) (table k) Nk L) as S.
  destruct (foldM (check (violation k)) (table k) L) as [L1|e]; cbn [bind].
  - destruct S as [B A]. specialize (IH L1).
    destruct (foldM _ ks L1) as [L'|e].
    + split; [exact B|]. eapply continuous_ext; [|exact IH].
      intros a. apply A.
    + destruct IH as [NC (k' & a & x & g & Hin & -> & F)]. split.
      * intros [_ C]. apply NC. eapply continuous_ext; [|exact C].
        intros a'. symmetry. apply A.
      * exists k', a, x, g. cbn. auto.
  - destruct S as [NB (a & c & x & _ & _ & F & ->)]. split.
    + intros [B _]. exact (NB B).
    + exists k, a, x, (beginning c). cbn. auto.
Qed.

(** Continuity from an empty record is continuity of consecutive tables, when
    every table has a cell for the same accounts. *)
Lemma continuous_consecutive accounts tables :
  Forall (fun t => keys t = accounts) tables ->
  (continuous (fun _ => None) tables <->
   consecutive (fun c1 c2 => close (beginning c2) (balance c1) = true) tables).
Proof.
  intros K.
  assert (G : forall t rest l,
    Forall (fun t => keys t = accounts) (t :: rest) ->
    (continuous l (t :: rest) <->
     begins l t /\
     consecutive (fun c1 c2 => close (beginning c2) (balance c1) = true) (t :: rest))).
  { clear. intros t rest. revert t.
    induction rest as [|t2 rest IH]; intros t l K.
    - cbn. split.
      + intros [B _]. split; [exact B|].
        intros pre t1 t2 post a c1 c2 E. exfalso.
        destruct pre as [|? [|? ?]]; discriminate.
      + intros [B _]. auto.
    - apply Forall_cons_iff in K as [Kt K'].
      change (continuous l (t :: t2 :: rest))
        with (begins l t /\ continuous (after l t) (t2 :: rest)).
      rewrite (IH t2 (after l t) K').
      apply Forall_cons_iff in K' as [Kt2 _].
      assert (Pair : begins (after l t) t2 <->
                     forall a c1 c2, get a t = Some c1 -> get a t2 = Some c2 ->
                                     close (beginning c2) (balance c1) = true).
      { split.
        - intros B a c1 c2 G1 G2. apply (B a c2 _ G2).
          unfold recordedAfter. rewrite G1. reflexivity.
        - intros P a c2 v G2 Gl. unfold recordedAfter in Gl.
          destruct (get a t) as [c1|] eqn:G1.
          + injection Gl as <-. eapply P; eauto.
          + exfalso. apply get_In_keys in G2. rewrite Kt2, <- Kt in G2.
            apply In_keys_get in G2 as [c1 G2]. congruence. }
      rewrite Pair. unfold consecutive. split.
      + intros (B & P & C). split; [exact B|].
        intros pre t1 t2' post a c1 c2 E G1 G2.
        destruct pre as [|p pre].
        * cbn in E. injection E as <- <- <-. eapply P; eauto.
        * cbn in E. injection E as <- E. eapply (C pre); eauto.
      + intros (B & C). split; [exact B|]. split.
        * intros a c1 c2 G1 G2. eapply (C [] t t2 rest); eauto.
        * intros pre t1 t2' post a c1 c2 E G1 G2.
          eapply (C (t :: pre)); [rewrite E; reflexivity|eauto|eauto]. }
  destruct tables as [|t rest].
  - cbn. split; [|auto]. intros _ pre t1 t2 post a c1 c2 E.
    destruct pre; discriminate.
  - rewrite (G t rest _ K). split; [intros [_ C]; exact C|].
    intros C. split; [|exact C]. intros a c v _ H. discriminate.
Qed.
End VerifierFacts.

Lemma assertBalanceRollForward_eq endingBalances :
  assertBalanceRollForward endingBalances = monthlyChecks almostEqual endingBalances.
Proof. reflexivity. Qed.

Lemma assertBalanceRollForward64_eq endingBalances :
  Binary64.assertBalanceRollForward endingBalances
  = monthlyChecks Binary64.almostEqual endingBalances.
Proof. reflexivity. Qed.

(* ================================================================== *)
(** * The tables of a run of windows *)

Section AccountFoldKeys.
Context {Cell : Type}.
Variables (occs : list Occurrence) (cps : list AnchorCheckpoint).
Variables (ws we : Date).
Variable mkCell : AccountSlug -> AnchorMetadata -> Q -> Cell.
Variable step : Rec Q * Rec Cell -> AccountSlug -> result (Rec Q * Rec Cell).
Hypothesis step_eq : forall P C a,
  step (P, C) a =
  (r <- windowCell occs cps P a ws we ;;
   Ok (set a (AnchorMetadata.balance (fst r) + snd r)%Q P,
       set a (mkCell a (fst r) (snd r)) C)).

Lemma accounts_fold_keys accounts :
  NoDup accounts ->
  forall P C P' C',
    foldM step accounts (P, C) = Ok (P', C') ->
    (forall a, In a accounts -> ~ In a (keys C)) ->
    keys C' = (keys C ++ accounts)%list.
Proof.
  induction 1 as [|a0 accounts N0 N IH]; intros P C P' C' H Fresh.
  - cbn in H. injection H as <- <-. rewrite app_nil_r. reflexivity.
  - cbn [foldM] in H. inv_bind H. destruct a as [P1 C1].
    rewrite step_eq in Ha. inv_bind Ha. destruct a as [anchor0 net0].
    cbn [fst snd] in Ha. injection Ha as <- <-.
    assert (K1 : keys (set a0 (mkCell a0 anchor0 net0) C) = (keys C ++ [a0])%list).
    { rewrite keys_set. destruct (existsb (String.eqb a0) (keys C)) eqn:E; [|reflexivity].
      exfalso. apply existsb_exists in E as (k & Hk & Ek).
      apply String.eqb_eq in Ek. subst k. apply (Fresh a0); [left; reflexivity|exact Hk]. }
    rewrite (IH _ _ _ _ H), K1, <- app_assoc; [reflexivity|].
    intros a Ha. rewrite K1, in_app_iff. intros [I|[<-|[]]].
    + apply (Fresh a); [right; exact Ha|exact I].
    + contradiction.
Qed.
End AccountFoldKeys.

Lemma monthStep_table occs cps accounts P R ym P' R' :
  NoDup accounts ->
  monthStep occs cps accounts (P, R) ym = Ok (P', R') ->
  exists ws we cells,
    startOfMonth ym = Ok ws /\ monthEndExclusive ym = Ok we /\
    R' = set ym cells R /\
    windowTable EndingBalanceCell.beginningBalance EndingBalanceCell.balance
      EndingBalanceCell.anchor occs cps accounts P ws we cells P'.
Proof.
  intros N H. unfold monthStep in H.
  inv_bind H. rename a into ws. inv_bind H. rename a into we.
  inv_bind H. destruct a as [P1 cells]. injection H as <- <-.
  exists ws, we, cells. repeat split; auto.
  - apply (accounts_fold_keys occs cps ws we _ _ (monthAccountStep_eq ym occs cps ws we)
             accounts N _ _ _ _ Ha1). intros a _ H; exact H.
  - intros a Hin.
    destruct (accounts_fold occs cps ws we _ _ (monthAccountStep_eq ym occs cps ws we)
                accounts N _ _ _ _ Ha1) as [I _].
    destruct (I a Hin) as (anchor & net & W & GP & GC).
    exists anchor, net, (monthCellOf ym a anchor net). cbn. repeat split; auto.
  - intros b Hb.
    destruct (accounts_fold occs cps ws we _ _ (monthAccountStep_eq ym occs cps ws we)
                accounts N _ _ _ _ Ha1) as [_ O].
    apply O. exact Hb.
Qed.

Lemma weekStep_table ym occs cps accounts P M week P' M' :
  NoDup accounts ->
  weekStep ym occs cps accounts (P, M) week = Ok (P', M') ->
  exists cells,
    M' = set (WeekWindow.weekKey week) cells M /\
    windowTable WeeklyBalanceCell.beginningBalance WeeklyBalanceCell.balance
      WeeklyBalanceCell.anchor occs cps accounts P
      (WeekWindow.start week) (WeekWindow.end_ week) cells P'.
Proof.
  intros N H. unfold weekStep in H.
  inv_bind H. destruct a as [P1 cells]. injection H as <- <-.
  exists cells. repeat split; auto.
  - apply (accounts_fold_keys occs cps _ _ _ _ (weekAccountStep_eq ym occs cps week)
             accounts N _ _ _ _ Ha). intros a _ H; exact H.
  - intros a Hin.
    destruct (accounts_fold occs cps _ _ _ _ (weekAccountStep_eq ym occs cps week)
                accounts N _ _ _ _ Ha) as [I _].
    destruct (I a Hin) as (anchor & net & W & GP & GC).
    exists anchor, net, (weekCellOf ym week a anchor net). cbn. repeat split; auto.
  - intros b Hb.
    destruct (accounts_fold occs cps _ _ _ _ (weekAccountStep_eq ym occs cps week)
                accounts N _ _ _ _ Ha) as [_ O].
    apply O. exact Hb.
Qed.

Section TableRuns.
Context {Cell : Type}.
Variables (beginning balance : Cell -> Q) (anchorOf : Cell -> AnchorMetadata).
Variables (occs : list Occurrence) (cps : list AnchorCheckpoint).
Variable accounts : list AccountSlug.

Local Abbreviation table := (windowTable beginning balance anchorOf occs cps accounts).
Local Abbreviation run := (tableRun beginning balance anchorOf occs cps accounts).

Lemma tableRun_app P r1 P1 r2 P2 :
  run P r1 P1 -> run P1 r2 P2 -> run P (r1 ++ r2)%list P2.
Proof. induction 1; [auto|]. intros H2. cbn. econstructor; eauto. Qed.

Lemma tableRun_keys P r P' :
  run P r P' -> Forall (fun t => keys t = accounts) (map snd r).
Proof.
  induction 1 as [|P ws we cells P1 rest P' T _ IH]; constructor; [|exact IH].
  destruct T as [K _]. exact K.
Qed.

(** A cell that is not anchored at a checkpoint begins at the running
    balance of its account. *)
Lemma windowTable_begin P ws we cells P' a c :
  table P ws we cells P' ->
  get a cells = Some c ->
  AnchorMetadata.source (anchorOf c) <> checkpoint ->
  beginning c = balanceOrZero P a.
Proof.
  intros (K & I & _) G S.
  assert (Ha : In a accounts) by (rewrite <- K; eapply get_In_keys; eauto).
  destruct (I a Ha) as (anchor & net & c' & W & G' & A & B & _).
  rewrite G in G'. injection G' as <-. rewrite B.
  apply windowCell_Ok in W as (s & _ & E & _). rewrite A in S. rewrite E in S |- *.
  destruct (latestCheckpoint _); [cbn in S; congruence|reflexivity].
Qed.

Lemma windowTable_after P ws we cells P' a c :
  table P ws we cells P' ->
  get a cells = Some c -> get a P' = Some (balance c).
Proof.
  intros (K & I & _) G.
  assert (Ha : In a accounts) by (rewrite <- K; eapply get_In_keys; eauto).
  destruct (I a Ha) as (anchor & net & c' & _ & G' & _ & _ & _ & GP).
  rewrite G in G'. injection G' as <-. exact GP.
Qed.

Lemma tableRun_consecutive P r P' :
  run P r P' ->
  consecutive (fun c1 c2 =>
                 AnchorMetadata.source (anchorOf c2) <> checkpoint ->
                 beginning c2 = balance c1) (map snd r).
Proof.
  induction 1 as [|P ws we cells P1 rest P' T R IH];
    intros pre t1 t2 post a c1 c2 E G1 G2 S.
  - destruct pre; discriminate.
  - destruct pre as [|p pre].
    + cbn in E. injection E as <- E.
      destruct R as [|P1 ws2 we2 cells2 P2 rest2 P' T2 R2]; [discriminate|].
      cbn in E. injection E as <- _.
      rewrite (windowTable_begin _ _ _ _ _ _ _ T2 G2 S).
      unfold balanceOrZero. rewrite (windowTable_after _ _ _ _ _ _ _ T G1). reflexivity.
    + cbn in E. injection E as _ E. eapply IH; eauto.
Qed.

Lemma tableRun_no_checkpoints P r P' :
  cps = [] -> run P r P' ->
  Forall (fun t => forall a c, get a t = Some c ->
                               AnchorMetadata.source (anchorOf c) <> checkpoint)
         (map snd r).
Proof.
  intros E. induction 1 as [|P ws we cells P1 rest P' T _ IH]; constructor; [|exact IH].
  cbn [snd]. intros a c G. destruct T as (K & I & _).
  assert (Ha : In a accounts) by (rewrite <- K; eapply get_In_keys; eauto).
  destruct (I a Ha) as (anchor & net & c' & W & G' & A & _).
  rewrite G in G'. injection G' as <-. rewrite A.
  apply windowCell_Ok in W as (s & _ & -> & _). rewrite E. cbn.
  destruct (hasOwnProperty P a); discriminate.
Qed.
End TableRuns.

Lemma getOrEmpty_set_eq {V} k (v : Rec V) r : getOrEmpty k (set k v r) = v.
Proof. unfold getOrEmpty. rewrite get_set_eq. reflexivity. Qed.

Lemma getOrEmpty_Some {V} k (r : Rec (Rec V)) a c :
  get a (getOrEmpty k r) = Some c ->
  exists cells, get k r = Some cells /\ get a cells = Some c.
Proof.
  unfold getOrEmpty. destruct (get k r) as [cells|]; [eauto|discriminate].
Qed.

Lemma consecutive_map {A Cell} (P : Cell -> Cell -> Prop) (f : A -> Rec Cell) l :
  consecutive P (map f l) <->
  forall pre x1 x2 post a c1 c2,
    l = (pre ++ x1 :: x2 :: post)%list ->
    get a (f x1) = Some c1 -> get a (f x2) = Some c2 -> P c1 c2.
Proof.
  unfold consecutive. split.
  - intros H pre x1 x2 post a c1 c2 -> G1 G2.
    eapply (H (map f pre) (f x1) (f x2) (map f post)); eauto.
    rewrite map_app. reflexivity.
  - intros H pre t1 t2 post a c1 c2 E G1 G2.
    apply map_eq_app in E as (lpre & l2 & -> & <- & E).
    destruct l2 as [|x1 [|x2 lpost]]; try discriminate.
    cbn in E. injection E as <- <- <-. eapply H; eauto.
Qed.

Section MonthRuns.
Variables (occs : list Occurrence) (cps : list AnchorCheckpoint).
Variable accounts : list AccountSlug.
Hypothesis accounts_NoDup : NoDup accounts.

Lemma months_fold_run months :
  NoDup months ->
  forall P R P' R',
    foldM (monthStep occs cps accounts) months (P, R) = Ok (P', R') ->
    exists r,
      tableRun EndingBalanceCell.beginningBalance EndingBalanceCell.balance
        EndingBalanceCell.anchor occs cps accounts P r P' /\
      map snd r = monthTables R' months /\
      map fst r = map monthWindow months.
Proof.
  induction 1 as [|m months Nm N IH]; intros P R P' R' H.
  - cbn in H. injection H as <- <-. exists []. split; [constructor|auto].
  - cbn [foldM] in H. inv_bind H. destruct a as [P1 R1].
    pose proof (months_fold_other occs cps accounts accounts_NoDup months _ _ _ _ m Nm H) as Keep.
    apply monthStep_table in Ha as (ws & we & cells & Hs & He & -> & T);
      [|exact accounts_NoDup].
    destruct (IH _ _ _ _ H) as (r & Run & Tabs & Wins).
    exists ((ws, we, cells) :: r). split; [econstructor; eauto|].
    cbn [map snd fst monthTables]. split.
    + f_equal; [|exact Tabs]. unfold getOrEmpty. rewrite Keep, get_set_eq. reflexivity.
    + f_equal; [|exact Wins]. unfold monthWindow. rewrite Hs, He. reflexivity.
Qed.

Lemma months_fold_keys months :
  NoDup months ->
  forall P R P' R',
    foldM (monthStep occs cps accounts) months (P, R) = Ok (P', R') ->
    (forall m, In m months -> ~ In m (keys R)) ->
    keys R' = (keys R ++ months)%list.
Proof.
  induction 1 as [|m months Nm N IH]; intros P R P' R' H Fresh.
  - cbn in H. injection H as <- <-. rewrite app_nil_r. reflexivity.
  - cbn [foldM] in H. inv_bind H. destruct a as [P1 R1].
    apply monthStep_table in Ha as (ws & we & cells & Hs & He & -> & T);
      [|exact accounts_NoDup].
    assert (K1 : keys (set m cells R) = (keys R ++ [m])%list).
    { rewrite keys_set. destruct (existsb (String.eqb m) (keys R)) eqn:E; [|reflexivity].
      exfalso. apply existsb_exists in E as (k & Hk & Ek).
      apply String.eqb_eq in Ek. subst k. apply (Fresh m); [left; reflexivity|exact Hk]. }
    rewrite (IH _ _ _ _ H), K1, <- app_assoc; [reflexivity|].
    intros m' Hm'. rewrite K1, in_app_iff. intros [I|[<-|[]]].
    + apply (Fresh m'); [right; exact Hm'|exact I].
    + contradiction.
Qed.
End MonthRuns.

Lemma sortStrings_NoDup l : NoDup l -> NoDup (sortStrings l).
Proof.
  intros N. eapply Permutation_NoDup; [apply stableSort_Permutation|exact N].
Qed.

(** The monthly verifier on the output of the monthly pass. *)
Lemma monthly_verifier (close : Q -> Q -> bool) months occs prior cps out :
  NoDup months ->
  computeEndingBalances months occs prior cps = Ok out ->
  keys out = sortStrings months /\
  Forall (fun t => keys t = listAccounts occs cps prior)
         (monthTables out (sortStrings months)) /\
  consecutive (fun c1 c2 =>
                 AnchorMetadata.source (EndingBalanceCell.anchor c2) <> checkpoint ->
                 EndingBalanceCell.beginningBalance c2 = EndingBalanceCell.balance c1)
              (monthTables out (sortStrings months)) /\
  (cps = [] ->
   Forall (fun t => forall a c, get a t = Some c ->
              AnchorMetadata.source (EndingBalanceCell.anchor c) <> checkpoint)
          (monthTables out (sortStrings months))) /\
  match monthlyChecks close out with
  | Ok _ =>
      consecutive (fun c1 c2 =>
                     close (EndingBalanceCell.beginningBalance c2)
                                 (EndingBalanceCell.balance c1) = true)
                  (monthTables out (sortStrings months))
  | Throw e =>
      ~ consecutive (fun c1 c2 =>
                       close (EndingBalanceCell.beginningBalance c2)
                                   (EndingBalanceCell.balance c1) = true)
                    (monthTables out (sortStrings months)) /\
      isMonthlyViolation close e
  end.
Proof.
  intros N H. unfold computeEndingBalances in H.
  inv_bind H. destruct a as [P' R']. injection H as ->.
  pose proof (listAccounts_NoDup occs cps prior) as NA.
  pose proof (sortStrings_NoDup months N) as NS.
  destruct (months_fold_run occs cps _ NA _ NS _ _ _ _ Ha) as (r & Run & Tabs & _).
  pose proof (months_fold_keys occs cps _ NA _ NS _ _ _ _ Ha ltac:(intros m _ I; exact I)) as K.
  cbn [keys map app] in K.
  pose proof (tableRun_keys _ _ _ _ _ _ _ _ _ Run) as TK. rewrite Tabs in TK.
  split; [exact K|]. split; [exact TK|]. split.
  { rewrite <- Tabs. eapply tableRun_consecutive. exact Run. }
  split.
  { intros E. rewrite <- Tabs. eapply tableRun_no_checkpoints; eauto. }
  unfold monthlyChecks. rewrite K, sortStrings_idempotent.
  pose proof (checkTables_spec close EndingBalanceCell.beginningBalance EndingBalanceCell.balance
                (fun ym account expected got =>
                   MonthlyRollForwardViolation account ym expected got)
                (fun ym => getOrEmpty ym out) (sortStrings months)) as S.
  change (map (fun ym => getOrEmpty ym out) (sortStrings months))
    with (monthTables out (sortStrings months)) in S.
  assert (ND : Forall (fun k => NoDup (keys ((fun ym => getOrEmpty ym out) k)))
                      (sortStrings months)).
  { pose proof TK as TK'. unfold monthTables in TK'. rewrite Forall_map in TK'.
    eapply Forall_impl; [|exact TK']. intros k Kt. cbv beta in *. rewrite Kt. exact NA. }
  specialize (S ND []).
  pose proof (continuous_consecutive close EndingBalanceCell.beginningBalance
                EndingBalanceCell.balance _ _ TK) as CC.
  cbv beta in S.
  match type of S with
  | match ?f with _ => _ end => destruct f as [L'|e]
  end; cbn [bind].
  - apply CC. exact S.
  - destruct S as [NC (k & a & x & g & _ & -> & F)]. split.
    + intros C. apply NC. apply CC. exact C.
    + exists a, k, x, g. auto.
Qed.

(* ================================================================== *)
(** * The weekly tables *)

Lemma assertWeeklyBalanceRollForward_eq weekly monthly :
  assertWeeklyBalanceRollForward weekly monthly = weeklyChecks almostEqual weekly monthly.
Proof. reflexivity. Qed.

Lemma assertWeeklyBalanceRollForward64_eq weekly monthly :
  Binary64.assertWeeklyBalanceRollForward weekly monthly
  = weeklyChecks Binary64.almostEqual weekly monthly.
Proof. reflexivity. Qed.

Lemma foldM_map {S A B} (f : S -> B -> result S) (g : A -> B) l s :
  foldM f (map g l) s = foldM (fun s x => f s (g x)) l s.
Proof.
  revert s. induction l as [|x l IH]; intros s; [reflexivity|].
  cbn. destruct (f s (g x)); cbn; [apply IH|reflexivity].
Qed.

(** A loop over months around a loop over weeks is one loop over the
    weeks of all the months, when the check after each month passes. *)
Lemma foldM_nested {S A B} (g : A -> S -> B -> result S) (ks : A -> list B)
    (chk : A -> result unit) ms :
  (forall m, In m ms -> chk m = Ok tt) ->
  forall L,
    foldM (fun L m => L' <- foldM (g m) (ks m) L ;; _ <- chk m ;; Ok L') ms L
    = foldM (fun L p => g (fst p) L (snd p))
            (flat_map (fun m => map (pair m) (ks m)) ms) L.
Proof.
  induction ms as [|m ms IH]; intros C L; [reflexivity|].
  cbn [foldM flat_map]. rewrite foldM_app, foldM_map. cbn [fst snd].
  destruct (foldM (g m) (ks m) L) as [L1|e]; cbn [bind]; [|reflexivity].
  rewrite (C m) by (left; reflexivity). cbn [bind].
  apply IH. intros m' H. apply C. right. exact H.
Qed.

Lemma foldM_unit {A} (f : unit -> A -> result unit) l :
  (forall x, In x l -> f tt x = Ok tt) -> foldM f l tt = Ok tt.
Proof.
  induction l as [|x l IH]; intros H; [reflexivity|].
  cbn. rewrite H by (left; reflexivity). cbn. apply IH.
  intros y Hy. apply H. right. exact Hy.
Qed.

Lemma In_get {V} k (v : V) r : NoDup (keys r) -> In (k, v) r -> get k r = Some v.
Proof.
  induction r as [|[k' v'] r IH]; intros N H; [destruct H|].
  cbn [keys map fst] in N. inversion N as [|? ? N0 N']; subst.
  cbn. destruct H as [E|H].
  - injection E as -> ->. rewrite String.eqb_refl. reflexivity.
  - destruct (String.eqb_spec k k') as [->|Ne]; [|auto].
    exfalso. apply N0. change (In k' (map fst r)). apply in_map_iff.
    exists (k', v). auto.
Qed.

Lemma lastItem_map {A B} (f : A -> B) l :
  lastItem (map f l) = option_map f (lastItem l).
Proof.
  induction l as [|x l IH]; [reflexivity|].
  cbn [map]. rewrite !lastItem_cons, IH. destruct (lastItem l); reflexivity.
Qed.

Lemma strict_sorted_NoDup l : StronglySorted String_as_OT.lt l -> NoDup l.
Proof.
  induction 1 as [|x l S IH F]; constructor; [|exact IH].
  intros I. rewrite Forall_forall in F. specialize (F x I).
  apply String_as_OT.lt_not_eq in F. apply F. reflexivity.
Qed.

Section WeekRuns.
Variables (occs : list Occurrence) (cps : list AnchorCheckpoint).
Variable accounts : list AccountSlug.
Hypothesis accounts_NoDup : NoDup accounts.

Local Abbreviation run :=
  (tableRun WeeklyBalanceCell.beginningBalance WeeklyBalanceCell.balance
     WeeklyBalanceCell.anchor occs cps accounts).

Lemma weeks_fold_run ym W :
  NoDup (map WeekWindow.weekKey W) ->
  forall P M P' M',
    foldM (weekStep ym occs cps accounts) W (P, M) = Ok (P', M') ->
    (forall w, In w W -> ~ In (WeekWindow.weekKey w) (keys M)) ->
    (exists r,
       run P r P' /\
       map snd r = map (fun w => getOrEmpty (WeekWindow.weekKey w) M') W /\
       map fst r = map (fun w => (WeekWindow.start w, WeekWindow.end_ w)) W) /\
    keys M' = (keys M ++ map WeekWindow.weekKey W)%list /\
    (forall k, ~ In k (map WeekWindow.weekKey W) -> get k M' = get k M).
Proof.
  induction W as [|w W IH]; intros N P M P' M' H Fresh.
  - cbn in H. injection H as <- <-. split; [exists []; split; [constructor|auto]|].
    rewrite app_nil_r. auto.
  - cbn [map] in N. inversion N as [|? ? N0 N']; subst.
    cbn [foldM] in H. inv_bind H. destruct a as [P1 M1].
    apply weekStep_table in Ha as (cells & -> & T); [|exact accounts_NoDup].
    assert (K1 : keys (set (WeekWindow.weekKey w) cells M)
                 = (keys M ++ [WeekWindow.weekKey w])%list).
    { rewrite keys_set.
      destruct (existsb (String.eqb (WeekWindow.weekKey w)) (keys M)) eqn:E; [|reflexivity].
      exfalso. apply existsb_exists in E as (k & Hk & Ek).
      apply String.eqb_eq in Ek. subst k. apply (Fresh w); [left; reflexivity|exact Hk]. }
    destruct (IH N' _ _ _ _ H) as ((r & Run & Tabs & Wins) & K & Other).
    { intros w' Hw'. rewrite K1, in_app_iff. intros [I|[E|[]]].
      - apply (Fresh w'); [right; exact Hw'|exact I].
      - apply N0. rewrite E. apply in_map. exact Hw'. }
    split; [|split].
    + exists ((WeekWindow.start w, WeekWindow.end_ w, cells) :: r).
      split; [econstructor; eauto|]. cbn [map snd fst]. split.
      * f_equal; [|exact Tabs]. unfold getOrEmpty.
        rewrite (Other _ N0), get_set_eq. reflexivity.
      * f_equal. exact Wins.
    + rewrite K, K1, <- app_assoc. reflexivity.
    + intros k Nk. rewrite Other by (intros I; apply Nk; right; exact I).
      apply get_set_ne. intros ->. apply Nk. left. reflexivity.
Qed.

Lemma weekly_months_run months :
  NoDup months -> Forall calendarMonth months ->
  forall P R P' R',
    foldM (weeklyMonthStep occs cps accounts) months (P, R) = Ok (P', R') ->
    (forall m, In m months -> ~ In m (keys R)) ->
    (exists r, run P r P' /\ map snd r = weekTables R' months) /\
    keys R' = (keys R ++ months)%list /\
    (forall k, ~ In k months -> get k R' = get k R) /\
    Forall (fun ym => exists W,
              computeWeeksInMonth ym = Ok W /\
              keys (getOrEmpty ym R') = map WeekWindow.weekKey W /\
              sortStrings (keys (getOrEmpty ym R')) = keys (getOrEmpty ym R'))
           months.
Proof.
  induction 1 as [|m months Nm N IH]; intros CM P R P' R' H Fresh.
  - cbn in H. injection H as <- <-. split; [exists []; split; [constructor|auto]|].
    rewrite app_nil_r. auto.
  - apply Forall_cons_iff in CM as [(y & mo & D & Hy) CM].
    cbn [foldM] in H. inv_bind H. destruct a as [P1 R1].
    unfold weeklyMonthStep in Ha. inv_bind Ha. rename a into W.
    inv_bind Ha. destruct a as [P1' wmap]. injection Ha as <- <-.
    destruct (calendar_week_keys m y mo W D Hy Ha0) as (S & Srt & _).
    destruct (weeks_fold_run m W (strict_sorted_NoDup _ S) _ _ _ _ Ha1
                ltac:(intros w _ I; exact I))
      as ((r1 & Run1 & Tabs1 & _) & K1 & _).
    cbn [keys map app] in K1.
    assert (KR : keys (set m wmap R) = (keys R ++ [m])%list).
    { rewrite keys_set. destruct (existsb (String.eqb m) (keys R)) eqn:E; [|reflexivity].
      exfalso. apply existsb_exists in E as (k & Hk & Ek).
      apply String.eqb_eq in Ek. subst k. apply (Fresh m); [left; reflexivity|exact Hk]. }
    destruct (IH CM _ _ _ _ H) as ((r & Run & Tabs) & K & Other & Each).
    { intros m' Hm'. rewrite KR, in_app_iff. intros [I|[<-|[]]].
      - apply (Fresh m'); [right; exact Hm'|exact I].
      - contradiction. }
    assert (Gm : getOrEmpty m R' = wmap).
    { unfold getOrEmpty. rewrite (Other m Nm), get_set_eq. reflexivity. }
    split; [|split; [|split]].
    + exists (r1 ++ r)%list. split; [eapply tableRun_app; eauto|].
      rewrite map_app, Tabs, Tabs1. cbn [weekTables flat_map]. f_equal.
      rewrite Gm, K1, Srt, map_map. reflexivity.
    + rewrite K, KR, <- app_assoc. reflexivity.
    + intros k Nk. rewrite Other by (intros I; apply Nk; right; exact I).
      apply get_set_ne. intros ->. apply Nk. left. reflexivity.
    + constructor; [|exact Each]. exists W. rewrite Gm, K1. auto.
Qed.
End WeekRuns.

Lemma calendarMonth_wellFormed ym : calendarMonth ym -> wellFormedMonth ym.
Proof.
  intros (y & m & D & Hy).
  destruct (denotesMonth_window ym y m D ltac:(lia)) as (s & e & Hs & He & _).
  exists s, (Some e). auto.
Qed.

Lemma Forall_sortStrings (P : string -> Prop) l :
  Forall P l -> Forall P (sortStrings l).
Proof.
  rewrite !Forall_forall. intros H x Hx. apply H.
  eapply Permutation_in; [symmetry; apply stableSort_Permutation|exact Hx].
Qed.

(** After each month the last week agrees with the monthly cell. *)
Lemma month_end_checks (close : Q -> Q -> bool) monthly weekly ym W :
  (forall a b, (a == b)%Q -> close a b = true) ->
  reconciled monthly weekly ->
  computeWeeksInMonth ym = Ok W ->
  sortStrings (keys (getOrEmpty ym weekly)) = map WeekWindow.weekKey W ->
  NoDup (keys (getOrEmpty ym monthly)) ->
  foldM (checkMonthEnd close ym (getOrEmpty ym weekly)
           (sortStrings (keys (getOrEmpty ym weekly))))
        (getOrEmpty ym monthly) tt = Ok tt.
Proof.
  intros Cl Rc HW Ks N. apply foldM_unit. intros [a mc] Hin.
  apply (In_get _ _ _ N) in Hin.
  unfold checkMonthEnd. rewrite Ks, lastItem_map.
  destruct (lastItem W) as [w|] eqn:L; cbn [option_map]; [|reflexivity].
  destruct (isEmptyString (WeekWindow.weekKey w)); [reflexivity|].
  destruct (get (WeekWindow.weekKey w) (getOrEmpty ym weekly)) as [wcells|] eqn:Gw;
    [|reflexivity].
  destruct (get a wcells) as [wc|] eqn:Gc; [|reflexivity].
  apply getOrEmpty_Some in Hin as (mcells & Gm & Gmc).
  apply getOrEmpty_Some in Gw as (wmap & Gwm & Gwk).
  rewrite Cl; [reflexivity|].
  eapply Rc; eauto.
Qed.

Lemma map_flat_map_pair {A B C} (f : A * B -> C) (ks : A -> list B) ms :
  map f (flat_map (fun m => map (pair m) (ks m)) ms)
  = flat_map (fun m => map (fun k => f (m, k)) (ks m)) ms.
Proof.
  induction ms as [|m ms IH]; [reflexivity|].
  cbn [flat_map]. rewrite map_app, map_map, IH. reflexivity.
Qed.

(** The tables of the weekly pass. *)
Lemma weekly_tables months occs prior cps weekly :
  NoDup months -> Forall calendarMonth months ->
  computeWeeklyBalances months occs prior cps = Ok weekly ->
  keys weekly = sortStrings months /\
  Forall (fun t => keys t = listAccounts occs cps prior)
         (weekTables weekly (sortStrings months)) /\
  consecutive (fun c1 c2 =>
                 AnchorMetadata.source (WeeklyBalanceCell.anchor c2) <> checkpoint ->
                 WeeklyBalanceCell.beginningBalance c2 = WeeklyBalanceCell.balance c1)
              (weekTables weekly (sortStrings months)) /\
  (cps = [] ->
   Forall (fun t => forall a c, get a t = Some c ->
              AnchorMetadata.source (WeeklyBalanceCell.anchor c) <> checkpoint)
          (weekTables weekly (sortStrings months))) /\
  Forall (fun ym => exists W,
            computeWeeksInMonth ym = Ok W /\
            keys (getOrEmpty ym weekly) = map WeekWindow.weekKey W /\
            sortStrings (keys (getOrEmpty ym weekly)) = keys (getOrEmpty ym weekly))
         (sortStrings months).
Proof.
  intros N CM Hw. unfold computeWeeklyBalances in Hw.
  inv_bind Hw. destruct a as [P' R']. injection Hw as ->.
  pose proof (listAccounts_NoDup occs cps prior) as NA.
  pose proof (sortStrings_NoDup months N) as NS.
  pose proof (Forall_sortStrings _ _ CM) as CS.
  destruct (weekly_months_run occs cps _ NA _ NS CS _ _ _ _ Ha
              ltac:(intros m _ I; exact I)) as ((r & Run & Tabs) & K & _ & Each).
  cbn [keys map app] in K.
  pose proof (tableRun_keys _ _ _ _ _ _ _ _ _ Run) as TK. rewrite Tabs in TK.
  split; [exact K|]. split; [exact TK|]. split.
  { rewrite <- Tabs. eapply tableRun_consecutive. exact Run. }
  split; [|exact Each].
  intros E. rewrite <- Tabs. eapply tableRun_no_checkpoints; eauto.
Qed.

(** The weekly verifier on the outputs of the two passes. *)
Lemma weekly_verifier (close : Q -> Q -> bool) months occs prior cps monthly weekly :
  (forall a b, (a == b)%Q -> close a b = true) ->
  NoDup months -> Forall calendarMonth months ->
  computeEndingBalances months occs prior cps = Ok monthly ->
  computeWeeklyBalances months occs prior cps = Ok weekly ->
  match weeklyChecks close weekly monthly with
  | Ok _ =>
      consecutive (fun c1 c2 =>
                     close (WeeklyBalanceCell.beginningBalance c2)
                                 (WeeklyBalanceCell.balance c1) = true)
                  (weekTables weekly (sortStrings months))
  | Throw e =>
      ~ consecutive (fun c1 c2 =>
                       close (WeeklyBalanceCell.beginningBalance c2)
                                   (WeeklyBalanceCell.balance c1) = true)
                    (weekTables weekly (sortStrings months)) /\
      isWeeklyViolation close e
  end.
Proof.
  intros Cl N CM Hm Hw.
  pose proof (passes_reconciled _ _ _ _ _ _ Hm Hw) as Rc.
  destruct (monthly_verifier close months occs prior cps monthly N Hm) as (_ & MK & _).
  destruct (weekly_tables months occs prior cps weekly N CM Hw) as (K & TK & _ & _ & Each).
  pose proof (listAccounts_NoDup occs cps prior) as NA.
  unfold weeklyChecks. rewrite K, sortStrings_idempotent.
  set (g := fun (ym : string) (L : Rec Q) (weekKey : string) =>
              foldM (checkEntry close WeeklyBalanceCell.beginningBalance
                       WeeklyBalanceCell.balance
                       (fun account expected got =>
                          WeeklyRollForwardViolation account weekKey expected got))
                    (getOrEmpty weekKey (getOrEmpty ym weekly)) L).
  set (ks := fun ym : string => sortStrings (keys (getOrEmpty ym weekly))).
  set (chk := fun ym : string =>
                foldM (checkMonthEnd close ym (getOrEmpty ym weekly)
                         (sortStrings (keys (getOrEmpty ym weekly))))
                      (getOrEmpty ym monthly) tt).
  assert (C : forall m, In m (sortStrings months) -> chk m = Ok tt).
  { intros m Hm'. subst chk. cbv beta.
    rewrite Forall_forall in Each. destruct (Each m Hm') as (W & HW & KW & SW).
    eapply month_end_checks; eauto.
    - rewrite SW. exact KW.
    - unfold monthTables in MK. rewrite Forall_map, Forall_forall in MK.
      rewrite (MK m Hm'). exact NA. }
  pose proof (foldM_nested g ks chk (sortStrings months) C []) as E.
  subst g ks chk. cbv beta in E. rewrite E. clear E C.
  pose proof (checkTables_spec close WeeklyBalanceCell.beginningBalance WeeklyBalanceCell.balance
                (fun (p : string * string) account expected got =>
                   WeeklyRollForwardViolation account (snd p) expected got)
                (fun p : string * string => getOrEmpty (snd p) (getOrEmpty (fst p) weekly))
                (flat_map (fun m => map (pair m)
                                      (sortStrings (keys (getOrEmpty m weekly))))
                          (sortStrings months))) as S.
  rewrite (map_flat_map_pair
             (fun p : string * string => getOrEmpty (snd p) (getOrEmpty (fst p) weekly))) in S.
  cbn [fst snd] in S.
  assert (ND : Forall (fun p : string * string =>
                         NoDup (keys (getOrEmpty (snd p) (getOrEmpty (fst p) weekly))))
                      (flat_map (fun m => map (pair m)
                                            (sortStrings (keys (getOrEmpty m weekly))))
                                (sortStrings months))).
  { pose proof TK as TK'. unfold weekTables in TK'.
    rewrite <- (map_flat_map_pair
                  (fun p : string * string =>
                     getOrEmpty (snd p) (getOrEmpty (fst p) weekly))) in TK'.
    rewrite Forall_map in TK'. eapply Forall_impl; [|exact TK'].
    intros p Kp. cbv beta in *. rewrite Kp. exact NA. }
  specialize (S ND []). clear ND.
  pose proof (continuous_consecutive close WeeklyBalanceCell.beginningBalance
                WeeklyBalanceCell.balance _ _ TK) as CC.
  cbv beta in S.
  match type of S with
  | match ?f with _ => _ end => destruct f as [L'|e]
  end; cbn [bind].
  - apply CC. exact S.
  - destruct S as [NC (k & a & x & gt & _ & -> & F)]. split.
    + intros Cn. apply NC. apply CC. exact Cn.
    + exists a, (snd k), x, gt. auto.
Qed.

(* ================================================================== *)
(** * The shape of the monthly output *)

Lemma In_keys_set {V} k k' (v : V) r :
  In k (keys (set k' v r)) <-> k = k' \/ In k (keys r).
Proof.
  rewrite keys_set. destruct (existsb (String.eqb k') (keys r)) eqn:E.
  - split; [auto|]. intros [->|H]; [|exact H].
    apply existsb_exists in E as (x & Hx & Ex). apply String.eqb_eq in Ex.
    subst x. exact Hx.
  - rewrite in_app_iff. cbn. split.
    + intros [H|[<-|[]]]; auto.
    + intros [->|H]; auto.
Qed.

Lemma months_fold_shape occs cps accounts months :
  NoDup accounts ->
  forall P R P' R',
    foldM (monthStep occs cps accounts) months (P, R) = Ok (P', R') ->
    (forall ym, In ym (keys R') <-> In ym (keys R) \/ In ym months) /\
    (forall ym cells, get ym R' = Some cells ->
       get ym R = Some cells \/ monthTableOf accounts ym cells).
Proof.
  intros N. induction months as [|m months IH]; intros P R P' R' H.
  - cbn in H. injection H as <- <-. split; [|auto].
    intros ym. split; [auto|]. intros [H|[]]. exact H.
  - cbn [foldM] in H. inv_bind H. destruct a as [P1 R1].
    destruct (IH _ _ _ _ H) as [K G].
    pose proof Ha as Hb.
    apply monthStep_table in Ha as (ws & we & cells & _ & _ & -> & (Kc & _)); [|exact N].
    apply monthStep_Ok in Hb as (ws' & we' & cells' & _ & _ & E & I & O); [|exact N].
    assert (cells' = cells).
    { apply (f_equal (get m)) in E. rewrite !get_set_eq in E. congruence. }
    subst cells'. clear E. split.
    + intros ym. rewrite K, In_keys_set. cbn [In]. split.
      * intros [[->|H1]|H2]; auto.
      * intros [H1|[<-|H2]]; auto.
    + intros ym cs Gy. destruct (G ym cs Gy) as [G1|G1]; [|right; exact G1].
      destruct (String.eqb_spec ym m) as [->|Ne].
      * rewrite get_set_eq in G1. injection G1 as <-. right.
        split; [exact Kc|]. intros a c Ga.
        assert (Ia : In a accounts) by (rewrite <- Kc; eapply get_In_keys; eauto).
        destruct (I a Ia) as (anchor & net & _ & _ & Gc).
        rewrite Ga in Gc. injection Gc as ->. cbn. auto.
      * rewrite get_set_ne in G1 by exact Ne. left. exact G1.
Qed.

(* ================================================================== *)
(** * Properties of the two passes and of the verifiers *)

(** X12.  For accounts with plain slugs, the output of the monthly pass
    has one table for each month listed, and no other; over a list without
    repetition the tables follow the ascending order of the months.  Every
    table has one cell for each account of [listAccounts], in that order,
    whatever the activity of the account; the cell carries its month and
    account, begins at the balance of its anchor and ends at the beginning
    balance plus the net activity. *)
Theorem monthly_output_shape months occs prior cps out :
  plainAccounts (listAccounts occs cps prior) = true ->
  computeEndingBalances months occs prior cps = Ok out ->
  (forall ym, In ym (keys out) <-> In ym months) /\
  (NoDup months -> keys out = sortStrings months) /\
  forall ym cells,
    get ym out = Some cells ->
    monthTableOf (listAccounts occs cps prior) ym cells.
Proof.
  intros _ H. pose proof (listAccounts_NoDup occs cps prior) as NA. split; [|split].
  - unfold computeEndingBalances in H.
    inv_bind H. destruct a as [P' R']. injection H as ->.
    destruct (months_fold_shape _ _ _ _ NA _ _ _ _ Ha) as [K _].
    intros ym. rewrite K. cbn. split.
    + intros [[]|I]. eapply Permutation_in; [symmetry; apply stableSort_Permutation|exact I].
    + intros I. right. eapply Permutation_in; [apply stableSort_Permutation|exact I].
  - intros N. apply (monthly_verifier almostEqual months occs prior cps out N H).
  - unfold computeEndingBalances in H.
    inv_bind H. destruct a as [P' R']. injection H as ->.
    destruct (months_fold_shape _ _ _ _ NA _ _ _ _ Ha) as [_ G].
    intros ym cells Gy. destruct (G ym cells Gy) as [G1|G1]; [discriminate|exact G1].
Qed.

Lemma monthly_output_shape_witness :
  plainAccounts (listAccounts sampleOccurrences sampleCheckpoints samplePrior) = true /\
  exists out,
    computeEndingBalances ["2025-02"; "2025-01"] sampleOccurrences samplePrior
      sampleCheckpoints = Ok out /\
    keys out = ["2025-01"; "2025-02"] /\
    (forall ym, In ym (keys out) <-> In ym ["2025-02"; "2025-01"]) /\
    (NoDup ["2025-02"; "2025-01"] -> keys out = sortStrings ["2025-02"; "2025-01"]) /\
    forall ym cells,
      get ym out = Some cells ->
      monthTableOf (listAccounts sampleOccurrences sampleCheckpoints samplePrior) ym cells.
Proof.
  split; [vm_compute; reflexivity|].
  exists_value (computeEndingBalances ["2025-02"; "2025-01"] sampleOccurrences
                  samplePrior sampleCheckpoints).
  split; [vm_compute; reflexivity|]. split; [vm_compute; reflexivity|].
  apply (monthly_output_shape ["2025-02"; "2025-01"] sampleOccurrences samplePrior
           sampleCheckpoints); vm_compute; reflexivity.
Defined.

(** X13.  In binary64 arithmetic, over months listed once, accounts with
    plain slugs and whole numbers within the bound of [exactSums]: the
    monthly verifier accepts the output of the monthly pass exactly when
    every cell anchored at a checkpoint, in a month after the first,
    begins within the tolerance of the ending balance of the same account
    in the month before; cells with any other anchor pass by construction.
    When it does not accept, it throws the monthly roll-forward violation
    of a cell that is off by more than the tolerance. *)
Theorem monthly_verifier_accepts_iff months occs prior cps out :
  NoDup months ->
  plainAccounts (listAccounts occs cps prior) = true ->
  exactSums months occs prior cps = true ->
  Binary64.computeEndingBalances months occs prior cps = Ok out ->
  (Binary64.assertBalanceRollForward out = Ok tt <->
   forall pre m1 m2 post a cells1 cells2 c1 c2,
     sortStrings months = (pre ++ m1 :: m2 :: post)%list ->
     get m1 out = Some cells1 -> get a cells1 = Some c1 ->
     get m2 out = Some cells2 -> get a cells2 = Some c2 ->
     AnchorMetadata.source (EndingBalanceCell.anchor c2) = checkpoint ->
     Binary64.almostEqual (EndingBalanceCell.beginningBalance c2)
                 (EndingBalanceCell.balance c1) = true) /\
  (Binary64.assertBalanceRollForward out = Ok tt \/
   exists account ym expected got,
     Binary64.assertBalanceRollForward out
     = Throw (MonthlyRollForwardViolation account ym expected got) /\
     Binary64.almostEqual got expected = false).
Proof.
  intros N _ X H.
  rewrite (proj1 (passes_exact months occs prior cps X)) in H.
  rewrite assertBalanceRollForward64_eq.
  destruct (monthly_verifier Binary64.almostEqual months occs prior cps out N H)
    as (K & TK & Cont & _ & V).
  unfold monthTables in Cont. rewrite consecutive_map in Cont.
  assert (Equiv :
    consecutive (fun c1 c2 =>
                   Binary64.almostEqual (EndingBalanceCell.beginningBalance c2)
                               (EndingBalanceCell.balance c1) = true)
                (monthTables out (sortStrings months)) <->
    forall pre m1 m2 post a cells1 cells2 c1 c2,
      sortStrings months = (pre ++ m1 :: m2 :: post)%list ->
      get m1 out = Some cells1 -> get a cells1 = Some c1 ->
      get m2 out = Some cells2 -> get a cells2 = Some c2 ->
      AnchorMetadata.source (EndingBalanceCell.anchor c2) = checkpoint ->
      Binary64.almostEqual (EndingBalanceCell.beginningBalance c2)
                  (EndingBalanceCell.balance c1) = true).
  { unfold monthTables. rewrite consecutive_map. split.
    - intros C pre m1 m2 post a cells1 cells2 c1 c2 E G1 Ga1 G2 Ga2 _.
      eapply (C pre m1 m2 post a c1 c2 E); unfold getOrEmpty; rewrite ?G1, ?G2; assumption.
    - intros C pre m1 m2 post a c1 c2 E G1 G2.
      destruct (AnchorMetadata.source (EndingBalanceCell.anchor c2)) eqn:Src.
      + apply getOrEmpty_Some in G1 as (cells1 & G1 & Ga1).
        apply getOrEmpty_Some in G2 as (cells2 & G2 & Ga2).
        eapply C; eauto.
      + apply almostEqual64_Qeq.
        rewrite (Cont pre m1 m2 post a c1 c2 E G1 G2) by (rewrite Src; discriminate).
        reflexivity.
      + apply almostEqual64_Qeq.
        rewrite (Cont pre m1 m2 post a c1 c2 E G1 G2) by (rewrite Src; discriminate).
        reflexivity. }
  destruct (monthlyChecks Binary64.almostEqual out) as [[]|e].
  - split; [|left; reflexivity]. split; [intros _; apply Equiv; exact V|reflexivity].
  - destruct V as [NC (a & ym & x & g & -> & F)]. split.
    + split; [discriminate|]. intros C. exfalso. apply NC. apply Equiv. exact C.
    + right. exists a, ym, x, g. auto.
Qed.

Lemma monthly_verifier_accepts_iff_witness :
  NoDup ["2025-01"; "2025-02"] /\
  plainAccounts (listAccounts sampleOccurrences sampleCheckpoints samplePrior) = true /\
  exactSums ["2025-01"; "2025-02"] sampleOccurrences samplePrior sampleCheckpoints
  = true /\
  exists out,
    Binary64.computeEndingBalances ["2025-01"; "2025-02"] sampleOccurrences samplePrior
      sampleCheckpoints = Ok out /\
    Binary64.assertBalanceRollForward out
    = Throw (MonthlyRollForwardViolation "profit" "2025-02" 325 430) /\
    (Binary64.assertBalanceRollForward out = Ok tt \/
     exists account ym expected got,
       Binary64.assertBalanceRollForward out
       = Throw (MonthlyRollForwardViolation account ym expected got) /\
       Binary64.almostEqual got expected = false).
Proof.
  assert (N : NoDup ["2025-01"; "2025-02"]).
  { apply NoDup_cons; [cbn; intros [E|[]]; discriminate|].
    apply NoDup_cons; [intros []|apply NoDup_nil]. }
  split; [exact N|]. split; [vm_compute; reflexivity|].
  split; [vm_compute; reflexivity|].
  exists_value (Binary64.computeEndingBalances ["2025-01"; "2025-02"] sampleOccurrences
                  samplePrior sampleCheckpoints).
  split; [vm_compute; reflexivity|]. split; [vm_compute; reflexivity|].
  eapply (monthly_verifier_accepts_iff ["2025-01"; "2025-02"] sampleOccurrences
            samplePrior sampleCheckpoints);
    [exact N|vm_compute; reflexivity|vm_compute; reflexivity|vm_compute; reflexivity].
Defined.

(** X14.  The output of the weekly pass, over months of the years 100 to
    9999 listed once and accounts with plain slugs: one week map for each month, in ascending order of
    the months, that holds the tables of the weeks of the month under their
    keys, in order of time, which is also the ascending order of the keys.
    Every table has one cell for each account.  From one table to the next
    (the next week of the month, or the first week of the next month) a
    cell that is not anchored at a checkpoint begins at the ending balance
    of the cell before. *)
Theorem weekly_continuity months occs prior cps weekly :
  NoDup months -> Forall calendarMonth months ->
  plainAccounts (listAccounts occs cps prior) = true ->
  computeWeeklyBalances months occs prior cps = Ok weekly ->
  keys weekly = sortStrings months /\
  Forall (fun ym => exists weeks,
            computeWeeksInMonth ym = Ok weeks /\
            keys (getOrEmpty ym weekly) = map WeekWindow.weekKey weeks /\
            sortStrings (keys (getOrEmpty ym weekly)) = keys (getOrEmpty ym weekly))
         (sortStrings months) /\
  Forall (fun t => keys t = listAccounts occs cps prior)
         (weekTables weekly (sortStrings months)) /\
  consecutive (fun c1 c2 =>
                 AnchorMetadata.source (WeeklyBalanceCell.anchor c2) <> checkpoint ->
                 WeeklyBalanceCell.beginningBalance c2 = WeeklyBalanceCell.balance c1 /\
                 almostEqual (WeeklyBalanceCell.beginningBalance c2)
                             (WeeklyBalanceCell.balance c1) = true)
              (weekTables weekly (sortStrings months)).
Proof.
  intros N CM _ H.
  destruct (weekly_tables months occs prior cps weekly N CM H) as (K & TK & Cont & _ & Each).
  split; [exact K|]. split; [exact Each|]. split; [exact TK|].
  intros pre t1 t2 post a c1 c2 E G1 G2 S.
  pose proof (Cont pre t1 t2 post a c1 c2 E G1 G2 S) as B.
  split; [exact B|]. apply almostEqual_Qeq. rewrite B. reflexivity.
Qed.

Lemma calendarMonth_2025_01 : calendarMonth "2025-01".
Proof.
  exists 2025, 1. split; [|lia].
  exists 2025%Q, 1%Q. split; [vm_compute; reflexivity|].
  split; [reflexivity|]. split; [reflexivity|]. lia.
Defined.

Lemma calendarMonth_2025_02 : calendarMonth "2025-02".
Proof.
  exists 2025, 2. split; [|lia].
  exists 2025%Q, 2%Q. split; [vm_compute; reflexivity|].
  split; [reflexivity|]. split; [reflexivity|]. lia.
Defined.

Lemma weekly_continuity_witness :
  NoDup ["2025-01"; "2025-02"] /\
  Forall calendarMonth ["2025-01"; "2025-02"] /\
  plainAccounts (listAccounts sampleOccurrences sampleCheckpoints samplePrior) = true /\
  exists weekly,
    computeWeeklyBalances ["2025-01"; "2025-02"] sampleOccurrences samplePrior
      sampleCheckpoints = Ok weekly /\
    List.length (weekTables weekly (sortStrings ["2025-01"; "2025-02"])) = 10%nat /\
    consecutive (fun c1 c2 =>
                   AnchorMetadata.source (WeeklyBalanceCell.anchor c2) <> checkpoint ->
                   WeeklyBalanceCell.beginningBalance c2 = WeeklyBalanceCell.balance c1 /\
                   almostEqual (WeeklyBalanceCell.beginningBalance c2)
                               (WeeklyBalanceCell.balance c1) = true)
                (weekTables weekly (sortStrings ["2025-01"; "2025-02"])).
Proof.
  assert (N : NoDup ["2025-01"; "2025-02"]).
  { apply NoDup_cons; [cbn; intros [E|[]]; discriminate|].
    apply NoDup_cons; [intros []|apply NoDup_nil]. }
  assert (C : Forall calendarMonth ["2025-01"; "2025-02"]).
  { repeat constructor; [exact calendarMonth_2025_01|exact calendarMonth_2025_02]. }
  split; [exact N|]. split; [exact C|]. split; [vm_compute; reflexivity|].
  exists_value (computeWeeklyBalances ["2025-01"; "2025-02"] sampleOccurrences
                  samplePrior sampleCheckpoints).
  split; [vm_compute; reflexivity|]. split; [vm_compute; reflexivity|].
  eapply (weekly_continuity ["2025-01"; "2025-02"] sampleOccurrences samplePrior
            sampleCheckpoints);
    [exact N|exact C|vm_compute; reflexivity|vm_compute; reflexivity].
Defined.

(** X15.  In binary64 arithmetic, over months of the years 100 to 9999
    listed once, accounts with plain slugs and whole numbers within the
    bound of [exactSums]: the weekly verifier accepts the outputs of the
    two passes exactly when every weekly cell anchored at a checkpoint,
    after the first week, begins within the tolerance of the ending
    balance of the same account in the week before; no sum being rounded,
    the comparison of the last week of each month with the monthly cell
    does not fail.  When the verifier does not accept, it throws the
    weekly roll-forward violation of a cell that is off by more than the
    tolerance. *)
Theorem weekly_verifier_accepts_iff months occs prior cps monthly weekly :
  NoDup months -> Forall calendarMonth months ->
  plainAccounts (listAccounts occs cps prior) = true ->
  exactSums months occs prior cps = true ->
  Binary64.computeEndingBalances months occs prior cps = Ok monthly ->
  Binary64.computeWeeklyBalances months occs prior cps = Ok weekly ->
  (Binary64.assertWeeklyBalanceRollForward weekly monthly = Ok tt <->
   consecutive (fun c1 c2 =>
                  AnchorMetadata.source (WeeklyBalanceCell.anchor c2) = checkpoint ->
                  Binary64.almostEqual (WeeklyBalanceCell.beginningBalance c2)
                              (WeeklyBalanceCell.balance c1) = true)
               (weekTables weekly (sortStrings months))) /\
  (Binary64.assertWeeklyBalanceRollForward weekly monthly = Ok tt \/
   exists account weekKey expected got,
     Binary64.assertWeeklyBalanceRollForward weekly monthly
     = Throw (WeeklyRollForwardViolation account weekKey expected got) /\
     Binary64.almostEqual got expected = false).
Proof.
  intros N CM _ X Hm Hw.
  destruct (passes_exact months occs prior cps X) as [Em Ew].
  rewrite Em in Hm. rewrite Ew in Hw.
  rewrite assertWeeklyBalanceRollForward64_eq.
  destruct (weekly_tables months occs prior cps weekly N CM Hw) as (_ & _ & Cont & _).
  pose proof (weekly_verifier Binary64.almostEqual months occs prior cps monthly weekly
                almostEqual64_Qeq N CM Hm Hw) as V.
  assert (Equiv :
    consecutive (fun c1 c2 =>
                   Binary64.almostEqual (WeeklyBalanceCell.beginningBalance c2)
                               (WeeklyBalanceCell.balance c1) = true)
                (weekTables weekly (sortStrings months)) <->
    consecutive (fun c1 c2 =>
                   AnchorMetadata.source (WeeklyBalanceCell.anchor c2) = checkpoint ->
                   Binary64.almostEqual (WeeklyBalanceCell.beginningBalance c2)
                               (WeeklyBalanceCell.balance c1) = true)
                (weekTables weekly (sortStrings months))).
  { split.
    - intros C pre t1 t2 post a c1 c2 E G1 G2 _. eapply C; eauto.
    - intros C pre t1 t2 post a c1 c2 E G1 G2.
      destruct (AnchorMetadata.source (WeeklyBalanceCell.anchor c2)) eqn:Src.
      + eapply C; eauto.
      + apply almostEqual64_Qeq.
        rewrite (Cont pre t1 t2 post a c1 c2 E G1 G2) by (rewrite Src; discriminate).
        reflexivity.
      + apply almostEqual64_Qeq.
        rewrite (Cont pre t1 t2 post a c1 c2 E G1 G2) by (rewrite Src; discriminate).
        reflexivity. }
  destruct (weeklyChecks Binary64.almostEqual weekly monthly) as [[]|e].
  - split; [|left; reflexivity]. split; [intros _; apply Equiv; exact V|reflexivity].
  - destruct V as [NC (a & k & x & g & -> & F)]. split.
    + split; [discriminate|]. intros C. exfalso. apply NC. apply Equiv. exact C.
    + right. exists a, k, x, g. auto.
Qed.

Lemma weekly_verifier_accepts_iff_witness :
  NoDup ["2025-01"; "2025-02"] /\
  Forall calendarMonth ["2025-01"; "2025-02"] /\
  plainAccounts (listAccounts operatingOccurrences [cpOperatingJan]
                   [("operating", 1250%Q)]) = true /\
  exactSums ["2025-01"; "2025-02"] operatingOccurrences [("operating", 1250%Q)]
    [cpOperatingJan] = true /\
  exists monthly weekly,
    Binary64.computeEndingBalances ["2025-01"; "2025-02"] operatingOccurrences
      [("operating", 1250%Q)] [cpOperatingJan] = Ok monthly /\
    Binary64.computeWeeklyBalances ["2025-01"; "2025-02"] operatingOccurrences
      [("operating", 1250%Q)] [cpOperatingJan] = Ok weekly /\
    Binary64.assertWeeklyBalanceRollForward weekly monthly
    = Throw (WeeklyRollForwardViolation "operating" "2025-01-19" 1520 1480) /\
    (Binary64.assertWeeklyBalanceRollForward weekly monthly = Ok tt \/
     exists account weekKey expected got,
       Binary64.assertWeeklyBalanceRollForward weekly monthly
       = Throw (WeeklyRollForwardViolation account weekKey expected got) /\
       Binary64.almostEqual got expected = false).
Proof.
  assert (N : NoDup ["2025-01"; "2025-02"]).
  { apply NoDup_cons; [cbn; intros [E|[]]; discriminate|].
    apply NoDup_cons; [intros []|apply NoDup_nil]. }
  assert (C : Forall calendarMonth ["2025-01"; "2025-02"]).
  { repeat constructor; [exact calendarMonth_2025_01|exact calendarMonth_2025_02]. }
  split; [exact N|]. split; [exact C|]. split; [vm_compute; reflexivity|].
  split; [vm_compute; reflexivity|].
  exists_value (Binary64.computeEndingBalances ["2025-01"; "2025-02"] operatingOccurrences
                  [("operating", 1250%Q)] [cpOperatingJan]).
  exists_value (Binary64.computeWeeklyBalances ["2025-01"; "2025-02"] operatingOccurrences
                  [("operating", 1250%Q)] [cpOperatingJan]).
  split; [vm_compute; reflexivity|]. split; [vm_compute; reflexivity|].
  split; [vm_compute; reflexivity|].
  eapply (weekly_verifier_accepts_iff ["2025-01"; "2025-02"] operatingOccurrences
            [("operating", 1250%Q)] [cpOperatingJan]);
    [exact N|exact C|vm_compute; reflexivity|vm_compute; reflexivity
    |vm_compute; reflexivity|vm_compute; reflexivity].
Defined.

(** X16.  Without checkpoints [buildForecast] returns.  In binary64
    arithmetic, for months of the years 100 to 9999 listed once,
    occurrences whose timestamps parse, accounts with plain slugs and
    whole numbers within the bound of [exactSums]: both passes return,
    both verifiers accept, and the result holds the sorted months, the
    accounts and the two outputs. *)
Theorem forecast_without_checkpoints months occs prior :
  NoDup months -> Forall calendarMonth months ->
  Forall (fun o => exists t, timeOfString (Occurrence.timestamp o) = Some t) occs ->
  plainAccounts (listAccounts occs [] prior) = true ->
  exactSums months occs prior [] = true ->
  exists monthly weekly,
    Binary64.computeEndingBalances months occs prior [] = Ok monthly /\
    Binary64.computeWeeklyBalances months occs prior [] = Ok weekly /\
    Binary64.assertBalanceRollForward monthly = Ok tt /\
    Binary64.assertWeeklyBalanceRollForward weekly monthly = Ok tt /\
    Binary64.buildForecast (BuildForecastParams.mk months occs prior [])
    = Ok (ForecastResult.mk (sortStrings months) (listAccounts occs [] prior)
            monthly weekly).
Proof.
  intros N CM V _ X.
  assert (WF : wellFormedTimestamps occs []) by (split; [exact V|constructor]).
  assert (WM : Forall wellFormedMonth months).
  { eapply Forall_impl; [|exact CM]. apply calendarMonth_wellFormed. }
  destruct (passes_return months occs prior [] WF WM) as [[monthly Hm] [weekly Hw]].
  destruct (passes_exact months occs prior [] X) as [Em Ew].
  exists monthly, weekly.
  destruct (monthly_verifier Binary64.almostEqual months occs prior [] monthly N Hm)
    as (_ & _ & Cm & Nm & Vm).
  destruct (weekly_tables months occs prior [] weekly N CM Hw) as (_ & _ & Cw & Nw & _).
  pose proof (weekly_verifier Binary64.almostEqual months occs prior [] monthly weekly
                almostEqual64_Qeq N CM Hm Hw) as Vw.
  specialize (Nm eq_refl). specialize (Nw eq_refl).
  assert (Am : Binary64.assertBalanceRollForward monthly = Ok tt).
  { rewrite assertBalanceRollForward64_eq.
    destruct (monthlyChecks Binary64.almostEqual monthly) as [[]|e]; [reflexivity|].
    exfalso. destruct Vm as [NC _]. apply NC.
    intros pre t1 t2 post a c1 c2 E G1 G2. apply almostEqual64_Qeq.
    rewrite (Cm pre t1 t2 post a c1 c2 E G1 G2); [reflexivity|].
    rewrite Forall_forall in Nm. apply (Nm t2) with (a := a); [|exact G2].
    rewrite E. apply in_or_app. right. right. left. reflexivity. }
  assert (Aw : Binary64.assertWeeklyBalanceRollForward weekly monthly = Ok tt).
  { rewrite assertWeeklyBalanceRollForward64_eq.
    destruct (weeklyChecks Binary64.almostEqual weekly monthly) as [[]|e]; [reflexivity|].
    exfalso. destruct Vw as [NC _]. apply NC.
    intros pre t1 t2 post a c1 c2 E G1 G2. apply almostEqual64_Qeq.
    rewrite (Cw pre t1 t2 post a c1 c2 E G1 G2); [reflexivity|].
    rewrite Forall_forall in Nw. apply (Nw t2) with (a := a); [|exact G2].
    rewrite E. apply in_or_app. right. right. left. reflexivity. }
  rewrite <- Em in Hm. rewrite <- Ew in Hw.
  repeat (split; [assumption|]).
  unfold Binary64.buildForecast.
  cbn [BuildForecastParams.months BuildForecastParams.occurrences
       BuildForecastParams.priorEndingBalances BuildForecastParams.checkpoints].
  assert (Sm : Binary64.computeEndingBalances (sortStrings months) occs prior []
               = Ok monthly).
  { unfold Binary64.computeEndingBalances in *. rewrite sortStrings_idempotent. exact Hm. }
  assert (Sw : Binary64.computeWeeklyBalances (sortStrings months) occs prior []
               = Ok weekly).
  { unfold Binary64.computeWeeklyBalances in *. rewrite sortStrings_idempotent. exact Hw. }
  rewrite Sm. cbn [bind]. rewrite Am. cbn [bind]. rewrite Sw. cbn [bind].
  rewrite Aw. reflexivity.
Qed.

Lemma forecast_without_checkpoints_witness :
  NoDup ["2025-02"; "2025-01"] /\
  Forall calendarMonth ["2025-02"; "2025-01"] /\
  Forall (fun o => exists t, timeOfString (Occurrence.timestamp o) = Some t)
         sampleOccurrences /\
  plainAccounts (listAccounts sampleOccurrences [] samplePrior) = true /\
  exactSums ["2025-02"; "2025-01"] sampleOccurrences samplePrior [] = true /\
  exists monthly weekly,
    Binary64.computeEndingBalances ["2025-02"; "2025-01"] sampleOccurrences
      samplePrior [] = Ok monthly /\
    Binary64.computeWeeklyBalances ["2025-02"; "2025-01"] sampleOccurrences
      samplePrior [] = Ok weekly /\
    Binary64.assertBalanceRollForward monthly = Ok tt /\
    Binary64.assertWeeklyBalanceRollForward weekly monthly = Ok tt /\
    Binary64.buildForecast
      (BuildForecastParams.mk ["2025-02"; "2025-01"] sampleOccurrences samplePrior [])
    = Ok (ForecastResult.mk (sortStrings ["2025-02"; "2025-01"])
            (listAccounts sampleOccurrences [] samplePrior) monthly weekly).
Proof.
  assert (N : NoDup ["2025-02"; "2025-01"]).
  { apply NoDup_cons; [cbn; intros [E|[]]; discriminate|].
    apply NoDup_cons; [intros []|apply NoDup_nil]. }
  assert (C : Forall calendarMonth ["2025-02"; "2025-01"]).
  { repeat constructor; [exact calendarMonth_2025_02|exact calendarMonth_2025_01]. }
  assert (V : Forall (fun o => exists t, timeOfString (Occurrence.timestamp o) = Some t)
                     sampleOccurrences).
  { repeat constructor; eexists; vm_compute; reflexivity. }
  assert (K : plainAccounts (listAccounts sampleOccurrences [] samplePrior) = true)
    by (vm_compute; reflexivity).
  assert (X : exactSums ["2025-02"; "2025-01"] sampleOccurrences samplePrior [] = true)
    by (vm_compute; reflexivity).
  split; [exact N|]. split; [exact C|]. split; [exact V|].
  split; [exact K|]. split; [exact X|].
  exact (forecast_without_checkpoints ["2025-02"; "2025-01"] sampleOccurrences
           samplePrior N C V K X).
Defined.

(* ================================================================== *)
(** * One account at a time *)

Lemma filter_ext_in_eq {A} (p q : A -> bool) l :
  (forall x, In x l -> p x = q x) -> filter p l = filter q l.
Proof.
  induction l as [|x l IH]; intros H; [reflexivity|].
  cbn. rewrite (H x) by (left; reflexivity). rewrite IH; [reflexivity|].
  intros y Hy. apply H. right. exact Hy.
Qed.

Lemma find_filter_implied {A} (p q : A -> bool) l :
  (forall x, p x = true -> q x = true) -> find p (filter q l) = find p l.
Proof.
  intros H. induction l as [|x l IH]; [reflexivity|].
  cbn. destruct (q x) eqn:Q; cbn.
  - rewrite IH. reflexivity.
  - destruct (p x) eqn:Px; [rewrite (H x Px) in Q; discriminate|exact IH].
Qed.

Lemma filter_filter_implied {A} (p q : A -> bool) l :
  (forall x, p x = true -> q x = true) -> filter p (filter q l) = filter p l.
Proof.
  intros H. rewrite filter_filter. apply filter_ext_in_eq. intros x _.
  destruct (p x) eqn:Px; [rewrite (H x Px); reflexivity|apply andb_false_r].
Qed.

(** What a window computes for an account depends on the occurrences and
    the checkpoints of that account alone. *)
Lemma windowCell_restrict occs cps P a ws we :
  windowCell occs cps P a ws we
  = windowCell (occurrencesOf a occs) (checkpointsOf a cps) P a ws we.
Proof.
  unfold windowCell. rewrite !filterOccurrencesForWindow_find, !filterCheckpointsForWindow_find.
  unfold occurrencesOf, checkpointsOf.
  rewrite (find_filter_implied (badOccurrence a)),
          (find_filter_implied (badCheckpoint a)),
          (filter_filter_implied (occurrenceInWindow a ws we)),
          (filter_filter_implied (checkpointInWindow a ws we)); try reflexivity.
  - unfold checkpointInWindow. intros c H. apply andb_prop in H as [H _]. exact H.
  - unfold occurrenceInWindow. intros o H. apply andb_prop in H as [H _]. exact H.
  - unfold badCheckpoint. intros c H. apply andb_prop in H as [H _]. exact H.
  - unfold badOccurrence. intros o H. apply andb_prop in H as [H _]. exact H.
Qed.

Lemma set_fresh {V} k (v : V) r : ~ In k (keys r) -> set k v r = (r ++ [(k, v)])%list.
Proof.
  induction r as [|[k' v'] r IH]; intros N; [reflexivity|].
  cbn in *. destruct (String.eqb_spec k k') as [->|Ne]; [exfalso; auto|].
  rewrite IH; [reflexivity|]. intros I. apply N. right. exact I.
Qed.

(** The copy of an object is the object. *)
Lemma clonePriorBalances_id prior :
  NoDup (keys prior) -> clonePriorBalances prior = prior.
Proof.
  unfold clonePriorBalances, fromEntries. intros N.
  assert (G : forall l acc,
    NoDup (keys acc ++ keys l) ->
    fold_left (fun r kv => set (fst kv) (snd kv) r)
              (map (fun kv : string * Q => (fst kv, snd kv)) l) acc
    = (acc ++ l)%list).
  { clear. induction l as [|[k v] l IH]; intros acc N; [rewrite app_nil_r; reflexivity|].
    cbn [map fold_left fst snd]. cbn [keys map fst] in N.
    rewrite set_fresh.
    - rewrite IH.
      + rewrite <- app_assoc. reflexivity.
      + unfold keys in *. rewrite map_app. cbn [map fst]. rewrite <- app_assoc. exact N.
    - apply NoDup_remove_2 in N. intros I. apply N. apply in_or_app. left. exact I. }
  apply (G prior []). exact N.
Qed.

Lemma occurrencesOf_nonempty a occs :
  (exists o, In o occs /\ Occurrence.accountSlug o = a) <-> occurrencesOf a occs <> [].
Proof.
  unfold occurrencesOf. split.
  - intros (o & Ho & E) F.
    assert (I : In o (filter (fun o => String.eqb (Occurrence.accountSlug o) a) occs)).
    { apply filter_In. split; [exact Ho|]. apply String.eqb_eq. exact E. }
    rewrite F in I. destruct I.
  - intros N. destruct (filter _ occs) as [|o l] eqn:F; [contradiction|].
    assert (I : In o (filter (fun o => String.eqb (Occurrence.accountSlug o) a) occs))
      by (rewrite F; left; reflexivity).
    apply filter_In in I as [Ho E]. exists o. split; [exact Ho|].
    apply String.eqb_eq. exact E.
Qed.

Lemma checkpointsOf_nonempty a cps :
  (exists c, In c cps /\ AnchorCheckpoint.accountSlug c = a) <-> checkpointsOf a cps <> [].
Proof.
  unfold checkpointsOf. split.
  - intros (o & Ho & E) F.
    assert (I : In o (filter (fun c => String.eqb (AnchorCheckpoint.accountSlug c) a) cps)).
    { apply filter_In. split; [exact Ho|]. apply String.eqb_eq. exact E. }
    rewrite F in I. destruct I.
  - intros N. destruct (filter _ cps) as [|o l] eqn:F; [contradiction|].
    assert (I : In o (filter (fun c => String.eqb (AnchorCheckpoint.accountSlug c) a) cps))
      by (rewrite F; left; reflexivity).
    apply filter_In in I as [Ho E]. exists o. split; [exact Ho|].
    apply String.eqb_eq. exact E.
Qed.

Lemma In_keys_iff {V} k (r : Rec V) : In k (keys r) <-> get k r <> None.
Proof.
  split.
  - intros I. apply In_keys_get in I as [v ->]. discriminate.
  - intros N. destruct (get k r) eqn:E; [|contradiction]. eapply get_In_keys. exact E.
Qed.

(* ================================================================== *)
(** * Month windows side by side *)

Lemma denotesMonth_bounds ym y m :
  denotesMonth ym y m -> 100 <= y ->
  startOfMonth ym = Ok (newDate (TimeClip (MakeDay y (m - 1) 1 * msPerDay))) /\
  monthEndExclusive ym = Ok (newDate (TimeClip (MakeDay y m 1 * msPerDay))).
Proof.
  intros (qy & qm & YM & Ey & Em & Hm) Hy.
  unfold startOfMonth, monthEndExclusive. rewrite YM.
  assert (Fy : Qeq_bool qy 0 = false).
  { destruct (Qeq_bool qy 0) eqn:E; [|reflexivity].
    apply Qeq_bool_iff in E. rewrite Ey in E.
    apply (inject_Z_injective y 0) in E. lia. }
  assert (Fm : Qeq_bool qm 0 = false).
  { destruct (Qeq_bool qm 0) eqn:E; [|reflexivity].
    apply Qeq_bool_iff in E. rewrite Em in E.
    apply (inject_Z_injective m 0) in E. lia. }
  cbn [falsyOpt falsy toNumber numSub1 orb]. rewrite Fy, Fm. cbn [orb].
  unfold DateUTC.
  rewrite (truncQ_Z qy y Ey), (truncQ_Z qm m Em).
  rewrite (truncQ_Z (qm - 1) (m - 1))
    by (rewrite Em; unfold Z.sub; rewrite inject_Z_plus; reflexivity).
  replace ((0 <=? y) && (y <=? 99)) with false
    by (symmetry; apply andb_false_iff; right; apply Z.leb_gt; lia).
  change (MakeTime 0 0 0 0) with 0. unfold MakeDate. rewrite !Z.add_0_r. auto.
Qed.

(* ================================================================== *)
(** * Errors and independence *)

(** X17.  The windows of consecutive months are adjacent: the exclusive
    end of a month is the start of the month that follows it, the January
    of the next year after a December. *)
Theorem month_windows_adjacent ym1 ym2 y m :
  denotesMonth ym1 y m ->
  denotesMonth ym2 (if m =? 12 then y + 1 else y) (if m =? 12 then 1 else m + 1) ->
  100 <= y <= 275758 ->
  exists t, monthEndExclusive ym1 = Ok (Some t) /\ startOfMonth ym2 = Ok (Some t).
Proof.
  intros D1 D2 Hy.
  destruct (denotesMonth_bounds ym1 y m D1 ltac:(lia)) as [_ E1].
  destruct (denotesMonth_bounds ym2 _ _ D2
              ltac:(destruct (m =? 12); lia)) as [S2 _].
  assert (Hm : 1 <= m <= 12) by (destruct D1 as (? & ? & _ & _ & _ & H); exact H).
  assert (E : MakeDay (if m =? 12 then y + 1 else y)
                ((if m =? 12 then 1 else m + 1) - 1) 1
              = MakeDay y m 1).
  { destruct (Z.eqb_spec m 12) as [->|Ne].
    - rewrite (MakeDay_normal y 12 1). reflexivity.
    - f_equal. lia. }
  rewrite E in S2. rewrite E1, S2.
  exists (MakeDay y m 1 * msPerDay).
  assert (B : Z.abs (MakeDay y m 1 * msPerDay) <= maxTime).
  { pose proof (first_instant_range y m ltac:(lia) ltac:(lia)) as R.
    change (MakeTime 0 0 0 0) with 0 in R. unfold MakeDate in R.
    rewrite Z.add_0_r in R. exact R. }
  rewrite (TimeClip_Some _ B), (newDate_Some _ B). auto.
Qed.

Lemma month_windows_adjacent_witness :
  denotesMonth "2025-12" 2025 12 /\ denotesMonth "2026-01" 2026 1 /\
  monthEndExclusive "2025-12" = Ok (Some 1767225600000) /\
  exists t, monthEndExclusive "2025-12" = Ok (Some t) /\
            startOfMonth "2026-01" = Ok (Some t).
Proof.
  assert (D1 : denotesMonth "2025-12" 2025 12).
  { exists 2025%Q, 12%Q. split; [vm_compute; reflexivity|].
    split; [reflexivity|]. split; [reflexivity|]. lia. }
  assert (D2 : denotesMonth "2026-01" 2026 1).
  { exists 2026%Q, 1%Q. split; [vm_compute; reflexivity|].
    split; [reflexivity|]. split; [reflexivity|]. lia. }
  split; [exact D1|]. split; [exact D2|]. split; [vm_compute; reflexivity|].
  apply (month_windows_adjacent "2025-12" "2026-01" 2025 12 D1 D2). lia.
Defined.

(** X18.  A month identifier that the guard refuses makes both passes and
    [buildForecast] throw the invalid-identifier error of that month, when
    the timestamps parse and the months sorted before it are in order. *)
Theorem invalid_month_rejected months occs prior cps pre bad post :
  wellFormedTimestamps occs cps ->
  sortStrings months = (pre ++ bad :: post)%list ->
  Forall wellFormedMonth pre ->
  startOfMonth bad = Throw (InvalidMonthIdentifier bad) ->
  computeEndingBalances months occs prior cps = Throw (InvalidMonthIdentifier bad) /\
  computeWeeklyBalances months occs prior cps = Throw (InvalidMonthIdentifier bad) /\
  buildForecast (BuildForecastParams.mk months occs prior cps)
  = Throw (InvalidMonthIdentifier bad).
Proof.
  intros WF S Pre Bad.
  assert (Em : computeEndingBalances months occs prior cps
               = Throw (InvalidMonthIdentifier bad)).
  { unfold computeEndingBalances. rewrite S, foldM_app.
    destruct (foldM_returns (monthStep occs cps (listAccounts occs cps prior))
                wellFormedMonth pre
                (fun st ym H => monthStep_returns occs cps WF _ st ym H) Pre
                (clonePriorBalances prior, [])) as ([P R] & ->).
    cbn [bind foldM]. unfold monthStep at 1. rewrite Bad. reflexivity. }
  split; [exact Em|]. split.
  - unfold computeWeeklyBalances. rewrite S, foldM_app.
    destruct (foldM_returns (weeklyMonthStep occs cps (listAccounts occs cps prior))
                wellFormedMonth pre
                (fun st ym H => weeklyMonthStep_returns occs cps WF _ st ym H) Pre
                (clonePriorBalances prior, [])) as ([P R] & ->).
    cbn [bind foldM]. unfold weeklyMonthStep at 1, computeWeeksInMonth.
    rewrite Bad. reflexivity.
  - unfold buildForecast.
    cbn [BuildForecastParams.months BuildForecastParams.occurrences
         BuildForecastParams.priorEndingBalances BuildForecastParams.checkpoints].
    replace (computeEndingBalances (sortStrings months) occs prior cps)
      with (computeEndingBalances months occs prior cps)
      by (unfold computeEndingBalances; rewrite sortStrings_idempotent; reflexivity).
    rewrite Em. reflexivity.
Qed.

Lemma sample_wellFormed : wellFormedTimestamps sampleOccurrences sampleCheckpoints.
Proof.
  split; repeat constructor; eexists; vm_compute; reflexivity.
Defined.

Lemma invalid_month_rejected_witness :
  sortStrings ["2025-1x"; "2025-01"] = (["2025-01"] ++ "2025-1x" :: [])%list /\
  startOfMonth "2025-1x" = Throw (InvalidMonthIdentifier "2025-1x") /\
  buildForecast (BuildForecastParams.mk ["2025-1x"; "2025-01"] sampleOccurrences
                   samplePrior sampleCheckpoints)
  = Throw (InvalidMonthIdentifier "2025-1x").
Proof.
  split; [vm_compute; reflexivity|]. split; [vm_compute; reflexivity|].
  apply (invalid_month_rejected ["2025-1x"; "2025-01"] sampleOccurrences samplePrior
           sampleCheckpoints ["2025-01"] "2025-1x" []).
  - exact sample_wellFormed.
  - vm_compute. reflexivity.
  - constructor; [|constructor]. apply calendarMonth_wellFormed. exact calendarMonth_2025_01.
  - vm_compute. reflexivity.
Defined.

(** X19.  A month identifier that passes the guard but lies outside the
    range of dates is not refused: its start is an invalid date.  The
    weekly pass then finds no week in it, while the monthly pass, and so
    [buildForecast], throws the range error of [toISOString] as soon as
    there is an account. *)
Theorem month_out_of_range months occs prior cps pre bad post :
  wellFormedTimestamps occs cps ->
  sortStrings months = (pre ++ bad :: post)%list ->
  Forall wellFormedMonth pre ->
  startOfMonth bad = Ok None ->
  computeWeeksInMonth bad = Ok [] /\
  (listAccounts occs cps prior <> [] ->
   computeEndingBalances months occs prior cps = Throw RangeErrorInvalidTime /\
   buildForecast (BuildForecastParams.mk months occs prior cps)
   = Throw RangeErrorInvalidTime).
Proof.
  intros WF S Pre Bad.
  assert (He : exists we, monthEndExclusive bad = Ok we).
  { unfold startOfMonth, monthEndExclusive in *.
    destruct (yearAndMonth bad) as [year month].
    destruct (falsyOpt year || falsyOpt month); [discriminate|eauto]. }
  destruct He as [we He]. split.
  - unfold computeWeeksInMonth. rewrite Bad, He. reflexivity.
  - intros NE.
    assert (Em : computeEndingBalances months occs prior cps = Throw RangeErrorInvalidTime).
    { unfold computeEndingBalances. rewrite S, foldM_app.
      destruct (foldM_returns (monthStep occs cps (listAccounts occs cps prior))
                  wellFormedMonth pre
                  (fun st ym H => monthStep_returns occs cps WF _ st ym H) Pre
                  (clonePriorBalances prior, [])) as ([P R] & ->).
      cbn [bind foldM]. unfold monthStep at 1. rewrite Bad, He. cbn [bind].
      destruct (listAccounts occs cps prior) as [|a accounts]; [contradiction|].
      cbn [foldM]. unfold monthAccountStep at 1, windowCell.
      rewrite (filterOccurrencesForWindow_returns occs cps WF).
      rewrite (filterCheckpointsForWindow_returns occs cps WF). cbn [bind].
      rewrite sortIsoStrings_Ok by apply filter_checkpoints_valid.
      reflexivity. }
    split; [exact Em|].
    unfold buildForecast.
    cbn [BuildForecastParams.months BuildForecastParams.occurrences
         BuildForecastParams.priorEndingBalances BuildForecastParams.checkpoints].
    replace (computeEndingBalances (sortStrings months) occs prior cps)
      with (computeEndingBalances months occs prior cps)
      by (unfold computeEndingBalances; rewrite sortStrings_idempotent; reflexivity).
    rewrite Em. reflexivity.
Qed.

Lemma month_out_of_range_witness :
  startOfMonth "300000-01" = Ok None /\
  computeWeeksInMonth "300000-01" = Ok [] /\
  (listAccounts sampleOccurrences sampleCheckpoints samplePrior <> [] ->
   computeEndingBalances ["300000-01"; "2025-01"] sampleOccurrences samplePrior
     sampleCheckpoints = Throw RangeErrorInvalidTime /\
   buildForecast (BuildForecastParams.mk ["300000-01"; "2025-01"] sampleOccurrences
                    samplePrior sampleCheckpoints)
   = Throw RangeErrorInvalidTime).
Proof.
  split; [vm_compute; reflexivity|].
  apply (month_out_of_range ["300000-01"; "2025-01"] sampleOccurrences samplePrior
           sampleCheckpoints ["2025-01"] "300000-01" []).
  - exact sample_wellFormed.
  - vm_compute. reflexivity.
  - constructor; [|constructor]. apply calendarMonth_wellFormed. exact calendarMonth_2025_01.
  - vm_compute. reflexivity.
Defined.

(** X20.  Timestamps are parsed for every account in every month, in or
    out of the window: when the monthly pass, or [buildForecast], returns
    over at least one month, [toUtcDate] returns a valid date for the
    timestamp of every occurrence and of every checkpoint of the input. *)
Theorem timestamps_all_parsed months occs prior cps :
  months <> [] ->
  (exists out, computeEndingBalances months occs prior cps = Ok out) \/
  (exists r, buildForecast (BuildForecastParams.mk months occs prior cps) = Ok r) ->
  Forall (fun o => exists t, toUtcDate (Occurrence.timestamp o) = Ok (Some t)) occs /\
  Forall (fun c => exists t, toUtcDate (AnchorCheckpoint.timestamp c) = Ok (Some t)) cps.
Proof.
  intros NE H.
  assert (Hm : exists out, computeEndingBalances months occs prior cps = Ok out).
  { destruct H as [H|[r H]]; [exact H|].
    unfold buildForecast in H.
    cbn [BuildForecastParams.months BuildForecastParams.occurrences
         BuildForecastParams.priorEndingBalances BuildForecastParams.checkpoints] in H.
    inv_bind H. exists a. unfold computeEndingBalances in *.
    rewrite sortStrings_idempotent in Ha. exact Ha. }
  clear H. destruct Hm as [out H].
  unfold computeEndingBalances in H.
  destruct (sortStrings months) as [|first rest] eqn:S.
  { exfalso. apply NE. apply Permutation_nil. symmetry.
    rewrite <- S. apply stableSort_Permutation. }
  inv_bind H. destruct a as [Pn Rn]. clear H.
  cbn [foldM] in Ha. inv_bind Ha. destruct a as [P1 R1]. clear Ha.
  pose proof (listAccounts_NoDup occs cps prior) as N.
  apply monthStep_Ok in Ha0 as (ws & we & cells & _ & _ & _ & I & _); [|exact N].
  assert (W : forall a, In a (listAccounts occs cps prior) ->
                find (badOccurrence a) occs = None /\ find (badCheckpoint a) cps = None).
  { intros a Ia. destruct (I a Ia) as (anchor & net & Hw & _).
    unfold windowCell in Hw.
    rewrite filterOccurrencesForWindow_find, filterCheckpointsForWindow_find in Hw.
    destruct (find (badOccurrence a) occs); [discriminate|].
    destruct (find (badCheckpoint a) cps); [discriminate|]. auto. }
  split; apply Forall_forall.
  - intros o Ho.
    destruct (W (Occurrence.accountSlug o)) as [F _].
    { apply listAccounts_members. left. exists o. auto. }
    pose proof (find_none _ _ F o Ho) as B. unfold badOccurrence in B.
    rewrite String.eqb_refl in B. cbn [andb] in B.
    destruct (timeOfString (Occurrence.timestamp o)) as [t|] eqn:T; [|discriminate].
    exists t. apply toUtcDate_valid. exact T.
  - intros c Hc.
    destruct (W (AnchorCheckpoint.accountSlug c)) as [_ F].
    { apply listAccounts_members. right. left. exists c. auto. }
    pose proof (find_none _ _ F c Hc) as B. unfold badCheckpoint in B.
    rewrite String.eqb_refl in B. cbn [andb] in B.
    destruct (timeOfString (AnchorCheckpoint.timestamp c)) as [t|] eqn:T; [|discriminate].
    exists t. apply toUtcDate_valid. exact T.
Qed.

Lemma timestamps_all_parsed_witness :
  ["2025-01"] <> [] /\
  (exists out,
     computeEndingBalances ["2025-01"] sampleOccurrences samplePrior sampleCheckpoints
     = Ok out) /\
  In (occ "profit" 80 "2025-02-08T16:00:00Z") sampleOccurrences /\
  inWindow (Some 1735689600000) (Some 1738368000000) "2025-02-08T16:00:00Z" = false /\
  Forall (fun o => exists t, toUtcDate (Occurrence.timestamp o) = Ok (Some t))
         sampleOccurrences /\
  Forall (fun c => exists t, toUtcDate (AnchorCheckpoint.timestamp c) = Ok (Some t))
         sampleCheckpoints.
Proof.
  assert (NE : ["2025-01"] <> []) by discriminate.
  assert (H : exists out,
            computeEndingBalances ["2025-01"] sampleOccurrences samplePrior
              sampleCheckpoints = Ok out).
  { exists_value (computeEndingBalances ["2025-01"] sampleOccurrences samplePrior
                    sampleCheckpoints).
    vm_compute. reflexivity. }
  split; [exact NE|]. split; [exact H|].
  split; [vm_compute; do 8 right; left; reflexivity|].
  split; [vm_compute; reflexivity|].
  exact (timestamps_all_parsed ["2025-01"] sampleOccurrences samplePrior
           sampleCheckpoints NE (or_introl H)).
Defined.

Section Independence.
Variable a : AccountSlug.
Variables (occs1 occs2 : list Occurrence) (cps1 cps2 : list AnchorCheckpoint).
Variables accounts1 accounts2 : list AccountSlug.
Hypothesis N1 : NoDup accounts1.
Hypothesis N2 : NoDup accounts2.
Hypothesis same_occurrences : occurrencesOf a occs1 = occurrencesOf a occs2.
Hypothesis same_checkpoints : checkpointsOf a cps1 = checkpointsOf a cps2.
Hypothesis same_membership : In a accounts1 <-> In a accounts2.

Lemma windowCell_same P1 P2 ws we :
  get a P1 = get a P2 ->
  windowCell occs1 cps1 P1 a ws we = windowCell occs2 cps2 P2 a ws we.
Proof.
  intros E. rewrite (windowCell_restrict occs1), (windowCell_restrict occs2).
  rewrite same_occurrences, same_checkpoints. apply windowCell_ext. exact E.
Qed.

Lemma months_fold_independent months :
  forall P1 R1 P2 R2 P1' R1' P2' R2',
    get a P1 = get a P2 ->
    (forall ym c1 c2, get ym R1 = Some c1 -> get ym R2 = Some c2 ->
                      get a c1 = get a c2) ->
    foldM (monthStep occs1 cps1 accounts1) months (P1, R1) = Ok (P1', R1') ->
    foldM (monthStep occs2 cps2 accounts2) months (P2, R2) = Ok (P2', R2') ->
    forall ym c1 c2, get ym R1' = Some c1 -> get ym R2' = Some c2 ->
                     get a c1 = get a c2.
Proof.
  induction months as [|m months IH]; intros P1 R1 P2 R2 P1' R1' P2' R2' EP ER H1 H2.
  - cbn in H1, H2. injection H1 as <- <-. injection H2 as <- <-. exact ER.
  - cbn [foldM] in H1, H2.
    inv_bind H1. destruct a0 as [Q1 S1]. inv_bind H2. destruct a0 as [Q2 S2].
    apply monthStep_Ok in Ha as (ws & we & cells1 & Hs & He & -> & I1 & O1); [|exact N1].
    apply monthStep_Ok in Ha0 as (ws' & we' & cells2 & Hs' & He' & -> & I2 & O2); [|exact N2].
    rewrite Hs in Hs'. injection Hs' as <-. rewrite He in He'. injection He' as <-.
    assert (Step : get a Q1 = get a Q2 /\ get a cells1 = get a cells2).
    { destruct (in_dec string_dec a accounts1) as [In1|Out1].
      - pose proof (proj1 same_membership In1) as In2.
        destruct (I1 a In1) as (anchor1 & net1 & W1 & GP1 & GC1).
        destruct (I2 a In2) as (anchor2 & net2 & W2 & GP2 & GC2).
        rewrite (windowCell_same P1 P2 ws we EP) in W1. rewrite W1 in W2.
        injection W2 as <- <-. rewrite GP1, GP2, GC1, GC2. auto.
      - assert (Out2 : ~ In a accounts2) by (intros X; apply Out1, same_membership; exact X).
        destruct (O1 a Out1) as [-> ->]. destruct (O2 a Out2) as [-> ->]. auto. }
    destruct Step as [EQ EC].
    eapply (IH _ _ _ _ _ _ _ _ EQ); [|exact H1|exact H2].
    intros ym c1 c2. destruct (String.eqb_spec ym m) as [->|Ne].
    + rewrite !get_set_eq. intros X Y. injection X as <-. injection Y as <-. exact EC.
    + rewrite !get_set_ne by exact Ne. apply ER.
Qed.
End Independence.

(** X21.  The monthly cells of an account depend on nothing but the
    occurrences, the checkpoints and the prior balance of that account:
    two inputs that agree on them give the same cell for the account in
    every month, whatever the other accounts hold. *)
Theorem accounts_independent months a occs1 occs2 cps1 cps2 prior1 prior2 out1 out2 :
  NoDup (keys prior1) -> NoDup (keys prior2) ->
  occurrencesOf a occs1 = occurrencesOf a occs2 ->
  checkpointsOf a cps1 = checkpointsOf a cps2 ->
  get a prior1 = get a prior2 ->
  computeEndingBalances months occs1 prior1 cps1 = Ok out1 ->
  computeEndingBalances months occs2 prior2 cps2 = Ok out2 ->
  forall ym cells1 cells2,
    get ym out1 = Some cells1 -> get ym out2 = Some cells2 ->
    get a cells1 = get a cells2.
Proof.
  intros K1 K2 Eo Ec Ep H1 H2. unfold computeEndingBalances in H1, H2.
  inv_bind H1. destruct a0 as [P1 R1]. injection H1 as ->.
  inv_bind H2. destruct a0 as [P2 R2]. injection H2 as ->.
  rewrite (clonePriorBalances_id prior1 K1) in Ha.
  rewrite (clonePriorBalances_id prior2 K2) in Ha0.
  eapply (months_fold_independent a occs1 occs2 cps1 cps2 _ _
            (listAccounts_NoDup occs1 cps1 prior1) (listAccounts_NoDup occs2 cps2 prior2)
            Eo Ec); [|exact Ep| |exact Ha|exact Ha0].
  - rewrite !(proj2 (listAccounts_members _ _ _)).
    rewrite !occurrencesOf_nonempty, !checkpointsOf_nonempty, !In_keys_iff.
    rewrite Eo, Ec, Ep. reflexivity.
  - intros ym c1 c2 G. discriminate.
Qed.

Lemma accounts_independent_witness :
  exists out1 out2,
    computeEndingBalances ["2025-01"; "2025-02"] sampleOccurrences samplePrior
      sampleCheckpoints = Ok out1 /\
    computeEndingBalances ["2025-01"; "2025-02"] operatingOccurrences
      [("operating", 1250%Q)] [cpOperatingJan] = Ok out2 /\
    forall ym cells1 cells2,
      get ym out1 = Some cells1 -> get ym out2 = Some cells2 ->
      get "operating" cells1 = get "operating" cells2.
Proof.
  exists_value (computeEndingBalances ["2025-01"; "2025-02"] sampleOccurrences
                  samplePrior sampleCheckpoints).
  exists_value (computeEndingBalances ["2025-01"; "2025-02"] operatingOccurrences
                  [("operating", 1250%Q)] [cpOperatingJan]).
  split; [vm_compute; reflexivity|]. split; [vm_compute; reflexivity|].
  apply (accounts_independent ["2025-01"; "2025-02"] "operating"
           sampleOccurrences operatingOccurrences sampleCheckpoints [cpOperatingJan]
           samplePrior [("operating", 1250%Q)]).
  - apply NoDup_cons; [cbn; intros [E|[]]; discriminate|].
    apply NoDup_cons; [intros []|apply NoDup_nil].
  - apply NoDup_cons; [intros []|apply NoDup_nil].
  - vm_compute. reflexivity.
  - vm_compute. reflexivity.
  - vm_compute. reflexivity.
  - vm_compute. reflexivity.
  - vm_compute. reflexivity.
Defined.

Section Dormant.
Variables (occs : list Occurrence) (cps : list AnchorCheckpoint).
Variable accounts : list AccountSlug.
Hypothesis accounts_NoDup : NoDup accounts.
Variables (a : AccountSlug) (p : Q).
Hypothesis no_occurrences : occurrencesOf a occs = [].
Hypothesis no_checkpoints : checkpointsOf a cps = [].
Hypothesis listed : In a accounts.

Lemma months_fold_dormant months :
  forall P R P' R' v,
    get a P = Some v -> (v == p)%Q ->
    (forall ym cells, get ym R = Some cells ->
       exists c, get a cells = Some c /\
         AnchorMetadata.source (EndingBalanceCell.anchor c) = rollforward /\
         EndingBalanceCell.netAfterAnchor c = 0%Q /\
         (EndingBalanceCell.beginningBalance c == p)%Q /\
         (EndingBalanceCell.balance c == p)%Q) ->
    foldM (monthStep occs cps accounts) months (P, R) = Ok (P', R') ->
    forall ym cells, get ym R' = Some cells ->
      exists c, get a cells = Some c /\
        AnchorMetadata.source (EndingBalanceCell.anchor c) = rollforward /\
        EndingBalanceCell.netAfterAnchor c = 0%Q /\
        (EndingBalanceCell.beginningBalance c == p)%Q /\
        (EndingBalanceCell.balance c == p)%Q.
Proof.
  induction months as [|m months IH]; intros P R P' R' v GP Ev ER H.
  - cbn in H. injection H as <- <-. exact ER.
  - cbn [foldM] in H. inv_bind H. destruct a0 as [P1 R1].
    apply monthStep_Ok in Ha as (ws & we & cells & Hs & He & -> & I & _);
      [|exact accounts_NoDup].
    destruct (I a listed) as (anchor & net & W & GP1 & GC).
    apply windowCell_Ok in W as (s & _ & EA & EN).
    assert (FC : filter (checkpointInWindow a ws we) cps = []).
    { rewrite <- (filter_filter_implied (checkpointInWindow a ws we)
                    (fun c => String.eqb (AnchorCheckpoint.accountSlug c) a)).
      - fold (checkpointsOf a cps). rewrite no_checkpoints. reflexivity.
      - unfold checkpointInWindow. intros c X. apply andb_prop in X as [X _]. exact X. }
    assert (FO : filter (fun o => occurrenceInWindow a ws we o && keptAfterAnchor anchor o)
                        occs = []).
    { rewrite <- (filter_filter_implied
                    (fun o => occurrenceInWindow a ws we o && keptAfterAnchor anchor o)
                    (fun o => String.eqb (Occurrence.accountSlug o) a)).
      - fold (occurrencesOf a occs). rewrite no_occurrences. reflexivity.
      - unfold occurrenceInWindow. intros o X.
        apply andb_prop in X as [X _]. apply andb_prop in X as [X _]. exact X. }
    rewrite FO in EN. rewrite FC in EA. cbn in EA, EN. subst net.
    assert (Bal : AnchorMetadata.balance anchor = v).
    { rewrite EA. cbn. unfold balanceOrZero. rewrite GP. reflexivity. }
    assert (Src : AnchorMetadata.source anchor = rollforward).
    { rewrite EA. cbn. unfold hasOwnProperty. rewrite GP. reflexivity. }
    eapply (IH _ _ _ _ _ GP1); [| |exact H].
    + rewrite Bal. change (sumAmounts []) with 0%Q. rewrite Ev. ring.
    + intros ym cs. destruct (String.eqb_spec ym m) as [->|Ne].
      * rewrite get_set_eq. intros X. injection X as <-.
        exists (monthCellOf m a anchor (sumAmounts [])). split; [exact GC|].
        cbn. rewrite Bal. repeat split; auto.
        rewrite Ev. change (sumAmounts []) with 0%Q. ring.
      * rewrite get_set_ne by exact Ne. apply ER.
Qed.
End Dormant.

(** X22.  An account that has a prior balance and neither occurrences nor
    checkpoints still gets a cell in every month: it rolls forward, has no
    net activity, and begins and ends at the prior balance. *)
Theorem dormant_account months occs prior cps out a p :
  NoDup (keys prior) -> get a prior = Some p ->
  occurrencesOf a occs = [] -> checkpointsOf a cps = [] ->
  computeEndingBalances months occs prior cps = Ok out ->
  forall ym cells,
    get ym out = Some cells ->
    exists c,
      get a cells = Some c /\
      AnchorMetadata.source (EndingBalanceCell.anchor c) = rollforward /\
      EndingBalanceCell.netAfterAnchor c = 0%Q /\
      (EndingBalanceCell.beginningBalance c == p)%Q /\
      (EndingBalanceCell.balance c == p)%Q.
Proof.
  intros K Gp No Nc H. unfold computeEndingBalances in H.
  inv_bind H. destruct a0 as [P' R']. injection H as ->.
  rewrite (clonePriorBalances_id prior K) in Ha.
  eapply (months_fold_dormant occs cps _ (listAccounts_NoDup occs cps prior) a p No Nc);
    [|exact Gp|reflexivity| |exact Ha].
  - apply listAccounts_members. right. right. eapply get_In_keys. exact Gp.
  - intros ym cells G. discriminate.
Qed.

Lemma dormant_account_witness :
  exists out,
    computeEndingBalances ["2025-01"; "2025-02"] sampleOccurrences
      (samplePrior ++ [("tax", 90%Q)])%list sampleCheckpoints = Ok out /\
    forall ym cells,
      get ym out = Some cells ->
      exists c,
        get "tax" cells = Some c /\
        AnchorMetadata.source (EndingBalanceCell.anchor c) = rollforward /\
        EndingBalanceCell.netAfterAnchor c = 0%Q /\
        (EndingBalanceCell.beginningBalance c == 90)%Q /\
        (EndingBalanceCell.balance c == 90)%Q.
Proof.
  exists_value (computeEndingBalances ["2025-01"; "2025-02"] sampleOccurrences
                  (samplePrior ++ [("tax", 90%Q)])%list sampleCheckpoints).
  split; [vm_compute; reflexivity|].
  apply (dormant_account ["2025-01"; "2025-02"] sampleOccurrences
           (samplePrior ++ [("tax", 90%Q)])%list sampleCheckpoints _ "tax" 90%Q).
  - vm_compute. apply NoDup_cons; [cbn; intros [E|[E|[]]]; discriminate|].
    apply NoDup_cons; [cbn; intros [E|[]]; discriminate|].
    apply NoDup_cons; [intros []|apply NoDup_nil].
  - vm_compute. reflexivity.
  - vm_compute. reflexivity.
  - vm_compute. reflexivity.
  - vm_compute. reflexivity.
Defined.
